(** * Video multiplexer: stream state, capture sources, capture loop and
      protocol handlers

    A shallow embedding of the Python package [video_multiplexer]
    ([state.py], [config.py], [sources/kinect.py], [sources/picam.py],
    [manager.py], [servers/http_server.py], [servers/tcp_server.py],
    [servers/control_server.py], [__main__.py]) and of the throttle flags
    of [service-monitor.py], together with the properties its
    specification states about it.

    Conventions of the embedding.
    - Python [int] is [Z] (unbounded, no wrap-around).
    - Python [float] is [pyfloat]: a finite value carried as a rational
      (every finite double is one), the two infinities, and NaN.  Only
      order comparisons are performed on floats by the modelled code.
    - [bytes] is a list of bytes, [str] is [string] (the ASCII fragment).
    - Every method that runs under a lock is one atomic state transformer.
      What other threads do while a lock is released (inside
      [Condition.wait]) is an explicit argument of the model.
    - Objects that Python shares by reference (streams held by the registry,
      camera instances) live in a store and are addressed by key. *)

From Stdlib Require Import ZArith QArith String Ascii Bool Lia List.
From Stdlib Require Import DecimalString Qminmax.
Import ListNotations.

Local Open Scope Z_scope.

(* ================================================================== *)
(** * Part I: the program                                              *)
(* ================================================================== *)

(** ** Python builtins used by the package *)

Module Py.

Definition bytes := list Byte.byte.

(** Truthiness of [Optional[bytes]]: [None] and [b''] are falsy. *)
Definition truthy (b : option bytes) : bool :=
  match b with
  | None => false
  | Some [] => false
  | Some (_ :: _) => true
  end.

Inductive pyfloat :=
| Finite (q : Q)
| Infinity (negative : bool)
| NaN.

(** [a < b] on floats; every comparison with NaN is false. *)
Definition flt_lt (a b : pyfloat) : bool :=
  match a, b with
  | NaN, _ => false
  | _, NaN => false
  | Finite x, Finite y => negb (Qle_bool y x)
  | Finite _, Infinity neg => negb neg
  | Infinity neg, Finite _ => neg
  | Infinity n1, Infinity n2 => n1 && negb n2
  end.

(** [a <= b] on floats. *)
Definition flt_le (a b : pyfloat) : bool :=
  match a, b with
  | NaN, _ => false
  | _, NaN => false
  | Finite x, Finite y => Qle_bool x y
  | Finite _, Infinity neg => negb neg
  | Infinity neg, Finite _ => neg
  | Infinity n1, Infinity n2 => n1 || negb n2
  end.

(** [a != b] on floats. *)
Definition flt_ne (a b : pyfloat) : bool :=
  match a, b with
  | Finite x, Finite y => negb (Qeq_bool x y)
  | Infinity n1, Infinity n2 => negb (Bool.eqb n1 n2)
  | _, _ => true
  end.

(** [min(a, b)] and [max(a, b)] keep the first argument unless the second
    is strictly smaller (resp. strictly greater). *)
Definition min_int (a b : Z) : Z := if b <? a then b else a.
Definition max_int (a b : Z) : Z := if a <? b then b else a.
Definition min_float (a b : pyfloat) : pyfloat := if flt_lt b a then b else a.
Definition max_float (a b : pyfloat) : pyfloat := if flt_lt a b then b else a.

(** [str(n)] for an int. *)
Definition str_int (n : Z) : string := NilZero.string_of_int (Z.to_int n).

(** [x in xs] for a list of strings. *)
Definition str_in (x : string) (xs : list string) : bool :=
  existsb (String.eqb x) xs.

(** [sep.join(xs)]. *)
Definition join (sep : string) (xs : list string) : string :=
  String.concat sep xs.

(** [repr] of a list of strings without quotes or escapes in them. *)
Definition repr_list (xs : list string) : string :=
  ("[" ++ join ", " (map (fun x => "'" ++ x ++ "'") xs) ++ "]")%string.

(** *** Strings (ASCII) *)

Definition code (c : ascii) : nat := nat_of_ascii c.

(** [c.isspace()]: tab, line feed, vertical tab, form feed, carriage
    return, the four separators 0x1c-0x1f, and space. *)
Definition is_space (c : ascii) : bool :=
  ((9 <=? code c) && (code c <=? 13) || (28 <=? code c) && (code c <=? 32))%nat.

Definition is_digit (c : ascii) : bool :=
  ((48 <=? code c) && (code c <=? 57))%nat.

Definition lower_char (c : ascii) : ascii :=
  if ((65 <=? code c) && (code c <=? 90))%nat
  then ascii_of_nat (code c + 32) else c.

(** [s.lower()]. *)
Fixpoint lower (s : string) : string :=
  match s with
  | EmptyString => EmptyString
  | String c s' => String (lower_char c) (lower s')
  end.

Fixpoint lstrip (s : string) : string :=
  match s with
  | EmptyString => EmptyString
  | String c s' => if is_space c then lstrip s' else s
  end.

Fixpoint rstrip (s : string) : string :=
  match s with
  | EmptyString => EmptyString
  | String c s' =>
      match rstrip s' with
      | EmptyString => if is_space c then EmptyString else String c EmptyString
      | t => String c t
      end
  end.

(** [s.strip()]. *)
Definition strip (s : string) : string := rstrip (lstrip s).

Fixpoint split_from (cur : option string) (s : string) : list string :=
  match s with
  | EmptyString => match cur with Some t => [t] | None => [] end
  | String c s' =>
      if is_space c then
        match cur with
        | Some t => t :: split_from None s'
        | None => split_from None s'
        end
      else
        split_from
          (Some (match cur with
                 | Some t => (t ++ String c EmptyString)%string
                 | None => String c EmptyString
                 end)) s'
  end.

(** [s.split()]: the words between runs of whitespace. *)
Definition split (s : string) : list string := split_from None s.

Fixpoint split_on_from (sep : ascii) (cur : string) (s : string) : list string :=
  match s with
  | EmptyString => [cur]
  | String c s' =>
      if Ascii.eqb c sep then cur :: split_on_from sep EmptyString s'
      else split_on_from sep (cur ++ String c EmptyString)%string s'
  end.

(** [s.split(sep)] for a separator of one character. *)
Definition split_on (sep : ascii) (s : string) : list string :=
  split_on_from sep EmptyString s.

(** [sep in s] for a separator of one character. *)
Fixpoint contains (sep : ascii) (s : string) : bool :=
  match s with
  | EmptyString => false
  | String c s' => Ascii.eqb c sep || contains sep s'
  end.

(** Decimal digits with single underscores between them. *)
Fixpoint digits (acc : Z) (after_digit : bool) (s : string) : option Z :=
  match s with
  | EmptyString => if after_digit then Some acc else None
  | String c s' =>
      if is_digit c then digits (10 * acc + Z.of_nat (code c - 48)) true s'
      else if Ascii.eqb c "_" && after_digit then
        match s' with
        | String d _ => if is_digit d then digits acc false s' else None
        | EmptyString => None
        end
      else None
  end.

(** [int(s)] for a string: surrounding whitespace, an optional sign,
    decimal digits.  [None] is [ValueError]. *)
Definition int_of_str (s : string) : option Z :=
  match strip s with
  | String "-" t => option_map Z.opp (digits 0 false t)
  | String "+" t => digits 0 false t
  | t => digits 0 false t
  end.

(** *** Floats: what rationals cannot decide

    Parsing, printing and the rounded product are left to the run time:
    - [float_of_str s] is [float(s)], [None] for [ValueError];
    - [str_of_float x] is [str(x)];
    - [int_of_product n x] is [int(n * x)], [None] when it raises (NaN and
      the infinities). *)
Class FloatBuiltins := {
  float_of_str : string -> option pyfloat;
  str_of_float : pyfloat -> string;
  int_of_product : Z -> pyfloat -> option Z
}.

End Py.

(** ** config.py *)

Module Config.

Definition ALL_SOURCES : list string :=
  ["kinect_rgb"; "kinect_ir"; "kinect_depth"; "picam"]%string.
Definition KINECT_SOURCES : list string :=
  ["kinect_rgb"; "kinect_ir"; "kinect_depth"]%string.
Definition DEFAULT_SOURCE : string := "picam".

Definition JPEG_QUALITY : Z := 70.

Definition KINECT_WIDTH : Z := 640.
Definition KINECT_HEIGHT : Z := 480.

Record preset := { width : Z; height : Z; fps : Z }.

Definition PICAM_PRESETS : list (string * preset) :=
  [ ("low"%string,    {| width := 640;  height := 480;  fps := 30 |});
    ("medium"%string, {| width := 1280; height := 720;  fps := 24 |});
    ("high"%string,   {| width := 1280; height := 800;  fps := 24 |});
    ("full"%string,   {| width := 1920; height := 1080; fps := 15 |}) ].
Definition DEFAULT_PICAM_PRESET : string := "high".

(** [d.get(key)] on a dict kept in insertion order. *)
Fixpoint dict_get {V : Type} (d : list (string * V)) (key : string) : option V :=
  match d with
  | [] => None
  | (k, v) :: d' => if String.eqb key k then Some v else dict_get d' key
  end.

Definition preset_high : preset := {| width := 1280; height := 800; fps := 24 |}.

(** [PICAM_PRESETS.get(name, PICAM_PRESETS['high'])]. *)
Definition preset_or_high (name : string) : preset :=
  match dict_get PICAM_PRESETS name with
  | Some p => p
  | None => preset_high
  end.

(** The module globals.  [FREENECT_AVAILABLE] and [CV2_AVAILABLE] are fixed
    when the module is imported; [KINECT_AVAILABLE] is rebound at run time
    by [update_kinect_availability]. *)
Record flags := {
  FREENECT_AVAILABLE : bool;
  CV2_AVAILABLE : bool;
  KINECT_AVAILABLE : bool
}.

Definition get_available_sources (c : flags) : list string :=
  if KINECT_AVAILABLE c then ALL_SOURCES else ["picam"%string].

Definition update_kinect_availability (available : bool) (c : flags) : flags :=
  {| FREENECT_AVAILABLE := FREENECT_AVAILABLE c;
     CV2_AVAILABLE := CV2_AVAILABLE c;
     KINECT_AVAILABLE := available |}.

End Config.

(** ** state.py *)

Module State.
Import Py.

Record StreamStats := {
  frames_captured : Z;
  frames_sent : Z;
  clients_connected : Z;
  source_switches : Z;
  last_frame_time : Q
}.

(** [frame_condition] is the list of waiters blocked in [Condition.wait];
    the mutex itself is not represented, every method being atomic. *)
Record StreamState := {
  stream_id : string;
  current_source : string;
  frame : option bytes;
  frame_id : Z;
  jpeg_quality : Z;
  scale_factor : pyfloat;
  picam_preset : string;
  stats : StreamStats;
  frame_condition : list nat
}.

(** [StreamState.__init__]; [initial_source or DEFAULT_SOURCE] takes the
    default for [None] and for the empty string. *)
Definition init (stream_id : string) (initial_source : option string) : StreamState :=
  {| stream_id := stream_id;
     current_source :=
       match initial_source with
       | Some src => if String.eqb src EmptyString then Config.DEFAULT_SOURCE else src
       | None => Config.DEFAULT_SOURCE
       end;
     frame := None;
     frame_id := 0;
     jpeg_quality := Config.JPEG_QUALITY;
     scale_factor := Finite 1.0;
     picam_preset := Config.DEFAULT_PICAM_PRESET;
     stats := {| frames_captured := 0; frames_sent := 0; clients_connected := 0;
                 source_switches := 0; last_frame_time := 0 |};
     frame_condition := [] |}.

Definition with_stats (f : StreamStats -> StreamStats) (s : StreamState) : StreamState :=
  {| stream_id := stream_id s; current_source := current_source s;
     frame := frame s; frame_id := frame_id s;
     jpeg_quality := jpeg_quality s; scale_factor := scale_factor s;
     picam_preset := picam_preset s; stats := f (stats s);
     frame_condition := frame_condition s |}.

(** [Condition.notify_all]: every waiter is released. *)
Definition notify_all (s : StreamState) : StreamState :=
  {| stream_id := stream_id s; current_source := current_source s;
     frame := frame s; frame_id := frame_id s;
     jpeg_quality := jpeg_quality s; scale_factor := scale_factor s;
     picam_preset := picam_preset s; stats := stats s;
     frame_condition := [] |}.

(** [set_frame(jpeg_bytes)]; [now] is the reading of [time.time()]. *)
Definition set_frame (jpeg_bytes : bytes) (now : Q) (s : StreamState) : StreamState :=
  notify_all
    {| stream_id := stream_id s; current_source := current_source s;
       frame := Some jpeg_bytes;
       frame_id := frame_id s + 1;
       jpeg_quality := jpeg_quality s; scale_factor := scale_factor s;
       picam_preset := picam_preset s;
       stats :=
         {| frames_captured := frames_captured (stats s) + 1;
            frames_sent := frames_sent (stats s);
            clients_connected := clients_connected (stats s);
            source_switches := source_switches (stats s);
            last_frame_time := now |};
       frame_condition := frame_condition s |}.

(** [set_source(source)] returns the previous source. *)
Definition set_source (source : string) (s : StreamState) : string * StreamState :=
  (current_source s,
   {| stream_id := stream_id s; current_source := source;
      frame := frame s; frame_id := frame_id s;
      jpeg_quality := jpeg_quality s; scale_factor := scale_factor s;
      picam_preset := picam_preset s;
      stats :=
        {| frames_captured := frames_captured (stats s);
           frames_sent := frames_sent (stats s);
           clients_connected := clients_connected (stats s);
           source_switches := source_switches (stats s) + 1;
           last_frame_time := last_frame_time (stats s) |};
      frame_condition := frame_condition s |}).

Record settings := {
  st_stream_id : string;
  st_source : string;
  st_jpeg_quality : Z;
  st_scale_factor : pyfloat;
  st_picam_preset : string
}.

Definition get_settings (s : StreamState) : settings :=
  {| st_stream_id := stream_id s; st_source := current_source s;
     st_jpeg_quality := jpeg_quality s; st_scale_factor := scale_factor s;
     st_picam_preset := picam_preset s |}.

(** The keyword arguments of [update_settings]; a key that is absent is
    [None].  The values are those of [int(...)] and [float(...)] applied to
    what the caller passed. *)
Record kwargs := {
  kw_jpeg_quality : option Z;
  kw_scale_factor : option pyfloat;
  kw_picam_preset : option string
}.

Definition no_kwargs : kwargs :=
  {| kw_jpeg_quality := None; kw_scale_factor := None; kw_picam_preset := None |}.
Definition kw_quality (q : Z) : kwargs :=
  {| kw_jpeg_quality := Some q; kw_scale_factor := None; kw_picam_preset := None |}.
Definition kw_scale (x : pyfloat) : kwargs :=
  {| kw_jpeg_quality := None; kw_scale_factor := Some x; kw_picam_preset := None |}.
Definition kw_preset (p : string) : kwargs :=
  {| kw_jpeg_quality := None; kw_scale_factor := None; kw_picam_preset := Some p |}.

Definition update_settings (kw : kwargs) (s : StreamState) : StreamState :=
  {| stream_id := stream_id s; current_source := current_source s;
     frame := frame s; frame_id := frame_id s;
     jpeg_quality :=
       match kw_jpeg_quality kw with
       | Some q => max_int 1 (min_int 100 q)
       | None => jpeg_quality s
       end;
     scale_factor :=
       match kw_scale_factor kw with
       | Some x => max_float (Finite 0.25) (min_float (Finite 2.0) x)
       | None => scale_factor s
       end;
     picam_preset :=
       match kw_picam_preset kw with
       | Some p => p
       | None => picam_preset s
       end;
     stats := stats s;
     frame_condition := frame_condition s |}.

Definition set_clients (n : Z) (st : StreamStats) : StreamStats :=
  {| frames_captured := frames_captured st; frames_sent := frames_sent st;
     clients_connected := n;
     source_switches := source_switches st;
     last_frame_time := last_frame_time st |}.

Definition increment_clients (s : StreamState) : Z * StreamState :=
  let n := clients_connected (stats s) + 1 in
  (n, with_stats (set_clients n) s).

Definition decrement_clients (s : StreamState) : Z * StreamState :=
  let n := max_int 0 (clients_connected (stats s) - 1) in
  (n, with_stats (set_clients n) s).

Definition increment_frames_sent (s : StreamState) : StreamState :=
  with_stats
    (fun st =>
       {| frames_captured := frames_captured st;
          frames_sent := frames_sent st + 1;
          clients_connected := clients_connected st;
          source_switches := source_switches st;
          last_frame_time := last_frame_time st |}) s.

Definition get_stats (s : StreamState) : StreamStats := stats s.

(** *** What other threads may do to a stream

    Every public method that writes, plus the [notify_all] that
    [GlobalState.shutdown] performs on each stream. *)
Inductive op :=
| OpSetFrame (jpeg_bytes : bytes) (now : Q)
| OpSetSource (source : string)
| OpUpdateSettings (kw : kwargs)
| OpIncrementClients
| OpDecrementClients
| OpIncrementFramesSent
| OpShutdownNotify.

Definition apply_op (o : op) (s : StreamState) : StreamState :=
  match o with
  | OpSetFrame b now => set_frame b now s
  | OpSetSource src => snd (set_source src s)
  | OpUpdateSettings kw => update_settings kw s
  | OpIncrementClients => snd (increment_clients s)
  | OpDecrementClients => snd (decrement_clients s)
  | OpIncrementFramesSent => increment_frames_sent s
  | OpShutdownNotify => notify_all s
  end.

Definition run_ops (ops : list op) (s : StreamState) : StreamState :=
  fold_left (fun acc o => apply_op o acc) ops s.

(** Number of frames posted by a sequence of operations. *)
Definition posted (ops : list op) : Z :=
  fold_right (fun o n => match o with OpSetFrame _ _ => n + 1 | _ => n end) 0 ops.

(** *** [get_frame]

    [Condition.wait(timeout)] by waiter [me]: the waiter is queued, the lock
    is released, the other threads run [others], the lock is taken again.
    The wait returns [True] when a [notify_all] released the waiter;
    otherwise it lasted the whole timeout, the waiter removes itself and the
    wait returns [False]. *)
Definition enqueue (me : nat) (s : StreamState) : StreamState :=
  {| stream_id := stream_id s; current_source := current_source s;
     frame := frame s; frame_id := frame_id s;
     jpeg_quality := jpeg_quality s; scale_factor := scale_factor s;
     picam_preset := picam_preset s; stats := stats s;
     frame_condition := frame_condition s ++ [me] |}.

Definition dequeue (me : nat) (s : StreamState) : StreamState :=
  {| stream_id := stream_id s; current_source := current_source s;
     frame := frame s; frame_id := frame_id s;
     jpeg_quality := jpeg_quality s; scale_factor := scale_factor s;
     picam_preset := picam_preset s; stats := stats s;
     frame_condition := filter (fun w => negb (Nat.eqb w me)) (frame_condition s) |}.

Definition wait (me : nat) (others : list op) (s : StreamState) : bool * StreamState :=
  let s' := run_ops others (enqueue me s) in
  if existsb (Nat.eqb me) (frame_condition s')
  then (false, dequeue me s')
  else (true, s').

(** One turn of the [while] loop consumes one [wait_step]: the reading of
    [time.time()] at the top of the body and what the other threads do while
    this one is blocked in [wait]. *)
Record wait_step := { clock : Q; during : list op }.

(** The loop of [get_frame].  [None] means that the schedule [env] ended
    while the caller was still blocked. *)
Fixpoint wait_loop (me : nat) (deadline : Q) (last_frame_id : Z)
         (env : list wait_step) (s : StreamState)
  : option ((option bytes * Z) * StreamState) :=
  if frame_id s =? last_frame_id then
    match env with
    | [] => None
    | e :: env' =>
        let remaining := (deadline - clock e)%Q in
        if Qle_bool remaining 0 then Some ((None, last_frame_id), s)
        else
          let (notified, s') := wait me (during e) s in
          if negb notified then Some ((None, last_frame_id), s')
          else wait_loop me deadline last_frame_id env' s'
    end
  else Some ((frame s, frame_id s), s).

(** [get_frame(last_frame_id, timeout)] called at clock reading [now]. *)
Definition get_frame (me : nat) (now : Q) (env : list wait_step)
           (last_frame_id : Z) (timeout : Q) (s : StreamState)
  : option ((option bytes * Z) * StreamState) :=
  let deadline := (now + timeout)%Q in
  wait_loop me deadline last_frame_id env s.

(** *** [GlobalState]: the registry, a dict in insertion order *)
Record GlobalState := {
  running : bool;
  debug : bool;
  streams : list (string * StreamState)
}.

Definition global_init : GlobalState :=
  {| running := true; debug := false; streams := [] |}.

Definition get_stream (g : GlobalState) (stream_id : string) : option StreamState :=
  Config.dict_get (streams g) stream_id.

Definition list_streams (g : GlobalState) : list string := map fst (streams g).

Definition with_streams (d : list (string * StreamState)) (g : GlobalState) : GlobalState :=
  {| running := running g; debug := debug g; streams := d |}.

(** [create_stream]: [None] stands for the [ValueError] raised when the id
    is taken. *)
Definition create_stream (stream_id : string) (initial_source : option string)
           (g : GlobalState) : option (StreamState * GlobalState) :=
  match get_stream g stream_id with
  | Some _ => None
  | None =>
      let stream := init stream_id initial_source in
      Some (stream, with_streams (streams g ++ [(stream_id, stream)]) g)
  end.

Fixpoint dict_del (d : list (string * StreamState)) (key : string)
  : list (string * StreamState) :=
  match d with
  | [] => []
  | (k, v) :: d' => if String.eqb key k then d' else (k, v) :: dict_del d' key
  end.

Definition remove_stream (stream_id : string) (g : GlobalState) : bool * GlobalState :=
  match get_stream g stream_id with
  | Some _ => (true, with_streams (dict_del (streams g) stream_id) g)
  | None => (false, g)
  end.

(** A method call on the stream object registered under [key]: the object
    is shared, so the registry sees the change. *)
Fixpoint dict_update (d : list (string * StreamState)) (key : string)
         (f : StreamState -> StreamState) : list (string * StreamState) :=
  match d with
  | [] => []
  | (k, v) :: d' =>
      if String.eqb key k then (k, f v) :: d' else (k, v) :: dict_update d' key f
  end.

Definition on_stream (stream_id : string) (f : StreamState -> StreamState)
           (g : GlobalState) : GlobalState :=
  with_streams (dict_update (streams g) stream_id f) g.

Definition shutdown (g : GlobalState) : GlobalState :=
  {| running := false; debug := debug g;
     streams := map (fun kv => (fst kv, notify_all (snd kv))) (streams g) |}.

End State.

(** ** The image codec (OpenCV), a collaborator

    Frames are arrays of samples.  A conversion or a resize returns the new
    array, or [None] when OpenCV raises on its input; encoding a frame that
    these have produced is taken to succeed. *)

Module Cv2.

Definition ndarray := list Z.

Class codec := {
  cvtColor_RGB2BGR : ndarray -> option ndarray;
  cvtColor_GRAY2BGR : ndarray -> option ndarray;
  applyColorMap_JET : ndarray -> option ndarray;
  resize_linear : ndarray -> Z -> Z -> option ndarray;
  imencode_jpg : ndarray -> Z -> Py.bytes
}.

End Cv2.

(** ** sources/kinect.py *)

Module Kinect.
Import Py Cv2 Config.

Record KinectCapture := {
  consecutive_failures : Z;
  _available : bool;
  debug : bool
}.

Definition max_failures : Z := 5.

(** What a [freenect.sync_get_*] call does: it returns [None], it raises,
    or it returns the sample array (with its timestamp, dropped here). *)
Inductive read :=
| ReadNone
| ReadRaises
| ReadData (data : ndarray).

(** [KinectCapture.__init__] before its first probe. *)
Definition fresh : KinectCapture :=
  {| consecutive_failures := 0; _available := false; debug := false |}.

Definition set_available (a : bool) (k : KinectCapture) : KinectCapture :=
  {| consecutive_failures := consecutive_failures k; _available := a; debug := debug k |}.

Definition set_failures (n : Z) (k : KinectCapture) : KinectCapture :=
  {| consecutive_failures := n; _available := _available k; debug := debug k |}.

(** [check_availability]; [probe] is what [sync_get_video] does. *)
Definition check_availability (probe : read) (c : flags) (k : KinectCapture)
  : bool * flags * KinectCapture :=
  if negb (FREENECT_AVAILABLE c) || negb (CV2_AVAILABLE c) then
    (false, update_kinect_availability false c, set_available false k)
  else
    match probe with
    | ReadData _ =>
        (true, update_kinect_availability true c,
         set_failures 0 (set_available true k))
    | ReadNone | ReadRaises =>
        (false, update_kinect_availability false c, set_available false k)
    end.

Definition _mark_unavailable (c : flags) (k : KinectCapture) : flags * KinectCapture :=
  (update_kinect_availability false c, set_available false k).

Definition is_available (c : flags) (k : KinectCapture) : bool :=
  _available k && FREENECT_AVAILABLE c && CV2_AVAILABLE c.

Definition _handle_failure (c : flags) (k : KinectCapture) : flags * KinectCapture :=
  let k' := set_failures (consecutive_failures k + 1) k in
  if consecutive_failures k' >=? max_failures then _mark_unavailable c k'
  else (c, k').

(** [np.clip(frame, 0, 2047)], then [(frame >> 3).astype(np.uint8)]. *)
Definition depth_to_8bit (data : ndarray) : ndarray :=
  map (fun v => Z.shiftr (Z.max 0 (Z.min 2047 v)) 3 mod 256) data.

Section GetFrame.
Context {F : FloatBuiltins} {C : codec}.

(** The scaling at the end of [get_frame]; [None] when [int(...)] or
    [cv2.resize] raises. *)
Definition rescale (frame : ndarray) (scale_factor : pyfloat) : option ndarray :=
  if flt_ne scale_factor (Finite 1.0) then
    match int_of_product KINECT_WIDTH scale_factor,
          int_of_product KINECT_HEIGHT scale_factor with
    | Some new_width, Some new_height => resize_linear frame new_width new_height
    | _, _ => None
    end
  else Some frame.

(** The tail of [get_frame] once the frame is converted: the failure
    counter is reset, then the frame is scaled.  An exception of the
    scaling is caught by the handler of [get_frame]. *)
Definition finish (frame : ndarray) (scale_factor : pyfloat)
           (c : flags) (k : KinectCapture)
  : option ndarray * flags * KinectCapture :=
  let k0 := set_failures 0 k in
  match rescale frame scale_factor with
  | Some out => (Some out, c, k0)
  | None => let (c', k') := _handle_failure c k0 in (None, c', k')
  end.

(** The read returned [None] (the branch calls [_handle_failure] and
    returns), or the read or the conversion raised (the handler does). *)
Definition failed (c : flags) (k : KinectCapture)
  : option ndarray * flags * KinectCapture :=
  let (c', k') := _handle_failure c k in (None, c', k').

(** [get_frame(mode, scale_factor)]; [r] is what the freenect call of the
    mode does when it is made. *)
Definition get_frame (mode : string) (scale_factor : pyfloat) (r : read)
           (c : flags) (k : KinectCapture)
  : option ndarray * flags * KinectCapture :=
  if negb (is_available c k) then (None, c, k)
  else if String.eqb mode "rgb" then
    match r with
    | ReadNone | ReadRaises => failed c k
    | ReadData data =>
        match cvtColor_RGB2BGR data with
        | Some frame => finish frame scale_factor c k
        | None => failed c k
        end
    end
  else if String.eqb mode "ir" then
    match r with
    | ReadNone | ReadRaises => failed c k
    | ReadData data =>
        match cvtColor_GRAY2BGR data with
        | Some frame => finish frame scale_factor c k
        | None => failed c k
        end
    end
  else if String.eqb mode "depth" then
    match r with
    | ReadNone | ReadRaises => failed c k
    | ReadData data =>
        match applyColorMap_JET (depth_to_8bit data) with
        | Some frame => finish frame scale_factor c k
        | None => failed c k
        end
    end
  else (None, c, k).

(** What the branch of a mode makes of the data it has read. *)
Definition convert (mode : string) (data : ndarray) : option ndarray :=
  if String.eqb mode "rgb" then cvtColor_RGB2BGR data
  else if String.eqb mode "ir" then cvtColor_GRAY2BGR data
  else if String.eqb mode "depth" then applyColorMap_JET (depth_to_8bit data)
  else None.

End GetFrame.

Definition known_mode (mode : string) : bool :=
  String.eqb mode "rgb" || String.eqb mode "ir" || String.eqb mode "depth".

Definition is_failure (r : read) : bool :=
  match r with
  | ReadNone | ReadRaises => true
  | ReadData _ => false
  end.

(** A capture attempt: the arguments of one [get_frame] call and what the
    hardware does for it. *)
Record attempt := { mode : string; scale : pyfloat; outcome : read }.

Definition failing (a : attempt) : bool :=
  known_mode (mode a) && is_failure (outcome a).

(** The attempt fails before the counter is reset: the read returns
    [None] or raises, or the conversion of the data raises. *)
Definition fails_before_reset {C : codec} (a : attempt) : bool :=
  known_mode (mode a)
  && match outcome a with
     | ReadNone | ReadRaises => true
     | ReadData data =>
         match convert (mode a) data with
         | Some _ => false
         | None => true
         end
     end.


(** Consecutive [get_frame] calls; the frames returned, oldest first. *)
Fixpoint captures {F : FloatBuiltins} {C : codec} (attempts : list attempt)
         (c : flags) (k : KinectCapture)
  : list (option ndarray) * flags * KinectCapture :=
  match attempts with
  | [] => ([], c, k)
  | a :: rest =>
      let '(f, c1, k1) := get_frame (mode a) (scale a) (outcome a) c k in
      let '(fs, c2, k2) := captures rest c1 k1 in
      (f :: fs, c2, k2)
  end.

End Kinect.

(** ** sources/picam.py *)

Module PiCam.
Import Py Config.

(** A [PiCameraCapture] object; [process] is the pid of its [Popen]
    handle.  The reader thread is represented by what it does to
    [frame_buffer] (see [reader_publish]). *)
Record PiCameraCapture := {
  process : option nat;
  frame_buffer : option bytes;
  running : bool;
  current_preset : option string;
  _available_command : option string;
  debug : bool
}.

(** What the operating system is asked to do, in the order it happens. *)
Inductive os_event :=
| Spawned (pid : nat) (argv : list string)
| Terminated (pid : nat).

(** The instances (by identity), the class attribute [_active_instance],
    and the operating system: the camera subprocesses that are running, the
    next pid, and the history of spawns and terminations, oldest first.
    [start] and [stop] run under the class lock [_hardware_lock], so each is
    one transition of this world. *)
Record world := {
  instances : nat -> PiCameraCapture;
  _active_instance : option nat;
  alive : list nat;
  next_pid : nat;
  history : list os_event
}.

(** [PiCameraCapture.__init__], with the command found by
    [_detect_camera_command]. *)
Definition fresh (command : option string) : PiCameraCapture :=
  {| process := None; frame_buffer := None; running := false;
     current_preset := None; _available_command := command; debug := false |}.

Definition is_available (self : nat) (w : world) : bool :=
  match _available_command (instances w self) with
  | Some _ => true
  | None => false
  end.

Definition set_instance (self : nat) (i : PiCameraCapture) (w : world) : world :=
  {| instances := fun j => if Nat.eqb j self then i else instances w j;
     _active_instance := _active_instance w;
     alive := alive w; next_pid := next_pid w; history := history w |}.

(** [process.terminate()], then [wait(timeout=2)] or [kill()]: either way
    the subprocess is gone. *)
Definition os_terminate (pid : nat) (w : world) : world :=
  {| instances := instances w;
     _active_instance := _active_instance w;
     alive := filter (fun p => negb (Nat.eqb p pid)) (alive w);
     next_pid := next_pid w;
     history := history w ++ [Terminated pid] |}.

Definition set_active (a : option nat) (w : world) : world :=
  {| instances := instances w; _active_instance := a;
     alive := alive w; next_pid := next_pid w; history := history w |}.

Definition stopped (i : PiCameraCapture) : PiCameraCapture :=
  {| process := None; frame_buffer := None; running := false;
     current_preset := None;
     _available_command := _available_command i; debug := debug i |}.

Definition _stop_internal (self : nat) (w : world) : world :=
  let i := instances w self in
  let w1 :=
    match process i with
    | Some pid => os_terminate pid w
    | None => w
    end in
  let w2 := set_instance self (stopped i) w1 in
  match _active_instance w2 with
  | Some a => if Nat.eqb a self then set_active None w2 else w2
  | None => w2
  end.

Definition stop (self : nat) (w : world) : world := _stop_internal self w.

(** The command line of the camera subprocess. *)
Definition argv (command preset : string) : list string :=
  let settings := preset_or_high preset in
  [ command; "-t"; "0"; "-n";
    "--width"; str_int (width settings);
    "--height"; str_int (height settings);
    "--framerate"; str_int (fps settings);
    "--codec"; "mjpeg"; "-o"; "-" ]%string.

(** [subprocess.Popen(...)] when it succeeds. *)
Definition os_spawn (args : list string) (w : world) : nat * world :=
  (next_pid w,
   {| instances := instances w;
      _active_instance := _active_instance w;
      alive := next_pid w :: alive w;
      next_pid := S (next_pid w);
      history := history w ++ [Spawned (next_pid w) args] |}).

(** What the [try] block of [start] meets: everything works; [Popen]
    raises; or [Popen] returns and [capture_thread.start()] raises, before
    [_active_instance] is assigned. *)
Inductive launching :=
| Launches
| PopenRaises
| ThreadStartRaises.

(** The instance once [Popen] has returned [pid] and [running] and
    [current_preset] are assigned. *)
Definition spawned (pid : nat) (preset : string) (i : PiCameraCapture) : PiCameraCapture :=
  {| process := Some pid; frame_buffer := frame_buffer i;
     running := true; current_preset := Some preset;
     _available_command := _available_command i;
     debug := debug i |}.

(** The end of [start]: without a camera command it gives up; otherwise it
    spawns the subprocess, starts the reader thread and records itself as
    the active instance.  When [Popen] raises nothing has changed; when the
    thread cannot be started the subprocess runs, the instance holds it, and
    the handler returns [False] without the instance being recorded. *)
Definition launch (self : nat) (preset : string) (o : launching) (w : world)
  : bool * world :=
  let i := instances w self in
  match _available_command i with
  | None => (false, w)
  | Some command =>
      match o with
      | Launches =>
          let (pid, w') := os_spawn (argv command preset) w in
          (true, set_active (Some self) (set_instance self (spawned pid preset i) w'))
      | PopenRaises => (false, w)
      | ThreadStartRaises =>
          let (pid, w') := os_spawn (argv command preset) w in
          (false, set_instance self (spawned pid preset i) w')
      end
  end.

(** The beginning of [start]: any other active instance is stopped. *)
Definition stop_other_active (self : nat) (w : world) : world :=
  match _active_instance w with
  | Some a => if Nat.eqb a self then w else _stop_internal a w
  | None => w
  end.

(** [start(preset)] on instance [self]. *)
Definition start (self : nat) (preset : string) (o : launching) (w : world)
  : bool * world :=
  let w1 := stop_other_active self w in
  match process (instances w1 self) with
  | Some _ =>
      match current_preset (instances w1 self) with
      | Some p =>
          if String.eqb p preset then (true, w1)
          else launch self preset o (_stop_internal self w1)
      | None => launch self preset o (_stop_internal self w1)
      end
  | None => launch self preset o w1
  end.

(** The reader thread completes a JPEG image and stores it. *)
Definition reader_publish (self : nat) (jpeg_data : bytes) (w : world) : world :=
  let i := instances w self in
  match process i with
  | Some _ =>
      if running i then
        set_instance self
          {| process := process i; frame_buffer := Some jpeg_data;
             running := running i; current_preset := current_preset i;
             _available_command := _available_command i; debug := debug i |} w
      else w
  | None => w
  end.

Definition get_frame (self : nat) (w : world) : option bytes :=
  frame_buffer (instances w self).

(** The subprocesses running after a history of events. *)
Definition replay_event (l : list nat) (e : os_event) : list nat :=
  match e with
  | Spawned pid _ => pid :: l
  | Terminated pid => filter (fun p => negb (Nat.eqb p pid)) l
  end.

Definition replay (h : list os_event) : list nat := fold_left replay_event h [].
Arguments replay h : simpl never.

(** Number of subprocesses spawned in a history. *)
Definition spawns (h : list os_event) : nat :=
  length (filter (fun e => match e with Spawned _ _ => true | Terminated _ => false end) h).

(** The worlds a program can be in: no instance has been started at first,
    then instances are started and stopped and their readers publish. *)
Definition initial (w : world) : Prop :=
  (forall i, process (instances w i) = None)
  /\ _active_instance w = None
  /\ alive w = []
  /\ history w = [].

Inductive reachable : world -> Prop :=
| reach_initial : forall w, initial w -> reachable w
| reach_start : forall w self preset o,
    reachable w -> reachable (snd (start self preset o w))
| reach_stop : forall w self,
    reachable w -> reachable (stop self w)
| reach_publish : forall w self jpeg_data,
    reachable w -> reachable (reader_publish self jpeg_data w).

(** The worlds reached while every reader thread could be started. *)
Inductive orderly : world -> Prop :=
| orderly_initial : forall w, initial w -> orderly w
| orderly_start : forall w self preset o,
    o <> ThreadStartRaises ->
    orderly w -> orderly (snd (start self preset o w))
| orderly_stop : forall w self,
    orderly w -> orderly (stop self w)
| orderly_publish : forall w self jpeg_data,
    orderly w -> orderly (reader_publish self jpeg_data w).

(** At most one instance holds a subprocess, it is the active one, and its
    subprocess is the only one running. *)
Definition exclusive (w : world) : Prop :=
  match _active_instance w with
  | Some a =>
      (exists p, process (instances w a) = Some p /\ alive w = [p])
      /\ (forall j, j <> a -> process (instances w j) = None)
  | None =>
      alive w = [] /\ (forall j, process (instances w j) = None)
  end.

(** At no point of a history were two subprocesses running. *)
Definition never_two (h : list os_event) : Prop :=
  forall h1 h2, h = h1 ++ h2 -> (length (replay h1) <= 1)%nat.

Definition invariant (w : world) : Prop :=
  exclusive w /\ replay (history w) = alive w /\ never_two (history w).

End PiCam.

(** ** manager.py *)

Module Manager.
Import Py Config State.

(** Everything the manager reaches: the configuration flags, the registry,
    the Kinect singleton, the camera instances, and its own [_running]
    flag. *)
Record world := {
  flags : Config.flags;
  state : GlobalState;
  kinect : Kinect.KinectCapture;
  cameras : PiCam.world;
  _running : bool
}.

(** The instance returned by [get_picam()]. *)
Definition picam : nat := 0%nat.

Definition with_state (g : GlobalState) (w : world) : world :=
  {| flags := flags w; state := g; kinect := kinect w;
     cameras := cameras w; _running := _running w |}.

Definition with_cameras (p : PiCam.world) (w : world) : world :=
  {| flags := flags w; state := state w; kinect := kinect w;
     cameras := p; _running := _running w |}.

Definition with_kinect (c : Config.flags) (k : Kinect.KinectCapture) (w : world) : world :=
  {| flags := c; state := state w; kinect := k;
     cameras := cameras w; _running := _running w |}.

(** [create_stream].  The name [KINECT_AVAILABLE] that manager.py imported
    is bound to the value the flag had at import, which is
    [FREENECT_AVAILABLE]; [get_available_sources] reads the live flag. *)
Definition create_stream (stream_id : string) (initial_source : option string)
           (w : world) : option (StreamState * world) :=
  let initial_source :=
    match initial_source with
    | Some src => src
    | None => if FREENECT_AVAILABLE (flags w) then "kinect_rgb"%string else "picam"%string
    end in
  let available := get_available_sources (flags w) in
  let initial_source :=
    if str_in initial_source available then initial_source else "picam"%string in
  match State.create_stream stream_id (Some initial_source) (state w) with
  | Some (stream, g) => Some (stream, with_state g w)
  | None => None
  end.

Definition get_stream (w : world) (stream_id : string) : option StreamState :=
  State.get_stream (state w) stream_id.

Definition list_streams (w : world) : list string := State.list_streams (state w).

(** A method call on the stream registered under [stream_id]. *)
Definition on_stream (stream_id : string) (f : StreamState -> StreamState)
           (w : world) : world :=
  with_state (State.on_stream stream_id f (state w)) w.

(** [switch_source(stream_id, source)] returns [(success, message)]. *)
Definition switch_source (stream_id source : string) (w : world)
  : (bool * string) * world :=
  match get_stream w stream_id with
  | None => ((false, "Stream '" ++ stream_id ++ "' not found")%string, w)
  | Some stream =>
      let available := get_available_sources (flags w) in
      if negb (str_in source available) then
        if str_in source KINECT_SOURCES then
          ((false, "Kinect unavailable. Available sources: "
                     ++ repr_list available)%string, w)
        else
          ((false, "Unknown source '" ++ source ++ "'. Available: "
                     ++ repr_list available)%string, w)
      else
        let old_source := fst (set_source source stream) in
        ((true, "Switched " ++ stream_id ++ " from " ++ old_source
                  ++ " to " ++ source)%string,
         on_stream stream_id (fun s => snd (set_source source s)) w)
  end.

(** Appending a stream to the list kept under a source, in a dict kept in
    insertion order. *)
Fixpoint dict_append (d : list (string * list string)) (source stream_id : string)
  : list (string * list string) :=
  match d with
  | [] => [(source, [stream_id])]
  | (k, ids) :: d' =>
      if String.eqb source k then (k, ids ++ [stream_id]) :: d'
      else (k, ids) :: dict_append d' source stream_id
  end.

(** [_get_active_sources]: the streams (by id) that select each source. *)
Definition _get_active_sources (w : world) : list (string * list string) :=
  fold_left
    (fun source_to_streams stream_id =>
       match get_stream w stream_id with
       | Some stream => dict_append source_to_streams (current_source stream) stream_id
       | None => source_to_streams
       end)
    (list_streams w) [].

(** The local variables of [_capture_loop]. *)
Record loop_vars := {
  last_picam_preset : option string;
  picam_running : bool
}.

Definition loop_start : loop_vars :=
  {| last_picam_preset := None; picam_running := false |}.

(** What the outside does during one cycle: the result of the freenect
    call for each mode, what a launch of the camera meets, and the reading
    of [time.time()] when a stream's [set_frame] runs. *)
Record cycle_env := {
  kinect_read : string -> Kinect.read;
  launching : PiCam.launching;
  stamp : string -> Q
}.

(** The calls a cycle makes, in order. *)
Inductive event :=
| CaptureCall (source : string)
| EncodeCall (source : string) (quality : Z)
| PushFrame (stream_id : string) (jpeg_bytes : bytes).

Definition same_preset (last : option string) (preset : string) : bool :=
  match last with
  | Some p => String.eqb p preset
  | None => false
  end.

(** The Pi camera lifecycle step of a cycle. *)
Definition manage_picam (source_to_streams : list (string * list string))
           (env : cycle_env) (v : loop_vars) (w : world) : loop_vars * world :=
  match dict_get source_to_streams "picam" with
  | Some ids =>
      match ids with
      | first :: _ =>
          match get_stream w first with
          | Some stream =>
              let preset := picam_preset stream in
              if negb (picam_running v) || negb (same_preset (last_picam_preset v) preset)
              then
                ({| last_picam_preset := Some preset; picam_running := true |},
                 with_cameras (snd (PiCam.start picam preset (launching env) (cameras w))) w)
              else (v, w)
          | None => (v, w)
          end
      | [] => (v, w)
      end
  | None =>
      if picam_running v then
        ({| last_picam_preset := None; picam_running := false |},
         with_cameras (PiCam.stop picam (cameras w)) w)
      else (v, w)
  end.

Section Capture.
Context {F : FloatBuiltins} {C : Cv2.codec}.

(** A Kinect branch of [_capture_source]. *)
Definition kinect_capture (source mode : string) (quality : Z) (scale : pyfloat)
           (env : cycle_env) (w : world) : option bytes * world * list event :=
  let '(frame, c', k') :=
    Kinect.get_frame mode scale (kinect_read env mode) (flags w) (kinect w) in
  match frame with
  | Some f =>
      (Some (Cv2.imencode_jpg f quality), with_kinect c' k' w,
       [CaptureCall source; EncodeCall source quality])
  | None => (None, with_kinect c' k' w, [CaptureCall source])
  end.

(** [_capture_source(source, streams)]: the JPEG bytes or [None]. *)
Definition _capture_source (source : string) (ids : list string)
           (env : cycle_env) (w : world) : option bytes * world * list event :=
  if negb (CV2_AVAILABLE (flags w)) && negb (String.eqb source "picam") then (None, w, [])
  else
    match ids with
    | first :: _ =>
        match get_stream w first with
        | Some stream =>
            let quality := jpeg_quality stream in
            let scale := scale_factor stream in
            if String.eqb source "kinect_rgb" then
              kinect_capture source "rgb" quality scale env w
            else if String.eqb source "kinect_ir" then
              kinect_capture source "ir" quality scale env w
            else if String.eqb source "kinect_depth" then
              kinect_capture source "depth" quality scale env w
            else if String.eqb source "picam" then
              (PiCam.get_frame picam (cameras w), w, [CaptureCall source])
            else (None, w, [])
        | None => (None, w, [])
        end
    | [] => (None, w, [])
    end.

(** [for stream in streams: stream.set_frame(jpeg_bytes)]. *)
Fixpoint push_all (ids : list string) (jpeg_bytes : bytes) (env : cycle_env)
         (w : world) : world * list event :=
  match ids with
  | [] => (w, [])
  | stream_id :: rest =>
      let w1 := on_stream stream_id (set_frame jpeg_bytes (stamp env stream_id)) w in
      let (w2, log) := push_all rest jpeg_bytes env w1 in
      (w2, PushFrame stream_id jpeg_bytes :: log)
  end.

(** [if jpeg_bytes: for stream in streams: ...]. *)
Definition push_if_any (ids : list string) (jpeg_bytes : option bytes)
           (env : cycle_env) (w : world) : world * list event :=
  match jpeg_bytes with
  | Some b => if truthy jpeg_bytes then push_all ids b env w else (w, [])
  | None => (w, [])
  end.

(** [for source, streams in source_to_streams.items(): ...]. *)
Fixpoint distribute (source_to_streams : list (string * list string))
         (env : cycle_env) (w : world) : world * list event :=
  match source_to_streams with
  | [] => (w, [])
  | (source, ids) :: rest =>
      let '(jpeg_bytes, w1, log1) := _capture_source source ids env w in
      let (w2, log2) := push_if_any ids jpeg_bytes env w1 in
      let (w3, log3) := distribute rest env w2 in
      (w3, log1 ++ log2 ++ log3)
  end.

(** One turn of the [while] loop of [_capture_loop]. *)
Definition cycle (env : cycle_env) (v : loop_vars) (w : world)
  : loop_vars * world * list event :=
  let source_to_streams := _get_active_sources w in
  let (v', w1) := manage_picam source_to_streams env v w in
  let (w2, log) := distribute source_to_streams env w1 in
  (v', w2, log).

(** [_capture_loop]: cycles while both running flags hold, then the
    cleanup.  One [cycle_env] per turn; [None] means that the schedule ended
    while the loop was still running. *)
Fixpoint _capture_loop (envs : list cycle_env) (v : loop_vars) (w : world)
  : option (world * list event) :=
  if _running w && running (state w) then
    match envs with
    | [] => None
    | env :: rest =>
        let '(v', w1, log1) := cycle env v w in
        match _capture_loop rest v' w1 with
        | Some (w2, log2) => Some (w2, log1 ++ log2)
        | None => None
        end
    end
  else Some (with_cameras (PiCam.stop picam (cameras w)) w, []).

End Capture.

(** [get_status]: per stream its settings, its statistics and the
    resolution text.  [None] is the exception of [int(...)] on a scale that
    is not finite.  [kinect_available] is the name imported by manager.py,
    the import-time value of the flag. *)
Record stream_info := {
  info_settings : settings;
  info_stats : StreamStats;
  info_resolution : string
}.

Record status := {
  status_running : bool;
  status_kinect_available : bool;
  status_available_sources : list string;
  status_streams : list (string * stream_info)
}.

Definition resolution_of {F : FloatBuiltins} (s : settings) : option string :=
  if String.eqb (st_source s) "picam" then
    let preset := preset_or_high (st_picam_preset s) in
    Some (str_int (width preset) ++ "x" ++ str_int (height preset))%string
  else
    match int_of_product KINECT_WIDTH (st_scale_factor s),
          int_of_product KINECT_HEIGHT (st_scale_factor s) with
    | Some w, Some h => Some (str_int w ++ "x" ++ str_int h)%string
    | _, _ => None
    end.

Fixpoint streams_info {F : FloatBuiltins} (w : world) (ids : list string)
  : option (list (string * stream_info)) :=
  match ids with
  | [] => Some []
  | stream_id :: rest =>
      match get_stream w stream_id with
      | Some stream =>
          match resolution_of (get_settings stream) with
          | Some res =>
              option_map
                (cons (stream_id,
                       {| info_settings := get_settings stream;
                          info_stats := get_stats stream;
                          info_resolution := res |}))
                (streams_info w rest)
          | None => None
          end
      | None => streams_info w rest
      end
  end.

Definition get_status {F : FloatBuiltins} (w : world) : option status :=
  match streams_info w (list_streams w) with
  | Some infos =>
      Some {| status_running := _running w;
              status_kinect_available := FREENECT_AVAILABLE (flags w);
              status_available_sources := get_available_sources (flags w);
              status_streams := infos |}
  | None => None
  end.

(** Counting the calls of a cycle. *)
Definition is_capture (source : string) (e : event) : bool :=
  match e with
  | CaptureCall s => String.eqb s source
  | _ => false
  end.

Definition is_encode (source : string) (e : event) : bool :=
  match e with
  | EncodeCall s _ => String.eqb s source
  | _ => false
  end.

Definition captures_of (source : string) (log : list event) : nat :=
  length (filter (is_capture source) log).

Definition encodes_of (source : string) (log : list event) : nat :=
  length (filter (is_encode source) log).

(** The payloads pushed to a stream, in order. *)
Fixpoint pushed_to (stream_id : string) (log : list event) : list bytes :=
  match log with
  | [] => []
  | PushFrame s b :: rest =>
      if String.eqb s stream_id then b :: pushed_to stream_id rest
      else pushed_to stream_id rest
  | _ :: rest => pushed_to stream_id rest
  end.

(** The streams listed under a source by a grouping. *)
Definition members (d : list (string * list string)) (source : string) : list string :=
  match dict_get d source with
  | Some ids => ids
  | None => []
  end.

(** The stream registered under [stream_id] selects [source]. *)
Definition selects (w : world) (source stream_id : string) : bool :=
  match get_stream w stream_id with
  | Some stream => String.eqb (current_source stream) source
  | None => false
  end.

(** The sources for which [_capture_source] reaches a capture call: one of
    the four names, and OpenCV present unless the source is the Pi camera. *)
Definition attempts (c : Config.flags) (source : string) : bool :=
  (CV2_AVAILABLE c || String.eqb source "picam") && str_in source ALL_SOURCES.

(** The three shapes of the log of [_capture_source]: nothing was called;
    the capture call alone (no frame, or the Pi camera, whose JPEG bytes are
    passed through); the capture call and the encoding of its frame. *)
Inductive capture_log (s : string) : option bytes -> list event -> Prop :=
| log_skipped : capture_log s None []
| log_captured : forall jpeg,
    (jpeg = None \/ s = "picam"%string) -> capture_log s jpeg [CaptureCall s]
| log_encoded : forall b quality,
    s <> "picam"%string ->
    capture_log s (Some b) [CaptureCall s; EncodeCall s quality].

(** The first stream of every group is registered. *)
Definition present (w : world) (groups : list (string * list string)) : Prop :=
  forall s ids,
    In (s, ids) groups ->
    exists first rest st, ids = first :: rest /\ get_stream w first = Some st.

(** No stream is listed twice, in one group or in two. *)
Definition disjoint (groups : list (string * list string)) : Prop :=
  (forall s ids, In (s, ids) groups -> NoDup ids)
  /\ (forall s ids s' ids' id,
         In (s, ids) groups -> In (s', ids') groups ->
         In id ids -> In id ids' -> s = s').

(** The mode in which [_capture_source] reads a Kinect source. *)
Definition mode_of (source : string) : option string :=
  if String.eqb source "kinect_rgb" then Some "rgb"%string
  else if String.eqb source "kinect_ir" then Some "ir"%string
  else if String.eqb source "kinect_depth" then Some "depth"%string
  else None.

(** What the streams of a group are sent for a result of
    [_capture_source]: the bytes, when there are any. *)
Definition payloads_of (jpeg_bytes : option bytes) : list bytes :=
  match jpeg_bytes with
  | Some b => if truthy jpeg_bytes then [b] else []
  | None => []
  end.

(** The state of a stream after the payloads pushed to it in a cycle. *)
Definition after_pushes (env : cycle_env) (stream_id : string)
           (payloads : list bytes) (s : StreamState) : StreamState :=
  fold_left (fun acc b => set_frame b (stamp env stream_id) acc) payloads s.

End Manager.

(** ** servers/http_server.py: the [/switch] handler *)

Module HttpServer.
Import Py Config State.

Definition nl : string := String (ascii_of_nat 10) EmptyString.
Definition dq : string := String (ascii_of_nat 34) EmptyString.

(** What the handler sends: [send_response(code)] and the body written. *)
Record response := { code : Z; body : string }.

(** A step of the handler: it either answers (and the handler returns) or
    goes on with a value; the world is threaded through. *)
Definition handler (A : Type) : Type :=
  Manager.world -> (response + A) * Manager.world.

Definition ret {A : Type} (a : A) : handler A := fun w => (inr a, w).

Definition answer {A : Type} (c : Z) (b : string) : handler A :=
  fun w => (inl {| code := c; body := b |}, w).

Definition bind {A B : Type} (m : handler A) (k : A -> handler B) : handler B :=
  fun w =>
    match m w with
    | (inl r, w') => (inl r, w')
    | (inr a, w') => k a w'
    end.

Notation "x <- m ;; k" := (bind m (fun x => k))
  (at level 61, m at next level, right associativity).

(** [params.get(key, '')]. *)
Definition param (params : list (string * string)) (key : string) : string :=
  match dict_get params key with
  | Some v => v
  | None => EmptyString
  end.

(** [d[k] = v] on a dict kept in insertion order. *)
Fixpoint dict_set (d : list (string * string)) (k v : string) : list (string * string) :=
  match d with
  | [] => [(k, v)]
  | (k0, v0) :: d' =>
      if String.eqb k k0 then (k0, v) :: d' else (k0, v0) :: dict_set d' k v
  end.

(** [dict(p.split('=') for p in query.split('&') if '=' in p)]; [None] is
    the [ValueError] raised for a piece with more than one ['=']. *)
Fixpoint parse_pieces (acc : list (string * string)) (pieces : list string)
  : option (list (string * string)) :=
  match pieces with
  | [] => Some acc
  | p :: rest =>
      if contains "=" p then
        match split_on "=" p with
        | [k; v] => parse_pieces (dict_set acc k v) rest
        | _ => None
        end
      else parse_pieces acc rest
  end.

Definition parse_query (query : string) : option (list (string * string)) :=
  parse_pieces [] (split_on "&" query).

Section Switch.
Context {F : FloatBuiltins}.

(** The source field. *)
Definition apply_source (target : string) (params : list (string * string))
           (response_parts : list string) : handler (list string) :=
  fun w =>
    let source := param params "source" in
    if String.eqb source EmptyString then (inr response_parts, w)
    else
      let '((success, msg), w') := Manager.switch_source target source w in
      if success then (inr (response_parts ++ [("source=" ++ source)%string]), w')
      else (inl {| code := 400; body := ("ERROR: " ++ msg ++ nl)%string |}, w').

(** The quality field. *)
Definition apply_quality (target : string) (params : list (string * string))
           (response_parts : list string) : handler (list string) :=
  fun w =>
    let quality := param params "quality" in
    if String.eqb quality EmptyString then (inr response_parts, w)
    else
      match int_of_str quality with
      | Some q =>
          if (1 <=? q) && (q <=? 100) then
            (inr (response_parts ++ [("quality=" ++ str_int q)%string]),
             Manager.on_stream target (update_settings (kw_quality q)) w)
          else (inl {| code := 400; body := ("ERROR: quality must be 1-100" ++ nl)%string |}, w)
      | None =>
          (inl {| code := 400; body := ("ERROR: quality must be 1-100" ++ nl)%string |}, w)
      end.

(** The scale field. *)
Definition apply_scale (target : string) (params : list (string * string))
           (response_parts : list string) : handler (list string) :=
  fun w =>
    let scale := param params "scale" in
    if String.eqb scale EmptyString then (inr response_parts, w)
    else
      match float_of_str scale with
      | Some s =>
          if flt_le (Finite 0.25) s && flt_le s (Finite 2.0) then
            (inr (response_parts ++ [("scale=" ++ str_of_float s)%string]),
             Manager.on_stream target (update_settings (kw_scale s)) w)
          else (inl {| code := 400; body := ("ERROR: scale must be 0.25-2.0" ++ nl)%string |}, w)
      | None =>
          (inl {| code := 400; body := ("ERROR: scale must be 0.25-2.0" ++ nl)%string |}, w)
      end.

(** The picam_res field. *)
Definition apply_picam_res (target : string) (params : list (string * string))
           (response_parts : list string) : handler (list string) :=
  fun w =>
    let picam_res := param params "picam_res" in
    if String.eqb picam_res EmptyString then (inr response_parts, w)
    else if str_in picam_res (map fst PICAM_PRESETS) then
      (inr (response_parts ++ [("picam_res=" ++ picam_res)%string]),
       Manager.on_stream target (update_settings (kw_preset picam_res)) w)
    else
      (inl {| code := 400;
              body := ("ERROR: picam_res must be: "
                         ++ repr_list (map fst PICAM_PRESETS) ++ nl)%string |}, w).

(** The end of the handler. *)
Definition finish (target : string) (response_parts : list string) : handler False :=
  match response_parts with
  | _ :: _ =>
      answer 200 ("OK: " ++ join ", " response_parts
                    ++ " (stream: " ++ target ++ ")" ++ nl)%string
  | [] =>
      answer 400 ("ERROR: No valid parameters. Use: source, quality, scale, picam_res"
                    ++ nl)%string
  end.

(** The four fields in the order of the handler, then the answer. *)
Definition apply_params (target : string) (params : list (string * string))
  : handler False :=
  parts <- apply_source target params [] ;;
  parts <- apply_quality target params parts ;;
  parts <- apply_scale target params parts ;;
  parts <- apply_picam_res target params parts ;;
  finish target parts.

(** What a request leaves: the answer sent, or nothing when the handler
    raised. *)
Inductive outcome :=
| Responded (r : response)
| Raised.

Definition run (h : handler False) (w : Manager.world) : outcome * Manager.world :=
  match h w with
  | (inl r, w') => (Responded r, w')
  | (inr absurd, w') => (Raised, w')
  end.

(** [handle_switch] of a handler bound to the stream [stream_id]. *)
Definition handle_switch (stream_id : string) (path : string) (w : Manager.world)
  : outcome * Manager.world :=
  if negb (contains "?" path) then
    (Responded {| code := 400; body := ("ERROR: Missing parameters" ++ nl)%string |}, w)
  else
    let query := nth 1 (split_on "?" path) EmptyString in
    match parse_query query with
    | None => (Raised, w)
    | Some params =>
        let target_stream_id :=
          match dict_get params "stream" with
          | Some v => v
          | None => stream_id
          end in
        match Manager.get_stream w target_stream_id with
        | None =>
            (Responded {| code := 404;
                          body := ("ERROR: Stream " ++ dq ++ target_stream_id
                                     ++ dq ++ " not found" ++ nl)%string |}, w)
        | Some _ => run (apply_params target_stream_id params) w
        end
    end.

(** The message of [switch_source] for a source that is not available. *)
Definition source_message (source : string) (w : Manager.world) : string :=
  if str_in source KINECT_SOURCES then
    ("Kinect unavailable. Available sources: "
       ++ repr_list (get_available_sources (Manager.flags w)))%string
  else
    ("Unknown source '" ++ source ++ "'. Available: "
       ++ repr_list (get_available_sources (Manager.flags w)))%string.

(** Which field fails its validation. *)
Definition source_fails (params : list (string * string)) (w : Manager.world) : bool :=
  negb (String.eqb (param params "source") EmptyString)
  && negb (str_in (param params "source") (get_available_sources (Manager.flags w))).

Definition quality_fails (params : list (string * string)) : bool :=
  negb (String.eqb (param params "quality") EmptyString)
  && match int_of_str (param params "quality") with
     | Some q => negb ((1 <=? q) && (q <=? 100))
     | None => true
     end.

Definition scale_fails (params : list (string * string)) : bool :=
  negb (String.eqb (param params "scale") EmptyString)
  && match float_of_str (param params "scale") with
     | Some s => negb (flt_le (Finite 0.25) s && flt_le s (Finite 2.0))
     | None => true
     end.

Definition picam_res_fails (params : list (string * string)) : bool :=
  negb (String.eqb (param params "picam_res") EmptyString)
  && negb (str_in (param params "picam_res") (map fst PICAM_PRESETS)).

(** What a field that passes its validation does to the target stream. *)
Definition source_effect (target : string) (params : list (string * string))
           (w : Manager.world) : Manager.world :=
  if String.eqb (param params "source") EmptyString then w
  else Manager.on_stream target (fun s => snd (set_source (param params "source") s)) w.

Definition quality_effect (target : string) (params : list (string * string))
           (w : Manager.world) : Manager.world :=
  match int_of_str (param params "quality") with
  | Some q =>
      if String.eqb (param params "quality") EmptyString then w
      else Manager.on_stream target (update_settings (kw_quality q)) w
  | None => w
  end.

Definition scale_effect (target : string) (params : list (string * string))
           (w : Manager.world) : Manager.world :=
  match float_of_str (param params "scale") with
  | Some s =>
      if String.eqb (param params "scale") EmptyString then w
      else Manager.on_stream target (update_settings (kw_scale s)) w
  | None => w
  end.

(** A body of one line: some text without a line feed, then a line feed. *)
Definition single_line (b : string) : Prop :=
  exists text, b = (text ++ nl)%string /\ contains (ascii_of_nat 10) text = false.

End Switch.

End HttpServer.

(** ** servers/control_server.py: the text protocol *)

Module ControlServer.
Import Py Config State.

Definition nl : string := String (ascii_of_nat 10) EmptyString.
Definition prompt : string := "> ".

(** [f"{s:<20}"]. *)
Definition ljust20 (s : string) : string :=
  (s ++ String.concat EmptyString (repeat " "%string (20 - String.length s)))%string.

(** The loop goes on, or the connection is closed ([quit], or an exception
    caught by the handler of [_handle_client]). *)
Inductive next := Continue | Close.

(** The reply of one command: the chunks sent, whether the loop goes on,
    and the selected stream afterwards. *)
Record reply := {
  sent : list string;
  then_ : next;
  selected : string
}.

Definition say (chunks : list string) (selected_stream : string) : reply :=
  {| sent := chunks; then_ := Continue; selected := selected_stream |}.

Definition not_found (selected_stream : string) : reply :=
  say [("ERROR: Stream '" ++ selected_stream ++ "' not found" ++ nl ++ prompt)%string]
      selected_stream.

Definition help_text (w : Manager.world) : list string :=
  [ (nl ++ "Video Multiplexer Control Commands" ++ nl)%string;
    ("===================================" ++ nl ++ nl)%string;
    ("Stream Management:" ++ nl)%string;
    ("  streams              - List all streams" ++ nl)%string;
    ("  select <stream_id>   - Select stream to control" ++ nl ++ nl)%string;
    ("Source Selection:" ++ nl)%string ]
  ++ map (fun src => ("  " ++ ljust20 src ++ " - Switch to " ++ src ++ nl)%string)
         (get_available_sources (Manager.flags w))
  ++ [ (nl ++ "Settings:" ++ nl)%string;
       ("  quality <1-100>      - Set JPEG compression" ++ nl)%string;
       ("  scale <0.25-2.0>     - Scale Kinect output" ++ nl)%string;
       ("  picam_res <preset>   - Pi camera: "
          ++ repr_list (map fst PICAM_PRESETS) ++ nl)%string;
       (nl ++ "Info:" ++ nl)%string;
       ("  status               - Show selected stream status" ++ nl)%string;
       ("  status all           - Show all streams status" ++ nl)%string;
       ("  help                 - This help" ++ nl)%string;
       ("  quit                 - Disconnect" ++ nl)%string;
       (nl ++ prompt)%string ].

Section Commands.
Context {F : FloatBuiltins}.

(** [quality], with or without an argument. *)
Definition do_quality (args : list string) (selected_stream : string)
           (w : Manager.world) : reply * Manager.world :=
  match Manager.get_stream w selected_stream with
  | None => (not_found selected_stream, w)
  | Some stream =>
      match args with
      | arg :: _ =>
          match int_of_str arg with
          | Some q =>
              if (1 <=? q) && (q <=? 100) then
                (say [("OK: JPEG quality set to " ++ str_int q ++ nl ++ prompt)%string]
                     selected_stream,
                 Manager.on_stream selected_stream (update_settings (kw_quality q)) w)
              else
                (say [("ERROR: quality must be 1-100" ++ nl ++ prompt)%string]
                     selected_stream, w)
          | None =>
              (say [("ERROR: quality must be a number 1-100" ++ nl ++ prompt)%string]
                   selected_stream, w)
          end
      | [] =>
          (say [("Current quality: " ++ str_int (st_jpeg_quality (get_settings stream))
                   ++ " (usage: quality <1-100>)" ++ nl ++ prompt)%string]
               selected_stream, w)
      end
  end.

(** [scale], with or without an argument. *)
Definition do_scale (args : list string) (selected_stream : string)
           (w : Manager.world) : reply * Manager.world :=
  match Manager.get_stream w selected_stream with
  | None => (not_found selected_stream, w)
  | Some stream =>
      match args with
      | arg :: _ =>
          match float_of_str arg with
          | Some s =>
              if flt_le (Finite 0.25) s && flt_le s (Finite 2.0) then
                let w' := Manager.on_stream selected_stream (update_settings (kw_scale s)) w in
                match int_of_product KINECT_WIDTH s, int_of_product KINECT_HEIGHT s with
                | Some width, Some height =>
                    (say [("OK: Scale set to " ++ str_of_float s ++ " (Kinect: "
                             ++ str_int width ++ "x" ++ str_int height ++ ")"
                             ++ nl ++ prompt)%string]
                         selected_stream, w')
                | _, _ =>
                    ({| sent := []; then_ := Close; selected := selected_stream |}, w')
                end
              else
                (say [("ERROR: scale must be 0.25-2.0" ++ nl ++ prompt)%string]
                     selected_stream, w)
          | None =>
              (say [("ERROR: scale must be a number 0.25-2.0" ++ nl ++ prompt)%string]
                   selected_stream, w)
          end
      | [] =>
          (say [("Current scale: " ++ str_of_float (st_scale_factor (get_settings stream))
                   ++ " (usage: scale <0.25-2.0>)" ++ nl ++ prompt)%string]
               selected_stream, w)
      end
  end.

(** [picam_res], with or without an argument. *)
Definition do_picam_res (args : list string) (selected_stream : string)
           (w : Manager.world) : reply * Manager.world :=
  match Manager.get_stream w selected_stream with
  | None => (not_found selected_stream, w)
  | Some stream =>
      match args with
      | arg :: _ =>
          let preset := lower arg in
          match dict_get PICAM_PRESETS preset with
          | Some p =>
              (say [("OK: Pi camera set to " ++ preset ++ " ("
                       ++ str_int (width p) ++ "x" ++ str_int (height p) ++ " @ "
                       ++ str_int (fps p) ++ "fps)" ++ nl ++ prompt)%string]
                   selected_stream,
               Manager.on_stream selected_stream (update_settings (kw_preset preset)) w)
          | None =>
              (say [("ERROR: preset must be: " ++ repr_list (map fst PICAM_PRESETS)
                       ++ nl ++ prompt)%string]
                   selected_stream, w)
          end
      | [] =>
          (say [("Current preset: " ++ st_picam_preset (get_settings stream)
                   ++ " (options: " ++ repr_list (map fst PICAM_PRESETS) ++ ")"
                   ++ nl ++ prompt)%string]
               selected_stream, w)
      end
  end.

(** The lines of [status all] for one stream. *)
Definition status_block (selected_stream : string) (entry : string * Manager.stream_info)
  : list string :=
  let (stream_id, info) := entry in
  let marker := if String.eqb stream_id selected_stream then " <-- selected"%string
                else EmptyString in
  [ ("[" ++ stream_id ++ "]" ++ marker ++ nl)%string;
    ("  Source: " ++ st_source (Manager.info_settings info) ++ nl)%string;
    ("  Resolution: " ++ Manager.info_resolution info ++ nl)%string;
    ("  Quality: " ++ str_int (st_jpeg_quality (Manager.info_settings info)) ++ nl)%string;
    ("  Frames: " ++ str_int (frames_captured (Manager.info_stats info)) ++ nl)%string;
    ("  Clients: " ++ str_int (clients_connected (Manager.info_stats info)) ++ nl)%string ].

(** [status] and [status all]. *)
Definition do_status (args : list string) (selected_stream : string)
           (w : Manager.world) : reply * Manager.world :=
  let all :=
    match args with
    | arg :: _ => String.eqb (lower arg) "all"
    | [] => false
    end in
  if all then
    match Manager.get_status w with
    | Some status =>
        (say ([ ("Kinect: "
                   ++ (if Manager.status_kinect_available status then "Available" else "N/A")
                   ++ nl)%string;
                ("Sources: " ++ join ", " (Manager.status_available_sources status)
                   ++ nl)%string;
                nl ]
              ++ flat_map (status_block selected_stream) (Manager.status_streams status)
              ++ [prompt])
             selected_stream, w)
    | None => ({| sent := []; then_ := Close; selected := selected_stream |}, w)
    end
  else
    match Manager.get_stream w selected_stream with
    | Some stream =>
        let settings := get_settings stream in
        let stats := get_stats stream in
        match Manager.resolution_of settings with
        | Some resolution =>
            (say [ ("Stream: " ++ selected_stream ++ nl)%string;
                   ("Source: " ++ st_source settings ++ nl)%string;
                   ("Resolution: " ++ resolution ++ nl)%string;
                   ("JPEG Quality: " ++ str_int (st_jpeg_quality settings) ++ nl)%string;
                   ("Scale Factor: " ++ str_of_float (st_scale_factor settings) ++ nl)%string;
                   ("Pi Cam Preset: " ++ st_picam_preset settings ++ nl)%string;
                   ("Frames: " ++ str_int (frames_captured stats) ++ nl)%string;
                   ("Clients: " ++ str_int (clients_connected stats) ++ nl ++ prompt)%string ]
                 selected_stream, w)
        | None => ({| sent := []; then_ := Close; selected := selected_stream |}, w)
        end
    | None => (not_found selected_stream, w)
    end.

(** One turn of the loop of [_handle_client] on the received [data]
    (not empty). *)
Definition handle_command (data : string) (selected_stream : string)
           (w : Manager.world) : reply * Manager.world :=
  let cmd := strip data in
  match split cmd with
  | [] => (say [prompt] selected_stream, w)
  | first :: args =>
      let command := lower first in
      if String.eqb command "streams" then
        (say [ ("Available streams: " ++ join ", " (Manager.list_streams w) ++ nl)%string;
               ("Currently selected: " ++ selected_stream ++ nl ++ prompt)%string ]
             selected_stream, w)
      else if String.eqb command "select" then
        match args with
        | target :: _ =>
            match Manager.get_stream w target with
            | Some _ =>
                (say [("OK: Selected stream '" ++ target ++ "'" ++ nl ++ prompt)%string]
                     target, w)
            | None =>
                (say [("ERROR: Stream '" ++ target ++ "' not found" ++ nl ++ prompt)%string]
                     selected_stream, w)
            end
        | [] =>
            (say [("Current: " ++ selected_stream ++ " (usage: select <stream_id>)"
                     ++ nl ++ prompt)%string]
                 selected_stream, w)
        end
      else if str_in command (get_available_sources (Manager.flags w)) then
        let '((success, msg), w') := Manager.switch_source selected_stream command w in
        if success then
          (say [("OK: " ++ msg ++ nl ++ prompt)%string] selected_stream, w')
        else
          (say [("ERROR: " ++ msg ++ nl ++ prompt)%string] selected_stream, w')
      else if str_in command KINECT_SOURCES
              && negb (str_in command (get_available_sources (Manager.flags w))) then
        (say [("ERROR: Kinect not available" ++ nl ++ prompt)%string] selected_stream, w)
      else if String.eqb command "quality" then do_quality args selected_stream w
      else if String.eqb command "scale" then do_scale args selected_stream w
      else if String.eqb command "picam_res" then do_picam_res args selected_stream w
      else if String.eqb command "status" then do_status args selected_stream w
      else if String.eqb command "help" then (say (help_text w) selected_stream, w)
      else if str_in command ["quit"; "exit"; "q"]%string then
        ({| sent := [("Goodbye!" ++ nl)%string]; then_ := Close;
            selected := selected_stream |}, w)
      else
        (say [("Unknown command: " ++ cmd ++ ". Type 'help' for commands."
                 ++ nl ++ prompt)%string]
             selected_stream, w)
  end.

(** The stream selected when a client connects: the first one, or [main]
    when there is none. *)
Definition default_stream (w : Manager.world) : string :=
  match Manager.list_streams w with
  | first :: _ => first
  | [] => "main"%string
  end.

(** A session from some point on: the data received, in order; an empty
    [data] is the end of the connection, and the loop stops when the global
    running flag is down.  Everything sent, and the world. *)
Fixpoint session (inputs : list string) (selected_stream : string) (w : Manager.world)
  : list string * string * Manager.world :=
  match inputs with
  | [] => ([], selected_stream, w)
  | data :: rest =>
      if negb (running (Manager.state w)) then ([], selected_stream, w)
      else if String.eqb data EmptyString then ([], selected_stream, w)
      else
        let (r, w1) := handle_command data selected_stream w in
        match then_ r with
        | Close => (sent r, selected r, w1)
        | Continue =>
            let '(out, sel, w2) := session rest (selected r) w1 in
            (sent r ++ out, sel, w2)
        end
  end.

(** What a client is sent when it connects. *)
Definition welcome (w : Manager.world) : list string :=
  [ ("Video Multiplexer Control Server v2.0" ++ nl)%string;
    ("Streams: " ++ join ", " (Manager.list_streams w) ++ nl)%string;
    ("Selected: " ++ default_stream w ++ nl)%string;
    ("Available sources: " ++ join ", " (get_available_sources (Manager.flags w))
       ++ nl)%string;
    ("Type 'help' for commands." ++ nl)%string;
    prompt ].

(** [_handle_client]: the welcome, then the loop from the default stream. *)
Definition _handle_client (inputs : list string) (w : Manager.world)
  : list string * string * Manager.world :=
  let '(out, sel, w') := session inputs (default_stream w) w in
  (welcome w ++ out, sel, w').

End Commands.

End ControlServer.

(** ** sources/kinect.py: the calls made on the singleton *)

Module KinectUse.
Import Py Cv2 Config Kinect.

(** A call on the Kinect object: [check_availability] with what its probe
    does, or [get_frame] with its arguments and what the hardware does. *)
Inductive call :=
| Probe (r : read)
| Capture (a : attempt).

(** Consecutive calls, from the flags and the object they find. *)
Fixpoint calls {F : FloatBuiltins} {C : codec} (cs : list call)
         (c : flags) (k : KinectCapture) : flags * KinectCapture :=
  match cs with
  | [] => (c, k)
  | Probe r :: rest =>
      let '(_, c1, k1) := check_availability r c k in calls rest c1 k1
  | Capture a :: rest =>
      let '(_, c1, k1) := get_frame (mode a) (scale a) (outcome a) c k in
      calls rest c1 k1
  end.

(** [KinectCapture()]: [__init__] ends with a probe. *)
Definition construct (probe : read) (c : flags) : flags * KinectCapture :=
  let '(_, c1, k1) := check_availability probe c fresh in (c1, k1).

(** The counter is within its range, and the published flag says what
    [is_available] says. *)
Definition consistent (c : flags) (k : KinectCapture) : Prop :=
  0 <= consecutive_failures k
  /\ KINECT_AVAILABLE c = is_available c k
  /\ (is_available c k = true -> consecutive_failures k < max_failures).

End KinectUse.

(** ** sources/picam.py: the reader thread *)

Module PiCamReader.
Import Py.

(** The JPEG start and end markers, [b'\xff\xd8'] and [b'\xff\xd9']. *)
Definition SOI : bytes := [Byte.xff; Byte.xd8].
Definition EOI : bytes := [Byte.xff; Byte.xd9].

(** [b.startswith(sub)]. *)
Fixpoint startswith (sub b : bytes) : bool :=
  match sub, b with
  | [], _ => true
  | x :: sub', y :: b' => Byte.eqb x y && startswith sub' b'
  | _ :: _, [] => false
  end.

(** The lowest index at which [sub] occurs in [b], counted from [i]. *)
Fixpoint find_at (sub b : bytes) (i : nat) : option nat :=
  if startswith sub b then Some i
  else
    match b with
    | [] => None
    | _ :: b' => find_at sub b' (S i)
    end.

(** [b.find(sub, start)]; [None] is [-1]. *)
Definition find (sub b : bytes) (start : nat) : option nat :=
  if (length b <? start)%nat then None else find_at sub (skipn start b) start.

(** [b[i:j]] and [b[i:]] for indices within the length. *)
Definition slice (b : bytes) (i j : nat) : bytes := firstn (j - i) (skipn i b).
Definition slice_from (b : bytes) (i : nat) : bytes := skipn i b.

(** The inner [while True] of [_capture_loop]: the complete images found
    in the buffer, in the order they are stored in [frame_buffer], and the
    buffer that is kept.  Every turn that goes on shortens the buffer;
    [fuel] bounds the number of turns and [None] means it ran out. *)
Fixpoint scan (fuel : nat) (buffer : bytes) : option (list bytes * bytes) :=
  match fuel with
  | O => None
  | S fuel' =>
      match find SOI buffer 0 with
      | None => Some ([], [])
      | Some soi =>
          match find EOI buffer soi with
          | None => Some ([], slice_from buffer soi)
          | Some eoi =>
              let jpeg_data := slice buffer soi (eoi + 2) in
              match scan fuel' (slice_from buffer (eoi + 2)) with
              | Some (frames, rest) => Some (jpeg_data :: frames, rest)
              | None => None
              end
          end
      end
  end.

(** One turn more than the buffer has bytes is always enough. *)
Definition scan_buffer (buffer : bytes) : option (list bytes * bytes) :=
  scan (S (length buffer)) buffer.

(** What [process.stdout.read(4096)] does: it returns bytes (none at the
    end of the stream) or raises. *)
Inductive read_result :=
| Chunk (chunk : bytes)
| ReadRaises.

(** One turn of the outer loop: the value of [self.running and
    self.process] at its top, and the read. *)
Record turn := { active : bool; read : read_result }.

(** [_capture_loop]: the images stored, in order.  [None] means that the
    schedule ended while the loop was still reading. *)
Fixpoint _capture_loop (turns : list turn) (buffer : bytes) : option (list bytes) :=
  match turns with
  | [] => None
  | t :: rest =>
      if negb (active t) then Some []
      else
        match read t with
        | ReadRaises => Some []
        | Chunk [] => Some []
        | Chunk chunk =>
            match scan_buffer (buffer ++ chunk) with
            | Some (frames, buffer') =>
                match _capture_loop rest buffer' with
                | Some more => Some (frames ++ more)
                | None => None
                end
            | None => None
            end
        end
  end.

(** A complete image: it begins with the start marker, and the first end
    marker in it is its last two bytes. *)
Definition complete_jpeg (f : bytes) : Prop :=
  startswith SOI f = true /\ find EOI f 0 = Some (length f - 2)%nat.

(** The end of the stream: a read that returns no bytes. *)
Definition end_of_stream : turn := {| active := true; read := Chunk [] |}.

(** The reads of a stream that stays active and delivers [chunks]. *)
Definition reads (chunks : list bytes) : list turn :=
  map (fun c => {| active := true; read := Chunk c |}) chunks.

(** No read ends with 0xff while the next one begins with 0xd8: the
    reads cut no start marker in two.  [previous] is the read before
    [chunks]. *)
Fixpoint clean_cuts (previous : bytes) (chunks : list bytes) : Prop :=
  match chunks with
  | [] => True
  | c :: rest =>
      (last previous Byte.x00 <> Byte.xff \/ hd Byte.x00 c <> Byte.xd8)
      /\ clean_cuts c rest
  end.

End PiCamReader.

(** ** servers/tcp_server.py: the raw stream handler *)

Module TcpServer.
Import Py State.

Definition byte_of (v : Z) : Byte.byte :=
  match Byte.of_N (Z.to_N (v mod 256)) with
  | Some b => b
  | None => Byte.x00
  end.

Definition byte_value (b : Byte.byte) : Z := Z.of_N (Byte.to_N b).

(** [struct.pack('>I', n)]: four bytes, most significant first; [None] is
    [struct.error], raised when [n] is not an unsigned 32-bit number. *)
Definition pack_uint32_be (n : Z) : option bytes :=
  if (0 <=? n) && (n <? 2 ^ 32) then
    Some [ byte_of (Z.shiftr n 24); byte_of (Z.shiftr n 16);
           byte_of (Z.shiftr n 8); byte_of n ]
  else None.

(** The number a receiver reads from a length prefix. *)
Definition uint32_be (h : bytes) : Z :=
  fold_left (fun acc b => 256 * acc + byte_value b) h 0.

Definition len (b : bytes) : Z := Z.of_nat (length b).

(** A call on the non-blocking socket returns, raises [BlockingIOError],
    or raises another exception. *)
Inductive io := Done | WouldBlock | Fails.

(** What [client.recv(1)] does. *)
Inductive received :=
| Data (cmd : bytes)
| NoData
| RecvError.

(** What was handed to [sendall], call by call.  [FrameBody] carries the
    sequence number of the frame, which is not sent. *)
Inductive sent :=
| NotFound
| Pong
| StatusLength (header : bytes)
| StatusBody (status_bytes : bytes)
| FrameLength (header : bytes)
| FrameBody (frame : bytes) (frame_id : Z).

Definition error_line : bytes :=
  list_byte_of_string "ERROR: Stream not found" ++ [Byte.x0a].

(** The bytes on the wire. *)
Definition wire (m : sent) : bytes :=
  match m with
  | NotFound => error_line
  | Pong => [Byte.x00]
  | StatusLength h => h
  | StatusBody b => b
  | FrameLength h => h
  | FrameBody b _ => b
  end.

(** One turn of the loop, as the outside makes it: the two running flags
    at its top, the pending command, the JSON text of
    [manager.get_status()] ([None] when it raises), the outcome of the
    [sendall] calls, and for [get_frame] the clock and what the other
    threads do during its waits. *)
Record turn := {
  self_running : bool;
  global_running : bool;
  recv : received;
  status_bytes : option bytes;
  reply_io : io * io;
  clock_now : Q;
  waits : list wait_step;
  frame_io : io * io
}.

(** The command part of a turn: what is sent, and whether the loop goes
    on ([false] is [break]). *)
Definition command (t : turn) : list sent * bool :=
  match recv t with
  | NoData => ([], true)
  | RecvError => ([], false)
  | Data cmd =>
      match cmd with
      | [Byte.x00] =>
          match fst (reply_io t) with
          | Done => ([Pong], true)
          | WouldBlock => ([], true)
          | Fails => ([], false)
          end
      | [Byte.x01] =>
          match status_bytes t with
          | None => ([], false)
          | Some body =>
              match pack_uint32_be (len body) with
              | None => ([], false)
              | Some header =>
                  match fst (reply_io t) with
                  | Done =>
                      match snd (reply_io t) with
                      | Done => ([StatusLength header; StatusBody body], true)
                      | WouldBlock => ([StatusLength header], true)
                      | Fails => ([StatusLength header], false)
                      end
                  | WouldBlock => ([], true)
                  | Fails => ([], false)
                  end
              end
          end
      | [] => ([], false)
      | _ => ([], true)
      end
  end.

(** Sending a frame: what is sent, and whether both calls returned. *)
Definition send_frame (t : turn) (frame : bytes) (frame_id : Z) : list sent * bool :=
  match pack_uint32_be (len frame) with
  | None => ([], false)
  | Some header =>
      match fst (frame_io t) with
      | Done =>
          match snd (frame_io t) with
          | Done => ([FrameLength header; FrameBody frame frame_id], true)
          | _ => ([FrameLength header], false)
          end
      | _ => ([], false)
      end
  end.

Definition timeout : Q := 0.1.

(** The [while] loop of [handle], run by thread [me]; [None] means that
    the schedule ended while the handler was still serving. *)
Fixpoint serve (me : nat) (turns : list turn) (last_frame_id : Z) (s : StreamState)
  : option (list sent * StreamState) :=
  match turns with
  | [] => None
  | t :: rest =>
      if negb (self_running t && global_running t) then Some ([], s)
      else
        let (out, go_on) := command t in
        if negb go_on then Some (out, s)
        else
          match get_frame me (clock_now t) (waits t) last_frame_id timeout s with
          | None => None
          | Some ((None, frame_id), s1) =>
              match serve me rest frame_id s1 with
              | Some (more, s2) => Some (out ++ more, s2)
              | None => None
              end
          | Some ((Some frame, frame_id), s1) =>
              let (out2, ok) := send_frame t frame frame_id in
              if ok then
                match serve me rest frame_id (increment_frames_sent s1) with
                | Some (more, s2) => Some (out ++ out2 ++ more, s2)
                | None => None
                end
              else Some (out ++ out2, s1)
          end
  end.

(** [handle] returns, or an exception leaves it. *)
Inductive ending := Returned | Raised.

(** [handle]: [stream] is what [manager.get_stream(stream_id)] returned,
    and [setblocking_ok] is false when [client.setblocking(False)] raises.
    That call comes after [increment_clients()] and before the [try], so
    its exception leaves [handle] without the [finally] clause being run. *)
Definition handle (me : nat) (stream : option StreamState) (setblocking_ok : bool)
           (turns : list turn)
  : option (list sent * option StreamState * ending) :=
  match stream with
  | None => Some ([NotFound], None, Returned)
  | Some s =>
      let s1 := snd (increment_clients s) in
      if negb setblocking_ok then Some ([], Some s1, Raised)
      else
        match serve me turns 0 s1 with
        | Some (out, s') => Some (out, Some (snd (decrement_clients s')), Returned)
        | None => None
        end
  end.

(** The frames sent whole, with their sequence numbers. *)
Fixpoint frames_of (out : list sent) : list (bytes * Z) :=
  match out with
  | [] => []
  | FrameBody b n :: rest => (b, n) :: frames_of rest
  | _ :: rest => frames_of rest
  end.

(** Every body sent comes right after its own length. *)
Fixpoint framed (out : list sent) : Prop :=
  match out with
  | [] => True
  | FrameLength h :: FrameBody b n :: rest =>
      pack_uint32_be (len b) = Some h /\ framed rest
  | StatusLength h :: StatusBody b :: rest =>
      pack_uint32_be (len b) = Some h /\ framed rest
  | FrameBody _ _ :: _ => False
  | StatusBody _ :: _ => False
  | _ :: rest => framed rest
  end.

(** No body comes first. *)
Definition headed (out : list sent) : Prop :=
  match out with
  | FrameBody _ _ :: _ => False
  | StatusBody _ :: _ => False
  | _ => True
  end.

(** The operations by which another client shows in the statistics. *)
Definition counts_clients (o : op) : bool :=
  match o with
  | OpIncrementClients | OpDecrementClients | OpIncrementFramesSent => true
  | _ => false
  end.

(** During the waits of these turns no other client comes, goes or is
    sent a frame. *)
Definition alone (turns : list turn) : Prop :=
  forall t e o, In t turns -> In e (waits t) -> In o (during e) ->
                counts_clients o = false.

(** Strictly increasing sequence numbers, all above [n]. *)
Fixpoint increasing (n : Z) (l : list Z) : Prop :=
  match l with
  | [] => True
  | x :: rest => n < x /\ increasing x rest
  end.

End TcpServer.

(** ** servers/http_server.py: the MJPEG stream *)

Module HttpStream.
Import Py State.

Definition crlf : bytes := [Byte.x0d; Byte.x0a].

(** [s.encode()] for ASCII text. *)
Definition encode (s : string) : bytes := list_byte_of_string s.

(** The five writes of one part of the multipart body. *)
Definition part (frame : bytes) : list bytes :=
  [ encode "--jpgboundary" ++ crlf;
    encode "Content-Type: image/jpeg" ++ crlf;
    encode ("Content-Length: " ++ str_int (Z.of_nat (length frame))) ++ crlf ++ crlf;
    frame;
    crlf ].

(** An exception of a write: [BrokenPipeError] or [ConnectionResetError],
    which the handler catches, or another one, which it lets through. *)
Inductive failure := BrokenPipe | OtherError.

(** One turn of the loop, as the outside makes it: the global running
    flag at its top, for [get_frame] the clock and what the other threads
    do during its waits, and which of the six calls of a part (five writes
    and the flush, counted from 0) raises, if any. *)
Record turn := {
  global_running : bool;
  clock_now : Q;
  waits : list wait_step;
  failing : option (nat * failure)
}.

(** The loop was left by [break] or by its condition, or by an exception
    that goes on to the caller. *)
Inductive ending := Returned | Raised.

Definition timeout : Q := 1.

(** What the loop gives: the chunks written, the frames sent whole with
    their sequence numbers, how it ended, and the stream. *)
Record served := {
  written : list bytes;
  whole : list (bytes * Z);
  ended : ending;
  stream : StreamState
}.

(** The [while] loop of [send_mjpeg_stream], run by thread [me]; [None]
    means that the schedule ended while the handler was still serving. *)
Fixpoint serve (me : nat) (turns : list turn) (last_frame_id : Z) (s : StreamState)
  : option served :=
  match turns with
  | [] => None
  | t :: rest =>
      if negb (global_running t) then
        Some {| written := []; whole := []; ended := Returned; stream := s |}
      else
        match get_frame me (clock_now t) (waits t) last_frame_id timeout s with
        | None => None
        | Some ((None, frame_id), s1) => serve me rest frame_id s1
        | Some ((Some frame, frame_id), s1) =>
            let stopped (k : nat) (e : ending) :=
              Some {| written := firstn k (part frame); whole := [];
                      ended := e; stream := s1 |} in
            let sent_whole :=
              match serve me rest frame_id (increment_frames_sent s1) with
              | Some r =>
                  Some {| written := part frame ++ written r;
                          whole := (frame, frame_id) :: whole r;
                          ended := ended r; stream := stream r |}
              | None => None
              end in
            match failing t with
            | Some (k, f) =>
                if (k <? 6)%nat then
                  stopped k (match f with BrokenPipe => Returned | OtherError => Raised end)
                else sent_whole
            | None => sent_whole
            end
        end
  end.

(** The answer of [send_mjpeg_stream]: the status code, and for a stream
    that exists what the loop gave, with the stream after the [finally]
    clause. *)
Definition send_mjpeg_stream (me : nat) (registered : option StreamState)
           (turns : list turn) : option (Z * option served) :=
  match registered with
  | None => Some (404, None)
  | Some s =>
      match serve me turns 0 (snd (increment_clients s)) with
      | Some r =>
          Some (200,
                Some {| written := written r; whole := whole r; ended := ended r;
                        stream := snd (decrement_clients (stream r)) |})
      | None => None
      end
  end.

(** During the waits of these turns no other client comes, goes or is
    sent a frame. *)
Definition alone (turns : list turn) : Prop :=
  forall t e o, In t turns -> In e (waits t) -> In o (during e) ->
                TcpServer.counts_clients o = false.

End HttpStream.

(** ** manager.py: starting and stopping, and the life of the capture thread *)

Module ManagerControl.
Import Py Config State.

Definition set_running (b : bool) (w : Manager.world) : Manager.world :=
  {| Manager.flags := Manager.flags w; Manager.state := Manager.state w;
     Manager.kinect := Manager.kinect w; Manager.cameras := Manager.cameras w;
     Manager._running := b |}.

(** [start]: [true] when a capture thread is started, [false] when the
    manager was running already. *)
Definition start (w : Manager.world) : bool * Manager.world :=
  if Manager._running w then (false, w) else (true, set_running true w).

(** [stop]: the flag is lowered, the registry is shut down, and the Pi
    camera is stopped; [kinect.stop()] keeps no state of its own. *)
Definition stop (w : Manager.world) : Manager.world :=
  let w1 := Manager.with_state (shutdown (Manager.state w)) (set_running false w) in
  Manager.with_cameras (PiCam.stop Manager.picam (Manager.cameras w1)) w1.

(** One turn of the capture thread as the outside makes it: the method
    calls of other threads on the streams since the turn before, and what
    the hardware does during the turn. *)
Record turn := { before : list (string * op); env : Manager.cycle_env }.

Definition others (ops : list (string * op)) (w : Manager.world) : Manager.world :=
  fold_left (fun acc call => Manager.on_stream (fst call) (apply_op (snd call)) acc) ops w.

(** The turns the capture thread makes while the flags are up. *)
Fixpoint cycles {F : FloatBuiltins} {C : Cv2.codec} (turns : list turn)
         (v : Manager.loop_vars) (w : Manager.world)
  : Manager.loop_vars * Manager.world * list Manager.event :=
  match turns with
  | [] => (v, w, [])
  | t :: rest =>
      let '(v1, w1, log1) := Manager.cycle (env t) v (others (before t) w) in
      let '(v2, w2, log2) := cycles rest v1 w1 in
      (v2, w2, log1 ++ log2)
  end.

(** The capture thread from its start to its end: its turns, then the
    cleanup it does once another thread has lowered a flag. *)
Definition capture_thread {F : FloatBuiltins} {C : Cv2.codec} (turns : list turn)
           (w : Manager.world) : Manager.world * list Manager.event :=
  let '(_, w1, log) := cycles turns Manager.loop_start w in
  (Manager.with_cameras (PiCam.stop Manager.picam (Manager.cameras w1)) w1, log).

(** The Pi camera is held by the manager's instance or by none. *)
Definition camera_is_ours (p : PiCam.world) : Prop :=
  PiCam._active_instance p = None \/ PiCam._active_instance p = Some Manager.picam.

(** What the capture thread keeps of the camera world while it alone acts
    on it: only the manager's instance may hold a subprocess, that
    subprocess is the only one running, the history agrees, and no other
    instance is recorded as active. *)
Definition camera_kept (p : PiCam.world) : Prop :=
  (forall j, j <> Manager.picam -> PiCam.process (PiCam.instances p j) = None)
  /\ PiCam.alive p
     = match PiCam.process (PiCam.instances p Manager.picam) with
       | Some pid => [pid]
       | None => []
       end
  /\ PiCam.replay (PiCam.history p) = PiCam.alive p
  /\ PiCam.never_two (PiCam.history p)
  /\ camera_is_ours p.

End ManagerControl.

(** ** What a request may touch *)

Module Touch.
Import Py State.

(** From [w] to [w'] nothing but the stream registered under [target] has
    changed: the same ids in the same order, the same flags, Kinect and
    cameras, the same running flags, and every other stream as it was. *)
Definition only_stream (target : string) (w w' : Manager.world) : Prop :=
  Manager.list_streams w' = Manager.list_streams w
  /\ Manager.flags w' = Manager.flags w
  /\ Manager.kinect w' = Manager.kinect w
  /\ Manager.cameras w' = Manager.cameras w
  /\ Manager._running w' = Manager._running w
  /\ running (Manager.state w') = running (Manager.state w)
  /\ (forall other, other <> target ->
                    Manager.get_stream w' other = Manager.get_stream w other).

(** From [w] to [w'] only streams have changed, none was added or
    removed. *)
Definition only_streams (w w' : Manager.world) : Prop :=
  Manager.list_streams w' = Manager.list_streams w
  /\ Manager.flags w' = Manager.flags w
  /\ Manager.kinect w' = Manager.kinect w
  /\ Manager.cameras w' = Manager.cameras w
  /\ Manager._running w' = Manager._running w
  /\ running (Manager.state w') = running (Manager.state w).

(** The text ends with the prompt of the control server. *)
Definition prompted (s : string) : Prop :=
  exists text : string, s = (text ++ ControlServer.prompt)%string.

(** The last chunk sent ends with the prompt. *)
Definition ends_with_prompt (chunks : list string) : Prop :=
  exists (before : list string) (last : string),
    chunks = before ++ [last] /\ prompted last.

End Touch.

(** ** service-monitor.py: the throttle flags *)

Module ServiceMonitor.

(** [THROTTLE_FLAGS], a dict from bit number to message. *)
Definition THROTTLE_FLAGS : list (Z * string) :=
  [ (0, "Under-voltage detected");
    (1, "Arm frequency capped");
    (2, "Currently throttled");
    (3, "Soft temperature limit active");
    (16, "Under-voltage has occurred");
    (17, "Arm frequency capping has occurred");
    (18, "Throttling has occurred");
    (19, "Soft temperature limit has occurred") ]%string.

(** [decode_throttle_status(value)]; [None] is the value of a read that
    failed. *)
Definition decode_throttle_status (value : option Z) : list string :=
  match value with
  | None => ["Could not read throttle status"%string]
  | Some v =>
      if v =? 0 then []
      else
        fold_left
          (fun issues entry =>
             if Z.land v (Z.shiftl 1 (fst entry)) =? 0 then issues
             else issues ++ [snd entry])
          THROTTLE_FLAGS []
  end.

End ServiceMonitor.

(** ** __main__.py: the start of the server *)

Module Main.
Import Py Config State.

(** The parsed command line. *)
Record args := {
  debug_flag : bool;
  main_source : option string;
  secondary_source : option string;
  quality : Z;
  scale : pyfloat;
  picam_res : string
}.

(** The flags once config.py is imported: [KINECT_AVAILABLE] starts as
    [FREENECT_AVAILABLE]. *)
Definition imported (freenect cv2 : bool) : flags :=
  {| FREENECT_AVAILABLE := freenect; CV2_AVAILABLE := cv2;
     KINECT_AVAILABLE := freenect |}.

(** The initial source of a stream.  [kinect_available] is the name
    [KINECT_AVAILABLE] that __main__.py imported, bound to the value the
    flag had at import. *)
Definition initial_source (asked : option string) (default : string)
           (kinect_available : bool) : string :=
  match asked with
  | None => default
  | Some s =>
      if str_in s ["kinect_rgb"; "kinect_ir"; "kinect_depth"]%string
         && negb kinect_available
      then "picam"%string else s
  end.

Definition settings (a : args) : kwargs :=
  {| kw_jpeg_quality := Some (quality a);
     kw_scale_factor := Some (scale a);
     kw_picam_preset := Some (picam_res a) |}.

(** [get_resolution(source, scale, preset)], the text of the banner.
    [None] is the [KeyError] of an unknown preset, or the exception of
    [int(...)] on a scale that is not finite.  [int(KINECT_WIDTH * 0.75)]
    is 480, the product being exact. *)
Definition get_resolution {F : FloatBuiltins} (source : string) (scale : pyfloat)
           (preset : string) : option string :=
  if String.eqb source "picam" then
    match dict_get PICAM_PRESETS preset with
    | Some p => Some (str_int (width p) ++ "x" ++ str_int (height p))%string
    | None => None
    end
  else
    match int_of_product KINECT_WIDTH scale with
    | Some w =>
        match int_of_product (KINECT_WIDTH * 3 / 4) scale with
        | Some h => Some (str_int w ++ "x" ++ str_int h)%string
        | None => None
        end
    | None => None
    end.

(** What [main] announces on its banner, and the world it has built when
    the servers start. *)
Record started := {
  announced_main : string;
  main_res : string;
  announced_secondary : string;
  secondary_res : string;
  world : Manager.world
}.

(** [main] ends with [sys.exit(1)], is left by an exception with the world
    as it is then, or goes on to start the servers. *)
Inductive outcome :=
| Exits
| Raises (w : Manager.world)
| Starts (s : started).

(** [main] up to the start of the capture thread.  [probe_init] and
    [probe_check] are what the Kinect does for the probe of the
    constructor and for the probe of [main]; [cams] is the camera world
    found.  The resolutions of the banner are computed after the streams
    are created and before [manager.start()]. *)
Definition main {F : FloatBuiltins} (a : args) (freenect cv2 : bool)
           (probe_init probe_check : Kinect.read) (cams : PiCam.world)
  : outcome :=
  if negb cv2 then Exits
  else
    let c := imported freenect cv2 in
    let c1 := fst (KinectUse.construct probe_init c) in
    let k1 := snd (KinectUse.construct probe_init c) in
    let '(_, c2, k2) := Kinect.check_availability probe_check c1 k1 in
    let main_src :=
      initial_source (main_source a)
                     (if freenect then "kinect_rgb"%string else "picam"%string) freenect in
    let secondary_src := initial_source (secondary_source a) "picam" freenect in
    let w0 :=
      {| Manager.flags := c2;
         Manager.state := {| running := true; debug := debug_flag a; streams := [] |};
         Manager.kinect := {| Kinect.consecutive_failures := Kinect.consecutive_failures k2;
                              Kinect._available := Kinect._available k2;
                              Kinect.debug := debug_flag a |};
         Manager.cameras := cams;
         Manager._running := false |} in
    match Manager.create_stream "main" (Some main_src) w0 with
    | None => Raises w0
    | Some (_, w1) =>
        let w2 := Manager.on_stream "main" (update_settings (settings a)) w1 in
        match Manager.create_stream "secondary" (Some secondary_src) w2 with
        | None => Raises w2
        | Some (_, w3) =>
            let w4 := Manager.on_stream "secondary" (update_settings (settings a)) w3 in
            match get_resolution main_src (scale a) (picam_res a) with
            | Some main_resolution =>
                match get_resolution secondary_src (scale a) (picam_res a) with
                | Some secondary_resolution =>
                    Starts {| announced_main := main_src;
                              main_res := main_resolution;
                              announced_secondary := secondary_src;
                              secondary_res := secondary_resolution;
                              world := snd (ManagerControl.start w4) |}
                | None => Raises w4
                end
            | None => Raises w4
            end
        end
    end.

(** [KINECT_AVAILABLE] after the probes, and the flags they leave when
    OpenCV is present. *)
Definition live (freenect : bool) (probe_check : Kinect.read) : bool :=
  freenect && negb (Kinect.is_failure probe_check).

Definition probed (freenect : bool) (probe_check : Kinect.read) : flags :=
  {| FREENECT_AVAILABLE := freenect; CV2_AVAILABLE := true;
     KINECT_AVAILABLE := live freenect probe_check |}.

(** The source a stream gets when [asked] is passed to [create_stream]. *)
Definition given (c : flags) (asked : string) : string :=
  if str_in asked (get_available_sources c) then asked else "picam"%string.

End Main.

(** ** Sample values used by the examples *)

Module Samples.
Import Py State.

Definition jpeg_a : bytes := [Byte.xff; Byte.xd8; Byte.x41; Byte.xff; Byte.xd9].
Definition jpeg_b : bytes := [Byte.xff; Byte.xd8; Byte.x42; Byte.xff; Byte.xd9].

(** A stream that has received three frames. *)
Definition three_frames : StreamState :=
  set_frame jpeg_a 3 (set_frame jpeg_b 2 (set_frame jpeg_a 1 (init "main" None))).

(** A run time for the examples.  It reads plain decimal literals, prints
    the integer part and one decimal digit, and truncates the exact
    product. *)
Definition decimal_float (s : string) : option pyfloat :=
  let body := match s with String "-" t => t | String "+" t => t | t => t end in
  let sign : Z := match s with String "-" _ => -1 | _ => 1 end in
  match split_on "." body with
  | [i] => option_map (fun n => Finite (inject_Z (sign * n))) (digits 0 false i)
  | [i; f] =>
      match digits 0 false i, digits 0 false f with
      | Some n, Some m =>
          let scale := Pos.pow 10 (Pos.of_nat (String.length f)) in
          Some (Finite (Qmake (sign * (n * Zpos scale + m)) scale))
      | _, _ => None
      end
  | _ => None
  end.

Definition print_float (x : pyfloat) : string :=
  match x with
  | Finite q =>
      (str_int (Z.quot (Qnum q) (Zpos (Qden q))) ++ "."
       ++ str_int (Z.quot (10 * Z.abs (Z.rem (Qnum q) (Zpos (Qden q)))) (Zpos (Qden q))))%string
  | Infinity true => "-inf"
  | Infinity false => "inf"
  | NaN => "nan"
  end.

#[export] Instance decimal_runtime : FloatBuiltins :=
  {| float_of_str := decimal_float;
     str_of_float := print_float;
     int_of_product :=
       fun n x =>
         match x with
         | Finite q => Some (Z.quot (n * Qnum q) (Zpos (Qden q)))
         | _ => None
         end |}.

Definition sample_byte (v : Z) : Byte.byte :=
  match Byte.of_N (Z.to_N (v mod 256)) with
  | Some b => b
  | None => Byte.x00
  end.

(** A codec for the examples: it keeps the samples and frames them with
    the JPEG start and end markers. *)
#[export] Instance sample_codec : Cv2.codec :=
  {| Cv2.cvtColor_RGB2BGR := fun d => Some d;
     Cv2.cvtColor_GRAY2BGR := fun d => Some d;
     Cv2.applyColorMap_JET := fun d => Some d;
     Cv2.resize_linear := fun d _ _ => Some d;
     Cv2.imencode_jpg :=
       fun d quality =>
         [Byte.xff; Byte.xd8] ++ sample_byte quality :: map sample_byte d
         ++ [Byte.xff; Byte.xd9] |}.

Definition all_available : Config.flags :=
  {| Config.FREENECT_AVAILABLE := true; Config.CV2_AVAILABLE := true;
     Config.KINECT_AVAILABLE := true |}.

Definition kinect_ok : Kinect.KinectCapture :=
  {| Kinect.consecutive_failures := 0; Kinect._available := true;
     Kinect.debug := false |}.


(** A machine with the camera tool installed, and one without: no instance
    has been started yet. *)
Definition camera_world : PiCam.world :=
  {| PiCam.instances := fun _ => PiCam.fresh (Some "rpicam-vid"%string);
     PiCam._active_instance := None;
     PiCam.alive := [];
     PiCam.next_pid := 100;
     PiCam.history := [] |}.

Definition no_camera_world : PiCam.world :=
  {| PiCam.instances := fun _ => PiCam.fresh None;
     PiCam._active_instance := None;
     PiCam.alive := [];
     PiCam.next_pid := 100;
     PiCam.history := [] |}.

(** Instance 0 has been started with preset [high]. *)
Definition camera_running : PiCam.world :=
  snd (PiCam.start 0 "high" PiCam.Launches camera_world).

(** Three streams: A and B select the Kinect colour camera, C the Pi
    camera; the Kinect works, the Pi camera runs and has published a frame. *)
Definition stream_on (stream_id source : string) : StreamState :=
  init stream_id (Some source).

Definition three_streams : Manager.world :=
  {| Manager.flags := all_available;
     Manager.state :=
       {| running := true; debug := false;
          streams := [ ("A"%string, stream_on "A" "kinect_rgb");
                       ("B"%string, stream_on "B" "kinect_rgb");
                       ("C"%string, stream_on "C" "picam") ] |};
     Manager.kinect := kinect_ok;
     Manager.cameras := PiCam.reader_publish 0 jpeg_a camera_running;
     Manager._running := true |}.

Definition picam_started : Manager.loop_vars :=
  {| Manager.last_picam_preset := Some "high"%string; Manager.picam_running := true |}.

Definition good_cycle : Manager.cycle_env :=
  {| Manager.kinect_read := fun _ => Kinect.ReadData [10; 20; 30];
     Manager.launching := PiCam.Launches;
     Manager.stamp := fun _ => 5%Q |}.

(** The registry of the server: [main] on the Kinect colour camera,
    [secondary] on the Pi camera. *)
Definition two_streams : Manager.world :=
  {| Manager.flags := all_available;
     Manager.state :=
       {| running := true; debug := false;
          streams := [ ("main"%string, stream_on "main" "kinect_rgb");
                       ("secondary"%string, stream_on "secondary" "picam") ] |};
     Manager.kinect := kinect_ok;
     Manager.cameras := camera_running;
     Manager._running := true |}.

(** The fields carried by [/switch?source=picam&quality=999]. *)
Definition source_and_bad_quality : list (string * string) :=
  [("source", "picam"); ("quality", "999")]%string.

End Samples.

(* ================================================================== *)
(** * Part II: properties                                              *)
(* ================================================================== *)

Import Py State.

(** ** Stream state: sequence numbers, settings, client counter *)

Section StreamStateFacts.

Lemma frame_id_notify_all (s : StreamState) : frame_id (notify_all s) = frame_id s.
Proof. reflexivity. Qed.

Lemma frame_id_apply_op (o : op) (s : StreamState) :
  frame_id (apply_op o s)
  = frame_id s + match o with OpSetFrame _ _ => 1 | _ => 0 end.
Proof. destruct o; simpl; lia. Qed.

Lemma posted_nonneg (ops : list op) : 0 <= posted ops.
Proof. induction ops as [|o ops IH]; simpl; [lia | destruct o; lia]. Qed.

Lemma frame_id_run_ops (ops : list op) :
  forall s, frame_id (run_ops ops s) = frame_id s + posted ops.
Proof.
  induction ops as [|o ops IH]; intros s; simpl.
  - lia.
  - unfold run_ops in IH. rewrite IH, frame_id_apply_op. destruct o; lia.
Qed.

Lemma frame_id_run_ops_mono (ops : list op) (s : StreamState) :
  frame_id s <= frame_id (run_ops ops s).
Proof. rewrite frame_id_run_ops. pose proof (posted_nonneg ops). lia. Qed.

Lemma run_ops_app (xs ys : list op) (s : StreamState) :
  run_ops (xs ++ ys) s = run_ops ys (run_ops xs s).
Proof. unfold run_ops. apply fold_left_app. Qed.

(** No operation of another thread queues a waiter. *)
Lemma waiters_apply_op (o : op) (s : StreamState) (w : nat) :
  In w (frame_condition (apply_op o s)) -> In w (frame_condition s).
Proof. destruct o; simpl; tauto. Qed.

Lemma waiters_run_ops (ops : list op) :
  forall (s : StreamState) (w : nat),
    In w (frame_condition (run_ops ops s)) -> In w (frame_condition s).
Proof.
  induction ops as [|o ops IH]; intros s w H; simpl in *.
  - exact H.
  - apply (waiters_apply_op o). apply IH. exact H.
Qed.

Lemma not_waiting_not_found (me : nat) (l : list nat) :
  ~ In me l -> existsb (Nat.eqb me) l = false.
Proof.
  intros H. destruct (existsb (Nat.eqb me) l) eqn:E; [|reflexivity].
  apply existsb_exists in E. destruct E as [x [Hin Heq]].
  apply Nat.eqb_eq in Heq. subst x. contradiction.
Qed.

(** A frame posted while a consumer is blocked releases that consumer. *)
Lemma wait_notified_by_set_frame (me : nat) (before after : list op)
      (b : bytes) (now : Q) (s : StreamState) :
  fst (wait me (before ++ OpSetFrame b now :: after) s) = true.
Proof.
  unfold wait. rewrite run_ops_app. simpl.
  rewrite not_waiting_not_found; [reflexivity|].
  intros H. apply waiters_run_ops in H. simpl in H. exact H.
Qed.

Lemma frame_id_wait (me : nat) (others : list op) (s : StreamState) :
  frame_id (snd (wait me others s)) = frame_id s + posted others.
Proof.
  unfold wait.
  destruct (existsb (Nat.eqb me) (frame_condition (run_ops others (enqueue me s))));
    simpl; rewrite frame_id_run_ops; reflexivity.
Qed.

End StreamStateFacts.

(** C2: [set_frame] stores the bytes as the current frame, adds exactly one
    to the frame sequence and to [frames_captured], records the timestamp
    and releases every waiter (the waiter list is empty afterwards, and a
    consumer blocked in [wait] while a frame is posted is notified); so the
    sequence strictly increases on every capture, and under any sequence of
    operations it grows by the number of frames posted and never decreases. *)
Theorem set_frame_advances_sequence :
  forall (s : StreamState) (b : bytes) (now : Q),
    frame (set_frame b now s) = Some b
    /\ frame_id (set_frame b now s) = frame_id s + 1
    /\ frames_captured (stats (set_frame b now s)) = frames_captured (stats s) + 1
    /\ last_frame_time (stats (set_frame b now s)) = now
    /\ frame_condition (set_frame b now s) = []
    /\ (forall (me : nat) (before after : list op) (s0 : StreamState),
           fst (wait me (before ++ OpSetFrame b now :: after) s0) = true)
    /\ frame_id s < frame_id (set_frame b now s)
    /\ (forall ops : list op,
           frame_id (run_ops ops s) = frame_id s + posted ops
           /\ frame_id s <= frame_id (run_ops ops s)).
Proof.
  intros s b now. repeat split; try reflexivity.
  - intros me before after s0. apply wait_notified_by_set_frame.
  - simpl. lia.
  - apply frame_id_run_ops.
  - apply frame_id_run_ops_mono.
Qed.

Section ClampFacts.

Lemma clamp_int_spec (q : Z) : max_int 1 (min_int 100 q) = Z.max 1 (Z.min 100 q).
Proof.
  unfold max_int, min_int.
  destruct (q <? 100) eqn:E1; [apply Z.ltb_lt in E1 | apply Z.ltb_ge in E1].
  - destruct (1 <? q) eqn:E2; [apply Z.ltb_lt in E2 | apply Z.ltb_ge in E2]; lia.
  - simpl. lia.
Qed.




End ClampFacts.


(** C10: [increment_clients] adds one, [decrement_clients] is
    [max(0, n - 1)] (so it leaves a counter at zero at zero and never yields
    a negative value), and a counter that is not negative stays so under
    every sequence of operations on the stream. *)
Theorem clients_connected_never_negative :
  forall (s : StreamState) (ops : list op),
    0 <= clients_connected (stats s) ->
    clients_connected (stats (snd (increment_clients s)))
    = clients_connected (stats s) + 1
    /\ fst (increment_clients s) = clients_connected (stats s) + 1
    /\ clients_connected (stats (snd (decrement_clients s)))
       = Z.max 0 (clients_connected (stats s) - 1)
    /\ fst (decrement_clients s) = Z.max 0 (clients_connected (stats s) - 1)
    /\ (clients_connected (stats s) = 0 ->
        clients_connected (stats (snd (decrement_clients s))) = 0)
    /\ 0 <= clients_connected (stats (run_ops ops s)).
Proof.
  intros s ops H.
  assert (Hdec : forall n, max_int 0 (n - 1) = Z.max 0 (n - 1)).
  { intros n. unfold max_int.
    destruct (0 <? n - 1) eqn:E; [apply Z.ltb_lt in E | apply Z.ltb_ge in E]; lia. }
  repeat split; simpl; try rewrite Hdec; try lia.
  revert s H. induction ops as [|o ops IH]; intros s H; simpl.
  - exact H.
  - apply IH. destruct o; simpl; try rewrite Hdec; lia.
Qed.

Lemma clients_connected_never_negative_witness :
  0 <= clients_connected (stats (init "main" None))
  /\ 0 <= clients_connected
            (stats (run_ops [OpDecrementClients; OpIncrementClients;
                             OpDecrementClients; OpDecrementClients]
                            (init "main" None))).
Proof.
  split.
  - simpl. lia.
  - apply (clients_connected_never_negative (init "main" None)). simpl. lia.
Defined.

(** ** [get_frame] *)

Section GetFrameFacts.

Variables (me : nat) (deadline : Q) (last : Z).

Lemma wait_loop_newer (env : list wait_step) (s : StreamState) :
  frame_id s <> last ->
  wait_loop me deadline last env s = Some ((frame s, frame_id s), s).
Proof.
  intros H. destruct env; simpl;
    (destruct (frame_id s =? last) eqn:E; [apply Z.eqb_eq in E; contradiction | reflexivity]).
Qed.

Lemma wait_loop_deadline (e : wait_step) (env : list wait_step) (s : StreamState) :
  frame_id s = last ->
  (deadline <= clock e)%Q ->
  wait_loop me deadline last (e :: env) s = Some ((None, last), s).
Proof.
  intros H D. simpl. rewrite (proj2 (Z.eqb_eq _ _) H).
  assert (L : Qle_bool (deadline - clock e) 0 = true).
  { apply Qle_bool_iff. apply (Qplus_le_l _ _ (clock e)). ring_simplify. exact D. }
  rewrite L. reflexivity.
Qed.

Lemma before_deadline (e : wait_step) :
  ~ (deadline <= clock e)%Q -> Qle_bool (deadline - clock e) 0 = false.
Proof.
  intros D. destruct (Qle_bool (deadline - clock e) 0) eqn:L; [|reflexivity].
  exfalso. apply D. apply Qle_bool_iff in L.
  apply (Qplus_le_l _ _ (clock e)) in L. ring_simplify in L. exact L.
Qed.

Lemma wait_loop_wait_timeout (e : wait_step) (env : list wait_step) (s : StreamState) :
  frame_id s = last ->
  ~ (deadline <= clock e)%Q ->
  fst (wait me (during e) s) = false ->
  wait_loop me deadline last (e :: env) s
  = Some ((None, last), snd (wait me (during e) s)).
Proof.
  intros H D W. simpl. rewrite (proj2 (Z.eqb_eq _ _) H), (before_deadline e D).
  destruct (wait me (during e) s) as [n s']. simpl in *. subst n. reflexivity.
Qed.

Lemma wait_loop_notified (e : wait_step) (env : list wait_step) (s : StreamState) :
  frame_id s = last ->
  ~ (deadline <= clock e)%Q ->
  fst (wait me (during e) s) = true ->
  wait_loop me deadline last (e :: env) s
  = wait_loop me deadline last env (snd (wait me (during e) s)).
Proof.
  intros H D W. simpl. rewrite (proj2 (Z.eqb_eq _ _) H), (before_deadline e D).
  destruct (wait me (during e) s) as [n s']. simpl in *. subst n. reflexivity.
Qed.

Lemma wait_loop_result (env : list wait_step) :
  forall (s : StreamState) (r : option bytes) (seq : Z) (s' : StreamState),
    last <= frame_id s ->
    wait_loop me deadline last env s = Some ((r, seq), s') ->
    (r = None /\ seq = last)
    \/ (r = frame s' /\ seq = frame_id s' /\ last < seq).
Proof.
  induction env as [|e env IH]; intros s r seq s' Hle H.
  - simpl in H. destruct (frame_id s =? last) eqn:E; [discriminate|].
    apply Z.eqb_neq in E. inversion H; subst. right. repeat split. lia.
  - simpl in H. destruct (frame_id s =? last) eqn:E.
    + destruct (Qle_bool (deadline - clock e) 0).
      * inversion H; subst. left. split; reflexivity.
      * pose proof (frame_id_wait me (during e) s) as Hw.
        pose proof (posted_nonneg (during e)) as Hp.
        destruct (wait me (during e) s) as [n s1]. simpl in Hw.
        destruct n; simpl in H.
        -- apply (IH s1); [lia | exact H].
        -- inversion H; subst. left. split; reflexivity.
    + apply Z.eqb_neq in E. inversion H; subst. right. repeat split. lia.
Qed.

End GetFrameFacts.

(** A wake-up caused by [GlobalState.shutdown] does not end the call: the
    loop finds the sequence unchanged and waits again. *)
Lemma get_frame_waits_again_after_shutdown :
  forall (me : nat) (now timeout : Q) (last : Z) (s : StreamState)
         (e : wait_step) (env : list wait_step),
    frame_id s = last ->
    ~ (now + timeout <= clock e)%Q ->
    during e = [OpShutdownNotify] ->
    get_frame me now (e :: env) last timeout s
    = get_frame me now env last timeout (notify_all s)
    /\ get_frame me now [e] last timeout s = None.
Proof.
  intros me now timeout last s e env H D Hd.
  assert (W : wait me (during e) s = (true, notify_all s)).
  { rewrite Hd. unfold wait. simpl. reflexivity. }
  unfold get_frame. split.
  - rewrite wait_loop_notified; try assumption; rewrite W; reflexivity.
  - rewrite wait_loop_notified; try assumption; rewrite W; [|reflexivity].
    simpl. rewrite (proj2 (Z.eqb_eq _ _) H). reflexivity.
Qed.

(** C1 (amended): [get_frame] returns [(None, last_frame_id)] on both
    timeout exits (deadline already passed, or the wait itself timed out);
    it returns at once when the sequence already differs from
    [last_frame_id], and returns a frame posted while it was blocked; and
    whenever it returns, the result is either the timeout pair or the
    stream's current frame and current sequence, which is strictly greater
    than [last_frame_id] provided [last_frame_id] did not exceed the
    stream's sequence at the call. *)
Theorem get_frame_timeout_or_newer_frame :
  forall (me : nat) (now timeout : Q) (last : Z) (s : StreamState),
    last <= frame_id s ->
    (forall e env,
        frame_id s = last -> (now + timeout <= clock e)%Q ->
        get_frame me now (e :: env) last timeout s = Some ((None, last), s))
    /\ (forall e env,
           frame_id s = last -> ~ (now + timeout <= clock e)%Q ->
           fst (wait me (during e) s) = false ->
           get_frame me now (e :: env) last timeout s
           = Some ((None, last), snd (wait me (during e) s)))
    /\ (forall env,
           frame_id s <> last ->
           get_frame me now env last timeout s = Some ((frame s, frame_id s), s))
    /\ (forall e env b t,
           frame_id s = last -> ~ (now + timeout <= clock e)%Q ->
           during e = [OpSetFrame b t] ->
           get_frame me now (e :: env) last timeout s
           = Some ((Some b, last + 1), set_frame b t s))
    /\ (forall env r seq s',
           get_frame me now env last timeout s = Some ((r, seq), s') ->
           (r = None /\ seq = last)
           \/ (r = frame s' /\ seq = frame_id s' /\ last < seq)).
Proof.
  intros me now timeout last s Hle. unfold get_frame.
  split; [|split; [|split; [|split]]].
  - intros e env H D. apply wait_loop_deadline; assumption.
  - intros e env H D W. apply wait_loop_wait_timeout; assumption.
  - intros env H. apply wait_loop_newer; assumption.
  - intros e env b t H D Hd.
    assert (W : wait me (during e) s = (true, set_frame b t s)).
    { rewrite Hd. unfold wait. simpl. reflexivity. }
    rewrite wait_loop_notified; try assumption; rewrite W; [|reflexivity].
    simpl snd. rewrite wait_loop_newer; simpl; [|lia].
    rewrite H. reflexivity.
  - intros env r seq s' H. eapply wait_loop_result; eassumption.
Qed.

Lemma get_frame_timeout_or_newer_frame_witness :
  0 <= frame_id (init "main" None)
  /\ get_frame 7 100 [ {| clock := 100.5; during := [OpSetFrame Samples.jpeg_a 100.6] |} ]
               0 1 (init "main" None)
     = Some ((Some Samples.jpeg_a, 0 + 1),
             set_frame Samples.jpeg_a 100.6 (init "main" None)).
Proof.
  split.
  - simpl. lia.
  - apply (get_frame_timeout_or_newer_frame 7 100 1 0 (init "main" None)).
    + simpl. lia.
    + reflexivity.
    + unfold Qle. simpl. lia.
    + reflexivity.
Defined.

(** C1, as stated, fails: a caller whose [last_frame_id] is ahead of the
    stream (10 against a stream at sequence 3) gets the stored frame back at
    once, with a sequence that is smaller than the one it passed. *)
Lemma get_frame_stale_sequence_counterexample :
  get_frame 7 100 [] 10 1 Samples.three_frames
  = Some ((Some Samples.jpeg_a, 3), Samples.three_frames)
  /\ ~ (10 < 3)
  /\ ~ (forall me now env last timeout s f seq s',
           get_frame me now env last timeout s = Some ((Some f, seq), s') ->
           seq = frame_id s' /\ last < seq).
Proof.
  split; [reflexivity|]. split; [lia|].
  intros H.
  specialize (H 7%nat 100%Q [] 10 1%Q Samples.three_frames Samples.jpeg_a 3
                Samples.three_frames eq_refl).
  destruct H as [_ H]. lia.
Qed.

(** ** Kinect: failure counter and availability *)

Section KinectFacts.
Import Config Kinect.
Context {F : FloatBuiltins} {C : Cv2.codec}.

Lemma handle_failure_spec (c : flags) (k : KinectCapture) :
  _handle_failure c k
  = (if consecutive_failures k + 1 >=? max_failures
     then update_kinect_availability false c else c,
     {| consecutive_failures := consecutive_failures k + 1;
        _available :=
          if consecutive_failures k + 1 >=? max_failures then false else _available k;
        debug := debug k |}).
Proof.
  unfold _handle_failure, _mark_unavailable. simpl.
  destruct (consecutive_failures k + 1 >=? max_failures); reflexivity.
Qed.

(** With a known mode, [get_frame] on an available Kinect in terms of the
    conversion of the mode. *)
Lemma get_frame_convert (m : string) (x : pyfloat) (r : read)
      (c : flags) (k : KinectCapture) :
  is_available c k = true ->
  known_mode m = true ->
  get_frame m x r c k
  = match r with
    | ReadNone | ReadRaises => failed c k
    | ReadData data =>
        match convert m data with
        | Some frame => finish frame x c k
        | None => failed c k
        end
    end.
Proof.
  intros Ha Hm. unfold get_frame, convert. rewrite Ha. cbn [negb].
  unfold known_mode in Hm.
  destruct (String.eqb m "rgb"); [destruct r; reflexivity|].
  destruct (String.eqb m "ir"); [destruct r; reflexivity|].
  destruct (String.eqb m "depth"); [destruct r; reflexivity | discriminate Hm].
Qed.


Lemma failing_before_reset (a : attempt) :
  failing a = true -> fails_before_reset a = true.
Proof.
  unfold failing, fails_before_reset. intros H.
  apply andb_true_iff in H as [Hm Hr]. rewrite Hm.
  destruct (outcome a); [reflexivity | reflexivity | discriminate Hr].
Qed.

Lemma forallb_failing_before_reset (attempts : list attempt) :
  forallb failing attempts = true -> forallb fails_before_reset attempts = true.
Proof.
  rewrite !forallb_forall. intros H a Ha. apply failing_before_reset, H, Ha.
Qed.

Lemma get_frame_failure (a : attempt) (c : flags) (k : KinectCapture) :
  is_available c k = true ->
  fails_before_reset a = true ->
  get_frame (mode a) (scale a) (outcome a) c k = failed c k.
Proof.
  intros Ha Hf. unfold fails_before_reset in Hf. apply andb_true_iff in Hf.
  destruct Hf as [Hm Hr]. rewrite (get_frame_convert _ _ _ _ _ Ha Hm).
  destruct (outcome a) as [| |data]; [reflexivity | reflexivity|].
  destruct (convert (mode a) data); [discriminate Hr | reflexivity].
Qed.






Lemma get_frame_unavailable (m : string) (x : pyfloat) (r : read)
      (c : flags) (k : KinectCapture) :
  is_available c k = false -> get_frame m x r c k = (None, c, k).
Proof. intros Ha. unfold get_frame. rewrite Ha. reflexivity. Qed.

Lemma is_available_flag (a : bool) (c : flags) (k : KinectCapture) :
  is_available (update_kinect_availability a c) k = is_available c k.
Proof. reflexivity. Qed.

(** Failures in a row, starting from any count below the threshold. *)
Lemma captures_failures (attempts : list attempt) :
  forall (c : flags) (k : KinectCapture),
    is_available c k = true ->
    forallb fails_before_reset attempts = true ->
    consecutive_failures k < max_failures ->
    consecutive_failures k + Z.of_nat (length attempts) <= max_failures ->
    let '(fs, c', k') := captures attempts c k in
    let n := consecutive_failures k + Z.of_nat (length attempts) in
    fs = repeat None (length attempts)
    /\ consecutive_failures k' = n
    /\ _available k' = (n <? max_failures)
    /\ KINECT_AVAILABLE c' = (if n <? max_failures then KINECT_AVAILABLE c else false)
    /\ FREENECT_AVAILABLE c' = FREENECT_AVAILABLE c
    /\ CV2_AVAILABLE c' = CV2_AVAILABLE c.
Proof.
  induction attempts as [|a rest IH]; intros c k Ha Hf Hlt Hn.
  - cbn [captures length Z.of_nat]. rewrite Z.add_0_r.
    destruct (Z.ltb_spec (consecutive_failures k) max_failures); [|lia].
    unfold is_available in Ha. apply andb_true_iff in Ha. destruct Ha as [Ha _].
    apply andb_true_iff in Ha. destruct Ha as [Ha _].
    repeat split; assumption.
  - cbn [forallb] in Hf. apply andb_true_iff in Hf. destruct Hf as [Hfa Hfr].
    cbn [captures]. rewrite (get_frame_failure a c k Ha Hfa).
    unfold failed. rewrite handle_failure_spec.
    cbn [length] in *. rewrite Nat2Z.inj_succ in *.
    destruct (Z.geb_spec (consecutive_failures k + 1) max_failures) as [E|E].
    + (* the threshold is reached: this was the last attempt *)
      assert (Hr : rest = []) by (destruct rest; [reflexivity | cbn [length] in Hn; lia]).
      subst rest. cbn [captures length Z.of_nat repeat].
      replace (consecutive_failures k + Z.succ 0) with max_failures by lia.
      cbn. repeat split. lia.
    + set (k1 := {| consecutive_failures := consecutive_failures k + 1;
                    _available := _available k; debug := debug k |}).
      assert (Ha1 : is_available c k1 = true) by exact Ha.
      assert (Hlt1 : consecutive_failures k1 < max_failures) by (cbn; lia).
      assert (Hn1 : consecutive_failures k1 + Z.of_nat (length rest) <= max_failures)
        by (cbn; lia).
      specialize (IH c k1 Ha1 Hfr Hlt1 Hn1).
      destruct (captures rest c k1) as [[fs c'] k'].
      cbn [consecutive_failures k1] in IH.
      replace (consecutive_failures k + Z.succ (Z.of_nat (length rest)))
        with (consecutive_failures k + 1 + Z.of_nat (length rest)) by lia.
      destruct IH as (Hfs & Hcf & Hav & Hk & Hfr' & Hcv).
      repeat split; try assumption.
      cbn [repeat]. rewrite Hfs. reflexivity.
Qed.

End KinectFacts.




(** ** Pi camera: idempotent start and mutual exclusion *)

Section PiCamFacts.
Import PiCam.

Lemma replay_snoc (h : list os_event) (e : os_event) :
  replay (h ++ [e]) = replay_event (replay h) e.
Proof. unfold replay. rewrite fold_left_app. reflexivity. Qed.

Lemma never_two_nil : never_two [].
Proof.
  intros h1 h2 E. symmetry in E. apply app_eq_nil in E. destruct E as [E _].
  subst h1. simpl. lia.
Qed.

Lemma never_two_snoc (h : list os_event) (e : os_event) :
  never_two h ->
  (length (replay (h ++ [e])) <= 1)%nat ->
  never_two (h ++ [e]).
Proof.
  intros N L h1 h2 E.
  destruct h2 as [|x h2] using rev_ind.
  - rewrite app_nil_r in E. subst h1. exact L.
  - clear IHh2. rewrite app_assoc in E. apply app_inj_tail in E.
    destruct E as [E _]. apply (N h1 h2). exact E.
Qed.

Lemma filter_single (p : nat) :
  filter (fun q => negb (Nat.eqb q p)) [p] = [].
Proof. simpl. rewrite Nat.eqb_refl. reflexivity. Qed.

(** The fields of the world after [_stop_internal]. *)
Lemma stop_internal_fields (self : nat) (w : world) :
  (forall j, instances (_stop_internal self w) j
             = if Nat.eqb j self then stopped (instances w self) else instances w j)
  /\ _active_instance (_stop_internal self w)
     = match _active_instance w with
       | Some a => if Nat.eqb a self then None else Some a
       | None => None
       end
  /\ alive (_stop_internal self w)
     = match process (instances w self) with
       | Some pid => filter (fun p => negb (Nat.eqb p pid)) (alive w)
       | None => alive w
       end
  /\ next_pid (_stop_internal self w) = next_pid w
  /\ history (_stop_internal self w)
     = history w ++ match process (instances w self) with
                    | Some pid => [Terminated pid]
                    | None => []
                    end.
Proof.
  unfold _stop_internal.
  destruct (process (instances w self)) as [pid|];
    destruct (_active_instance w) as [a|] eqn:Ea; cbn; rewrite ?Ea;
      try destruct (Nat.eqb a self); cbn; rewrite ?Ea;
        rewrite ?app_nil_r; repeat split; reflexivity.
Qed.

(** Stopping the instance that holds the subprocess. *)
Lemma stop_internal_holder (w : world) (a p : nat) :
  invariant w ->
  _active_instance w = Some a ->
  process (instances w a) = Some p ->
  invariant (_stop_internal a w)
  /\ _active_instance (_stop_internal a w) = None
  /\ alive (_stop_internal a w) = []
  /\ (forall j, process (instances (_stop_internal a w) j) = None)
  /\ history (_stop_internal a w) = history w ++ [Terminated p].
Proof.
  intros (X & R & N) Ha Hp. unfold exclusive in X. rewrite Ha in X.
  destruct X as [[p' [Hp' Hal]] Hothers].
  rewrite Hp in Hp'. inversion Hp'; subst p'. clear Hp'.
  destruct (stop_internal_fields a w) as (Fi & Fa & Fl & Fn & Fh).
  rewrite Ha, Nat.eqb_refl in Fa. rewrite Hp, Hal, filter_single in Fl.
  rewrite Hp in Fh.
  assert (Hall : forall j, process (instances (_stop_internal a w) j) = None).
  { intros j. rewrite Fi. destruct (Nat.eqb_spec j a); [reflexivity | apply Hothers; assumption]. }
  assert (Hrep : replay (history w ++ [Terminated p]) = []).
  { rewrite replay_snoc, R, Hal. apply filter_single. }
  repeat split; try assumption.
  - unfold exclusive. rewrite Fa. split; assumption.
  - rewrite Fh, Fl. exact Hrep.
  - rewrite Fh. apply never_two_snoc; [exact N|]. rewrite Hrep. simpl. lia.
Qed.

(** Stopping an instance that holds no subprocess only resets its fields. *)
Lemma stop_internal_idle (w : world) (self : nat) :
  invariant w ->
  process (instances w self) = None ->
  invariant (_stop_internal self w)
  /\ _active_instance (_stop_internal self w) = _active_instance w
  /\ alive (_stop_internal self w) = alive w
  /\ (forall j, process (instances (_stop_internal self w) j) = process (instances w j))
  /\ history (_stop_internal self w) = history w.
Proof.
  intros (X & R & N) Hp.
  destruct (stop_internal_fields self w) as (Fi & Fa & Fl & Fn & Fh).
  rewrite Hp in Fl, Fh. rewrite app_nil_r in Fh.
  assert (Hproc : forall j, process (instances (_stop_internal self w) j)
                            = process (instances w j)).
  { intros j. rewrite Fi. destruct (Nat.eqb_spec j self); [subst; rewrite Hp|]; reflexivity. }
  assert (Hact : _active_instance (_stop_internal self w) = _active_instance w).
  { rewrite Fa. unfold exclusive in X. destruct (_active_instance w) as [a|]; [|reflexivity].
    destruct X as [[p [Hpa _]] _].
    destruct (Nat.eqb_spec a self); [subst; congruence | reflexivity]. }
  repeat split; try assumption.
  - unfold exclusive in *. rewrite Hact, Fl.
    destruct (_active_instance w) as [a|].
    + destruct X as [[p [Hpa Hal]] Ho]. split.
      * exists p. rewrite Hproc. split; assumption.
      * intros j Hj. rewrite Hproc. apply Ho. exact Hj.
    + destruct X as [Hal Ho]. split; [exact Hal|]. intros j. rewrite Hproc. apply Ho.
  - rewrite Fh, Fl. exact R.
  - rewrite Fh. exact N.
Qed.

(** Launching when nothing runs and the reader thread can be started. *)
Lemma launch_idle (self : nat) (preset : string) (o : launching) (w : world) :
  invariant w ->
  _active_instance w = None ->
  o <> ThreadStartRaises ->
  invariant (snd (launch self preset o w))
  /\ (forall command,
         _available_command (instances w self) = Some command ->
         o = Launches ->
         fst (launch self preset o w) = true
         /\ _active_instance (snd (launch self preset o w)) = Some self
         /\ process (instances (snd (launch self preset o w)) self)
            = Some (next_pid w)
         /\ current_preset (instances (snd (launch self preset o w)) self)
            = Some preset
         /\ alive (snd (launch self preset o w)) = [next_pid w]
         /\ history (snd (launch self preset o w))
            = history w ++ [Spawned (next_pid w) (argv command preset)])
  /\ (_available_command (instances w self) = None \/ o = PopenRaises ->
      launch self preset o w = (false, w)).
Proof.
  intros (X & R & N) Ha Ho. unfold exclusive in X. rewrite Ha in X.
  destruct X as [Hal Hnone].
  unfold launch.
  destruct (_available_command (instances w self)) as [command|] eqn:Ec.
  - destruct o; [| |contradiction].
    + cbn. split; [|split].
      * split; [|split].
        -- unfold exclusive. cbn. rewrite Nat.eqb_refl. cbn. split.
           ++ exists (next_pid w). rewrite Hal. split; reflexivity.
           ++ intros j Hj. destruct (Nat.eqb_spec j self) as [e|e];
                [exfalso; apply Hj; exact e | apply Hnone].
        -- cbn. rewrite replay_snoc, R, Hal. reflexivity.
        -- cbn. apply never_two_snoc; [exact N|].
           rewrite replay_snoc, R, Hal. simpl. lia.
      * intros command' Hc _. inversion Hc; subst.
        rewrite Nat.eqb_refl. cbn. rewrite Hal. repeat split.
      * intros [Hc | Hc]; discriminate.
    + cbn. split; [|split].
      * split; [|split]; try assumption. unfold exclusive. rewrite Ha. split; assumption.
      * intros command' _ Hc. discriminate.
      * intros _. reflexivity.
  - cbn. split; [|split].
    + split; [|split]; try assumption. unfold exclusive. rewrite Ha. split; assumption.
    + intros command' Hc. discriminate.
    + intros _. reflexivity.
Qed.

Lemma spawns_terminated (h : list os_event) (p : nat) :
  spawns (h ++ [Terminated p]) = spawns h.
Proof. unfold spawns. rewrite filter_app, length_app. simpl. lia. Qed.

Lemma spawns_spawned (h : list os_event) (p : nat) (args : list string) :
  spawns (h ++ [Spawned p args]) = S (spawns h).
Proof. unfold spawns. rewrite filter_app, length_app. simpl. lia. Qed.

(** What [_stop_internal] leaves alone. *)
Lemma stop_internal_keeps (a : nat) (w : world) :
  (forall j, _available_command (instances (_stop_internal a w) j)
             = _available_command (instances w j))
  /\ (forall j, j <> a -> instances (_stop_internal a w) j = instances w j)
  /\ process (instances (_stop_internal a w) a) = None
  /\ next_pid (_stop_internal a w) = next_pid w
  /\ spawns (history (_stop_internal a w)) = spawns (history w).
Proof.
  destruct (stop_internal_fields a w) as (Fi & Fa & Fl & Fn & Fh).
  split; [|split; [|split; [|split]]].
  - intros j. rewrite Fi. destruct (Nat.eqb_spec j a); [subst|]; reflexivity.
  - intros j Hj. rewrite Fi. destruct (Nat.eqb_spec j a); [contradiction|reflexivity].
  - rewrite Fi, Nat.eqb_refl. reflexivity.
  - exact Fn.
  - rewrite Fh. destruct (process (instances w a)).
    + apply spawns_terminated.
    + rewrite app_nil_r. reflexivity.
Qed.

Lemma stop_other_active_keeps (self : nat) (w : world) :
  instances (stop_other_active self w) self = instances w self
  /\ next_pid (stop_other_active self w) = next_pid w
  /\ spawns (history (stop_other_active self w)) = spawns (history w).
Proof.
  unfold stop_other_active. destruct (_active_instance w) as [a|]; [|repeat split].
  destruct (Nat.eqb_spec a self) as [e|e]; [repeat split|].
  destruct (stop_internal_keeps a w) as (_ & K & _ & Kn & Ks).
  split; [|split]; try assumption. apply K. intros E. apply e. symmetry. exact E.
Qed.

(** A launch that succeeds. *)
Lemma launch_success (self : nat) (preset command : string) (w : world) :
  _available_command (instances w self) = Some command ->
  fst (launch self preset Launches w) = true
  /\ _active_instance (snd (launch self preset Launches w)) = Some self
  /\ process (instances (snd (launch self preset Launches w)) self) = Some (next_pid w)
  /\ current_preset (instances (snd (launch self preset Launches w)) self) = Some preset
  /\ _available_command (instances (snd (launch self preset Launches w)) self) = Some command
  /\ next_pid (snd (launch self preset Launches w)) = S (next_pid w)
  /\ history (snd (launch self preset Launches w))
     = history w ++ [Spawned (next_pid w) (argv command preset)].
Proof.
  intros Hc. unfold launch, spawned. rewrite Hc. cbn. rewrite Nat.eqb_refl. cbn.
  repeat split.
Qed.

(** A first [start] that has something to do ends in [launch]. *)
Lemma start_launches (self : nat) (preset : string) (o : launching) (w : world) :
  process (instances w self) = None
  \/ current_preset (instances w self) <> Some preset ->
  exists w0,
    start self preset o w = launch self preset o w0
    /\ _available_command (instances w0 self) = _available_command (instances w self)
    /\ next_pid w0 = next_pid w
    /\ spawns (history w0) = spawns (history w).
Proof.
  intros Hidle. unfold start.
  destruct (stop_other_active_keeps self w) as (Ki & Kn & Ks).
  set (w1 := stop_other_active self w) in *.
  destruct (stop_internal_keeps self w1) as (Kc & _ & _ & Kn' & Ks').
  rewrite Ki.
  assert (Hstop : exists w0,
             launch self preset o (_stop_internal self w1)
             = launch self preset o w0
             /\ _available_command (instances w0 self)
                = _available_command (instances w self)
             /\ next_pid w0 = next_pid w
             /\ spawns (history w0) = spawns (history w)).
  { exists (_stop_internal self w1). split; [reflexivity|].
    rewrite Kc, Ki, Kn', Ks', Kn, Ks. repeat split. }
  destruct (process (instances w self)) as [pid|] eqn:Ep.
  - destruct (current_preset (instances w self)) as [p|] eqn:Ec; [|exact Hstop].
    destruct (String.eqb_spec p preset) as [e|e]; [|exact Hstop].
    subst p. destruct Hidle as [Hi | Hi]; [discriminate | contradiction].
  - exists w1. rewrite Ki. repeat split; assumption.
Qed.

(** A second [start] with the preset in use does nothing. *)
Lemma start_same_preset (self : nat) (preset : string) (o : launching)
      (w : world) (pid : nat) :
  _active_instance w = Some self ->
  process (instances w self) = Some pid ->
  current_preset (instances w self) = Some preset ->
  start self preset o w = (true, w).
Proof.
  intros Ha Hp Hc. unfold start, stop_other_active.
  rewrite Ha, Nat.eqb_refl, Hp, Hc, String.eqb_refl. reflexivity.
Qed.

(** A [start] with another preset stops the subprocess and launches anew. *)
Lemma start_other_preset (self : nat) (preset preset' : string) (o : launching)
      (w : world) (pid : nat) :
  _active_instance w = Some self ->
  process (instances w self) = Some pid ->
  current_preset (instances w self) = Some preset ->
  preset' <> preset ->
  start self preset' o w
  = launch self preset' o (_stop_internal self w)
  /\ history (_stop_internal self w) = history w ++ [Terminated pid]
  /\ next_pid (_stop_internal self w) = next_pid w
  /\ _available_command (instances (_stop_internal self w) self)
     = _available_command (instances w self).
Proof.
  intros Ha Hp Hc Hne. unfold start, stop_other_active.
  rewrite Ha, Nat.eqb_refl, Hp, Hc.
  destruct (String.eqb_spec preset preset') as [e|e]; [symmetry in e; contradiction|].
  destruct (stop_internal_fields self w) as (Fi & Fa & Fl & Fn & Fh).
  rewrite Hp in Fh. repeat split; try assumption.
  rewrite Fi, Nat.eqb_refl. reflexivity.
Qed.

(** In a world that satisfies the invariant, the holder of a subprocess is
    the active instance. *)
Lemma holder_is_active (w : world) (self pid : nat) :
  exclusive w ->
  process (instances w self) = Some pid ->
  _active_instance w = Some self.
Proof.
  unfold exclusive. intros X Hp. destruct (_active_instance w) as [a|].
  - destruct X as [_ Ho]. destruct (Nat.eq_dec self a) as [e|e]; [subst; reflexivity|].
    rewrite (Ho self e) in Hp. discriminate.
  - destruct X as [_ Ho]. rewrite Ho in Hp. discriminate.
Qed.

Lemma active_is_holder (w : world) (a : nat) :
  exclusive w ->
  _active_instance w = Some a ->
  exists p, process (instances w a) = Some p.
Proof.
  unfold exclusive. intros X Ha. rewrite Ha in X.
  destruct X as [[p [Hp _]] _]. exists p. exact Hp.
Qed.

Lemma stop_other_active_invariant (self : nat) (w : world) :
  invariant w ->
  invariant (stop_other_active self w)
  /\ (_active_instance (stop_other_active self w) = None
      \/ _active_instance (stop_other_active self w) = Some self).
Proof.
  intros I. unfold stop_other_active.
  destruct (_active_instance w) as [a|] eqn:Ea.
  - destruct (Nat.eqb_spec a self) as [e|e].
    + subst a. split; [exact I | right; exact Ea].
    + destruct (active_is_holder w a (proj1 I) Ea) as [p Hp].
      destruct (stop_internal_holder w a p I Ea Hp) as (I' & Ha' & _).
      split; [exact I' | left; exact Ha'].
  - split; [exact I | left; exact Ea].
Qed.

Lemma stop_invariant (self : nat) (w : world) :
  invariant w -> invariant (stop self w).
Proof.
  intros I. unfold stop.
  destruct (process (instances w self)) as [p|] eqn:Ep.
  - pose proof (holder_is_active w self p (proj1 I) Ep) as Ha.
    apply (stop_internal_holder w self p I Ha Ep).
  - apply (stop_internal_idle w self I Ep).
Qed.

Lemma start_invariant (self : nat) (preset : string) (o : launching) (w : world) :
  o <> ThreadStartRaises ->
  invariant w -> invariant (snd (start self preset o w)).
Proof.
  intros Ho I. unfold start.
  destruct (stop_other_active_invariant self w I) as [I1 Hact].
  set (w1 := stop_other_active self w) in *.
  assert (Hrestart : forall pid,
             process (instances w1 self) = Some pid ->
             invariant (snd (launch self preset o (_stop_internal self w1)))).
  { intros pid Ep.
    pose proof (holder_is_active w1 self pid (proj1 I1) Ep) as Ha.
    destruct (stop_internal_holder w1 self pid I1 Ha Ep) as (I2 & Ha2 & _).
    apply (launch_idle self preset o _ I2 Ha2 Ho). }
  destruct (process (instances w1 self)) as [pid|] eqn:Ep.
  - destruct (current_preset (instances w1 self)) as [p|].
    + destruct (String.eqb p preset); [exact I1 | apply (Hrestart pid eq_refl)].
    + apply (Hrestart pid eq_refl).
  - destruct Hact as [Ha | Ha].
    + apply (launch_idle self preset o w1 I1 Ha Ho).
    + destruct (active_is_holder w1 self (proj1 I1) Ha) as [p Hp]. congruence.
Qed.

Lemma reader_publish_invariant (self : nat) (jpeg_data : bytes) (w : world) :
  invariant w -> invariant (reader_publish self jpeg_data w).
Proof.
  intros I. unfold reader_publish.
  destruct (process (instances w self)) as [p|] eqn:Ep; [|exact I].
  destruct (running (instances w self)); [|exact I].
  destruct I as (X & R & N). split; [|split]; try assumption.
  unfold exclusive in *. cbn.
  assert (Hproc : forall j,
             process (if Nat.eqb j self then
                        {| process := Some p; frame_buffer := Some jpeg_data;
                           running := true;
                           current_preset := current_preset (instances w self);
                           _available_command := _available_command (instances w self);
                           debug := debug (instances w self) |}
                      else instances w j) = process (instances w j)).
  { intros j. destruct (Nat.eqb_spec j self); [subst; symmetry; exact Ep | reflexivity]. }
  destruct (_active_instance w) as [a|].
  - destruct X as [[q [Hq Hal]] Ho]. split.
    + exists q. rewrite Hproc. split; assumption.
    + intros j Hj. rewrite Hproc. apply Ho. exact Hj.
  - destruct X as [Hal Ho]. split; [exact Hal|]. intros j. rewrite Hproc. apply Ho.
Qed.

Lemma initial_invariant (w : world) : initial w -> invariant w.
Proof.
  intros (Hn & Ha & Hl & Hh). split; [|split].
  - unfold exclusive. rewrite Ha. split; assumption.
  - rewrite Hh, Hl. reflexivity.
  - rewrite Hh. apply never_two_nil.
Qed.

Lemma orderly_invariant (w : world) : orderly w -> invariant w.
Proof.
  induction 1 as [w Hi | w self preset o Ho _ IH | w self _ IH | w self jpeg _ IH].
  - apply initial_invariant. exact Hi.
  - apply start_invariant; assumption.
  - apply stop_invariant. exact IH.
  - apply reader_publish_invariant. exact IH.
Qed.

Lemma orderly_reachable (w : world) : orderly w -> reachable w.
Proof.
  induction 1 as [w Hi | w self preset o _ _ IH | w self _ IH | w self jpeg _ IH].
  - apply reach_initial. exact Hi.
  - apply reach_start. exact IH.
  - apply reach_stop. exact IH.
  - apply reach_publish. exact IH.
Qed.

Lemma launch_other_instance (self : nat) (preset : string) (o : launching)
      (w : world) (j : nat) :
  j <> self ->
  instances (snd (launch self preset o w)) j = instances w j.
Proof.
  intros Hj. unfold launch.
  destruct (_available_command (instances w self)); [|reflexivity].
  destruct o; [|reflexivity|];
    cbn; destruct (Nat.eqb_spec j self); try contradiction; reflexivity.
Qed.

Lemma launch_events (self : nat) (preset : string) (o : launching) (w : world) :
  history (snd (launch self preset o w)) = history w
  \/ exists args,
      history (snd (launch self preset o w))
      = history w ++ [Spawned (next_pid w) args].
Proof.
  unfold launch.
  destruct (_available_command (instances w self)) as [command|]; [|left; reflexivity].
  destruct o; [|left; reflexivity|];
    right; exists (argv command preset); reflexivity.
Qed.

(** A launch never records another instance as the active one. *)
Lemma launch_active (self : nat) (preset : string) (o : launching) (w : world) :
  _active_instance (snd (launch self preset o w)) = _active_instance w
  \/ _active_instance (snd (launch self preset o w)) = Some self.
Proof.
  unfold launch. destruct (_available_command (instances w self)); [|left; reflexivity].
  destruct o; [right; reflexivity | left; reflexivity | left; reflexivity].
Qed.

End PiCamFacts.

(** C7 (amended): for an instance whose camera command is available and
    that is not already running with this preset, when the launch succeeds
    [start(preset)] returns [True] and spawns exactly one subprocess; a second
    [start(preset)] with no stop in between finds the process running with
    the same preset, returns [True] and changes nothing (whatever a launch
    would meet), so the two calls spawn exactly one subprocess; [start] with a
    different preset terminates the running subprocess and spawns a new one
    with the new preset's command line. *)
Theorem start_twice_spawns_once :
  forall (w : PiCam.world) (self : nat) (preset command : string),
    PiCam._available_command (PiCam.instances w self) = Some command ->
    (PiCam.process (PiCam.instances w self) = None
     \/ PiCam.current_preset (PiCam.instances w self) <> Some preset) ->
    let w1 := snd (PiCam.start self preset PiCam.Launches w) in
    fst (PiCam.start self preset PiCam.Launches w) = true
    /\ PiCam.process (PiCam.instances w1 self) = Some (PiCam.next_pid w)
    /\ PiCam.current_preset (PiCam.instances w1 self) = Some preset
    /\ PiCam.spawns (PiCam.history w1) = S (PiCam.spawns (PiCam.history w))
    /\ (forall o : PiCam.launching,
           PiCam.start self preset o w1 = (true, w1)
           /\ PiCam.spawns (PiCam.history (snd (PiCam.start self preset o w1)))
              = S (PiCam.spawns (PiCam.history w)))
    /\ (forall preset' : string,
           preset' <> preset ->
           let w2 := snd (PiCam.start self preset' PiCam.Launches w1) in
           fst (PiCam.start self preset' PiCam.Launches w1) = true
           /\ PiCam.history w2
              = PiCam.history w1
                ++ [PiCam.Terminated (PiCam.next_pid w);
                    PiCam.Spawned (S (PiCam.next_pid w)) (PiCam.argv command preset')]
           /\ PiCam.process (PiCam.instances w2 self) = Some (S (PiCam.next_pid w))
           /\ PiCam.current_preset (PiCam.instances w2 self) = Some preset').
Proof.
  intros w self preset command Hc Hidle.
  destruct (start_launches self preset PiCam.Launches w Hidle) as (w0 & E & Ec & En & Es).
  rewrite Hc in Ec.
  destruct (launch_success self preset command w0 Ec)
    as (L1 & L2 & L3 & L4 & L5 & L6 & L7).
  cbv zeta. rewrite E, L3, L4, L7, En, spawns_spawned, Es.
  assert (Hsame : forall o,
             PiCam.start self preset o (snd (PiCam.launch self preset PiCam.Launches w0))
             = (true, snd (PiCam.launch self preset PiCam.Launches w0))).
  { intros ok. apply (start_same_preset self preset ok _ (PiCam.next_pid w0));
      [exact L2 | exact L3 | exact L4]. }
  split; [exact L1|]. split; [reflexivity|]. split; [reflexivity|].
  split; [reflexivity|]. split.
  - intros ok. rewrite Hsame. split; [reflexivity|].
    cbn [snd]. rewrite L7, spawns_spawned, Es. reflexivity.
  - intros preset' Hne.
    destruct (start_other_preset self preset preset' PiCam.Launches _ (PiCam.next_pid w0)
                                 L2 L3 L4 Hne) as (S1 & S2 & S3 & S4).
    rewrite L5 in S4. rewrite L6 in S3.
    destruct (launch_success self preset' command _ S4)
      as (M1 & M2 & M3 & M4 & M5 & M6 & M7).
    rewrite S1, M3, M4, M7, S3, S2, L7, En, <- app_assoc. cbn [app].
    repeat split. exact M1.
Qed.

Lemma start_twice_spawns_once_witness :
  PiCam._available_command (PiCam.instances Samples.camera_world 0) = Some "rpicam-vid"%string
  /\ (PiCam.process (PiCam.instances Samples.camera_world 0) = None
      \/ PiCam.current_preset (PiCam.instances Samples.camera_world 0) <> Some "high"%string)
  /\ PiCam.spawns
       (PiCam.history
          (snd (PiCam.start 0 "high" PiCam.Launches
                            (snd (PiCam.start 0 "high" PiCam.Launches Samples.camera_world)))))
     = 1%nat.
Proof.
  split; [reflexivity|]. split; [left; reflexivity|].
  destruct (start_twice_spawns_once Samples.camera_world 0 "high" "rpicam-vid"
              eq_refl (or_introl eq_refl)) as (_ & _ & _ & _ & P & _).
  destruct (P PiCam.Launches) as [_ Q]. exact Q.
Defined.

(** C7, as stated, fails for an instance without a camera command: both
    calls return [False] and nothing is spawned. *)
Lemma start_without_camera_counterexample :
  PiCam.start 0 "high" PiCam.Launches Samples.no_camera_world = (false, Samples.no_camera_world)
  /\ PiCam.spawns
       (PiCam.history
          (snd (PiCam.start 0 "high" PiCam.Launches
                            (snd (PiCam.start 0 "high" PiCam.Launches Samples.no_camera_world)))))
     = 0%nat
  /\ ~ (forall (w : PiCam.world) (self : nat) (preset : string),
           let w1 := snd (PiCam.start self preset PiCam.Launches w) in
           fst (PiCam.start self preset PiCam.Launches w1) = true
           /\ PiCam.spawns (PiCam.history (snd (PiCam.start self preset PiCam.Launches w1)))
              = S (PiCam.spawns (PiCam.history w))).
Proof.
  split; [reflexivity|]. split; [reflexivity|].
  intros H. destruct (H Samples.no_camera_world 0%nat "high"%string) as [H1 _].
  discriminate H1.
Qed.

(** C8, on the code: the claim fails where the reader thread cannot be
    started.  On a machine with the camera tool, instance 0 is started and
    [Popen] returns, then [capture_thread.start()] raises: [start] returns
    [False], the instance holds the running subprocess 100, and no instance
    is recorded as active.  A [start] of instance 1 then finds nobody to
    stop, stops nothing and launches subprocess 101: two instances hold a
    subprocess, both run, and no termination was ever requested. *)
Theorem picam_thread_start_failure_leaves_two_subprocesses :
  let w1 := snd (PiCam.start 0 "high" PiCam.ThreadStartRaises Samples.camera_world) in
  let w2 := snd (PiCam.start 1 "high" PiCam.Launches w1) in
  PiCam.reachable w2
  /\ fst (PiCam.start 0 "high" PiCam.ThreadStartRaises Samples.camera_world) = false
  /\ PiCam.process (PiCam.instances w1 0) = Some 100%nat
  /\ PiCam.alive w1 = [100%nat]
  /\ PiCam._active_instance w1 = None
  /\ PiCam.stop_other_active 1 w1 = w1
  /\ fst (PiCam.start 1 "high" PiCam.Launches w1) = true
  /\ PiCam.process (PiCam.instances w2 0) = Some 100%nat
  /\ PiCam.process (PiCam.instances w2 1) = Some 101%nat
  /\ PiCam._active_instance w2 = Some 1%nat
  /\ PiCam.alive w2 = [101%nat; 100%nat]
  /\ PiCam.history w2
     = [ PiCam.Spawned 100 (PiCam.argv "rpicam-vid" "high");
         PiCam.Spawned 101 (PiCam.argv "rpicam-vid" "high") ]
  /\ ~ PiCam.never_two (PiCam.history w2)
  /\ ~ (forall w : PiCam.world,
          PiCam.reachable w ->
          forall i j p q,
            PiCam.process (PiCam.instances w i) = Some p ->
            PiCam.process (PiCam.instances w j) = Some q ->
            i = j).
Proof.
  cbv zeta.
  assert (R : PiCam.reachable
                (snd (PiCam.start 1 "high" PiCam.Launches
                        (snd (PiCam.start 0 "high" PiCam.ThreadStartRaises
                                          Samples.camera_world))))).
  { apply PiCam.reach_start. apply PiCam.reach_start. apply PiCam.reach_initial.
    split; [intros i; reflexivity|]. split; [reflexivity|]. split; reflexivity. }
  split; [exact R|].
  do 11 (split; [reflexivity|]).
  split.
  - intros N.
    specialize (N [ PiCam.Spawned 100 (PiCam.argv "rpicam-vid" "high");
                    PiCam.Spawned 101 (PiCam.argv "rpicam-vid" "high") ] [] eq_refl).
    vm_compute in N. lia.
  - intros H.
    specialize (H _ R 0%nat 1%nat 100%nat 101%nat eq_refl eq_refl). discriminate H.
Qed.

(** X29: while every reader thread can be started, the Pi camera is held
    by one instance at most.  In such a world where instance [A] is active,
    [B.start] for another instance [B] first stops [A]: before anything is
    launched [A] holds no subprocess, no subprocess is running, no instance
    is active and the only event added is the termination of [A]'s
    subprocess; [B] then launches from that state, whatever its own launch
    meets, so the history grows by that termination followed by at most one
    spawn.  In every such world at most one instance holds a subprocess, at
    most one subprocess runs, and at no point of the history were two
    running. *)
Theorem picam_exclusive_while_readers_start :
  forall (w : PiCam.world) (A B : nat) (preset : string) (o : PiCam.launching),
    PiCam.orderly w ->
    A <> B ->
    PiCam._active_instance w = Some A ->
    (exists pa : nat,
        PiCam.process (PiCam.instances w A) = Some pa
        /\ PiCam.alive w = [pa]
        /\ PiCam.history (PiCam.stop_other_active B w)
           = PiCam.history w ++ [PiCam.Terminated pa]
        /\ (PiCam.history (snd (PiCam.start B preset o w))
            = PiCam.history w ++ [PiCam.Terminated pa]
            \/ exists args,
               PiCam.history (snd (PiCam.start B preset o w))
               = PiCam.history w
                 ++ [PiCam.Terminated pa; PiCam.Spawned (PiCam.next_pid w) args]))
    /\ PiCam.process (PiCam.instances (PiCam.stop_other_active B w) A) = None
    /\ PiCam.alive (PiCam.stop_other_active B w) = []
    /\ PiCam._active_instance (PiCam.stop_other_active B w) = None
    /\ PiCam.start B preset o w
       = PiCam.launch B preset o (PiCam.stop_other_active B w)
    /\ PiCam.process (PiCam.instances (snd (PiCam.start B preset o w)) A) = None
    /\ PiCam._active_instance (snd (PiCam.start B preset o w)) <> Some A
    /\ (forall w0 : PiCam.world,
           PiCam.orderly w0 ->
           (forall i j p q,
               PiCam.process (PiCam.instances w0 i) = Some p ->
               PiCam.process (PiCam.instances w0 j) = Some q ->
               i = j)
           /\ (length (PiCam.alive w0) <= 1)%nat
           /\ PiCam.never_two (PiCam.history w0)).
Proof.
  intros w A B preset o Hr Hne Ha.
  pose proof (orderly_invariant w Hr) as I.
  destruct (active_is_holder w A (proj1 I) Ha) as [pa Hpa].
  destruct (stop_internal_holder w A pa I Ha Hpa) as (I1 & Ha1 & Hl1 & Hn1 & Hh1).
  assert (Ew : PiCam.stop_other_active B w = PiCam._stop_internal A w).
  { unfold PiCam.stop_other_active. rewrite Ha.
    destruct (Nat.eqb_spec A B); [contradiction | reflexivity]. }
  assert (Es : PiCam.start B preset o w
               = PiCam.launch B preset o (PiCam.stop_other_active B w)).
  { unfold PiCam.start. rewrite Ew, Hn1. reflexivity. }
  assert (Hal : PiCam.alive w = [pa]).
  { destruct I as (X & _). unfold PiCam.exclusive in X. rewrite Ha in X.
    destruct X as [[p [Hp Hal]] _]. congruence. }
  destruct (stop_internal_fields A w) as (_ & _ & _ & Fn & _).
  split; [|split; [|split; [|split; [|split; [|split; [|split]]]]]].
  - exists pa. split; [exact Hpa|]. split; [exact Hal|]. split.
    + rewrite Ew. exact Hh1.
    + rewrite Es, Ew.
      destruct (launch_events B preset o (PiCam._stop_internal A w))
        as [E | [args E]]; rewrite E, Hh1.
      * left. reflexivity.
      * right. exists args. rewrite Fn, <- app_assoc. reflexivity.
  - rewrite Ew. apply Hn1.
  - rewrite Ew. exact Hl1.
  - rewrite Ew. exact Ha1.
  - exact Es.
  - rewrite Es, Ew, launch_other_instance; [apply Hn1 | exact Hne].
  - rewrite Es, Ew. intros Ha'.
    destruct (launch_active B preset o (PiCam._stop_internal A w)) as [E|E];
      rewrite E in Ha'; [rewrite Ha1 in Ha'; discriminate Ha'|].
    injection Ha' as Ha'. apply Hne. symmetry. exact Ha'.
  - intros w0 Hr0. pose proof (orderly_invariant w0 Hr0) as (X & R & N).
    split; [|split].
    + intros i j p q Hp Hq.
      pose proof (holder_is_active w0 i p X Hp) as Hi.
      pose proof (holder_is_active w0 j q X Hq) as Hj. congruence.
    + unfold PiCam.exclusive in X. destruct (PiCam._active_instance w0).
      * destruct X as [[p [_ Hl]] _]. rewrite Hl. simpl. lia.
      * destruct X as [Hl _]. rewrite Hl. simpl. lia.
    + exact N.
Qed.

Lemma picam_exclusive_while_readers_start_witness :
  PiCam.orderly Samples.camera_running
  /\ 0%nat <> 1%nat
  /\ PiCam._active_instance Samples.camera_running = Some 0%nat
  /\ PiCam.process
       (PiCam.instances
          (snd (PiCam.start 1 "low" PiCam.Launches Samples.camera_running)) 0) = None.
Proof.
  assert (R : PiCam.orderly Samples.camera_running).
  { apply PiCam.orderly_start; [discriminate|]. apply PiCam.orderly_initial.
    repeat split. }
  split; [exact R|]. split; [discriminate|]. split; [reflexivity|].
  apply (picam_exclusive_while_readers_start
           Samples.camera_running 0 1 "low" PiCam.Launches R);
    [discriminate | reflexivity].
Defined.

(** ** The capture loop: grouping, captures, distribution *)

(** ** Registry and grouping *)

Section RegistryFacts.

Lemma dict_get_update (d : list (string * StreamState)) (k id : string)
      (f : StreamState -> StreamState) :
  Config.dict_get (dict_update d k f) id
  = if String.eqb id k then option_map f (Config.dict_get d id)
    else Config.dict_get d id.
Proof.
  induction d as [|[k0 v0] d IH]; simpl.
  - destruct (String.eqb id k); reflexivity.
  - destruct (String.eqb_spec k k0) as [e|e]; simpl.
    + subst k0. destruct (String.eqb_spec id k) as [e'|e']; reflexivity.
    + destruct (String.eqb_spec id k0) as [e'|e'].
      * subst k0. destruct (String.eqb_spec id k); [congruence | reflexivity].
      * exact IH.
Qed.

Lemma keys_dict_update (d : list (string * StreamState)) (k : string)
      (f : StreamState -> StreamState) :
  map fst (dict_update d k f) = map fst d.
Proof.
  induction d as [|[k0 v0] d IH]; simpl; [reflexivity|].
  destruct (String.eqb k k0); simpl; [reflexivity | rewrite IH; reflexivity].
Qed.

Lemma get_stream_on_stream (w : Manager.world) (k id : string)
      (f : StreamState -> StreamState) :
  Manager.get_stream (Manager.on_stream k f w) id
  = if String.eqb id k then option_map f (Manager.get_stream w id)
    else Manager.get_stream w id.
Proof. apply dict_get_update. Qed.

Lemma list_streams_on_stream (w : Manager.world) (k : string)
      (f : StreamState -> StreamState) :
  Manager.list_streams (Manager.on_stream k f w) = Manager.list_streams w.
Proof. apply keys_dict_update. Qed.

Lemma dict_get_in_keys {V : Type} (d : list (string * V)) (k : string) :
  In k (map fst d) -> exists v, Config.dict_get d k = Some v.
Proof.
  induction d as [|[k0 v0] d IH]; simpl; [tauto|].
  intros [e | Hin].
  - subst k0. rewrite String.eqb_refl. exists v0. reflexivity.
  - destruct (String.eqb k k0); [exists v0; reflexivity | apply IH; exact Hin].
Qed.

Lemma dict_get_some_in {V : Type} (d : list (string * V)) (k : string) (v : V) :
  Config.dict_get d k = Some v -> In (k, v) d.
Proof.
  induction d as [|[k0 v0] d IH]; simpl; [discriminate|].
  destruct (String.eqb_spec k k0) as [e|e].
  - intros E. inversion E; subst. left. reflexivity.
  - intros E. right. apply IH. exact E.
Qed.

Lemma dict_get_unique {V : Type} (d : list (string * V)) (k : string) (v : V) :
  NoDup (map fst d) -> In (k, v) d -> Config.dict_get d k = Some v.
Proof.
  induction d as [|[k0 v0] d IH]; simpl; [tauto|].
  intros N [e | Hin].
  - inversion e; subst. rewrite String.eqb_refl. reflexivity.
  - inversion N as [|? ? Hn N']; subst.
    destruct (String.eqb_spec k k0) as [e|e].
    + subst k0. exfalso. apply Hn. apply (in_map fst) in Hin. exact Hin.
    + apply IH; assumption.
Qed.

Lemma members_dict_append (d : list (string * list string)) (source id k : string) :
  Manager.members (Manager.dict_append d source id) k
  = if String.eqb k source then Manager.members d k ++ [id] else Manager.members d k.
Proof.
  unfold Manager.members. induction d as [|[k0 l0] d IH]; simpl.
  - destruct (String.eqb k source); reflexivity.
  - destruct (String.eqb_spec source k0) as [e|e]; simpl.
    + subst k0. destruct (String.eqb_spec k source); reflexivity.
    + destruct (String.eqb_spec k k0) as [e'|e'].
      * subst k0. destruct (String.eqb_spec k source); [congruence | reflexivity].
      * exact IH.
Qed.

Lemma keys_dict_append (d : list (string * list string)) (source id : string) :
  map fst (Manager.dict_append d source id)
  = if str_in source (map fst d) then map fst d else map fst d ++ [source].
Proof.
  unfold str_in. induction d as [|[k0 l0] d IH]; simpl; [reflexivity|].
  destruct (String.eqb_spec source k0) as [e|e]; simpl; [reflexivity|].
  rewrite IH. destruct (existsb (String.eqb source) (map fst d)); reflexivity.
Qed.

Lemma str_in_In (x : string) (l : list string) : str_in x l = true <-> In x l.
Proof.
  unfold str_in. rewrite existsb_exists. split.
  - intros [y [Hin E]]. apply String.eqb_eq in E. subst. exact Hin.
  - intros Hin. exists x. split; [exact Hin | apply String.eqb_refl].
Qed.

Lemma nodup_keys_dict_append (d : list (string * list string)) (source id : string) :
  NoDup (map fst d) -> NoDup (map fst (Manager.dict_append d source id)).
Proof.
  intros N. rewrite keys_dict_append.
  destruct (str_in source (map fst d)) eqn:E; [exact N|].
  assert (Hn : ~ In source (map fst d)).
  { intros Hin. apply str_in_In in Hin. congruence. }
  apply NoDup_app; [exact N | repeat constructor; simpl; tauto |].
  intros x Hx [e | []]. subst. contradiction.
Qed.

Lemma nonempty_dict_append (d : list (string * list string)) (source id : string) :
  Forall (fun kv => snd kv <> []) d ->
  Forall (fun kv => snd kv <> []) (Manager.dict_append d source id).
Proof.
  induction d as [|[k0 l0] d IH]; simpl; intros Hf.
  - constructor; [simpl; discriminate | constructor].
  - inversion Hf; subst. destruct (String.eqb source k0).
    + constructor; [simpl; destruct l0; discriminate | assumption].
    + constructor; [assumption | apply IH; assumption].
Qed.

Lemma groups_fold (w : Manager.world) (k : string) (l : list string) :
  forall acc : list (string * list string),
    Manager.members
      (fold_left
         (fun source_to_streams stream_id =>
            match Manager.get_stream w stream_id with
            | Some stream =>
                Manager.dict_append source_to_streams (current_source stream) stream_id
            | None => source_to_streams
            end) l acc) k
    = Manager.members acc k ++ filter (Manager.selects w k) l.
Proof.
  induction l as [|id l IH]; intros acc; simpl.
  - rewrite app_nil_r. reflexivity.
  - rewrite IH. unfold Manager.selects at 2.
    destruct (Manager.get_stream w id) as [st|].
    + rewrite members_dict_append, (String.eqb_sym k).
      destruct (String.eqb (current_source st) k).
      * rewrite <- app_assoc. reflexivity.
      * reflexivity.
    + reflexivity.
Qed.

(** The streams grouped under a source are those that select it, in
    registry order. *)
Lemma groups_members (w : Manager.world) (k : string) :
  Manager.members (Manager._get_active_sources w) k
  = filter (Manager.selects w k) (Manager.list_streams w).
Proof. unfold Manager._get_active_sources. rewrite groups_fold. reflexivity. Qed.

Lemma groups_wf_fold (w : Manager.world) (l : list string) :
  forall acc : list (string * list string),
    NoDup (map fst acc) ->
    Forall (fun kv => snd kv <> []) acc ->
    let d := fold_left
               (fun source_to_streams stream_id =>
                  match Manager.get_stream w stream_id with
                  | Some stream =>
                      Manager.dict_append source_to_streams (current_source stream) stream_id
                  | None => source_to_streams
                  end) l acc in
    NoDup (map fst d) /\ Forall (fun kv => snd kv <> []) d.
Proof.
  induction l as [|id l IH]; intros acc N Fa; simpl.
  - split; assumption.
  - destruct (Manager.get_stream w id) as [st|].
    + apply IH; [apply nodup_keys_dict_append | apply nonempty_dict_append]; assumption.
    + apply IH; assumption.
Qed.

Lemma groups_wf (w : Manager.world) :
  NoDup (map fst (Manager._get_active_sources w))
  /\ Forall (fun kv => snd kv <> []) (Manager._get_active_sources w).
Proof.
  unfold Manager._get_active_sources. apply groups_wf_fold; constructor.
Qed.

(** An entry of the grouping. *)
Lemma group_entry (w : Manager.world) (source : string) (ids : list string) :
  In (source, ids) (Manager._get_active_sources w) ->
  ids = filter (Manager.selects w source) (Manager.list_streams w) /\ ids <> [].
Proof.
  intros Hin. destruct (groups_wf w) as [N Fa].
  split.
  - rewrite <- groups_members. unfold Manager.members.
    rewrite (dict_get_unique _ source ids N Hin). reflexivity.
  - rewrite Forall_forall in Fa. apply (Fa (source, ids) Hin).
Qed.

Lemma selects_unique (w : Manager.world) (s s' id : string) :
  Manager.selects w s id = true -> Manager.selects w s' id = true -> s = s'.
Proof.
  unfold Manager.selects. destruct (Manager.get_stream w id); [|discriminate].
  intros E1 E2. apply String.eqb_eq in E1, E2. congruence.
Qed.

(** Every registered stream is in the group of its source. *)
Lemma stream_in_its_group (w : Manager.world) (id : string) (st : StreamState) :
  In id (Manager.list_streams w) ->
  Manager.get_stream w id = Some st ->
  exists ids,
    In (current_source st, ids) (Manager._get_active_sources w) /\ In id ids.
Proof.
  intros Hin Hg.
  assert (Hm : In id (Manager.members (Manager._get_active_sources w) (current_source st))).
  { rewrite groups_members. apply filter_In. split; [exact Hin|].
    unfold Manager.selects. rewrite Hg. apply String.eqb_refl. }
  unfold Manager.members in Hm.
  destruct (Config.dict_get (Manager._get_active_sources w) (current_source st))
    as [ids|] eqn:E; [|contradiction].
  exists ids. split; [apply dict_get_some_in; exact E | exact Hm].
Qed.

End RegistryFacts.

(** ** One capture cycle *)

Section CycleFacts.
Context {F : FloatBuiltins} {C : Cv2.codec}.
Import Manager.

Lemma captures_of_app (s : string) (l1 l2 : list event) :
  captures_of s (l1 ++ l2) = (captures_of s l1 + captures_of s l2)%nat.
Proof. unfold captures_of. rewrite filter_app, length_app. reflexivity. Qed.

Lemma encodes_of_app (s : string) (l1 l2 : list event) :
  encodes_of s (l1 ++ l2) = (encodes_of s l1 + encodes_of s l2)%nat.
Proof. unfold encodes_of. rewrite filter_app, length_app. reflexivity. Qed.

Lemma pushed_to_app (id : string) (l1 l2 : list event) :
  pushed_to id (l1 ++ l2) = pushed_to id l1 ++ pushed_to id l2.
Proof.
  induction l1 as [|e l1 IH]; simpl; [reflexivity|].
  destruct e as [src|src q|sid b]; try exact IH.
  destruct (String.eqb sid id); [simpl; rewrite IH; reflexivity | exact IH].
Qed.

Lemma after_pushes_app (env : cycle_env) (id : string) (l1 l2 : list bytes)
      (s : StreamState) :
  after_pushes env id (l1 ++ l2) s = after_pushes env id l2 (after_pushes env id l1 s).
Proof. unfold after_pushes. apply fold_left_app. Qed.

(** [Kinect.get_frame] never touches the import-time flags. *)
Lemma kinect_get_frame_flags (mode : string) (x : pyfloat) (r : Kinect.read)
      (c : Config.flags) (k : Kinect.KinectCapture) :
  Config.CV2_AVAILABLE (snd (fst (Kinect.get_frame mode x r c k)))
  = Config.CV2_AVAILABLE c.
Proof.
  assert (Hf : forall c0 k0,
             Config.CV2_AVAILABLE (fst (Kinect._handle_failure c0 k0))
             = Config.CV2_AVAILABLE c0).
  { intros c0 k0. unfold Kinect._handle_failure, Kinect._mark_unavailable.
    destruct (_ >=? _); reflexivity. }
  assert (Hfailed : forall c0 k0,
             Config.CV2_AVAILABLE (snd (fst (Kinect.failed c0 k0)))
             = Config.CV2_AVAILABLE c0).
  { intros c0 k0. unfold Kinect.failed. specialize (Hf c0 k0).
    destruct (Kinect._handle_failure c0 k0). exact Hf. }
  assert (Hfin : forall fr c0 k0,
             Config.CV2_AVAILABLE (snd (fst (Kinect.finish fr x c0 k0)))
             = Config.CV2_AVAILABLE c0).
  { intros fr c0 k0. unfold Kinect.finish.
    destruct (Kinect.rescale fr x); [reflexivity|].
    specialize (Hf c0 (Kinect.set_failures 0 k0)).
    destruct (Kinect._handle_failure c0 (Kinect.set_failures 0 k0)). exact Hf. }
  unfold Kinect.get_frame.
  destruct (negb (Kinect.is_available c k)); [reflexivity|].
  destruct (String.eqb mode "rgb");
    [destruct r; auto; destruct (Cv2.cvtColor_RGB2BGR data); auto|].
  destruct (String.eqb mode "ir");
    [destruct r; auto; destruct (Cv2.cvtColor_GRAY2BGR data); auto|].
  destruct (String.eqb mode "depth");
    [destruct r; auto; destruct (Cv2.applyColorMap_JET _); auto|].
  reflexivity.
Qed.

(** The log of a Kinect branch. *)
Lemma kinect_capture_facts (source mode : string) (quality : Z) (scale : pyfloat)
      (env : cycle_env) (w : world) :
  let '(jpeg, w1, log1) := kinect_capture source mode quality scale env w in
  state w1 = state w
  /\ cameras w1 = cameras w
  /\ Config.CV2_AVAILABLE (flags w1) = Config.CV2_AVAILABLE (flags w)
  /\ (log1 = [CaptureCall source] /\ jpeg = None
      \/ log1 = [CaptureCall source; EncodeCall source quality] /\ jpeg <> None).
Proof.
  unfold kinect_capture.
  pose proof (kinect_get_frame_flags mode scale (kinect_read env mode) (flags w) (kinect w))
    as Hc.
  destruct (Kinect.get_frame mode scale (kinect_read env mode) (flags w) (kinect w))
    as [[fr c'] k']. simpl in Hc.
  destruct fr; simpl; repeat split; try assumption.
  - right. split; [reflexivity | discriminate].
  - left. split; reflexivity.
Qed.

Ltac same_world :=
  (split; [reflexivity|]); (split; [reflexivity|]); (split; [reflexivity|]); split.

(** What [_capture_source] changes and logs. *)
Lemma capture_source_facts (s : string) (ids : list string) (env : cycle_env) (w : world) :
  let '(jpeg, w1, log1) := _capture_source s ids env w in
  state w1 = state w
  /\ cameras w1 = cameras w
  /\ Config.CV2_AVAILABLE (flags w1) = Config.CV2_AVAILABLE (flags w)
  /\ capture_log s jpeg log1
  /\ (forall first rest st,
         ids = first :: rest -> get_stream w first = Some st ->
         captures_of s log1 = if attempts (flags w) s then 1%nat else 0%nat).
Proof.
  assert (Hk : forall mode quality scale,
             s <> "picam"%string ->
             let '(jpeg, w1, log1) := kinect_capture s mode quality scale env w in
             state w1 = state w /\ cameras w1 = cameras w
             /\ Config.CV2_AVAILABLE (flags w1) = Config.CV2_AVAILABLE (flags w)
             /\ capture_log s jpeg log1
             /\ captures_of s log1 = 1%nat).
  { intros mode quality scale Hnp.
    pose proof (kinect_capture_facts s mode quality scale env w) as K.
    destruct (kinect_capture s mode quality scale env w) as [[jpeg w1] log1].
    destruct K as (K1 & K2 & K3 & [[Kl Kj] | [Kl Kj]]); subst log1;
      (split; [exact K1|]); (split; [exact K2|]); (split; [exact K3|]).
    - split; [apply log_captured; left; exact Kj|].
      unfold captures_of. simpl. rewrite String.eqb_refl. reflexivity.
    - split.
      + destruct jpeg as [b|]; [apply log_encoded; exact Hnp | contradiction].
      + unfold captures_of. simpl. rewrite String.eqb_refl. reflexivity. }
  unfold _capture_source.
  destruct (negb (Config.CV2_AVAILABLE (flags w)) && negb (String.eqb s "picam")) eqn:Eg.
  { same_world; [apply log_skipped|].
    intros first rest st _ _. unfold attempts.
    apply andb_true_iff in Eg. destruct Eg as [E1 E2].
    apply negb_true_iff in E1, E2. rewrite E1, E2. reflexivity. }
  assert (Hcv : (Config.CV2_AVAILABLE (flags w) || String.eqb s "picam") = true).
  { destruct (Config.CV2_AVAILABLE (flags w)); [reflexivity|].
    destruct (String.eqb s "picam"); [reflexivity | discriminate]. }
  destruct ids as [|first rest].
  { same_world; [apply log_skipped|]. intros first rest st Hd. discriminate. }
  destruct (get_stream w first) as [st|] eqn:Eg1.
  2:{ same_world; [apply log_skipped|].
      intros first0 rest0 st0 Hd Hg. inversion Hd; subst. congruence. }
  unfold attempts. rewrite Hcv. cbn [andb].
  destruct (String.eqb_spec s "kinect_rgb") as [e|e].
  { assert (Hnp : s <> "picam"%string) by (subst; discriminate).
    specialize (Hk "rgb"%string (jpeg_quality st) (scale_factor st) Hnp).
    destruct (kinect_capture s "rgb" (jpeg_quality st) (scale_factor st) env w)
      as [[jpeg w1] log1].
    destruct Hk as (K1 & K2 & K3 & K4 & K5).
    (split; [exact K1|]); (split; [exact K2|]); (split; [exact K3|]);
      (split; [exact K4|]).
    intros _ _ _ _ _. rewrite K5. subst s. reflexivity. }
  destruct (String.eqb_spec s "kinect_ir") as [e1|e1].
  { assert (Hnp : s <> "picam"%string) by (subst; discriminate).
    specialize (Hk "ir"%string (jpeg_quality st) (scale_factor st) Hnp).
    destruct (kinect_capture s "ir" (jpeg_quality st) (scale_factor st) env w)
      as [[jpeg w1] log1].
    destruct Hk as (K1 & K2 & K3 & K4 & K5).
    (split; [exact K1|]); (split; [exact K2|]); (split; [exact K3|]);
      (split; [exact K4|]).
    intros _ _ _ _ _. rewrite K5. subst s. reflexivity. }
  destruct (String.eqb_spec s "kinect_depth") as [e2|e2].
  { assert (Hnp : s <> "picam"%string) by (subst; discriminate).
    specialize (Hk "depth"%string (jpeg_quality st) (scale_factor st) Hnp).
    destruct (kinect_capture s "depth" (jpeg_quality st) (scale_factor st) env w)
      as [[jpeg w1] log1].
    destruct Hk as (K1 & K2 & K3 & K4 & K5).
    (split; [exact K1|]); (split; [exact K2|]); (split; [exact K3|]);
      (split; [exact K4|]).
    intros _ _ _ _ _. rewrite K5. subst s. reflexivity. }
  destruct (String.eqb_spec s "picam") as [e3|e3].
  { subst s. same_world; [apply log_captured; right; reflexivity|].
    intros _ _ _ _ _. reflexivity. }
  same_world; [apply log_skipped|].
  intros _ _ _ _ _. unfold str_in. simpl.
  rewrite (proj2 (String.eqb_neq _ _) e), (proj2 (String.eqb_neq _ _) e1),
    (proj2 (String.eqb_neq _ _) e2), (proj2 (String.eqb_neq _ _) e3). reflexivity.
Qed.

Lemma capture_log_counts (s : string) (jpeg : option bytes) (log : list event) :
  capture_log s jpeg log ->
  (forall id, pushed_to id log = [])
  /\ (forall s', s' <> s -> captures_of s' log = 0%nat /\ encodes_of s' log = 0%nat)
  /\ (encodes_of s log <= captures_of s log <= 1)%nat
  /\ (s = "picam"%string -> encodes_of s log = 0%nat)
  /\ (s <> "picam"%string -> jpeg <> None -> encodes_of s log = 1%nat).
Proof.
  assert (Hone : forall s', s' <> s -> String.eqb s s' = false).
  { intros s' Hne. apply String.eqb_neq. congruence. }
  intros [ | jpeg0 Hj | b quality Hnp]; unfold captures_of, encodes_of; simpl;
    rewrite ?String.eqb_refl; simpl.
  - split; [reflexivity|]. split; [split; reflexivity|]. split; [lia|].
    split; [reflexivity|]. intros _ Hne. contradiction.
  - split; [reflexivity|]. split; [intros s' Hne; rewrite (Hone s' Hne); split; reflexivity|].
    split; [lia|]. split; [reflexivity|].
    intros Hnp Hne. destruct Hj; contradiction.
  - split; [reflexivity|]. split; [intros s' Hne; rewrite (Hone s' Hne); split; reflexivity|].
    split; [lia|]. split; [intros e; contradiction|]. reflexivity.
Qed.

Lemma pushes_quiet (s : string) (b : bytes) (ids : list string) :
  captures_of s (map (fun k => PushFrame k b) ids) = 0%nat
  /\ encodes_of s (map (fun k => PushFrame k b) ids) = 0%nat.
Proof.
  unfold captures_of, encodes_of.
  induction ids as [|k ids IH]; simpl; [split; reflexivity | exact IH].
Qed.

Lemma pushed_to_absent (id : string) (b : bytes) (ids : list string) :
  ~ In id ids -> pushed_to id (map (fun k => PushFrame k b) ids) = [].
Proof.
  induction ids as [|k ids IH]; simpl; [reflexivity|]. intros Hn.
  destruct (String.eqb_spec k id) as [e|e]; [exfalso; apply Hn; left; exact e|].
  apply IH. intros Hin. apply Hn. right. exact Hin.
Qed.

Lemma pushed_to_present (id : string) (b : bytes) (ids : list string) :
  NoDup ids -> In id ids -> pushed_to id (map (fun k => PushFrame k b) ids) = [b].
Proof.
  induction ids as [|k ids IH]; simpl; [tauto|]. intros N Hin.
  inversion N as [|? ? Hk N']; subst.
  destruct (String.eqb_spec k id) as [e|e].
  - subst k. rewrite (pushed_to_absent id b ids Hk). reflexivity.
  - destruct Hin as [e' | Hin]; [contradiction | apply IH; assumption].
Qed.

(** [push_all] calls [set_frame] once per listed stream and nothing else. *)
Lemma push_all_facts (b : bytes) (env : cycle_env) (ids : list string) :
  forall w : world,
    flags (fst (push_all ids b env w)) = flags w
    /\ list_streams (fst (push_all ids b env w)) = list_streams w
    /\ snd (push_all ids b env w) = map (fun k => PushFrame k b) ids
    /\ (forall id,
           get_stream (fst (push_all ids b env w)) id
           = option_map (after_pushes env id (pushed_to id (snd (push_all ids b env w))))
                        (get_stream w id)).
Proof.
  induction ids as [|k ids IH]; intros w; simpl.
  - repeat split. intros id. destruct (get_stream w id); reflexivity.
  - specialize (IH (on_stream k (set_frame b (stamp env k)) w)).
    destruct (push_all ids b env (on_stream k (set_frame b (stamp env k)) w))
      as [w2 log]. simpl in *.
    destruct IH as (I1 & I2 & I3 & I4).
    split; [rewrite I1; reflexivity|].
    split; [rewrite I2; apply list_streams_on_stream|].
    split; [rewrite I3; reflexivity|].
    intros id. rewrite I4, get_stream_on_stream, (String.eqb_sym k id).
    destruct (String.eqb_spec id k) as [e|e].
    + subst k. destruct (get_stream w id); reflexivity.
    + reflexivity.
Qed.

(** The conditional push. *)
Lemma push_if_any_facts (ids : list string) (jpeg : option bytes)
      (env : cycle_env) (w : world) :
  flags (fst (push_if_any ids jpeg env w)) = flags w
  /\ list_streams (fst (push_if_any ids jpeg env w)) = list_streams w
  /\ (forall id,
         get_stream (fst (push_if_any ids jpeg env w)) id
         = option_map (after_pushes env id (pushed_to id (snd (push_if_any ids jpeg env w))))
                      (get_stream w id))
  /\ (snd (push_if_any ids jpeg env w) = []
      \/ exists b, jpeg = Some b /\ truthy jpeg = true
                   /\ snd (push_if_any ids jpeg env w) = map (fun k => PushFrame k b) ids).
Proof.
  assert (Hnone : forall id,
             get_stream w id = option_map (after_pushes env id (pushed_to id []))
                                          (get_stream w id)).
  { intros id. destruct (get_stream w id); reflexivity. }
  unfold push_if_any. destruct jpeg as [b|].
  - destruct (truthy (Some b)) eqn:Et.
    + destruct (push_all_facts b env ids w) as (Q1 & Q2 & Q3 & Q4).
      split; [exact Q1|]. split; [exact Q2|]. split; [exact Q4|].
      right. exists b. repeat split. exact Q3.
    + simpl. split; [reflexivity|]. split; [reflexivity|]. split; [exact Hnone|].
      left. reflexivity.
  - simpl. split; [reflexivity|]. split; [reflexivity|]. split; [exact Hnone|].
    left. reflexivity.
Qed.

Lemma present_after (w w' : world) (groups : list (string * list string)) :
  (forall id, exists f, get_stream w' id = option_map f (get_stream w id)) ->
  present w groups -> present w' groups.
Proof.
  intros Hg P s ids Hin. destruct (P s ids Hin) as (first & rest & st & E & G).
  destruct (Hg first) as [f Hf]. rewrite G in Hf.
  exists first, rest, (f st). split; assumption.
Qed.

Lemma attempts_flags (c c' : Config.flags) (s : string) :
  Config.CV2_AVAILABLE c' = Config.CV2_AVAILABLE c -> attempts c' s = attempts c s.
Proof. intros E. unfold attempts. rewrite E. reflexivity. Qed.

(** The head of [distribute]: one [_capture_source], then the pushes. *)
Lemma distribute_cons (s : string) (ids : list string)
      (rest : list (string * list string)) (env : cycle_env) (w : world) :
  exists jpeg w1 log1 w2 log2,
    _capture_source s ids env w = (jpeg, w1, log1)
    /\ push_if_any ids jpeg env w1 = (w2, log2)
    /\ distribute ((s, ids) :: rest) env w
       = (fst (distribute rest env w2), log1 ++ log2 ++ snd (distribute rest env w2))
    /\ capture_log s jpeg log1
    /\ (forall first tl st,
           ids = first :: tl -> get_stream w first = Some st ->
           captures_of s log1 = if attempts (flags w) s then 1%nat else 0%nat)
    /\ Config.CV2_AVAILABLE (flags w2) = Config.CV2_AVAILABLE (flags w)
    /\ list_streams w2 = list_streams w
    /\ (forall id,
           get_stream w2 id
           = option_map (after_pushes env id (pushed_to id log2)) (get_stream w id))
    /\ (log2 = []
        \/ exists b, jpeg = Some b /\ truthy jpeg = true
                     /\ log2 = map (fun k => PushFrame k b) ids).
Proof.
  simpl.
  pose proof (capture_source_facts s ids env w) as CS.
  destruct (_capture_source s ids env w) as [[jpeg w1] log1].
  destruct CS as (C1 & C2 & C3 & C4 & C5).
  pose proof (push_if_any_facts ids jpeg env w1) as PF.
  destruct (push_if_any ids jpeg env w1) as [w2 log2] eqn:E2. simpl in PF.
  destruct PF as (Q1 & Q2 & Q3 & Q4).
  exists jpeg, w1, log1, w2, log2.
  split; [reflexivity|]. split; [exact E2|].
  split; [destruct (distribute rest env w2); reflexivity|].
  split; [exact C4|]. split; [exact C5|].
  split; [rewrite Q1; exact C3|].
  split; [rewrite Q2; unfold list_streams; rewrite C1; reflexivity|].
  split; [|exact Q4].
  intros id. rewrite Q3. unfold get_stream. rewrite C1. reflexivity.
Qed.

(** The state of every stream after [distribute] is its state before with
    the logged payloads applied: a push in the log is a [set_frame] call. *)
Lemma distribute_streams (env : cycle_env) (groups : list (string * list string)) :
  forall w : world,
    Config.CV2_AVAILABLE (flags (fst (distribute groups env w)))
    = Config.CV2_AVAILABLE (flags w)
    /\ list_streams (fst (distribute groups env w)) = list_streams w
    /\ (forall id,
           get_stream (fst (distribute groups env w)) id
           = option_map (after_pushes env id (pushed_to id (snd (distribute groups env w))))
                        (get_stream w id)).
Proof.
  induction groups as [|[s ids] rest IH]; intros w.
  - simpl. repeat split. intros id. destruct (get_stream w id); reflexivity.
  - destruct (distribute_cons s ids rest env w)
      as (jpeg & w1 & log1 & w2 & log2 & _ & _ & E & CL & _ & H1 & H2 & H3 & _).
    rewrite E. simpl fst. simpl snd.
    destruct (capture_log_counts s jpeg log1 CL) as (P1 & _).
    destruct (IH w2) as (I1 & I2 & I3).
    split; [rewrite I1; exact H1|]. split; [rewrite I2; exact H2|].
    intros id. rewrite I3, H3. destruct (get_stream w id); simpl; [|reflexivity].
    rewrite !pushed_to_app, P1. simpl. rewrite after_pushes_app. reflexivity.
Qed.

(** A source that is not a key is never captured or encoded. *)
Lemma distribute_quiet (env : cycle_env) (groups : list (string * list string)) (s : string) :
  forall w : world,
    ~ In s (map fst groups) ->
    captures_of s (snd (distribute groups env w)) = 0%nat
    /\ encodes_of s (snd (distribute groups env w)) = 0%nat.
Proof.
  induction groups as [|[s0 ids] rest IH]; intros w Hn.
  - split; reflexivity.
  - destruct (distribute_cons s0 ids rest env w)
      as (jpeg & w1 & log1 & w2 & log2 & _ & _ & E & CL & _ & _ & _ & _ & L2).
    rewrite E. simpl snd.
    assert (Hne : s <> s0) by (intros e; apply Hn; left; symmetry; exact e).
    assert (Hr : ~ In s (map fst rest)) by (intros Hin; apply Hn; right; exact Hin).
    destruct (capture_log_counts s0 jpeg log1 CL) as (_ & P2 & _).
    destruct (P2 s Hne) as [Pc Pe]. destruct (IH w2 Hr) as [Ic Ie].
    assert (Hq : captures_of s log2 = 0%nat /\ encodes_of s log2 = 0%nat).
    { destruct L2 as [L | [b [_ [_ L]]]]; rewrite L;
        [split; reflexivity | apply pushes_quiet]. }
    destruct Hq as [Qc Qe].
    rewrite !captures_of_app, !encodes_of_app, Pc, Pe, Qc, Qe, Ic, Ie.
    split; reflexivity.
Qed.

(** No payload is pushed to a stream that no group lists. *)
Lemma distribute_unlisted (env : cycle_env) (groups : list (string * list string))
      (id : string) :
  forall w : world,
    (forall s ids, In (s, ids) groups -> ~ In id ids) ->
    pushed_to id (snd (distribute groups env w)) = [].
Proof.
  induction groups as [|[s0 ids0] rest IH]; intros w Hn.
  - reflexivity.
  - destruct (distribute_cons s0 ids0 rest env w)
      as (jpeg & w1 & log1 & w2 & log2 & _ & _ & E & CL & _ & _ & _ & _ & L2).
    rewrite E. simpl snd.
    destruct (capture_log_counts s0 jpeg log1 CL) as (P1 & _).
    rewrite !pushed_to_app, P1, IH.
    + destruct L2 as [L | [b [_ [_ L]]]]; rewrite L; [reflexivity|].
      rewrite pushed_to_absent; [reflexivity|]. apply (Hn s0). left. reflexivity.
    + intros s ids Hin. apply (Hn s). right. exact Hin.
Qed.

(** Captures and encodes per source. *)
Lemma distribute_counts (env : cycle_env) (groups : list (string * list string)) :
  forall w : world,
    NoDup (map fst groups) ->
    present w groups ->
    forall s,
      captures_of s (snd (distribute groups env w))
      = (if str_in s (map fst groups) && attempts (flags w) s then 1%nat else 0%nat)
      /\ (encodes_of s (snd (distribute groups env w))
          <= captures_of s (snd (distribute groups env w)))%nat
      /\ (s = "picam"%string -> encodes_of s (snd (distribute groups env w)) = 0%nat).
Proof.
  induction groups as [|[s0 ids0] rest IH]; intros w N P s.
  - simpl. repeat split. unfold encodes_of, captures_of. simpl. lia.
  - destruct (distribute_cons s0 ids0 rest env w)
      as (jpeg & w1 & log1 & w2 & log2 & _ & _ & E & CL & CC & H1 & H2 & H3 & L2).
    rewrite E. simpl snd.
    inversion N as [|? ? Hn0 N']; subst.
    assert (P2 : present w2 rest).
    { apply (present_after w).
      - intros id. eexists. apply H3.
      - intros s' ids' Hin. apply (P s' ids'). right. exact Hin. }
    destruct (P s0 ids0 (or_introl eq_refl)) as (first & tl & st & Eids & Gf).
    specialize (CC first tl st Eids Gf).
    destruct (capture_log_counts s0 jpeg log1 CL) as (_ & Q2 & Q3 & Q4 & _).
    assert (Hq : captures_of s log2 = 0%nat /\ encodes_of s log2 = 0%nat).
    { destruct L2 as [L | [b [_ [_ L]]]]; rewrite L;
        [split; reflexivity | apply pushes_quiet]. }
    destruct Hq as [Qc Qe].
    rewrite !captures_of_app, !encodes_of_app, Qc, Qe.
    unfold str_in. cbn [map fst existsb].
    destruct (String.eqb_spec s s0) as [e|e].
    + subst s0. destruct (distribute_quiet env rest s w2 Hn0) as [Rc Re].
      rewrite Rc, Re. cbn [orb andb].
      split; [rewrite CC; destruct (attempts (flags w) s); reflexivity|].
      split; [cbn [Nat.add]; rewrite !Nat.add_0_r; apply Q3|].
      intros e. rewrite (Q4 e). reflexivity.
    + destruct (Q2 s e) as [Pc Pe]. rewrite Pc, Pe.
      destruct (IH w2 N' P2 s) as (I1 & I2 & I3).
      cbn [orb Nat.add]. split; [|split; [exact I2|exact I3]].
      rewrite I1, (attempts_flags (flags w) (flags w2) s H1). reflexivity.
Qed.

(** Every stream of a group receives the same payloads: none, or the one
    non-empty result of the group's capture. *)
Lemma distribute_pushes (env : cycle_env) (groups : list (string * list string)) :
  forall w : world,
    NoDup (map fst groups) ->
    disjoint groups ->
    forall s ids,
      In (s, ids) groups ->
      exists payloads : list bytes,
        (payloads = []
         \/ exists b, payloads = [b] /\ truthy (Some b) = true
                      /\ (s <> "picam"%string ->
                          encodes_of s (snd (distribute groups env w)) = 1%nat))
        /\ (forall id, In id ids ->
                       pushed_to id (snd (distribute groups env w)) = payloads).
Proof.
  induction groups as [|[s0 ids0] rest IH]; intros w N D s ids Hin; [contradiction|].
  destruct (distribute_cons s0 ids0 rest env w)
    as (jpeg & w1 & log1 & w2 & log2 & _ & _ & E & CL & _ & _ & _ & _ & L2).
  rewrite E. simpl snd.
  inversion N as [|? ? Hn0 N']; subst.
  destruct D as [D1 D2].
  destruct (capture_log_counts s0 jpeg log1 CL) as (P1 & P2 & _ & _ & P5).
  destruct Hin as [e | Hin].
  - inversion e; subst s0 ids0. clear e.
    assert (Hrest : forall id, In id ids ->
                               pushed_to id (snd (distribute rest env w2)) = []).
    { intros id Hid. apply distribute_unlisted. intros s' ids' Hin' Hid'.
      apply Hn0. rewrite (D2 s ids s' ids' id (or_introl eq_refl) (or_intror Hin') Hid Hid').
      apply (in_map fst) in Hin'. exact Hin'. }
    destruct (distribute_quiet env rest s w2 Hn0) as [_ Re].
    destruct L2 as [L | [b [Ej [Et L]]]]; rewrite L.
    + exists []. split; [left; reflexivity|].
      intros id Hid. rewrite !pushed_to_app, P1, (Hrest id Hid). reflexivity.
    + exists [b]. split.
      * right. exists b. split; [reflexivity|]. split; [rewrite <- Ej; exact Et|].
        intros Hnp. rewrite !encodes_of_app, Re.
        destruct (pushes_quiet s b ids) as [_ Qe]. rewrite Qe.
        rewrite (P5 Hnp); [reflexivity | rewrite Ej; discriminate].
      * intros id Hid. rewrite !pushed_to_app, P1, (Hrest id Hid).
        rewrite (pushed_to_present id b ids (D1 s ids (or_introl eq_refl)) Hid).
        reflexivity.
  - assert (Hne : s <> s0).
    { intros e. subst s0. apply Hn0. apply (in_map fst) in Hin. exact Hin. }
    assert (D' : disjoint rest).
    { split.
      - intros s' ids' Hin'. apply (D1 s' ids'). right. exact Hin'.
      - intros a ia b ib id Ha Hb. apply (D2 a ia b ib id); right; assumption. }
    destruct (IH w2 N' D' s ids Hin) as [payloads [Hp Hall]].
    destruct (P2 s Hne) as [_ Pe].
    assert (Hq : forall id, In id ids -> pushed_to id log2 = []).
    { intros id Hid. destruct L2 as [L | [b [_ [_ L]]]]; rewrite L; [reflexivity|].
      apply pushed_to_absent. intros Hid0. apply Hne.
      apply (D2 s ids s0 ids0 id (or_intror Hin) (or_introl eq_refl) Hid Hid0). }
    assert (Hqe : encodes_of s log2 = 0%nat).
    { destruct L2 as [L | [b [_ [_ L]]]]; rewrite L; [reflexivity | apply pushes_quiet]. }
    exists payloads. split.
    + destruct Hp as [Hp | [b [Hp [Ht He]]]]; [left; exact Hp|].
      right. exists b. split; [exact Hp|]. split; [exact Ht|].
      intros Hnp. rewrite !encodes_of_app, Pe, Hqe. apply He. exact Hnp.
    + intros id Hid. rewrite !pushed_to_app, P1, (Hq id Hid). apply Hall. exact Hid.
Qed.

Lemma cameras_push_all (ids : list string) (b : bytes) (env : cycle_env) :
  forall w : world, cameras (fst (push_all ids b env w)) = cameras w.
Proof.
  induction ids as [|id ids IH]; intros w; [reflexivity|]. simpl.
  specialize (IH (on_stream id (set_frame b (stamp env id)) w)).
  destruct (push_all ids b env (on_stream id (set_frame b (stamp env id)) w)) as [w2 log].
  exact IH.
Qed.

Lemma cameras_push_if_any (ids : list string) (jpeg : option bytes) (env : cycle_env)
      (w : world) :
  cameras (fst (push_if_any ids jpeg env w)) = cameras w.
Proof.
  unfold push_if_any. destruct jpeg as [b|]; [|reflexivity].
  destruct (truthy (Some b)); [apply cameras_push_all | reflexivity].
Qed.

Lemma cameras_distribute (groups : list (string * list string)) (env : cycle_env) :
  forall w : world, cameras (fst (distribute groups env w)) = cameras w.
Proof.
  induction groups as [|[s ids] groups IH]; intros w; [reflexivity|]. simpl.
  pose proof (capture_source_facts s ids env w) as Hc.
  destruct (_capture_source s ids env w) as [[jpeg w1] log1].
  destruct Hc as (_ & Hc & _).
  pose proof (cameras_push_if_any ids jpeg env w1) as Hp.
  destruct (push_if_any ids jpeg env w1) as [w2 log2]. cbn [fst] in Hp.
  specialize (IH w2). destruct (distribute groups env w2) as [w3 log3]. cbn [fst] in *.
  congruence.
Qed.

(** Pushes change neither the quality nor the scale of a stream. *)
Lemma after_pushes_settings (env : cycle_env) (id : string) (payloads : list bytes) :
  forall s : StreamState,
    jpeg_quality (after_pushes env id payloads s) = jpeg_quality s
    /\ scale_factor (after_pushes env id payloads s) = scale_factor s.
Proof.
  induction payloads as [|b l IH]; intros s; [split; reflexivity|].
  unfold after_pushes in *. simpl. destruct (IH (set_frame b (stamp env id) s)) as [I1 I2].
  rewrite I1, I2. split; reflexivity.
Qed.

Lemma distribute_app (env : cycle_env) (g1 g2 : list (string * list string)) :
  forall w : world,
    distribute (g1 ++ g2) env w
    = (fst (distribute g2 env (fst (distribute g1 env w))),
       snd (distribute g1 env w) ++ snd (distribute g2 env (fst (distribute g1 env w)))).
Proof.
  induction g1 as [|[s ids] g1 IH]; intros w.
  - simpl. destruct (distribute g2 env w); reflexivity.
  - cbn [app distribute].
    destruct (_capture_source s ids env w) as [[jpeg w1] log1].
    destruct (push_if_any ids jpeg env w1) as [w2 log2].
    rewrite (IH w2).
    destruct (distribute g1 env w2) as [w3 log3]. cbn [fst snd].
    destruct (distribute g2 env w3) as [w4 log4]. cbn [fst snd].
    rewrite <- !app_assoc. reflexivity.
Qed.

(** What [_capture_source] returns for a group whose first stream is
    registered, and whether it encodes. *)
Lemma capture_source_value (s : string) (ids : list string) (env : cycle_env) (w : world)
      (first : string) (rest : list string) (st : StreamState) :
  ids = first :: rest ->
  get_stream w first = Some st ->
  let jpeg :=
    if String.eqb s "picam" then PiCam.get_frame picam (cameras w)
    else if Config.CV2_AVAILABLE (flags w) then
      match mode_of s with
      | Some mode =>
          option_map (fun f => Cv2.imencode_jpg f (jpeg_quality st))
                     (fst (fst (Kinect.get_frame mode (scale_factor st)
                                                 (kinect_read env mode)
                                                 (flags w) (kinect w))))
      | None => None
      end
    else None in
  fst (fst (_capture_source s ids env w)) = jpeg
  /\ (s <> "picam"%string ->
      encodes_of s (snd (_capture_source s ids env w))
      = match jpeg with Some _ => 1%nat | None => 0%nat end).
Proof.
  intros -> Hs. cbv zeta. unfold _capture_source, mode_of. rewrite Hs.
  assert (Hk : forall mode,
             fst (fst (kinect_capture s mode (jpeg_quality st) (scale_factor st) env w))
             = option_map (fun f => Cv2.imencode_jpg f (jpeg_quality st))
                          (fst (fst (Kinect.get_frame mode (scale_factor st)
                                       (kinect_read env mode) (flags w) (kinect w))))
             /\ encodes_of s
                  (snd (kinect_capture s mode (jpeg_quality st) (scale_factor st) env w))
                = match fst (fst (Kinect.get_frame mode (scale_factor st)
                                    (kinect_read env mode) (flags w) (kinect w))) with
                  | Some _ => 1%nat
                  | None => 0%nat
                  end).
  { intros mode. unfold kinect_capture.
    destruct (Kinect.get_frame mode (scale_factor st) (kinect_read env mode)
                               (flags w) (kinect w)) as [[fr c'] k'].
    destruct fr; cbn [fst snd option_map]; (split; [reflexivity|]).
    - unfold encodes_of. cbn. rewrite String.eqb_refl. reflexivity.
    - reflexivity. }
  destruct (String.eqb_spec s "picam") as [e|e].
  - subst s. destruct (Config.CV2_AVAILABLE (flags w)); cbn;
      (split; [reflexivity | intros H; contradiction]).
  - destruct (Config.CV2_AVAILABLE (flags w)); cbn [negb andb];
      [|split; [reflexivity | intros _; reflexivity]].
    destruct (String.eqb s "kinect_rgb").
    { destruct (Hk "rgb"%string) as [K1 K2]. rewrite K1, K2.
      split; [reflexivity | intros _].
      destruct (fst (fst (Kinect.get_frame "rgb" _ _ _ _))); reflexivity. }
    destruct (String.eqb s "kinect_ir").
    { destruct (Hk "ir"%string) as [K1 K2]. rewrite K1, K2.
      split; [reflexivity | intros _].
      destruct (fst (fst (Kinect.get_frame "ir" _ _ _ _))); reflexivity. }
    destruct (String.eqb s "kinect_depth").
    { destruct (Hk "depth"%string) as [K1 K2]. rewrite K1, K2.
      split; [reflexivity | intros _].
      destruct (fst (fst (Kinect.get_frame "depth" _ _ _ _))); reflexivity. }
    split; [reflexivity | intros _; reflexivity].
Qed.

(** The payloads of a group, from the world in which its turn comes. *)
Lemma distribute_payload (env : cycle_env) (before after : list (string * list string))
      (s : string) (ids : list string) (w : world) :
  NoDup (map fst (before ++ (s, ids) :: after)) ->
  disjoint (before ++ (s, ids) :: after) ->
  present w (before ++ (s, ids) :: after) ->
  let wk := fst (distribute before env w) in
  let log := snd (distribute (before ++ (s, ids) :: after) env w) in
  exists first rest st,
    ids = first :: rest
    /\ get_stream w first = Some st
    /\ (let jpeg :=
          if String.eqb s "picam" then PiCam.get_frame picam (cameras w)
          else if Config.CV2_AVAILABLE (flags w) then
            match mode_of s with
            | Some mode =>
                option_map (fun f => Cv2.imencode_jpg f (jpeg_quality st))
                           (fst (fst (Kinect.get_frame mode (scale_factor st)
                                                       (kinect_read env mode)
                                                       (flags wk) (kinect wk))))
            | None => None
            end
          else None in
        (forall id, In id ids -> pushed_to id log = payloads_of jpeg)
        /\ (s <> "picam"%string ->
            encodes_of s log = match jpeg with Some _ => 1%nat | None => 0%nat end)).
Proof.
  intros N D P wk log.
  destruct (P s ids) as (first & rest & st & Eids & Gf);
    [apply in_or_app; right; left; reflexivity|].
  exists first, rest, st. split; [exact Eids|]. split; [exact Gf|].
  destruct (distribute_streams env before w) as (Sf & _ & Ss). fold wk in Sf, Ss.
  pose proof (cameras_distribute before env w) as Sc. fold wk in Sc.
  assert (Gk : get_stream wk first
               = Some (after_pushes env first
                         (pushed_to first (snd (distribute before env w))) st)).
  { rewrite Ss, Gf. reflexivity. }
  destruct (after_pushes_settings env first
              (pushed_to first (snd (distribute before env w))) st) as [Kq Kx].
  pose proof (capture_source_value s ids env wk first rest _ Eids Gk) as V.
  cbv zeta in V. rewrite Kq, Kx, Sc, Sf in V. destruct V as [V1 V2].
  cbv zeta. set (jpeg := if String.eqb s "picam" then _ else _) in *.
  unfold log. rewrite distribute_app. cbn [snd].
  fold wk.
  destruct (distribute_cons s ids after env wk)
    as (jpeg0 & w1 & log1 & w2 & log2 & E1 & E2 & E & CL & _ & _ & _ & _ & L2).
  rewrite E1 in V1, V2. cbn [fst snd] in V1, V2. subst jpeg0.
  rewrite E. cbn [snd].
  destruct D as [D1 D2].
  assert (Nb : ~ In s (map fst before)).
  { rewrite map_app in N. apply NoDup_remove_2 in N. intros H. apply N.
    apply in_or_app. left. exact H. }
  assert (Na : ~ In s (map fst after)).
  { rewrite map_app in N. apply NoDup_remove_2 in N. intros H. apply N.
    apply in_or_app. right. exact H. }
  assert (Here : In (s, ids) (before ++ (s, ids) :: after))
    by (apply in_or_app; right; left; reflexivity).
  destruct (capture_log_counts s jpeg log1 CL) as (P1 & _).
  split.
  - intros id Hid.
    assert (Hb : pushed_to id (snd (distribute before env w)) = []).
    { apply distribute_unlisted. intros s' ids' Hin' Hid'. apply Nb.
      assert (Hin2 : In (s', ids') (before ++ (s, ids) :: after))
        by (apply in_or_app; left; exact Hin').
      rewrite (D2 s ids s' ids' id Here Hin2 Hid Hid').
      apply (in_map fst) in Hin'. exact Hin'. }
    assert (Hafter : pushed_to id (snd (distribute after env w2)) = []).
    { apply distribute_unlisted. intros s' ids' Hin' Hid'. apply Na.
      assert (Hin2 : In (s', ids') (before ++ (s, ids) :: after))
        by (apply in_or_app; right; right; exact Hin').
      rewrite (D2 s ids s' ids' id Here Hin2 Hid Hid').
      apply (in_map fst) in Hin'. exact Hin'. }
    rewrite !pushed_to_app, Hb, P1, Hafter, app_nil_r. cbn [app].
    unfold push_if_any in E2. unfold payloads_of.
    destruct jpeg as [b|].
    + destruct (truthy (Some b)).
      * pose proof (push_all_facts b env ids w1) as (_ & _ & Q & _).
        rewrite E2 in Q. cbn [snd] in Q. subst log2.
        apply pushed_to_present; [apply (D1 s ids Here) | exact Hid].
      * injection E2 as _ <-. reflexivity.
    + injection E2 as _ <-. reflexivity.
  - intros Hnp.
    destruct (distribute_quiet env before s w Nb) as [_ Qb].
    destruct (distribute_quiet env after s w2 Na) as [_ Qa].
    assert (Q2 : encodes_of s log2 = 0%nat).
    { destruct L2 as [L | [b [_ [_ L]]]]; rewrite L; [reflexivity | apply pushes_quiet]. }
    rewrite !encodes_of_app, Qb, Q2, Qa, (V2 Hnp). lia.
Qed.

End CycleFacts.

Section CycleTheorem.
Context {F : FloatBuiltins} {C : Cv2.codec}.
Import Manager.

Lemma manage_picam_keeps (groups : list (string * list string)) (env : cycle_env)
      (v : loop_vars) (w : world) :
  state (snd (manage_picam groups env v w)) = state w
  /\ flags (snd (manage_picam groups env v w)) = flags w.
Proof.
  unfold manage_picam.
  destruct (Config.dict_get groups "picam") as [ids|].
  - destruct ids as [|first rest]; [split; reflexivity|].
    destruct (get_stream w first); [|split; reflexivity].
    destruct (negb (picam_running v) || _); split; reflexivity.
  - destruct (picam_running v); split; reflexivity.
Qed.

Lemma registered_is_listed (w : world) (id : string) (st : StreamState) :
  get_stream w id = Some st -> In id (list_streams w).
Proof.
  intros G. apply dict_get_some_in in G.
  apply (in_map fst) in G. exact G.
Qed.

(** The grouping of a registry without repeated ids. *)
Lemma groups_partition (w : world) :
  NoDup (list_streams w) ->
  NoDup (map fst (_get_active_sources w))
  /\ present w (_get_active_sources w)
  /\ disjoint (_get_active_sources w).
Proof.
  intros N. destruct (groups_wf w) as [Nk _].
  split; [exact Nk|]. split; [|split].
  - intros s ids Hin. destruct (group_entry w s ids Hin) as [E Hne].
    destruct ids as [|first rest]; [contradiction|].
    assert (Hf : In first (filter (selects w s) (list_streams w))).
    { rewrite <- E. left. reflexivity. }
    apply filter_In in Hf. destruct Hf as [_ Hs]. unfold selects in Hs.
    destruct (get_stream w first) as [st|] eqn:G; [|discriminate].
    exists first, rest, st. split; [reflexivity | exact G].
  - intros s ids Hin. destruct (group_entry w s ids Hin) as [E _].
    rewrite E. apply NoDup_filter. exact N.
  - intros s ids s' ids' id Hin Hin' Hid Hid'.
    destruct (group_entry w s ids Hin) as [E _].
    destruct (group_entry w s' ids' Hin') as [E' _].
    rewrite E in Hid. rewrite E' in Hid'.
    apply filter_In in Hid, Hid'.
    apply (selects_unique w s s' id); [apply Hid | apply Hid'].
Qed.

End CycleTheorem.

(** C4 (amended): in a registry without repeated ids, one cycle of the
    capture loop groups the streams by selected source (distinct keys, each
    group the non-empty list of the streams selecting its key, every stream
    in the group of its source); it makes exactly one capture call for every
    selected source that is one of the four known names (with OpenCV present
    unless the source is the Pi camera) and none otherwise; it encodes at
    most once per source and never for the Pi camera.  What a group is sent
    is what its capture gave: for the Pi camera the JPEG bytes that
    [picam.get_frame()] holds, passed through; for a Kinect source the frame
    that [kinect.get_frame] returns in the mode of the source, with the
    scale of the group's first stream and the Kinect as the groups before
    left it, encoded once with that stream's quality; nothing when there is
    no frame.  Bytes that are not empty are pushed once to every stream of
    the group, the same bytes to each, and stored by [set_frame]; otherwise
    nothing is pushed to any of them.  With A and B on [kinect_rgb], C on
    [picam] and OpenCV present, a cycle makes exactly one [kinect_rgb] and
    one [picam] capture call, and A and B receive the same payloads: when one
    was pushed both hold it as their frame afterwards, otherwise each keeps
    the frame it had. *)
Theorem cycle_one_capture_per_source :
  forall (F : FloatBuiltins) (C : Cv2.codec)
         (env : Manager.cycle_env) (v : Manager.loop_vars) (w : Manager.world),
    NoDup (Manager.list_streams w) ->
    let groups := Manager._get_active_sources w in
    let w' := snd (fst (Manager.cycle env v w)) in
    let log := snd (Manager.cycle env v w) in
    NoDup (map fst groups)
    /\ (forall source ids,
           In (source, ids) groups ->
           ids <> []
           /\ ids = filter (Manager.selects w source) (Manager.list_streams w))
    /\ (forall id st,
           Manager.get_stream w id = Some st ->
           exists ids, In (current_source st, ids) groups /\ In id ids)
    /\ (forall source,
           Manager.captures_of source log
           = (if str_in source (map fst groups)
                 && Manager.attempts (Manager.flags w) source
              then 1%nat else 0%nat)
           /\ (Manager.encodes_of source log <= Manager.captures_of source log)%nat
           /\ (source = "picam"%string -> Manager.encodes_of source log = 0%nat))
    /\ (forall before source ids after,
           groups = before ++ (source, ids) :: after ->
           let wk :=
             fst (Manager.distribute before env
                    (snd (Manager.manage_picam groups env v w))) in
           exists first rest st,
             ids = first :: rest
             /\ Manager.get_stream w first = Some st
             /\ (before = [] ->
                 Manager.flags wk = Manager.flags w
                 /\ Manager.kinect wk = Manager.kinect w)
             /\ (let jpeg :=
                   if String.eqb source "picam"
                   then PiCam.get_frame Manager.picam (Manager.cameras w')
                   else if Config.CV2_AVAILABLE (Manager.flags w) then
                     match Manager.mode_of source with
                     | Some mode =>
                         option_map
                           (fun f => Cv2.imencode_jpg f (jpeg_quality st))
                           (fst (fst (Kinect.get_frame
                                        mode (scale_factor st)
                                        (Manager.kinect_read env mode)
                                        (Manager.flags wk) (Manager.kinect wk))))
                     | None => None
                     end
                   else None in
                 (source <> "picam"%string ->
                  Manager.encodes_of source log
                  = match jpeg with Some _ => 1%nat | None => 0%nat end)
                 /\ (forall id,
                        In id ids ->
                        Manager.pushed_to id log = Manager.payloads_of jpeg
                        /\ Manager.get_stream w' id
                           = option_map
                               (Manager.after_pushes env id (Manager.payloads_of jpeg))
                               (Manager.get_stream w id))))
    /\ (forall A B Cs sa sb sc,
           Manager.get_stream w A = Some sa -> current_source sa = "kinect_rgb"%string ->
           Manager.get_stream w B = Some sb -> current_source sb = "kinect_rgb"%string ->
           Manager.get_stream w Cs = Some sc -> current_source sc = "picam"%string ->
           Config.CV2_AVAILABLE (Manager.flags w) = true ->
           Manager.captures_of "kinect_rgb" log = 1%nat
           /\ Manager.captures_of "picam" log = 1%nat
           /\ Manager.pushed_to A log = Manager.pushed_to B log
           /\ option_map frame (Manager.get_stream w' A)
              = match Manager.pushed_to A log with
                | [] => Some (frame sa)
                | b :: _ => Some (Some b)
                end
           /\ option_map frame (Manager.get_stream w' B)
              = match Manager.pushed_to A log with
                | [] => Some (frame sb)
                | b :: _ => Some (Some b)
                end).
Proof.
  intros F C env v w N groups w' log.
  destruct (groups_partition w N) as (Nk & P & D).
  assert (E : Manager.cycle env v w
              = (fst (Manager.manage_picam groups env v w),
                 fst (Manager.distribute groups env
                                         (snd (Manager.manage_picam groups env v w))),
                 snd (Manager.distribute groups env
                                         (snd (Manager.manage_picam groups env v w))))).
  { unfold Manager.cycle. fold groups.
    destruct (Manager.manage_picam groups env v w) as [v1 w1]. simpl.
    destruct (Manager.distribute groups env w1); reflexivity. }
  destruct (manage_picam_keeps groups env v w) as [Ks Kf].
  assert (Kk : Manager.kinect (snd (Manager.manage_picam groups env v w))
               = Manager.kinect w).
  { unfold Manager.manage_picam.
    destruct (Config.dict_get groups "picam") as [ids|].
    - destruct ids as [|first rest]; [reflexivity|].
      destruct (Manager.get_stream w first); [|reflexivity].
      destruct (negb (Manager.picam_running v) || _); reflexivity.
    - destruct (Manager.picam_running v); reflexivity. }
  set (w1 := snd (Manager.manage_picam groups env v w)) in *.
  assert (Hg : forall id, Manager.get_stream w1 id = Manager.get_stream w id).
  { intros id. unfold Manager.get_stream. rewrite Ks. reflexivity. }
  assert (P1 : Manager.present w1 groups).
  { apply (present_after w); [|exact P].
    intros id. exists (fun s => s). rewrite Hg.
    destruct (Manager.get_stream w id); reflexivity. }
  assert (Elog : log = snd (Manager.distribute groups env w1)).
  { unfold log. rewrite E. reflexivity. }
  assert (Ew : w' = fst (Manager.distribute groups env w1)).
  { unfold w'. rewrite E. reflexivity. }
  assert (Ec : Manager.cameras w' = Manager.cameras w1).
  { rewrite Ew. apply cameras_distribute. }
  destruct (distribute_streams env groups w1) as (_ & _ & St).
  assert (Counts : forall source,
             Manager.captures_of source log
             = (if str_in source (map fst groups)
                   && Manager.attempts (Manager.flags w) source
                then 1%nat else 0%nat)
             /\ (Manager.encodes_of source log <= Manager.captures_of source log)%nat
             /\ (source = "picam"%string -> Manager.encodes_of source log = 0%nat)).
  { intros source. rewrite Elog, <- Kf. apply distribute_counts; assumption. }
  assert (Payloads : forall before source ids after,
             groups = before ++ (source, ids) :: after ->
             let wk := fst (Manager.distribute before env w1) in
             exists first rest st,
               ids = first :: rest
               /\ Manager.get_stream w first = Some st
               /\ (before = [] ->
                   Manager.flags wk = Manager.flags w
                   /\ Manager.kinect wk = Manager.kinect w)
               /\ (let jpeg :=
                     if String.eqb source "picam"
                     then PiCam.get_frame Manager.picam (Manager.cameras w')
                     else if Config.CV2_AVAILABLE (Manager.flags w) then
                       match Manager.mode_of source with
                       | Some mode =>
                           option_map
                             (fun f => Cv2.imencode_jpg f (jpeg_quality st))
                             (fst (fst (Kinect.get_frame
                                          mode (scale_factor st)
                                          (Manager.kinect_read env mode)
                                          (Manager.flags wk) (Manager.kinect wk))))
                       | None => None
                       end
                     else None in
                   (source <> "picam"%string ->
                    Manager.encodes_of source log
                    = match jpeg with Some _ => 1%nat | None => 0%nat end)
                   /\ (forall id,
                          In id ids ->
                          Manager.pushed_to id log = Manager.payloads_of jpeg
                          /\ Manager.get_stream w' id
                             = option_map
                                 (Manager.after_pushes env id (Manager.payloads_of jpeg))
                                 (Manager.get_stream w id)))).
  { intros before source ids after Eg wk.
    pose proof Nk as Nk'. pose proof D as D'. pose proof P1 as P1'.
    fold groups in Nk', D', P1'. rewrite Eg in Nk', D', P1'.
    destruct (distribute_payload env before after source ids w1 Nk' D' P1')
      as (first & rest & st & Eids & Gst & Hpay).
    exists first, rest, st. split; [exact Eids|]. split; [rewrite <- Hg; exact Gst|].
    split.
    { intros ->. unfold wk. cbn [Manager.distribute fst]. split; [exact Kf | exact Kk]. }
    cbv zeta in Hpay. rewrite <- Eg, <- Elog, Kf, <- Ec in Hpay. fold wk in Hpay.
    destruct Hpay as [Hp He]. cbv zeta. split; [exact He|].
    intros id Hid. pose proof (Hp id Hid) as Hq. split; [exact Hq|].
    assert (G : Manager.get_stream w' id
                = option_map (Manager.after_pushes env id (Manager.pushed_to id log))
                             (Manager.get_stream w id)).
    { rewrite Ew, Elog, St, Hg. reflexivity. }
    rewrite G, Hq. reflexivity. }
  assert (Pushes : forall source ids,
             In (source, ids) groups ->
             exists payloads : list bytes,
               (payloads = [] \/ exists b, payloads = [b])
               /\ (forall id,
                      In id ids ->
                      Manager.pushed_to id log = payloads
                      /\ Manager.get_stream w' id
                         = option_map (Manager.after_pushes env id payloads)
                                      (Manager.get_stream w id))).
  { intros source ids Hin.
    destruct (in_split _ _ Hin) as (before & after & Eg).
    destruct (Payloads before source ids after Eg)
      as (first & rest & st & _ & _ & _ & Hpay).
    cbv zeta in Hpay. destruct Hpay as [_ Hall].
    eexists. split; [|exact Hall].
    unfold Manager.payloads_of.
    match goal with
    | |- match ?j with Some _ => _ | None => _ end = [] \/ _ =>
        destruct j as [b|]; [destruct (truthy (Some b))|]
    end; [right; exists b; reflexivity | left; reflexivity | left; reflexivity]. }
  assert (Groups : forall id st,
             Manager.get_stream w id = Some st ->
             exists ids, In (current_source st, ids) groups /\ In id ids).
  { intros id st G. apply stream_in_its_group; [|exact G].
    apply (registered_is_listed w id st G). }
  split; [exact Nk|].
  split; [intros source ids Hin; destruct (group_entry w source ids Hin); split; assumption|].
  split; [exact Groups|]. split; [exact Counts|]. split; [exact Payloads|].
  intros A B Cs sa sb sc GA SA GB SB GC SC Hcv.
  destruct (Groups A sa GA) as [idsA [HinA HA]].
  destruct (Groups B sb GB) as [idsB [HinB HB]].
  destruct (Groups Cs sc GC) as [idsC [HinC HC]].
  rewrite SA in HinA. rewrite SB in HinB. rewrite SC in HinC.
  assert (EAB : idsB = idsA).
  { pose proof (dict_get_unique _ _ _ Nk HinA) as E1.
    pose proof (dict_get_unique _ _ _ Nk HinB) as E2. congruence. }
  subst idsB.
  assert (Hk : str_in "kinect_rgb" (map fst groups) = true).
  { apply str_in_In. apply (in_map fst) in HinA. exact HinA. }
  assert (Hp : str_in "picam" (map fst groups) = true).
  { apply str_in_In. apply (in_map fst) in HinC. exact HinC. }
  destruct (Counts "kinect_rgb"%string) as (Ck & _).
  destruct (Counts "picam"%string) as (Cp & _).
  rewrite Hk in Ck. rewrite Hp in Cp. unfold Manager.attempts in Ck, Cp.
  rewrite Hcv in Ck, Cp. simpl in Ck, Cp.
  destruct (Pushes "kinect_rgb"%string idsA HinA) as [payloads [Hpay Hall]].
  destruct (Hall A HA) as [PA SA'].
  destruct (Hall B HB) as [PB SB'].
  split; [exact Ck|]. split; [exact Cp|]. split; [congruence|].
  rewrite SA', SB', PA, GA, GB.
  destruct Hpay as [Hpay | [b Hpay]]; subst payloads; split; reflexivity.
Qed.

Lemma cycle_one_capture_per_source_witness :
  NoDup (Manager.list_streams Samples.three_streams)
  /\ Config.CV2_AVAILABLE (Manager.flags Samples.three_streams) = true
  /\ (let log :=
        snd (Manager.cycle (F := Samples.decimal_runtime) (C := Samples.sample_codec)
                           Samples.good_cycle Samples.picam_started Samples.three_streams) in
      Manager.captures_of "kinect_rgb" log = 1%nat
      /\ Manager.captures_of "picam" log = 1%nat
      /\ Manager.pushed_to "A" log = Manager.pushed_to "B" log
      /\ Manager.pushed_to "A" log
         = [Cv2.imencode_jpg (codec := Samples.sample_codec) [10; 20; 30] 70]
      /\ Manager.pushed_to "C" log = [Samples.jpeg_a]).
Proof.
  assert (N : NoDup (Manager.list_streams Samples.three_streams)).
  { repeat constructor; simpl; intuition discriminate. }
  split; [exact N|]. split; [reflexivity|].
  destruct (cycle_one_capture_per_source
              Samples.decimal_runtime Samples.sample_codec
              Samples.good_cycle Samples.picam_started Samples.three_streams N)
    as (_ & _ & _ & _ & Pay & S).
  destruct (S "A"%string "B"%string "C"%string
              (Samples.stream_on "A" "kinect_rgb") (Samples.stream_on "B" "kinect_rgb")
              (Samples.stream_on "C" "picam")
              eq_refl eq_refl eq_refl eq_refl eq_refl eq_refl eq_refl)
    as (S1 & S2 & S3 & _).
  cbv zeta. split; [exact S1|]. split; [exact S2|]. split; [exact S3|].
  split.
  - destruct (Pay [] "kinect_rgb"%string ["A"; "B"]%string
                  [("picam"%string, ["C"%string])] eq_refl)
      as (first & rest & st & Eids & Gst & _ & _ & Hp).
    injection Eids as <- <-. injection Gst as <-.
    rewrite (proj1 (Hp "A"%string (or_introl eq_refl))). vm_compute. reflexivity.
  - destruct (Pay [("kinect_rgb"%string, ["A"; "B"]%string)] "picam"%string
                  ["C"%string] [] eq_refl)
      as (first & rest & st & Eids & Gst & _ & _ & Hp).
    rewrite (proj1 (Hp "C"%string (or_introl eq_refl))). vm_compute. reflexivity.
Defined.

(** C4, as stated, fails: with streams A and B on the Kinect colour camera
    and C on the Pi camera, everything working, the cycle makes one capture
    call for [picam] and no encode for it (its JPEG bytes are passed through),
    so it is not the case that every needed source is captured once and
    encoded once. *)
Lemma cycle_picam_not_encoded_counterexample :
  let log :=
    snd (Manager.cycle (F := Samples.decimal_runtime) (C := Samples.sample_codec)
                       Samples.good_cycle Samples.picam_started Samples.three_streams) in
  In "picam"%string (map fst (Manager._get_active_sources Samples.three_streams))
  /\ Manager.captures_of "picam" log = 1%nat
  /\ Manager.encodes_of "picam" log = 0%nat
  /\ ~ (forall (F : FloatBuiltins) (C : Cv2.codec) (env : Manager.cycle_env)
               (v : Manager.loop_vars) (w : Manager.world) (source : string),
           NoDup (Manager.list_streams w) ->
           In source (map fst (Manager._get_active_sources w)) ->
           Manager.captures_of source (snd (Manager.cycle env v w)) = 1%nat
           /\ Manager.encodes_of source (snd (Manager.cycle env v w)) = 1%nat).
Proof.
  cbv zeta. split; [right; left; reflexivity|].
  split; [reflexivity|]. split; [reflexivity|].
  intros H.
  assert (N : NoDup (Manager.list_streams Samples.three_streams)).
  { repeat constructor; simpl; intuition discriminate. }
  destruct (H Samples.decimal_runtime Samples.sample_codec
              Samples.good_cycle Samples.picam_started Samples.three_streams
              "picam"%string N (or_intror (or_introl eq_refl))) as [_ He].
  discriminate He.
Qed.

(** ** The [/switch] handler *)

Section SwitchFacts.
Context {F : FloatBuiltins}.
Import HttpServer.

Lemma apply_source_fails (target : string) (params : list (string * string))
      (parts : list string) (w : Manager.world) (st : StreamState) :
  Manager.get_stream w target = Some st ->
  source_fails params w = true ->
  apply_source target params parts w
  = (inl {| code := 400;
            body := ("ERROR: " ++ source_message (param params "source") w ++ nl)%string |},
     w).
Proof.
  intros G Hf. unfold source_fails in Hf. apply andb_true_iff in Hf.
  destruct Hf as [H1 H2]. apply negb_true_iff in H1.
  unfold apply_source, Manager.switch_source, source_message.
  rewrite H1, G, H2.
  destruct (str_in (param params "source") Config.KINECT_SOURCES); reflexivity.
Qed.

Lemma apply_source_passes (target : string) (params : list (string * string))
      (parts : list string) (w : Manager.world) (st : StreamState) :
  Manager.get_stream w target = Some st ->
  source_fails params w = false ->
  exists parts',
    apply_source target params parts w = (inr parts', source_effect target params w).
Proof.
  intros G Hf. unfold source_fails in Hf. unfold apply_source, source_effect.
  destruct (String.eqb (param params "source") EmptyString) eqn:E.
  - exists parts. reflexivity.
  - simpl in Hf. apply negb_false_iff in Hf.
    unfold Manager.switch_source. rewrite G, Hf. simpl.
    eexists. reflexivity.
Qed.

Lemma apply_quality_fails (target : string) (params : list (string * string))
      (parts : list string) (w : Manager.world) :
  quality_fails params = true ->
  apply_quality target params parts w
  = (inl {| code := 400; body := ("ERROR: quality must be 1-100" ++ nl)%string |}, w).
Proof.
  intros Hf. unfold quality_fails in Hf. apply andb_true_iff in Hf.
  destruct Hf as [H1 H2]. apply negb_true_iff in H1.
  unfold apply_quality. rewrite H1.
  destruct (int_of_str (param params "quality")) as [q|]; [|reflexivity].
  apply negb_true_iff in H2. rewrite H2. reflexivity.
Qed.

Lemma apply_quality_passes (target : string) (params : list (string * string))
      (parts : list string) (w : Manager.world) :
  quality_fails params = false ->
  exists parts',
    apply_quality target params parts w = (inr parts', quality_effect target params w).
Proof.
  intros Hf. unfold quality_fails in Hf. unfold apply_quality, quality_effect.
  destruct (String.eqb (param params "quality") EmptyString) eqn:E.
  - exists parts. destruct (int_of_str (param params "quality")); reflexivity.
  - simpl in Hf. destruct (int_of_str (param params "quality")) as [q|]; [|discriminate].
    apply negb_false_iff in Hf. rewrite Hf. eexists. reflexivity.
Qed.

Lemma apply_scale_fails (target : string) (params : list (string * string))
      (parts : list string) (w : Manager.world) :
  scale_fails params = true ->
  apply_scale target params parts w
  = (inl {| code := 400; body := ("ERROR: scale must be 0.25-2.0" ++ nl)%string |}, w).
Proof.
  intros Hf. unfold scale_fails in Hf. apply andb_true_iff in Hf.
  destruct Hf as [H1 H2]. apply negb_true_iff in H1.
  unfold apply_scale. rewrite H1.
  destruct (float_of_str (param params "scale")) as [s|]; [|reflexivity].
  destruct (flt_le (Finite 0.25) s && flt_le s (Finite 2.0)); [discriminate | reflexivity].
Qed.

Lemma apply_scale_passes (target : string) (params : list (string * string))
      (parts : list string) (w : Manager.world) :
  scale_fails params = false ->
  exists parts',
    apply_scale target params parts w = (inr parts', scale_effect target params w).
Proof.
  intros Hf. unfold scale_fails in Hf. unfold apply_scale, scale_effect.
  destruct (String.eqb (param params "scale") EmptyString) eqn:E.
  - exists parts. destruct (float_of_str (param params "scale")); reflexivity.
  - cbn [negb andb] in Hf.
    destruct (float_of_str (param params "scale")) as [s|]; [|discriminate].
    destruct (flt_le (Finite 0.25) s && flt_le s (Finite 2.0)); [|discriminate].
    eexists. reflexivity.
Qed.

Lemma apply_picam_res_fails (target : string) (params : list (string * string))
      (parts : list string) (w : Manager.world) :
  picam_res_fails params = true ->
  apply_picam_res target params parts w
  = (inl {| code := 400;
            body := ("ERROR: picam_res must be: "
                       ++ repr_list (map fst Config.PICAM_PRESETS) ++ nl)%string |}, w).
Proof.
  intros Hf. unfold picam_res_fails in Hf. apply andb_true_iff in Hf.
  destruct Hf as [H1 H2]. apply negb_true_iff in H1, H2.
  unfold apply_picam_res. rewrite H1, H2. reflexivity.
Qed.

(** The failing field decides the answer and the world it leaves. *)
Lemma apply_params_first_failure (target : string) (params : list (string * string))
      (w : Manager.world) (st : StreamState) :
  Manager.get_stream w target = Some st ->
  let r := run (apply_params target params) w in
  let w1 := source_effect target params w in
  let w2 := quality_effect target params w1 in
  let w3 := scale_effect target params w2 in
  (source_fails params w = true ->
   r = (Responded
          {| code := 400;
             body := ("ERROR: " ++ source_message (param params "source") w ++ nl)%string |},
        w))
  /\ (source_fails params w = false -> quality_fails params = true ->
      r = (Responded
             {| code := 400; body := ("ERROR: quality must be 1-100" ++ nl)%string |},
           w1))
  /\ (source_fails params w = false -> quality_fails params = false ->
      scale_fails params = true ->
      r = (Responded
             {| code := 400; body := ("ERROR: scale must be 0.25-2.0" ++ nl)%string |},
           w2))
  /\ (source_fails params w = false -> quality_fails params = false ->
      scale_fails params = false -> picam_res_fails params = true ->
      r = (Responded
             {| code := 400;
                body := ("ERROR: picam_res must be: "
                           ++ repr_list (map fst Config.PICAM_PRESETS) ++ nl)%string |},
           w3)).
Proof.
  intros G r w1 w2 w3. unfold r, run, apply_params, bind.
  split; [|split; [|split]].
  - intros H1. rewrite (apply_source_fails target params [] w st G H1). reflexivity.
  - intros H1 H2.
    destruct (apply_source_passes target params [] w st G H1) as [p1 E1]. rewrite E1.
    rewrite (apply_quality_fails target params p1 _ H2). reflexivity.
  - intros H1 H2 H3.
    destruct (apply_source_passes target params [] w st G H1) as [p1 E1]. rewrite E1.
    destruct (apply_quality_passes target params p1 (source_effect target params w) H2)
      as [p2 E2]. rewrite E2.
    rewrite (apply_scale_fails target params p2 _ H3). reflexivity.
  - intros H1 H2 H3 H4.
    destruct (apply_source_passes target params [] w st G H1) as [p1 E1]. rewrite E1.
    destruct (apply_quality_passes target params p1 (source_effect target params w) H2)
      as [p2 E2]. rewrite E2.
    destruct (apply_scale_passes target params p2
                (quality_effect target params (source_effect target params w)) H3)
      as [p3 E3]. rewrite E3.
    rewrite (apply_picam_res_fails target params p3 _ H4). reflexivity.
Qed.

Lemma contains_app (c : ascii) (a b : string) :
  contains c (a ++ b)%string = contains c a || contains c b.
Proof.
  induction a as [|x a IH]; simpl; [reflexivity|].
  rewrite IH. apply orb_assoc.
Qed.

Lemma source_message_one_line (source : string) (w : Manager.world) :
  contains (ascii_of_nat 10) source = false ->
  contains (ascii_of_nat 10) (source_message source w) = false.
Proof.
  intros Hs. unfold source_message, Config.get_available_sources.
  destruct (str_in source Config.KINECT_SOURCES);
    destruct (Config.KINECT_AVAILABLE (Manager.flags w));
    rewrite ?contains_app, ?Hs; reflexivity.
Qed.

(** The fields that the effects of earlier fields leave alone. *)
Lemma effects_keep (target : string) (params : list (string * string))
      (w : Manager.world) (st : StreamState) :
  Manager.get_stream w target = Some st ->
  (exists s1,
      Manager.get_stream (source_effect target params w) target = Some s1
      /\ jpeg_quality s1 = jpeg_quality st
      /\ scale_factor s1 = scale_factor st
      /\ picam_preset s1 = picam_preset st)
  /\ (exists s2,
         Manager.get_stream
           (quality_effect target params (source_effect target params w)) target = Some s2
         /\ scale_factor s2 = scale_factor st
         /\ picam_preset s2 = picam_preset st)
  /\ (exists s3,
         Manager.get_stream
           (scale_effect target params
              (quality_effect target params (source_effect target params w))) target
         = Some s3
         /\ picam_preset s3 = picam_preset st).
Proof.
  intros G.
  assert (H1 : exists s1,
             Manager.get_stream (source_effect target params w) target = Some s1
             /\ jpeg_quality s1 = jpeg_quality st
             /\ scale_factor s1 = scale_factor st
             /\ picam_preset s1 = picam_preset st).
  { unfold source_effect. destruct (String.eqb (param params "source") EmptyString).
    - exists st. repeat split. exact G.
    - rewrite get_stream_on_stream, String.eqb_refl, G. simpl.
      eexists. split; [reflexivity|]. repeat split. }
  destruct H1 as (s1 & G1 & Q1 & S1 & P1).
  assert (H2 : exists s2,
             Manager.get_stream
               (quality_effect target params (source_effect target params w)) target
             = Some s2
             /\ scale_factor s2 = scale_factor st
             /\ picam_preset s2 = picam_preset st).
  { unfold quality_effect. destruct (int_of_str (param params "quality")) as [q|].
    - destruct (String.eqb (param params "quality") EmptyString).
      + exists s1. repeat split; assumption.
      + rewrite get_stream_on_stream, String.eqb_refl, G1. simpl.
        eexists. split; [reflexivity|]. simpl. split; assumption.
    - exists s1. repeat split; assumption. }
  destruct H2 as (s2 & G2 & S2 & P2).
  split; [exists s1; repeat split; assumption|].
  split; [exists s2; repeat split; assumption|].
  unfold scale_effect. destruct (float_of_str (param params "scale")) as [x|].
  - destruct (String.eqb (param params "scale") EmptyString).
    + exists s2. split; assumption.
    + rewrite get_stream_on_stream, String.eqb_refl, G2. simpl.
      eexists. split; [reflexivity|]. simpl. exact P2.
  - exists s2. split; assumption.
Qed.

(** From the request path to the fields. *)
Lemma handle_switch_parsed (stream_id path target : string)
      (params : list (string * string)) (w : Manager.world) (st : StreamState) :
  contains "?" path = true ->
  parse_query (nth 1 (split_on "?" path) EmptyString) = Some params ->
  match Config.dict_get params "stream" with
  | Some v => v
  | None => stream_id
  end = target ->
  Manager.get_stream w target = Some st ->
  handle_switch stream_id path w = run (apply_params target params) w.
Proof.
  intros Hq Hp Ht G. unfold handle_switch. rewrite Hq, Hp. simpl negb. cbv iota.
  rewrite Ht, G. reflexivity.
Qed.

End SwitchFacts.

(** C5 (amended): for a [/switch] request to an existing stream, the fields
    are validated and applied one after the other in the order source,
    quality, scale, picam_res, and the first field that fails its validation
    ends the request with HTTP 400 and one error line.  A failing source
    leaves the world as it was; a failing quality leaves it as the source
    field left it; a failing scale as source and quality left it; a failing
    picam_res as source, quality and scale left it.  So no field validated
    after the failing one is applied (the effects of earlier fields do not
    touch it), while the fields before it stay applied.
    [/switch?source=kinect_ir&stream=main] while the Kinect is unavailable is
    answered 400 and leaves the world, hence [main]'s source, unchanged. *)
Theorem switch_stops_at_first_failure :
  forall (F : FloatBuiltins) (target : string) (params : list (string * string))
         (w : Manager.world) (st : StreamState),
    Manager.get_stream w target = Some st ->
    let r := HttpServer.run (HttpServer.apply_params target params) w in
    let w1 := HttpServer.source_effect target params w in
    let w2 := HttpServer.quality_effect target params w1 in
    let w3 := HttpServer.scale_effect target params w2 in
    (HttpServer.source_fails params w = true ->
     r = (HttpServer.Responded
            {| HttpServer.code := 400;
               HttpServer.body :=
                 ("ERROR: "
                    ++ HttpServer.source_message (HttpServer.param params "source") w
                    ++ HttpServer.nl)%string |},
          w)
     /\ (contains (ascii_of_nat 10) (HttpServer.param params "source") = false ->
         HttpServer.single_line
           ("ERROR: " ++ HttpServer.source_message (HttpServer.param params "source") w
              ++ HttpServer.nl)%string))
    /\ (HttpServer.source_fails params w = false ->
        HttpServer.quality_fails params = true ->
        r = (HttpServer.Responded
               {| HttpServer.code := 400;
                  HttpServer.body := ("ERROR: quality must be 1-100" ++ HttpServer.nl)%string |},
             w1))
    /\ (HttpServer.source_fails params w = false ->
        HttpServer.quality_fails params = false ->
        HttpServer.scale_fails params = true ->
        r = (HttpServer.Responded
               {| HttpServer.code := 400;
                  HttpServer.body := ("ERROR: scale must be 0.25-2.0" ++ HttpServer.nl)%string |},
             w2))
    /\ (HttpServer.source_fails params w = false ->
        HttpServer.quality_fails params = false ->
        HttpServer.scale_fails params = false ->
        HttpServer.picam_res_fails params = true ->
        r = (HttpServer.Responded
               {| HttpServer.code := 400;
                  HttpServer.body :=
                    ("ERROR: picam_res must be: ['low', 'medium', 'high', 'full']"
                       ++ HttpServer.nl)%string |},
             w3))
    /\ HttpServer.single_line ("ERROR: quality must be 1-100" ++ HttpServer.nl)%string
    /\ HttpServer.single_line ("ERROR: scale must be 0.25-2.0" ++ HttpServer.nl)%string
    /\ HttpServer.single_line
         ("ERROR: picam_res must be: ['low', 'medium', 'high', 'full']"
            ++ HttpServer.nl)%string
    /\ (exists s1,
           Manager.get_stream w1 target = Some s1
           /\ jpeg_quality s1 = jpeg_quality st
           /\ scale_factor s1 = scale_factor st
           /\ picam_preset s1 = picam_preset st)
    /\ (exists s2,
           Manager.get_stream w2 target = Some s2
           /\ scale_factor s2 = scale_factor st
           /\ picam_preset s2 = picam_preset st)
    /\ (exists s3,
           Manager.get_stream w3 target = Some s3
           /\ picam_preset s3 = picam_preset st)
    /\ (forall stream_id path : string,
           contains "?" path = true ->
           HttpServer.parse_query (nth 1 (split_on "?" path) EmptyString) = Some params ->
           match Config.dict_get params "stream" with
           | Some v => v
           | None => stream_id
           end = target ->
           HttpServer.handle_switch stream_id path w = r)
    /\ (forall (stream_id : string) (w0 : Manager.world) (st0 : StreamState),
           Config.KINECT_AVAILABLE (Manager.flags w0) = false ->
           Manager.get_stream w0 "main" = Some st0 ->
           HttpServer.handle_switch stream_id "/switch?source=kinect_ir&stream=main" w0
           = (HttpServer.Responded
                {| HttpServer.code := 400;
                   HttpServer.body :=
                     ("ERROR: Kinect unavailable. Available sources: ['picam']"
                        ++ HttpServer.nl)%string |},
              w0)).
Proof.
  intros F target params w st G r w1 w2 w3.
  destruct (apply_params_first_failure target params w st G) as (A1 & A2 & A3 & A4).
  destruct (effects_keep target params w st G) as (K1 & K2 & K3).
  split; [|split; [|split; [|split; [|split; [|split; [|split; [|split;
    [|split; [|split; [|split]]]]]]]]]].
  - intros H1. split; [apply A1; exact H1|].
    intros Hs.
    exists ("ERROR: " ++ HttpServer.source_message (HttpServer.param params "source") w)%string.
    split; [reflexivity|].
    rewrite contains_app, (source_message_one_line _ w Hs). reflexivity.
  - exact A2.
  - exact A3.
  - exact A4.
  - exists "ERROR: quality must be 1-100"%string. split; reflexivity.
  - exists "ERROR: scale must be 0.25-2.0"%string. split; reflexivity.
  - exists "ERROR: picam_res must be: ['low', 'medium', 'high', 'full']"%string.
    split; reflexivity.
  - exact K1.
  - exact K2.
  - exact K3.
  - intros stream_id path Hq Hp Ht.
    apply (handle_switch_parsed stream_id path target params w st Hq Hp Ht G).
  - intros stream_id w0 st0 Hk G0.
    rewrite (handle_switch_parsed stream_id "/switch?source=kinect_ir&stream=main" "main"
               [("source", "kinect_ir"); ("stream", "main")]%string w0 st0
               eq_refl eq_refl eq_refl G0).
    destruct (apply_params_first_failure
                "main" [("source", "kinect_ir"); ("stream", "main")]%string w0 st0 G0)
      as (B1 & _).
    cbv zeta in B1. rewrite B1.
    + unfold HttpServer.source_message, Config.get_available_sources.
      rewrite Hk. reflexivity.
    + unfold HttpServer.source_fails, Config.get_available_sources.
      rewrite Hk. reflexivity.
Qed.

Lemma switch_stops_at_first_failure_witness :
  Manager.get_stream Samples.two_streams "main"
  = Some (Samples.stream_on "main" "kinect_rgb")
  /\ HttpServer.source_fails Samples.source_and_bad_quality Samples.two_streams = false
  /\ HttpServer.quality_fails Samples.source_and_bad_quality = true
  /\ HttpServer.run
       (HttpServer.apply_params (F := Samples.decimal_runtime)
                                "main" Samples.source_and_bad_quality)
       Samples.two_streams
     = (HttpServer.Responded
          {| HttpServer.code := 400;
             HttpServer.body := ("ERROR: quality must be 1-100" ++ HttpServer.nl)%string |},
        HttpServer.source_effect "main" Samples.source_and_bad_quality Samples.two_streams).
Proof.
  split; [reflexivity|]. split; [reflexivity|]. split; [reflexivity|].
  destruct (switch_stops_at_first_failure
              Samples.decimal_runtime "main" Samples.source_and_bad_quality
              Samples.two_streams (Samples.stream_on "main" "kinect_rgb") eq_refl)
    as (_ & P & _).
  apply P; reflexivity.
Defined.

(** C5, as stated, fails: [/switch?source=picam&quality=999] on stream
    [main] is answered 400 for the quality, after the source has been
    switched. *)
Lemma switch_partial_mutation_counterexample :
  let r := HttpServer.handle_switch (F := Samples.decimal_runtime)
             "main" "/switch?source=picam&quality=999" Samples.two_streams in
  fst r
  = HttpServer.Responded
      {| HttpServer.code := 400;
         HttpServer.body := ("ERROR: quality must be 1-100" ++ HttpServer.nl)%string |}
  /\ option_map current_source (Manager.get_stream Samples.two_streams "main")
     = Some "kinect_rgb"%string
  /\ option_map current_source (Manager.get_stream (snd r) "main") = Some "picam"%string
  /\ option_map (fun s => source_switches (stats s)) (Manager.get_stream (snd r) "main")
     = Some 1
  /\ ~ (forall (F : FloatBuiltins) (target : string) (params : list (string * string))
               (w : Manager.world) (st : StreamState),
           Manager.get_stream w target = Some st ->
           HttpServer.source_fails params w || HttpServer.quality_fails params
           || HttpServer.scale_fails params || HttpServer.picam_res_fails params = true ->
           exists b,
             HttpServer.run (HttpServer.apply_params target params) w
             = (HttpServer.Responded {| HttpServer.code := 400; HttpServer.body := b |}, w)).
Proof.
  cbv zeta. split; [reflexivity|]. split; [reflexivity|]. split; [reflexivity|].
  split; [reflexivity|].
  intros H.
  destruct (H Samples.decimal_runtime "main"%string Samples.source_and_bad_quality
              Samples.two_streams (Samples.stream_on "main" "kinect_rgb")
              eq_refl eq_refl) as [b Hb].
  apply (f_equal (fun r => option_map current_source (Manager.get_stream (snd r) "main")))
    in Hb.
  vm_compute in Hb. discriminate Hb.
Qed.

(** ** The control protocol *)

Section ControlFacts.
Context {F : FloatBuiltins}.
Import ControlServer.

Lemma words_select_main :
  split (strip ("select main" ++ nl)) = ["select"; "main"]%string.
Proof. reflexivity. Qed.

Lemma words_quality_85 :
  split (strip ("quality 85" ++ nl)) = ["quality"; "85"]%string.
Proof. reflexivity. Qed.

Lemma words_status : split (strip ("status" ++ nl)) = ["status"]%string.
Proof. reflexivity. Qed.

(** [select <id>] of a registered stream moves the cursor and nothing else. *)
Lemma select_registered (selected_stream : string) (w : Manager.world) (m : StreamState) :
  Manager.get_stream w "main" = Some m ->
  handle_command ("select main" ++ nl) selected_stream w
  = (say [("OK: Selected stream 'main'" ++ nl ++ prompt)%string] "main", w).
Proof.
  intros G. unfold handle_command. cbv zeta. rewrite words_select_main.
  cbn [lower lower_char]. simpl String.eqb. cbv iota. rewrite G. reflexivity.
Qed.

Lemma quality_is_no_source (c : Config.flags) :
  str_in "quality" (Config.get_available_sources c) = false
  /\ str_in "status" (Config.get_available_sources c) = false.
Proof.
  unfold Config.get_available_sources.
  destruct (Config.KINECT_AVAILABLE c); split; reflexivity.
Qed.

(** [quality 85] sets the quality of the selected stream. *)
Lemma quality_selected (w : Manager.world) (m : StreamState) :
  Manager.get_stream w "main" = Some m ->
  handle_command ("quality 85" ++ nl) "main" w
  = (say [("OK: JPEG quality set to 85" ++ nl ++ prompt)%string] "main",
     Manager.on_stream "main" (update_settings (kw_quality 85)) w).
Proof.
  intros G. unfold handle_command. cbv zeta. rewrite words_quality_85.
  cbv iota. change (lower "quality") with "quality"%string.
  destruct (quality_is_no_source (Manager.flags w)) as [Hq _].
  rewrite Hq.
  change (String.eqb "quality" "streams") with false.
  change (String.eqb "quality" "select") with false.
  change (str_in "quality" Config.KINECT_SOURCES) with false.
  change (String.eqb "quality" "quality") with true.
  cbv iota. cbn [andb]. unfold do_quality. rewrite G. reflexivity.
Qed.

(** [status] prints the settings of the selected stream. *)
Lemma status_selected (selected_stream : string) (w : Manager.world) (m : StreamState)
      (resolution : string) :
  Manager.get_stream w selected_stream = Some m ->
  Manager.resolution_of (get_settings m) = Some resolution ->
  handle_command ("status" ++ nl) selected_stream w
  = (say [ ("Stream: " ++ selected_stream ++ nl)%string;
           ("Source: " ++ current_source m ++ nl)%string;
           ("Resolution: " ++ resolution ++ nl)%string;
           ("JPEG Quality: " ++ str_int (jpeg_quality m) ++ nl)%string;
           ("Scale Factor: " ++ str_of_float (scale_factor m) ++ nl)%string;
           ("Pi Cam Preset: " ++ picam_preset m ++ nl)%string;
           ("Frames: " ++ str_int (frames_captured (stats m)) ++ nl)%string;
           ("Clients: " ++ str_int (clients_connected (stats m)) ++ nl ++ prompt)%string ]
         selected_stream, w).
Proof.
  intros G R. unfold handle_command. cbv zeta. rewrite words_status.
  cbv iota. change (lower "status") with "status"%string.
  destruct (quality_is_no_source (Manager.flags w)) as [_ Hs].
  rewrite Hs.
  change (String.eqb "status" "streams") with false.
  change (String.eqb "status" "select") with false.
  change (str_in "status" Config.KINECT_SOURCES) with false.
  change (String.eqb "status" "quality") with false.
  change (String.eqb "status" "scale") with false.
  change (String.eqb "status" "picam_res") with false.
  change (String.eqb "status" "status") with true.
  cbv iota. cbn [andb]. unfold do_status. rewrite G, R. reflexivity.
Qed.

End ControlFacts.

(** C9: in a registry holding [main] and [secondary], whatever stream the
    session had selected, [select main] answers OK, selects [main] and leaves
    the world alone, and [quality 85] then answers OK and sets [main]'s
    [jpeg_quality] to 85: every other field of [main], every other stream
    ([secondary] in particular), the registry keys and the rest of the world
    are unchanged.  A following [status] prints [JPEG Quality: 85] for [main],
    and for [secondary] the quality it had before. *)
Theorem control_quality_changes_selected_stream_only :
  forall (F : FloatBuiltins) (w : Manager.world) (selected_stream : string)
         (m s2 : StreamState),
    Manager.get_stream w "main" = Some m ->
    Manager.get_stream w "secondary" = Some s2 ->
    let w' := Manager.on_stream "main" (update_settings (kw_quality 85)) w in
    let m' := update_settings (kw_quality 85) m in
    ControlServer.handle_command ("select main" ++ ControlServer.nl) selected_stream w
    = (ControlServer.say
         [("OK: Selected stream 'main'" ++ ControlServer.nl ++ ControlServer.prompt)%string]
         "main", w)
    /\ ControlServer.handle_command ("quality 85" ++ ControlServer.nl) "main" w
       = (ControlServer.say
            [("OK: JPEG quality set to 85" ++ ControlServer.nl
                ++ ControlServer.prompt)%string] "main", w')
    /\ (running (Manager.state w) = true ->
        ControlServer.session
          [("select main" ++ ControlServer.nl)%string;
           ("quality 85" ++ ControlServer.nl)%string] selected_stream w
        = ([("OK: Selected stream 'main'" ++ ControlServer.nl
               ++ ControlServer.prompt)%string;
            ("OK: JPEG quality set to 85" ++ ControlServer.nl
               ++ ControlServer.prompt)%string],
           "main"%string, w'))
    /\ Manager.get_stream w' "main" = Some m'
    /\ jpeg_quality m' = 85
    /\ (stream_id m' = stream_id m
        /\ current_source m' = current_source m
        /\ frame m' = frame m
        /\ frame_id m' = frame_id m
        /\ scale_factor m' = scale_factor m
        /\ picam_preset m' = picam_preset m
        /\ stats m' = stats m
        /\ frame_condition m' = frame_condition m)
    /\ (forall other : string,
           other <> "main"%string ->
           Manager.get_stream w' other = Manager.get_stream w other)
    /\ Manager.get_stream w' "secondary" = Some s2
    /\ Manager.list_streams w' = Manager.list_streams w
    /\ (Manager.flags w' = Manager.flags w
        /\ Manager.kinect w' = Manager.kinect w
        /\ Manager.cameras w' = Manager.cameras w
        /\ Manager._running w' = Manager._running w)
    /\ (forall resolution : string,
           Manager.resolution_of (get_settings m) = Some resolution ->
           ControlServer.handle_command ("status" ++ ControlServer.nl) "main" w'
           = (ControlServer.say
                [ ("Stream: main" ++ ControlServer.nl)%string;
                  ("Source: " ++ current_source m ++ ControlServer.nl)%string;
                  ("Resolution: " ++ resolution ++ ControlServer.nl)%string;
                  ("JPEG Quality: 85" ++ ControlServer.nl)%string;
                  ("Scale Factor: " ++ str_of_float (scale_factor m)
                     ++ ControlServer.nl)%string;
                  ("Pi Cam Preset: " ++ picam_preset m ++ ControlServer.nl)%string;
                  ("Frames: " ++ str_int (frames_captured (stats m))
                     ++ ControlServer.nl)%string;
                  ("Clients: " ++ str_int (clients_connected (stats m))
                     ++ ControlServer.nl ++ ControlServer.prompt)%string ]
                "main", w'))
    /\ (forall resolution : string,
           Manager.resolution_of (get_settings s2) = Some resolution ->
           ControlServer.handle_command ("status" ++ ControlServer.nl) "secondary" w'
           = (ControlServer.say
                [ ("Stream: secondary" ++ ControlServer.nl)%string;
                  ("Source: " ++ current_source s2 ++ ControlServer.nl)%string;
                  ("Resolution: " ++ resolution ++ ControlServer.nl)%string;
                  ("JPEG Quality: " ++ str_int (jpeg_quality s2)
                     ++ ControlServer.nl)%string;
                  ("Scale Factor: " ++ str_of_float (scale_factor s2)
                     ++ ControlServer.nl)%string;
                  ("Pi Cam Preset: " ++ picam_preset s2 ++ ControlServer.nl)%string;
                  ("Frames: " ++ str_int (frames_captured (stats s2))
                     ++ ControlServer.nl)%string;
                  ("Clients: " ++ str_int (clients_connected (stats s2))
                     ++ ControlServer.nl ++ ControlServer.prompt)%string ]
                "secondary", w')).
Proof.
  intros F w selected_stream m s2 Gm Gs w' m'.
  assert (Hm' : Manager.get_stream w' "main" = Some m').
  { unfold w'. rewrite get_stream_on_stream, String.eqb_refl, Gm. reflexivity. }
  assert (Hother : forall other : string,
             other <> "main"%string ->
             Manager.get_stream w' other = Manager.get_stream w other).
  { intros other Hne. unfold w'. rewrite get_stream_on_stream.
    destruct (String.eqb_spec other "main"); [contradiction | reflexivity]. }
  assert (Hs' : Manager.get_stream w' "secondary" = Some s2).
  { rewrite Hother; [exact Gs | discriminate]. }
  split; [apply (select_registered selected_stream w m Gm)|].
  split; [apply (quality_selected w m Gm)|].
  split.
  { intros Hrun. cbn [ControlServer.session]. rewrite Hrun. cbn [negb].
    change (String.eqb ("select main" ++ ControlServer.nl) EmptyString) with false.
    cbv iota. rewrite (select_registered selected_stream w m Gm).
    cbn [ControlServer.then_ ControlServer.say ControlServer.selected ControlServer.sent].
    rewrite Hrun. cbn [negb].
    change (String.eqb ("quality 85" ++ ControlServer.nl) EmptyString) with false.
    cbv iota. rewrite (quality_selected w m Gm). reflexivity. }
  split; [exact Hm'|]. split; [reflexivity|].
  split; [repeat split|]. split; [exact Hother|]. split; [exact Hs'|].
  split; [apply list_streams_on_stream|]. split; [repeat split|].
  split.
  - intros resolution R.
    rewrite (status_selected "main" w' m' resolution Hm' R). reflexivity.
  - intros resolution R.
    rewrite (status_selected "secondary" w' s2 resolution Hs' R). reflexivity.
Qed.

Lemma control_quality_changes_selected_stream_only_witness :
  Manager.get_stream Samples.two_streams "main"
  = Some (Samples.stream_on "main" "kinect_rgb")
  /\ Manager.get_stream Samples.two_streams "secondary"
     = Some (Samples.stream_on "secondary" "picam")
  /\ option_map jpeg_quality
       (Manager.get_stream
          (snd (ControlServer.session (F := Samples.decimal_runtime)
                  [("select main" ++ ControlServer.nl)%string;
                   ("quality 85" ++ ControlServer.nl)%string]
                  "secondary" Samples.two_streams)) "main") = Some 85
  /\ option_map jpeg_quality
       (Manager.get_stream
          (snd (ControlServer.session (F := Samples.decimal_runtime)
                  [("select main" ++ ControlServer.nl)%string;
                   ("quality 85" ++ ControlServer.nl)%string]
                  "secondary" Samples.two_streams)) "secondary") = Some 70.
Proof.
  split; [reflexivity|]. split; [reflexivity|].
  destruct (control_quality_changes_selected_stream_only
              Samples.decimal_runtime Samples.two_streams "secondary"
              (Samples.stream_on "main" "kinect_rgb")
              (Samples.stream_on "secondary" "picam") eq_refl eq_refl)
    as (_ & _ & S & Hm & Hq & _ & _ & Hs & _).
  rewrite (S eq_refl). cbn [snd]. rewrite Hm, Hs. split; reflexivity.
Defined.

(** ** The registry of streams *)

Section RegistryRoundTrips.

Lemma dict_get_app_new {V : Type} (d : list (string * V)) (id k : string) (v : V) :
  Config.dict_get (d ++ [(id, v)]) k
  = match Config.dict_get d k with
    | Some x => Some x
    | None => if String.eqb k id then Some v else None
    end.
Proof.
  induction d as [|[k0 v0] d IH]; simpl.
  - reflexivity.
  - destruct (String.eqb k k0); [reflexivity | exact IH].
Qed.

Lemma dict_get_none_not_in {V : Type} (d : list (string * V)) (k : string) :
  Config.dict_get d k = None -> ~ In k (map fst d).
Proof.
  induction d as [|[k0 v0] d IH]; simpl; intros H.
  - tauto.
  - destruct (String.eqb k k0) eqn:E; [discriminate|].
    apply String.eqb_neq in E. intros [H1|H1]; [congruence | exact (IH H H1)].
Qed.

Lemma dict_get_not_in_none {V : Type} (d : list (string * V)) (k : string) :
  ~ In k (map fst d) -> Config.dict_get d k = None.
Proof.
  induction d as [|[k0 v0] d IH]; simpl; intros H.
  - reflexivity.
  - destruct (String.eqb k k0) eqn:E.
    + apply String.eqb_eq in E. subst. tauto.
    + apply IH. tauto.
Qed.

Lemma dict_del_app_new (d : list (string * StreamState)) (id : string) (v : StreamState) :
  ~ In id (map fst d) -> dict_del (d ++ [(id, v)]) id = d.
Proof.
  induction d as [|[k0 v0] d IH]; simpl; intros H.
  - rewrite String.eqb_refl. reflexivity.
  - destruct (String.eqb id k0) eqn:E.
    + apply String.eqb_eq in E. subst. tauto.
    + f_equal. apply IH. tauto.
Qed.

Lemma keys_dict_del (d : list (string * StreamState)) (id k : string) :
  In k (map fst (dict_del d id)) -> In k (map fst d).
Proof.
  induction d as [|[k0 v0] d IH]; simpl.
  - tauto.
  - destruct (String.eqb id k0); simpl; tauto.
Qed.

Lemma nodup_dict_del (d : list (string * StreamState)) (id : string) :
  NoDup (map fst d) ->
  NoDup (map fst (dict_del d id)) /\ ~ In id (map fst (dict_del d id)).
Proof.
  induction d as [|[k0 v0] d IH]; simpl; intros H.
  - split; [constructor | tauto].
  - inversion H as [|? ? Hn Hd]; subst.
    destruct (String.eqb id k0) eqn:E.
    + apply String.eqb_eq in E. subst. tauto.
    + apply String.eqb_neq in E. destruct (IH Hd) as [I1 I2]. simpl. split.
      * constructor; [|exact I1]. intros Hin. apply Hn. eapply keys_dict_del, Hin.
      * intros [H1|H1]; [congruence | tauto].
Qed.

Lemma dict_get_del_other (d : list (string * StreamState)) (id k : string) :
  k <> id -> Config.dict_get (dict_del d id) k = Config.dict_get d k.
Proof.
  intros Hk. induction d as [|[k0 v0] d IH]; simpl.
  - reflexivity.
  - destruct (String.eqb id k0) eqn:E.
    + apply String.eqb_eq in E. subst.
      destruct (String.eqb k k0) eqn:E2; [|reflexivity].
      apply String.eqb_eq in E2. congruence.
    + simpl. destruct (String.eqb k k0); [reflexivity | exact IH].
Qed.

End RegistryRoundTrips.

(** X1: [create_stream] registers a fresh stream under an unused id, keeps
    the other streams, refuses the id from then on, and [remove_stream]
    undoes it. *)
Theorem create_stream_registers :
  forall (g : GlobalState) (id : string) (src : option string),
    NoDup (list_streams g) ->
    get_stream g id = None ->
    exists g',
      create_stream id src g = Some (init id src, g')
      /\ get_stream g' id = Some (init id src)
      /\ (forall other, other <> id -> get_stream g' other = get_stream g other)
      /\ list_streams g' = list_streams g ++ [id]
      /\ NoDup (list_streams g')
      /\ running g' = running g
      /\ (forall src', create_stream id src' g' = None)
      /\ remove_stream id g' = (true, g).
Proof.
  intros g id src Hnd Hfree.
  pose proof (dict_get_none_not_in _ _ Hfree) as Hnot.
  exists (with_streams (streams g ++ [(id, init id src)]) g).
  assert (Hget : get_stream (with_streams (streams g ++ [(id, init id src)]) g) id
                 = Some (init id src)).
  { unfold get_stream in *. simpl. rewrite dict_get_app_new, Hfree, String.eqb_refl.
    reflexivity. }
  split; [unfold create_stream; rewrite Hfree; reflexivity|].
  split; [exact Hget|].
  split.
  { intros other Ho. unfold get_stream. simpl. rewrite dict_get_app_new.
    destruct (Config.dict_get (streams g) other); [reflexivity|].
    apply String.eqb_neq in Ho. rewrite Ho. reflexivity. }
  split; [unfold list_streams; simpl; rewrite map_app; reflexivity|].
  split.
  { unfold list_streams in *. simpl. rewrite map_app. simpl.
    apply NoDup_app; [exact Hnd | constructor; [simpl; tauto | constructor] |].
    intros a Ha [Hb|[]]. subst. exact (Hnot Ha). }
  split; [reflexivity|].
  split.
  { intros src'. unfold create_stream. rewrite Hget. reflexivity. }
  unfold remove_stream. rewrite Hget. unfold with_streams. simpl.
  rewrite (dict_del_app_new _ _ _ Hnot). destruct g; reflexivity.
Qed.

Lemma create_stream_registers_witness :
  exists g',
    create_stream "main" (Some "picam"%string) global_init
    = Some (init "main" (Some "picam"%string), g')
    /\ get_stream g' "main" = Some (init "main" (Some "picam"%string))
    /\ remove_stream "main" g' = (true, global_init).
Proof.
  destruct (create_stream_registers global_init "main" (Some "picam"%string))
    as (g' & H1 & H2 & _ & _ & _ & _ & _ & H8).
  - constructor.
  - reflexivity.
  - exists g'. split; [exact H1|]. split; [exact H2 | exact H8].
Defined.

(** X2: [remove_stream] of a registered id unregisters it and only it; a
    second removal reports [False] and changes nothing; the id can then be
    created again, with a fresh state. *)
Theorem remove_stream_unregisters :
  forall (g : GlobalState) (id : string) (st : StreamState),
    NoDup (list_streams g) ->
    get_stream g id = Some st ->
    let g' := snd (remove_stream id g) in
    fst (remove_stream id g) = true
    /\ get_stream g' id = None
    /\ (forall other, other <> id -> get_stream g' other = get_stream g other)
    /\ NoDup (list_streams g')
    /\ (forall k, In k (list_streams g') <-> In k (list_streams g) /\ k <> id)
    /\ remove_stream id g' = (false, g')
    /\ (exists g'', create_stream id None g' = Some (init id None, g'')).
Proof.
  intros g id st Hnd Hreg g'.
  assert (Hg' : g' = with_streams (dict_del (streams g) id) g).
  { unfold g', remove_stream. rewrite Hreg. reflexivity. }
  destruct (nodup_dict_del (streams g) id Hnd) as [N1 N2].
  assert (Hnone : get_stream g' id = None).
  { rewrite Hg'. unfold get_stream. simpl. apply dict_get_not_in_none. exact N2. }
  split; [unfold remove_stream; rewrite Hreg; reflexivity|].
  split; [exact Hnone|].
  split.
  { intros other Ho. rewrite Hg'. unfold get_stream. simpl.
    apply dict_get_del_other. exact Ho. }
  split; [rewrite Hg'; exact N1|].
  split.
  { intros k. rewrite Hg'. unfold list_streams. simpl. split.
    - intros Hk. split; [eapply keys_dict_del, Hk|].
      intros ->. exact (N2 Hk).
    - intros [Hk Hne].
      destruct (dict_get_in_keys (streams g) k Hk) as [v Hv].
      rewrite <- (dict_get_del_other (streams g) id k Hne) in Hv.
      apply dict_get_some_in in Hv. apply (in_map fst) in Hv. exact Hv. }
  split; [unfold remove_stream; rewrite Hnone; reflexivity|].
  unfold create_stream. rewrite Hnone. eexists. reflexivity.
Qed.

Lemma remove_stream_unregisters_witness :
  get_stream (snd (remove_stream "main"
                     (with_streams [("main"%string, init "main" None);
                                    ("secondary"%string, init "secondary" None)]
                                   global_init))) "main" = None
  /\ get_stream (snd (remove_stream "main"
                        (with_streams [("main"%string, init "main" None);
                                       ("secondary"%string, init "secondary" None)]
                                      global_init))) "secondary"
     = Some (init "secondary" None).
Proof.
  destruct (remove_stream_unregisters
              (with_streams [("main"%string, init "main" None);
                             ("secondary"%string, init "secondary" None)] global_init)
              "main" (init "main" None))
    as (_ & H2 & H3 & _).
  - unfold list_streams. simpl. constructor.
    + simpl. intros [H|[]]. discriminate H.
    + constructor; [simpl; tauto | constructor].
  - reflexivity.
  - split; [exact H2|]. rewrite H3; [reflexivity | discriminate].
Defined.

(** ** A consumer leaves no trace on the stream *)

Section ConsumerFacts.
Variable me : nat.

Lemma waiters_stay_empty (ops : list op) (s : StreamState) :
  frame_condition s = [] -> frame_condition (run_ops ops s) = [].
Proof.
  intros H. destruct (frame_condition (run_ops ops s)) as [|w l] eqn:E; [reflexivity|].
  exfalso. assert (Hin : In w (frame_condition (run_ops ops s))) by (rewrite E; left; reflexivity).
  apply waiters_run_ops in Hin. rewrite H in Hin. exact Hin.
Qed.

Lemma apply_op_enqueue (o : op) (s : StreamState) :
  apply_op o (enqueue me s) = enqueue me (apply_op o s)
  \/ (apply_op o (enqueue me s) = apply_op o s /\ frame_condition (apply_op o s) = []).
Proof.
  destruct o; simpl; try (left; reflexivity); right; split; reflexivity.
Qed.

Lemma run_ops_enqueue (ops : list op) :
  forall s : StreamState,
    run_ops ops (enqueue me s) = enqueue me (run_ops ops s)
    \/ (run_ops ops (enqueue me s) = run_ops ops s
        /\ frame_condition (run_ops ops s) = []).
Proof.
  induction ops as [|o ops IH]; intros s.
  - left. reflexivity.
  - change (run_ops (o :: ops) (enqueue me s)) with (run_ops ops (apply_op o (enqueue me s))).
    change (run_ops (o :: ops) s) with (run_ops ops (apply_op o s)).
    destruct (apply_op_enqueue o s) as [E|[E Hn]]; rewrite E.
    + apply IH.
    + right. split; [reflexivity|]. apply waiters_stay_empty. exact Hn.
Qed.

Lemma dequeue_enqueue (s : StreamState) :
  ~ In me (frame_condition s) -> dequeue me (enqueue me s) = s.
Proof.
  intros H. destruct s as [a b c d e f g h l]. unfold dequeue, enqueue. simpl in *.
  f_equal. rewrite filter_app. simpl. rewrite Nat.eqb_refl. simpl.
  rewrite app_nil_r. induction l as [|x l IH]; simpl.
  - reflexivity.
  - destruct (Nat.eqb x me) eqn:E.
    + apply Nat.eqb_eq in E. subst. exfalso. apply H. left. reflexivity.
    + simpl. f_equal. apply IH. intros Hin. apply H. right. exact Hin.
Qed.

Lemma existsb_snoc_self (l : list nat) : existsb (Nat.eqb me) (l ++ [me]) = true.
Proof.
  rewrite existsb_app. simpl. rewrite Nat.eqb_refl. apply orb_true_iff. right. reflexivity.
Qed.

(** The state after a wait is the one the other threads made. *)
Lemma wait_state (others : list op) (s : StreamState) :
  ~ In me (frame_condition s) ->
  snd (wait me others s) = run_ops others s.
Proof.
  intros H. unfold wait.
  assert (Hn : ~ In me (frame_condition (run_ops others s))).
  { intros Hin. apply H. eapply waiters_run_ops, Hin. }
  destruct (run_ops_enqueue others s) as [E|[E Hnil]]; rewrite E.
  - cbn [enqueue frame_condition]. rewrite existsb_snoc_self. cbn [snd].
    apply dequeue_enqueue. exact Hn.
  - rewrite Hnil. reflexivity.
Qed.

Lemma wait_loop_trace (deadline : Q) (last : Z) (env : list wait_step) :
  forall (s : StreamState) (r : option bytes) (seq : Z) (s' : StreamState),
    ~ In me (frame_condition s) ->
    wait_loop me deadline last env s = Some ((r, seq), s') ->
    exists n : nat,
      (n <= length env)%nat
      /\ s' = run_ops (concat (map during (firstn n env))) s.
Proof.
  induction env as [|e env IH]; intros s r seq s' Hme Hrun; simpl in Hrun.
  - destruct (frame_id s =? last); [discriminate|].
    injection Hrun as _ _ <-. exists 0%nat. split; [simpl; lia | reflexivity].
  - destruct (frame_id s =? last).
    + destruct (Qle_bool (deadline - clock e) 0).
      * injection Hrun as _ _ <-. exists 0%nat. split; [simpl; lia | reflexivity].
      * pose proof (wait_state (during e) s Hme) as Hw.
        destruct (wait me (during e) s) as [notified s1]. cbn [snd] in Hw. subst s1.
        destruct notified; cbn [negb] in Hrun.
        -- apply IH in Hrun.
           ++ destruct Hrun as (n & Hn & ->). exists (S n). split; [simpl; lia|].
              simpl. rewrite run_ops_app. reflexivity.
           ++ intros Hin. apply Hme. eapply waiters_run_ops, Hin.
        -- injection Hrun as _ _ <-. exists 1%nat. split; [simpl; lia|].
           simpl. rewrite app_nil_r. reflexivity.
    + injection Hrun as _ _ <-. exists 0%nat. split; [simpl; lia | reflexivity].
Qed.

End ConsumerFacts.

(** X3: a consumer leaves no trace.  Whatever [get_frame] returns, the
    stream is then in the state the other threads alone put it in: frame,
    sequence number, settings and statistics are theirs, and the caller is
    not left among the waiters. *)
Theorem get_frame_leaves_no_trace :
  forall (me : nat) (now timeout : Q) (env : list wait_step) (last : Z)
         (s : StreamState) (r : option bytes) (seq : Z) (s' : StreamState),
    ~ In me (frame_condition s) ->
    get_frame me now env last timeout s = Some ((r, seq), s') ->
    (exists n : nat,
        (n <= length env)%nat
        /\ s' = run_ops (concat (map during (firstn n env))) s)
    /\ ~ In me (frame_condition s')
    /\ ((forall e, In e env -> during e = []) -> s' = s).
Proof.
  intros me now timeout env last s r seq s' Hme Hrun.
  unfold get_frame in Hrun.
  destruct (wait_loop_trace me _ _ _ _ _ _ _ Hme Hrun) as (n & Hn & Hs).
  split; [exists n; split; assumption|].
  split.
  - rewrite Hs. intros Hin. apply Hme. eapply waiters_run_ops, Hin.
  - intros Hq. rewrite Hs.
    assert (Hc : concat (map during (firstn n env)) = []).
    { clear - Hq. revert n. induction env as [|e env IH]; intros n.
      - destruct n; reflexivity.
      - destruct n; [reflexivity|]. simpl.
        rewrite (Hq e (or_introl eq_refl)). simpl. apply IH.
        intros e' He'. apply Hq. right. exact He'. }
    rewrite Hc. reflexivity.
Qed.

Lemma get_frame_leaves_no_trace_witness :
  ~ In 7%nat (frame_condition (init "main" None))
  /\ get_frame 7 100 [ {| clock := 100.5; during := [OpSetFrame Samples.jpeg_a 100.6] |} ]
               0 1 (init "main" None)
     = Some ((Some Samples.jpeg_a, 1), set_frame Samples.jpeg_a 100.6 (init "main" None))
  /\ ~ In 7%nat (frame_condition (set_frame Samples.jpeg_a 100.6 (init "main" None))).
Proof.
  assert (H1 : ~ In 7%nat (frame_condition (init "main" None))) by (simpl; tauto).
  assert (H2 : get_frame 7 100
                 [ {| clock := 100.5; during := [OpSetFrame Samples.jpeg_a 100.6] |} ]
                 0 1 (init "main" None)
               = Some ((Some Samples.jpeg_a, 1),
                       set_frame Samples.jpeg_a 100.6 (init "main" None)))
    by reflexivity.
  split; [exact H1|]. split; [exact H2|].
  exact (proj1 (proj2 (get_frame_leaves_no_trace 7 100 1 _ 0 _ _ _ _ H1 H2))).
Defined.

(** X4: [shutdown] lowers the running flag, keeps every stream with its
    frame, sequence number, settings and statistics, and releases every
    consumer blocked in a wait; doing it twice changes nothing more. *)
Theorem shutdown_releases_waiters :
  forall g : GlobalState,
    running (shutdown g) = false
    /\ list_streams (shutdown g) = list_streams g
    /\ (forall id, get_stream (shutdown g) id = option_map notify_all (get_stream g id))
    /\ (forall id st, get_stream (shutdown g) id = Some st -> frame_condition st = [])
    /\ (forall (me : nat) (before after : list op) (s : StreamState),
           fst (wait me (before ++ OpShutdownNotify :: after) s) = true)
    /\ shutdown (shutdown g) = shutdown g.
Proof.
  intros g.
  assert (Hget : forall id, get_stream (shutdown g) id
                            = option_map notify_all (get_stream g id)).
  { intros id. unfold get_stream, shutdown. simpl.
    induction (streams g) as [|[k v] d IH]; simpl; [reflexivity|].
    destruct (String.eqb id k); [reflexivity | exact IH]. }
  split; [reflexivity|].
  split.
  { unfold list_streams, shutdown. simpl. rewrite map_map. reflexivity. }
  split; [exact Hget|].
  split.
  { intros id st. rewrite Hget. destruct (get_stream g id); simpl; [|discriminate].
    intros H. injection H as <-. reflexivity. }
  split.
  { intros me before after s. unfold wait.
    rewrite run_ops_app.
    change (run_ops (OpShutdownNotify :: after) ?x) with (run_ops after (notify_all x)).
    rewrite (waiters_stay_empty after); reflexivity. }
  unfold shutdown. simpl. f_equal. rewrite map_map. apply map_ext.
  intros [k v]. reflexivity.
Qed.

(** ** Kinect: what every sequence of calls keeps *)

Section KinectUseFacts.
Import Config Kinect KinectUse.
Context {F : FloatBuiltins} {C : Cv2.codec}.

Lemma consistent_check_availability (probe : read) (c : flags) (k : KinectCapture) :
  0 <= consecutive_failures k ->
  let '(b, c', k') := check_availability probe c k in
  consistent c' k' /\ b = is_available c' k'.
Proof.
  intros H0. unfold check_availability, consistent, is_available, max_failures.
  destruct (FREENECT_AVAILABLE c) eqn:E1, (CV2_AVAILABLE c) eqn:E2; simpl;
    try (repeat split; try assumption; try reflexivity; discriminate).
  destruct probe; simpl; rewrite ?E1, ?E2; simpl;
    repeat split; try assumption; try reflexivity; try lia; discriminate.
Qed.

Lemma consistent_handle_failure (c : flags) (k : KinectCapture) :
  consistent c k -> is_available c k = true ->
  consistent (fst (_handle_failure c k)) (snd (_handle_failure c k)).
Proof.
  intros (H0 & H1 & H2) Ha. rewrite handle_failure_spec. cbn [fst snd].
  specialize (H2 Ha). unfold consistent, is_available, max_failures in *. simpl.
  destruct (consecutive_failures k + 1 >=? 5) eqn:E; simpl.
  - split; [lia|]. split; [reflexivity | discriminate].
  - rewrite Z.geb_leb, Z.leb_gt in E.
    split; [lia|]. split; [exact H1 | intros _; lia].
Qed.

Lemma consistent_finish (frame : Cv2.ndarray) (x : pyfloat) (c : flags) (k : KinectCapture) :
  consistent c k -> is_available c k = true ->
  let '(f, c', k') := finish frame x c k in
  consistent c' k'
  /\ (f <> None -> consecutive_failures k' = 0 /\ c' = c /\ is_available c' k' = true).
Proof.
  intros (H0 & H1 & H2) Ha.
  assert (Hs0 : consistent c (set_failures 0 k)).
  { unfold consistent, is_available, max_failures in *. simpl.
    split; [lia|]. split; [exact H1 | intros _; lia]. }
  assert (Ha0 : is_available c (set_failures 0 k) = true) by exact Ha.
  unfold finish.
  destruct (rescale frame x) as [out|].
  - split; [exact Hs0|]. intros _. split; [reflexivity|]. split; [reflexivity | exact Ha0].
  - pose proof (consistent_handle_failure c (set_failures 0 k) Hs0 Ha0) as Hf.
    destruct (_handle_failure c (set_failures 0 k)) as [c' k'].
    split; [exact Hf | intros H; congruence].
Qed.

Lemma consistent_failed (c : flags) (k : KinectCapture) :
  consistent c k -> is_available c k = true ->
  let '(f, c', k') := failed c k in
  consistent c' k'
  /\ (f <> None -> consecutive_failures k' = 0 /\ c' = c /\ is_available c' k' = true).
Proof.
  intros Hs Ha. unfold failed.
  pose proof (consistent_handle_failure c k Hs Ha) as Hf.
  destruct (_handle_failure c k) as [c' k'].
  split; [exact Hf | intros H; congruence].
Qed.

Lemma consistent_get_frame (m : string) (x : pyfloat) (r : read) (c : flags) (k : KinectCapture) :
  consistent c k ->
  let '(f, c', k') := get_frame m x r c k in
  consistent c' k'
  /\ (f <> None -> consecutive_failures k' = 0 /\ c' = c /\ is_available c' k' = true).
Proof.
  intros Hs. unfold get_frame.
  destruct (is_available c k) eqn:Ha; cbn [negb].
  - destruct (String.eqb m "rgb");
      [destruct r; [apply consistent_failed | apply consistent_failed
                    | destruct (Cv2.cvtColor_RGB2BGR data);
                      [apply consistent_finish | apply consistent_failed]]; assumption|].
    destruct (String.eqb m "ir");
      [destruct r; [apply consistent_failed | apply consistent_failed
                    | destruct (Cv2.cvtColor_GRAY2BGR data);
                      [apply consistent_finish | apply consistent_failed]]; assumption|].
    destruct (String.eqb m "depth");
      [destruct r; [apply consistent_failed | apply consistent_failed
                    | destruct (Cv2.applyColorMap_JET (depth_to_8bit data));
                      [apply consistent_finish | apply consistent_failed]]; assumption|].
    split; [exact Hs | intros H; congruence].
  - split; [exact Hs | intros H; congruence].
Qed.

Lemma consistent_calls (cs : list call) :
  forall (c : flags) (k : KinectCapture),
    consistent c k -> consistent (fst (calls cs c k)) (snd (calls cs c k)).
Proof.
  induction cs as [|[r|a] cs IH]; intros c k Hs.
  - exact Hs.
  - simpl. pose proof (consistent_check_availability r c k (proj1 Hs)) as H.
    destruct (check_availability r c k) as [[b c1] k1]. apply IH. exact (proj1 H).
  - simpl. pose proof (consistent_get_frame (mode a) (scale a) (outcome a) c k Hs) as H.
    destruct (get_frame (mode a) (scale a) (outcome a) c k) as [[f c1] k1].
    apply IH. exact (proj1 H).
Qed.

Lemma consistent_construct (probe : read) (c : flags) :
  consistent (fst (construct probe c)) (snd (construct probe c)).
Proof.
  unfold construct.
  pose proof (consistent_check_availability probe c fresh) as H.
  destruct (check_availability probe c fresh) as [[b c1] k1].
  apply H. simpl. lia.
Qed.

Lemma sources_follow_flag (c : flags) :
  get_available_sources c = if KINECT_AVAILABLE c then ALL_SOURCES else ["picam"%string].
Proof. reflexivity. Qed.

(** Without a probe nothing brings an unavailable Kinect back. *)
Lemma captures_unavailable (attempts : list attempt) (c : flags) (k : KinectCapture) :
  is_available c k = false ->
  captures attempts c k = (repeat None (length attempts), c, k).
Proof.
  intros Ha. induction attempts as [|a l IH]; simpl.
  - reflexivity.
  - rewrite (get_frame_unavailable _ _ _ _ _ Ha), IH. reflexivity.
Qed.

Lemma depth_sample_range (v : Z) :
  Z.shiftr (Z.max 0 (Z.min 2047 v)) 3 mod 256 = Z.max 0 (Z.min 2047 v) / 8
  /\ 0 <= Z.max 0 (Z.min 2047 v) / 8 <= 255.
Proof.
  rewrite Z.shiftr_div_pow2 by lia. change (2 ^ 3) with 8.
  assert (H : 0 <= Z.max 0 (Z.min 2047 v) / 8 <= 255).
  { split.
    - apply Z.div_pos; lia.
    - assert (Z.max 0 (Z.min 2047 v) / 8 < 256); [|lia].
      apply Z.div_lt_upper_bound; lia. }
  split; [apply Z.mod_small; lia | exact H].
Qed.

End KinectUseFacts.

(** X5: from its construction on, through every sequence of probes and
    captures, the Kinect object and the configuration agree: the flag
    [KINECT_AVAILABLE], hence the advertised source list, says what
    [is_available] says, and the failure counter of an available Kinect
    stays between 0 and 4. *)
Theorem kinect_flag_follows_object :
  forall (F : FloatBuiltins) (C : Cv2.codec) (probe : Kinect.read)
         (c0 : Config.flags) (cs : list KinectUse.call),
    let c1 := fst (KinectUse.construct probe c0) in
    let k1 := snd (KinectUse.construct probe c0) in
    let c := fst (KinectUse.calls cs c1 k1) in
    let k := snd (KinectUse.calls cs c1 k1) in
    Config.KINECT_AVAILABLE c = Kinect.is_available c k
    /\ Config.get_available_sources c
       = (if Kinect.is_available c k then Config.ALL_SOURCES else ["picam"%string])
    /\ 0 <= Kinect.consecutive_failures k
    /\ (Kinect.is_available c k = true
        -> Kinect.consecutive_failures k < Kinect.max_failures)
    /\ Config.FREENECT_AVAILABLE c = Config.FREENECT_AVAILABLE c0
    /\ Config.CV2_AVAILABLE c = Config.CV2_AVAILABLE c0.
Proof.
  intros F C probe c0 cs c1 k1 c k.
  pose proof (consistent_construct probe c0) as H1. fold c1 k1 in H1.
  pose proof (consistent_calls cs c1 k1 H1) as (H0 & Hf & Hc). fold c k in H0, Hf, Hc.
  split; [exact Hf|].
  split; [rewrite sources_follow_flag, Hf; reflexivity|].
  split; [exact H0|]. split; [exact Hc|].
  assert (Hk : forall cs c k,
             Config.FREENECT_AVAILABLE (fst (KinectUse.calls cs c k))
             = Config.FREENECT_AVAILABLE c
             /\ Config.CV2_AVAILABLE (fst (KinectUse.calls cs c k))
                = Config.CV2_AVAILABLE c).
  { clear. induction cs as [|[r|a] cs IH]; intros c k.
    - split; reflexivity.
    - simpl.
      assert (E : Config.FREENECT_AVAILABLE (snd (fst (Kinect.check_availability r c k)))
                  = Config.FREENECT_AVAILABLE c
                  /\ Config.CV2_AVAILABLE (snd (fst (Kinect.check_availability r c k)))
                     = Config.CV2_AVAILABLE c).
      { unfold Kinect.check_availability.
        destruct (negb (Config.FREENECT_AVAILABLE c) || negb (Config.CV2_AVAILABLE c));
          [split; reflexivity|]. destruct r; split; reflexivity. }
      destruct (Kinect.check_availability r c k) as [[b c1] k1]. cbn [fst snd] in E.
      destruct (IH c1 k1) as [I1 I2]. rewrite I1, I2. exact E.
    - simpl.
      pose proof (kinect_get_frame_flags (Kinect.mode a) (Kinect.scale a)
                    (Kinect.outcome a) c k) as E2.
      assert (E1 : Config.FREENECT_AVAILABLE
                     (snd (fst (Kinect.get_frame (Kinect.mode a) (Kinect.scale a)
                                  (Kinect.outcome a) c k)))
                   = Config.FREENECT_AVAILABLE c).
      { unfold Kinect.get_frame, Kinect.failed, Kinect.finish.
        repeat match goal with
               | |- context [Kinect._handle_failure ?c ?k] =>
                   rewrite (handle_failure_spec c k)
               | |- context [if ?b then _ else _] => destruct b
               | |- context [match ?r with Kinect.ReadNone => _ | _ => _ end] => destruct r
               | |- context [match ?o with Some _ => _ | None => _ end] => destruct o
               end; reflexivity. }
      destruct (Kinect.get_frame (Kinect.mode a) (Kinect.scale a)
                  (Kinect.outcome a) c k) as [[f c1] k1]. cbn [fst snd] in E1, E2.
      destruct (IH c1 k1) as [I1 I2]. rewrite I1, I2. split; assumption. }
  destruct (Hk cs c1 k1) as [K1 K2]. fold c in K1, K2.
  assert (Hc1 : Config.FREENECT_AVAILABLE c1 = Config.FREENECT_AVAILABLE c0
                /\ Config.CV2_AVAILABLE c1 = Config.CV2_AVAILABLE c0).
  { unfold c1, KinectUse.construct, Kinect.check_availability.
    destruct (negb (Config.FREENECT_AVAILABLE c0) || negb (Config.CV2_AVAILABLE c0));
      [split; reflexivity|]. destruct probe; split; reflexivity. }
  rewrite K1, K2. exact Hc1.
Qed.

(** X6: an unavailable Kinect is never brought back by captures: every
    [get_frame] returns [None] and leaves the object and the flags as they
    are, however many are made; only [check_availability] can change
    that. *)
Theorem kinect_no_recovery_without_probe :
  forall (F : FloatBuiltins) (C : Cv2.codec) (attempts : list Kinect.attempt)
         (c : Config.flags) (k : Kinect.KinectCapture),
    Kinect.is_available c k = false ->
    Kinect.captures attempts c k = (repeat None (length attempts), c, k).
Proof.
  intros F C attempts c k Ha. apply captures_unavailable. exact Ha.
Qed.

Lemma kinect_no_recovery_without_probe_witness :
  Kinect.is_available
    (Config.update_kinect_availability false Samples.all_available)
    (Kinect.set_available false Samples.kinect_ok) = false
  /\ Kinect.captures (F := Samples.decimal_runtime) (C := Samples.sample_codec)
       [ {| Kinect.mode := "rgb"; Kinect.scale := Finite 1.0;
            Kinect.outcome := Kinect.ReadData [10; 20; 30] |};
         {| Kinect.mode := "depth"; Kinect.scale := Finite 1.0;
            Kinect.outcome := Kinect.ReadData [10; 20; 30] |} ]
       (Config.update_kinect_availability false Samples.all_available)
       (Kinect.set_available false Samples.kinect_ok)
     = ([None; None],
        Config.update_kinect_availability false Samples.all_available,
        Kinect.set_available false Samples.kinect_ok).
Proof.
  split; [reflexivity|].
  apply (kinect_no_recovery_without_probe Samples.decimal_runtime Samples.sample_codec).
  reflexivity.
Defined.

Section KinectSuccessFacts.
Import Config Kinect.
Context {F : FloatBuiltins} {C : Cv2.codec}.

Lemma failed_none (c : flags) (k : KinectCapture) : fst (fst (failed c k)) = None.
Proof. unfold failed. destruct (_handle_failure c k). reflexivity. Qed.

Lemma finish_some (frame out : Cv2.ndarray) (x : pyfloat) (c c' : flags)
      (k k' : KinectCapture) :
  finish frame x c k = (Some out, c', k') -> c' = c /\ k' = set_failures 0 k.
Proof.
  unfold finish. destruct (rescale frame x).
  - intros H. injection H as _ <- <-. split; reflexivity.
  - destruct (_handle_failure c (set_failures 0 k)). discriminate.
Qed.

Lemma get_frame_some (m : string) (x : pyfloat) (r : read) (out : Cv2.ndarray)
      (c c' : flags) (k k' : KinectCapture) :
  get_frame m x r c k = (Some out, c', k') ->
  is_available c k = true /\ c' = c /\ k' = set_failures 0 k.
Proof.
  unfold get_frame. destruct (is_available c k); cbn [negb]; [|discriminate].
  intros H. split; [reflexivity|].
  assert (Hf : forall y, failed c k = (Some out, c', y) -> False).
  { intros y E. pose proof (failed_none c k) as N. rewrite E in N. discriminate N. }
  destruct (String.eqb m "rgb");
    [destruct r; try (exfalso; exact (Hf _ H));
     destruct (Cv2.cvtColor_RGB2BGR data); try (exfalso; exact (Hf _ H));
     exact (finish_some _ _ _ _ _ _ _ H)|].
  destruct (String.eqb m "ir");
    [destruct r; try (exfalso; exact (Hf _ H));
     destruct (Cv2.cvtColor_GRAY2BGR data); try (exfalso; exact (Hf _ H));
     exact (finish_some _ _ _ _ _ _ _ H)|].
  destruct (String.eqb m "depth");
    [destruct r; try (exfalso; exact (Hf _ H));
     destruct (Cv2.applyColorMap_JET (depth_to_8bit data)); try (exfalso; exact (Hf _ H));
     exact (finish_some _ _ _ _ _ _ _ H)|].
  discriminate H.
Qed.

End KinectSuccessFacts.

(** X7: a capture that returns a frame resets the failure counter and
    touches nothing else, so the failures before it are forgotten: up to
    four failures in a row after it leave the Kinect available. *)
Theorem kinect_success_forgets_failures :
  forall (F : FloatBuiltins) (C : Cv2.codec) (m : string) (x : pyfloat)
         (r : Kinect.read) (out : Cv2.ndarray)
         (c c' : Config.flags) (k k' : Kinect.KinectCapture),
    Kinect.get_frame m x r c k = (Some out, c', k') ->
    c' = c
    /\ Kinect.consecutive_failures k' = 0
    /\ Kinect._available k' = Kinect._available k
    /\ Kinect.is_available c' k' = true
    /\ (forall attempts : list Kinect.attempt,
           forallb Kinect.failing attempts = true ->
           (length attempts <= 4)%nat ->
           let '(fs, c2, k2) := Kinect.captures attempts c' k' in
           Kinect.is_available c2 k2 = true
           /\ c2 = c
           /\ Kinect.consecutive_failures k2 = Z.of_nat (length attempts)).
Proof.
  intros F C m x r out c c' k k' H.
  destruct (get_frame_some _ _ _ _ _ _ _ _ H) as (Ha & -> & ->).
  split; [reflexivity|]. split; [reflexivity|]. split; [reflexivity|].
  split; [exact Ha|].
  intros attempts Hf Hlen.
  assert (Ha0 : Kinect.is_available c (Kinect.set_failures 0 k) = true) by exact Ha.
  pose proof (captures_failures attempts c (Kinect.set_failures 0 k) Ha0
                (forallb_failing_before_reset attempts Hf)) as P.
  cbn [Kinect.consecutive_failures Kinect.set_failures] in P.
  unfold Kinect.max_failures in P.
  specialize (P ltac:(lia) ltac:(lia)).
  destruct (Kinect.captures attempts c (Kinect.set_failures 0 k)) as [[fs c2] k2].
  destruct P as (_ & P2 & P3 & P4 & P5 & P6).
  assert (Hlt : (0 + Z.of_nat (length attempts) <? 5) = true) by (apply Z.ltb_lt; lia).
  rewrite Hlt in P3, P4.
  assert (Hc : c2 = c).
  { destruct c2, c. simpl in *. congruence. }
  subst c2. split; [|split; [reflexivity | lia]].
  unfold Kinect.is_available in *. rewrite P3. simpl.
  apply andb_true_iff in Ha as [Ha1 Ha2].
  apply andb_true_iff in Ha1 as [_ Ha1]. rewrite Ha1, Ha2. reflexivity.
Qed.

Lemma kinect_success_forgets_failures_witness :
  Kinect.get_frame (F := Samples.decimal_runtime) (C := Samples.sample_codec)
    "rgb" (Finite 1.0) (Kinect.ReadData [10; 20; 30]) Samples.all_available
    (Kinect.set_failures 4 Samples.kinect_ok)
  = (Some [10; 20; 30], Samples.all_available, Samples.kinect_ok)
  /\ Kinect.consecutive_failures Samples.kinect_ok = 0.
Proof.
  split; [reflexivity|].
  exact (proj1 (proj2 (kinect_success_forgets_failures
                         Samples.decimal_runtime Samples.sample_codec
                         "rgb" (Finite 1.0) (Kinect.ReadData [10; 20; 30]) [10; 20; 30]
                         Samples.all_available Samples.all_available
                         (Kinect.set_failures 4 Samples.kinect_ok) Samples.kinect_ok
                         eq_refl))).
Defined.

(** X8: the depth conversion never wraps: every 11-bit depth sample, clipped
    to 0..2047 and shifted right by three, is its eighth and fits the
    unsigned byte it is cast to, and the image keeps its size. *)
Theorem depth_to_8bit_never_wraps :
  forall data : Cv2.ndarray,
    Kinect.depth_to_8bit data = map (fun v => Z.max 0 (Z.min 2047 v) / 8) data
    /\ length (Kinect.depth_to_8bit data) = length data
    /\ Forall (fun v => 0 <= v <= 255) (Kinect.depth_to_8bit data)
    /\ (forall v, In v data -> 0 <= v <= 2047 -> In (v / 8) (Kinect.depth_to_8bit data)).
Proof.
  intros data.
  assert (E : Kinect.depth_to_8bit data = map (fun v => Z.max 0 (Z.min 2047 v) / 8) data).
  { unfold Kinect.depth_to_8bit. apply map_ext. intros v. apply depth_sample_range. }
  split; [exact E|].
  split; [unfold Kinect.depth_to_8bit; apply length_map|].
  split.
  - rewrite E. apply Forall_forall. intros y Hy. apply in_map_iff in Hy.
    destruct Hy as (v & <- & _). apply depth_sample_range.
  - intros v Hv Hr. rewrite E. apply in_map_iff. exists v. split; [|exact Hv].
    f_equal. lia.
Qed.

(** ** The Pi camera reader: cutting the MJPEG stream into images *)

Section ReaderFacts.
Import PiCamReader.
Local Open Scope nat_scope.

Lemma startswith_app (sub b : bytes) :
  startswith sub b = true <-> exists t, b = sub ++ t.
Proof.
  revert b. induction sub as [|x sub IH]; intros b; simpl.
  - split; [intros _; exists b; reflexivity | reflexivity].
  - destruct b as [|y b].
    + split; [discriminate | intros [t H]; discriminate H].
    + rewrite andb_true_iff, IH. split.
      * intros [E [t ->]]. apply Byte.byte_dec_bl in E. subst. exists t. reflexivity.
      * intros [t H]. injection H as -> ->. split; [apply Byte.byte_dec_lb; reflexivity|].
        exists t. reflexivity.
Qed.

Lemma startswith_length (sub b : bytes) :
  startswith sub b = true -> length sub <= length b.
Proof.
  intros H. apply startswith_app in H as [t ->]. rewrite length_app. lia.
Qed.

(** Only the first [length sub] bytes matter. *)
Lemma startswith_prefix (sub b more : bytes) :
  length sub <= length b -> startswith sub (b ++ more) = startswith sub b.
Proof.
  revert b. induction sub as [|x sub IH]; intros b H; simpl.
  - reflexivity.
  - destruct b as [|y b]; simpl in *; [lia|].
    rewrite IH by lia. reflexivity.
Qed.

Lemma startswith_firstn (sub b : bytes) (n : nat) :
  length sub <= n -> startswith sub (firstn n b) = startswith sub b.
Proof.
  intros H. destruct (Nat.le_gt_cases (length sub) (length b)) as [L|L].
  - rewrite <- (firstn_skipn n b) at 2. symmetry. apply startswith_prefix.
    rewrite length_firstn. lia.
  - destruct (startswith sub b) eqn:E.
    + apply startswith_length in E. lia.
    + destruct (startswith sub (firstn n b)) eqn:E2; [|reflexivity].
      apply startswith_length in E2. rewrite length_firstn in E2. lia.
Qed.

Lemma find_at_shift (sub b : bytes) (i : nat) :
  find_at sub b i = option_map (fun k => i + k) (find_at sub b 0).
Proof.
  revert i. induction b as [|x b IH]; intros i; simpl.
  - destruct (startswith sub []); simpl; [f_equal; lia | reflexivity].
  - destruct (startswith sub (x :: b)); simpl; [f_equal; lia|].
    rewrite (IH (S i)), (IH 1). destruct (find_at sub b 0); simpl; [f_equal; lia | reflexivity].
Qed.

Lemma find_at_some (sub b : bytes) (j : nat) :
  find_at sub b 0 = Some j ->
  startswith sub (skipn j b) = true
  /\ (forall k, k < j -> startswith sub (skipn k b) = false).
Proof.
  revert j. induction b as [|x b IH]; intros j; simpl.
  - destruct (startswith sub []) eqn:E; [|discriminate].
    intros H. injection H as <-. split; [exact E | intros k Hk; lia].
  - destruct (startswith sub (x :: b)) eqn:E.
    + intros H. injection H as <-. split; [exact E | intros k Hk; lia].
    + rewrite find_at_shift. destruct (find_at sub b 0) as [j'|] eqn:F; [|discriminate].
      simpl. intros H. injection H as <-. destruct (IH j' eq_refl) as [I1 I2].
      split; [exact I1|]. intros [|k] Hk; [exact E|]. simpl. apply I2. lia.
Qed.

Lemma find_at_none (sub b : bytes) :
  find_at sub b 0 = None -> forall k, startswith sub (skipn k b) = false.
Proof.
  induction b as [|x b IH]; simpl.
  - destruct (startswith sub []) eqn:E; [discriminate|].
    intros _ k. rewrite skipn_nil. exact E.
  - destruct (startswith sub (x :: b)) eqn:E; [discriminate|].
    rewrite find_at_shift. destruct (find_at sub b 0) eqn:F; [discriminate|].
    intros _ [|k]; [exact E|]. simpl. apply IH. reflexivity.
Qed.

Lemma find_at_intro (sub b : bytes) (j : nat) :
  startswith sub (skipn j b) = true ->
  (forall k, k < j -> startswith sub (skipn k b) = false) ->
  find_at sub b 0 = Some j.
Proof.
  revert j. induction b as [|x b IH]; intros j H1 H2.
  - rewrite skipn_nil in H1. simpl. rewrite H1.
    destruct j; [reflexivity|]. specialize (H2 0 ltac:(lia)). simpl in H2. congruence.
  - destruct j as [|j].
    + simpl in H1. simpl. rewrite H1. reflexivity.
    + pose proof (H2 0 ltac:(lia)) as E0. simpl in E0. simpl. rewrite E0, find_at_shift.
      rewrite (IH j).
      * reflexivity.
      * exact H1.
      * intros k Hk. apply (H2 (S k)). lia.
Qed.

Lemma find_at_absent (sub b : bytes) :
  (forall k, startswith sub (skipn k b) = false) -> find_at sub b 0 = None.
Proof.
  intros H. destruct (find_at sub b 0) as [j|] eqn:F; [|reflexivity].
  apply find_at_some in F as [F _]. rewrite H in F. discriminate F.
Qed.

(** [find] in terms of the occurrences at or after [start]. *)
Lemma find_some (sub b : bytes) (start j : nat) :
  find sub b start = Some j ->
  start <= j
  /\ startswith sub (skipn j b) = true
  /\ (forall k, start <= k -> k < j -> startswith sub (skipn k b) = false).
Proof.
  unfold find. destruct (length b <? start) eqn:L; [discriminate|].
  rewrite find_at_shift. destruct (find_at sub (skipn start b) 0) as [d|] eqn:F; [|discriminate].
  simpl. intros H. injection H as <-. apply find_at_some in F as [F1 F2].
  rewrite skipn_skipn in F1. split; [lia|]. split.
  - rewrite Nat.add_comm. exact F1.
  - intros k K1 K2. specialize (F2 (k - start) ltac:(lia)).
    rewrite skipn_skipn in F2. replace (k - start + start) with k in F2 by lia. exact F2.
Qed.

Lemma find_none (sub b : bytes) (start : nat) :
  sub <> [] ->
  find sub b start = None ->
  forall k, start <= k -> startswith sub (skipn k b) = false.
Proof.
  intros Hsub. unfold find. destruct (length b <? start) eqn:L.
  - apply Nat.ltb_lt in L. intros _ k Hk. rewrite skipn_all2 by lia.
    destruct sub; [congruence | reflexivity].
  - rewrite find_at_shift. destruct (find_at sub (skipn start b) 0) eqn:F; [discriminate|].
    intros _ k Hk. pose proof (find_at_none _ _ F (k - start)) as H.
    rewrite skipn_skipn in H. replace (k - start + start) with k in H by lia. exact H.
Qed.

Lemma find_intro (sub b : bytes) (start j : nat) :
  start <= j ->
  startswith sub (skipn j b) = true ->
  (forall k, start <= k -> k < j -> startswith sub (skipn k b) = false) ->
  sub <> [] ->
  find sub b start = Some j.
Proof.
  intros H0 H1 H2 Hsub. unfold find.
  assert (Hl : j + length sub <= length b).
  { apply startswith_length in H1. rewrite length_skipn in H1.
    destruct sub; [congruence|]. simpl in *. lia. }
  assert (L : (length b <? start) = false) by (apply Nat.ltb_ge; lia).
  rewrite L, find_at_shift.
  rewrite (find_at_intro sub (skipn start b) (j - start)).
  - simpl. f_equal. lia.
  - rewrite skipn_skipn. replace (j - start + start) with j by lia. exact H1.
  - intros k Hk. rewrite skipn_skipn. apply H2; lia.
Qed.

Lemma find_absent (sub b : bytes) (start : nat) :
  (forall k, start <= k -> startswith sub (skipn k b) = false) ->
  find sub b start = None.
Proof.
  intros H. destruct (find sub b start) as [j|] eqn:F; [|reflexivity].
  apply find_some in F as (F0 & F1 & _). rewrite (H j F0) in F1. discriminate F1.
Qed.

Lemma find_bound (sub b : bytes) (start j : nat) :
  sub <> [] -> find sub b start = Some j -> j + length sub <= length b.
Proof.
  intros Hsub H. apply find_some in H as (_ & H & _).
  apply startswith_length in H. rewrite length_skipn in H.
  destruct (Nat.le_gt_cases (length b) j) as [L|L]; [|lia].
  destruct sub; [congruence | simpl in *; lia].
Qed.

End ReaderFacts.

Section ScanFacts.
Import PiCamReader.
Local Open Scope nat_scope.

Lemma SOI_nonempty : SOI <> [].
Proof. discriminate. Qed.

Lemma EOI_nonempty : EOI <> [].
Proof. discriminate. Qed.

(** An end marker at or after a start marker is at least two bytes on. *)
Lemma soi_eoi_gap (b : bytes) (s e : nat) :
  startswith SOI (skipn s b) = true ->
  startswith EOI (skipn e b) = true ->
  s <= e -> s + 2 <= e.
Proof.
  intros Hs He Hle. apply startswith_app in Hs as [t Ht].
  destruct (Nat.eq_dec e s) as [->|N1].
  - rewrite Ht in He. discriminate He.
  - destruct (Nat.eq_dec e (S s)) as [->|N2]; [|lia].
    replace (S s) with (1 + s) in He by lia.
    rewrite <- skipn_skipn, Ht in He. discriminate He.
Qed.

Lemma scan_grows (fuel : nat) :
  forall (buffer : bytes) (r : list bytes * bytes) (fuel' : nat),
    scan fuel buffer = Some r -> fuel <= fuel' -> scan fuel' buffer = Some r.
Proof.
  induction fuel as [|fuel IH]; intros buffer r fuel' H Hle; [discriminate|].
  destruct fuel' as [|fuel']; [lia|]. simpl in *.
  destruct (find SOI buffer 0) as [soi|]; [|exact H].
  destruct (find EOI buffer soi) as [eoi|]; [|exact H].
  destruct (scan fuel (slice_from buffer (eoi + 2))) as [[frames rest]|] eqn:E;
    [|discriminate].
  rewrite (IH _ _ fuel' E) by lia. exact H.
Qed.

Lemma scan_total (fuel : nat) :
  forall buffer : bytes,
    length buffer < fuel -> exists r, scan fuel buffer = Some r.
Proof.
  induction fuel as [|fuel IH]; intros buffer Hlen; [lia|]. simpl.
  destruct (find SOI buffer 0) as [soi|]; [|eexists; reflexivity].
  destruct (find EOI buffer soi) as [eoi|] eqn:E; [|eexists; reflexivity].
  apply (find_bound _ _ _ _ EOI_nonempty) in E. simpl in E.
  destruct (IH (slice_from buffer (eoi + 2))) as [[frames rest] Hr].
  - unfold slice_from. rewrite length_skipn. lia.
  - rewrite Hr. eexists. reflexivity.
Qed.

Lemma scan_buffer_total (buffer : bytes) : exists r, scan_buffer buffer = Some r.
Proof. apply scan_total. lia. Qed.

Lemma scan_agree (f1 f2 : nat) (buffer : bytes) (r1 r2 : list bytes * bytes) :
  scan f1 buffer = Some r1 -> scan f2 buffer = Some r2 -> r1 = r2.
Proof.
  intros H1 H2.
  apply (scan_grows _ _ _ (Nat.max f1 f2)) in H1; [|lia].
  apply (scan_grows _ _ _ (Nat.max f1 f2)) in H2; [|lia].
  congruence.
Qed.

(** The image cut out between a start marker and the first end marker
    after it is complete. *)
Lemma slice_complete (buffer : bytes) (soi eoi : nat) :
  find SOI buffer 0 = Some soi ->
  find EOI buffer soi = Some eoi ->
  complete_jpeg (slice buffer soi (eoi + 2))
  /\ length (slice buffer soi (eoi + 2)) = eoi + 2 - soi
  /\ soi + 2 <= eoi.
Proof.
  intros Hs He.
  pose proof (find_bound _ _ _ _ EOI_nonempty He) as Hb. simpl in Hb.
  apply find_some in Hs as (_ & Hs & _).
  apply find_some in He as (Hle & He & Hmin).
  pose proof (soi_eoi_gap buffer soi eoi Hs He Hle) as Hgap.
  assert (Hlen : length (slice buffer soi (eoi + 2)) = eoi + 2 - soi).
  { unfold slice. rewrite length_firstn, length_skipn. lia. }
  split; [|split; [exact Hlen | exact Hgap]].
  split.
  - unfold slice. rewrite startswith_firstn by (simpl; lia). exact Hs.
  - rewrite Hlen. apply find_intro; [lia | | | exact EOI_nonempty].
    + unfold slice. rewrite skipn_firstn_comm, skipn_skipn.
      rewrite startswith_firstn by (simpl; lia).
      replace (eoi + 2 - soi - 2 + soi) with eoi by lia. exact He.
    + intros k _ Hk. unfold slice. rewrite skipn_firstn_comm, skipn_skipn.
      rewrite startswith_firstn by (simpl; lia).
      apply Hmin; lia.
Qed.

Lemma complete_length (f : bytes) : complete_jpeg f -> 4 <= length f.
Proof.
  intros [Hs He].
  pose proof (find_bound _ _ _ _ EOI_nonempty He) as Hb. simpl in Hb.
  apply find_some in He as (_ & He & _).
  pose proof (soi_eoi_gap f 0 (length f - 2) Hs He ltac:(lia)). lia.
Qed.

(** What a scan returns: complete images, and a kept buffer that is a tail
    of the buffer, holds no end marker, and is empty or begins with a start
    marker. *)
Lemma scan_sound (fuel : nat) :
  forall (buffer : bytes) (frames : list bytes) (rest : bytes),
    scan fuel buffer = Some (frames, rest) ->
    Forall complete_jpeg frames
    /\ (rest = [] \/ startswith SOI rest = true)
    /\ find EOI rest 0 = None
    /\ (exists n, rest = skipn n buffer \/ rest = [])
    /\ length (concat frames) + length rest <= length buffer.
Proof.
  induction fuel as [|fuel IH]; intros buffer frames rest H; [discriminate|].
  simpl in H.
  destruct (find SOI buffer 0) as [soi|] eqn:Hs.
  - destruct (find EOI buffer soi) as [eoi|] eqn:He.
    + destruct (scan fuel (slice_from buffer (eoi + 2))) as [[frames' rest']|] eqn:E;
        [|discriminate].
      injection H as <- <-.
      destruct (IH _ _ _ E) as (I1 & I2 & I3 & [n I4] & I5).
      destruct (slice_complete buffer soi eoi Hs He) as (C1 & C2 & C3).
      pose proof (find_bound _ _ _ _ EOI_nonempty He) as Hb. simpl in Hb.
      split; [constructor; assumption|]. split; [exact I2|]. split; [exact I3|].
      split.
      * exists (n + (eoi + 2)). destruct I4 as [I4|I4]; [left | right; exact I4].
        rewrite I4. unfold slice_from. apply skipn_skipn.
      * simpl. rewrite length_app, C2. unfold slice_from in I5.
        rewrite length_skipn in I5. lia.
    + injection H as <- <-.
      pose proof (find_some _ _ _ _ Hs) as (_ & S1 & _).
      split; [constructor|]. split; [right; exact S1|]. split.
      * apply find_absent. intros k _. unfold slice_from. rewrite skipn_skipn.
        apply (find_none _ _ _ EOI_nonempty He). lia.
      * split; [exists soi; left; reflexivity|].
        unfold slice_from. simpl. rewrite length_skipn. lia.
  - injection H as <- <-.
    split; [constructor|]. split; [left; reflexivity|]. split; [reflexivity|].
    split; [exists 0; right; reflexivity | simpl; lia].
Qed.

End ScanFacts.

Section ChunkFacts.
Import PiCamReader.
Local Open Scope nat_scope.

(** An occurrence found in a buffer is found in the buffer with more bytes
    appended. *)
Lemma find_app_found (sub b more : bytes) (start j : nat) :
  sub <> [] ->
  find sub b start = Some j -> find sub (b ++ more) start = Some j.
Proof.
  intros Hsub H. pose proof (find_bound _ _ _ _ Hsub H) as Hb.
  apply find_some in H as (H0 & H1 & H2).
  assert (Hk : forall k, k <= j ->
                 startswith sub (skipn k (b ++ more)) = startswith sub (skipn k b)).
  { intros k Hk. rewrite skipn_app. replace (k - length b) with 0 by lia.
    simpl. apply startswith_prefix. rewrite length_skipn. lia. }
  apply find_intro; [exact H0 | | | exact Hsub].
  - rewrite Hk by lia. exact H1.
  - intros k K1 K2. rewrite Hk by lia. apply H2; assumption.
Qed.

(** Searching from beyond a prefix is searching in what follows it. *)
Lemma find_skip (sub b : bytes) (n j : nat) :
  n <= length b ->
  find sub b (n + j) = option_map (fun k => n + k) (find sub (skipn n b) j).
Proof.
  intros Hn. unfold find. rewrite length_skipn.
  destruct (length b <? n + j) eqn:L1.
  - apply Nat.ltb_lt in L1.
    assert (L2 : (length b - n <? j) = true) by (apply Nat.ltb_lt; lia).
    rewrite L2. reflexivity.
  - apply Nat.ltb_ge in L1.
    assert (L2 : (length b - n <? j) = false) by (apply Nat.ltb_ge; lia).
    rewrite L2, skipn_skipn, (Nat.add_comm j n).
    rewrite (find_at_shift sub _ (n + j)), (find_at_shift sub _ j).
    destruct (find_at sub (skipn (n + j) b) 0); simpl; [f_equal; lia | reflexivity].
Qed.

(** Bytes before the first start marker do not matter. *)
Lemma find_SOI_skip (b : bytes) (n : nat) :
  n <= length b ->
  (forall k, k < n -> startswith SOI (skipn k b) = false) ->
  find SOI b 0 = option_map (fun k => n + k) (find SOI (skipn n b) 0).
Proof.
  intros Hn Hjunk. destruct (find SOI (skipn n b) 0) as [j|] eqn:F; simpl.
  - apply find_some in F as (_ & F1 & F2). rewrite skipn_skipn in F1.
    apply find_intro; [lia | | | exact SOI_nonempty].
    + rewrite Nat.add_comm. exact F1.
    + intros k _ Hk. destruct (Nat.lt_ge_cases k n) as [L|L]; [apply Hjunk; exact L|].
      specialize (F2 (k - n) ltac:(lia) ltac:(lia)). rewrite skipn_skipn in F2.
      replace (k - n + n) with k in F2 by lia. exact F2.
  - apply find_absent. intros k _.
    destruct (Nat.lt_ge_cases k n) as [L|L]; [apply Hjunk; exact L|].
    pose proof (find_none _ _ _ SOI_nonempty F (k - n) ltac:(lia)) as H.
    rewrite skipn_skipn in H. replace (k - n + n) with k in H by lia. exact H.
Qed.

Lemma scan_skip_junk (fuel : nat) (b : bytes) (n : nat) :
  n <= length b ->
  (forall k, k < n -> startswith SOI (skipn k b) = false) ->
  scan fuel b = scan fuel (skipn n b).
Proof.
  intros Hn Hjunk. destruct fuel as [|fuel]; [reflexivity|]. simpl.
  rewrite (find_SOI_skip b n Hn Hjunk).
  destruct (find SOI (skipn n b) 0) as [soi|]; simpl; [|reflexivity].
  rewrite (find_skip EOI b n soi Hn).
  destruct (find EOI (skipn n b) soi) as [eoi|]; simpl.
  - unfold slice, slice_from. rewrite !skipn_skipn.
    replace (n + eoi + 2 - (n + soi)) with (eoi + 2 - soi) by lia.
    replace (n + soi) with (soi + n) by lia.
    replace (n + eoi + 2) with (eoi + 2 + n) by lia. reflexivity.
  - unfold slice_from. rewrite skipn_skipn.
    replace (n + soi) with (soi + n) by lia. reflexivity.
Qed.

Lemma scan_S (fuel : nat) (buffer : bytes) :
  scan (S fuel) buffer
  = match find SOI buffer 0 with
    | None => Some ([], [])
    | Some soi =>
        match find EOI buffer soi with
        | None => Some ([], slice_from buffer soi)
        | Some eoi =>
            match scan fuel (slice_from buffer (eoi + 2)) with
            | Some (frames, rest) => Some (slice buffer soi (eoi + 2) :: frames, rest)
            | None => None
            end
        end
    end.
Proof. reflexivity. Qed.

(** A complete image at the head of the buffer is the first one found. *)
Lemma scan_complete_head (fuel : nat) (f more : bytes) :
  complete_jpeg f ->
  scan (S fuel) (f ++ more)
  = match scan fuel more with
    | Some (frames, rest) => Some (f :: frames, rest)
    | None => None
    end.
Proof.
  intros Hc. pose proof (complete_length f Hc) as Hlen. destruct Hc as [Hs He].
  assert (F1 : find SOI (f ++ more) 0 = Some 0).
  { apply find_intro; [lia | | intros k _ Hk; lia | exact SOI_nonempty].
    cbn [skipn]. rewrite startswith_prefix by (simpl; lia). exact Hs. }
  assert (F2 : find EOI (f ++ more) 0 = Some (length f - 2)).
  { apply find_app_found; [exact EOI_nonempty | exact He]. }
  rewrite scan_S, F1, F2. unfold slice, slice_from.
  replace (length f - 2 + 2) with (length f) by lia.
  rewrite Nat.sub_0_r. cbn [skipn].
  rewrite firstn_app, firstn_all, Nat.sub_diag, skipn_app, skipn_all, Nat.sub_diag.
  cbn [firstn skipn]. rewrite app_nil_r. reflexivity.
Qed.

Lemma scan_complete_list (fs : list bytes) (fuel : nat) (tail : bytes) :
  Forall complete_jpeg fs ->
  scan (length fs + fuel) (concat fs ++ tail)
  = match scan fuel tail with
    | Some (frames, rest) => Some (fs ++ frames, rest)
    | None => None
    end.
Proof.
  induction fs as [|f fs IH]; intros Hall.
  - simpl. destruct (scan fuel tail) as [[frames rest]|]; reflexivity.
  - inversion Hall as [|? ? Hf Hfs]; subst.
    change (length (f :: fs) + fuel) with (S (length fs + fuel)).
    simpl concat. rewrite <- app_assoc, (scan_complete_head _ _ _ Hf), (IH Hfs).
    destruct (scan fuel tail) as [[frames rest]|]; reflexivity.
Qed.

Lemma concat_complete_length (fs : list bytes) :
  Forall complete_jpeg fs -> length fs <= length (concat fs).
Proof.
  induction 1 as [|f fs Hf _ IH]; simpl; [lia|].
  rewrite length_app. pose proof (complete_length f Hf). lia.
Qed.

Lemma last_app_nonempty (l1 l2 : bytes) (d : Byte.byte) :
  l2 <> [] -> last (l1 ++ l2) d = last l2 d.
Proof.
  intros H. induction l1 as [|x l1 IH]; [reflexivity|].
  simpl. destruct (l1 ++ l2) eqn:E; [|exact IH].
  apply app_eq_nil in E as [_ E]. congruence.
Qed.

(** Resuming from the kept buffer: scanning [buf ++ more] finds the images
    of [buf] and then those of the kept buffer followed by [more]. *)
Lemma scan_resume (fuel : nat) :
  forall (buf more : bytes) (fs1 : list bytes) (rest1 : bytes),
    scan fuel buf = Some (fs1, rest1) ->
    rest1 <> [] \/ last buf Byte.x00 <> Byte.xff \/ hd Byte.x00 more <> Byte.xd8 ->
    forall (fuel2 : nat) (fs2 : list bytes) (rest2 : bytes),
      scan fuel2 (rest1 ++ more) = Some (fs2, rest2) ->
      scan (fuel + fuel2) (buf ++ more) = Some (fs1 ++ fs2, rest2).
Proof.
  induction fuel as [|fuel IH]; intros buf more fs1 rest1 H Hok fuel2 fs2 rest2 H2;
    [discriminate|].
  simpl in H.
  destruct (find SOI buf 0) as [soi|] eqn:Hs.
  - pose proof (find_bound _ _ _ _ SOI_nonempty Hs) as Hsb. simpl in Hsb.
    destruct (find EOI buf soi) as [eoi|] eqn:He.
    + destruct (scan fuel (slice_from buf (eoi + 2))) as [[frames' rest']|] eqn:E;
        [|discriminate].
      injection H as <- <-.
      pose proof (find_bound _ _ _ _ EOI_nonempty He) as Heb. simpl in Heb.
      change (S fuel + fuel2) with (S (fuel + fuel2)). simpl.
      rewrite (find_app_found _ _ more _ _ SOI_nonempty Hs).
      rewrite (find_app_found _ _ more _ _ EOI_nonempty He).
      assert (Hsl : slice (buf ++ more) soi (eoi + 2) = slice buf soi (eoi + 2)).
      { unfold slice. rewrite skipn_app. replace (soi - length buf) with 0 by lia.
        simpl. rewrite firstn_app, length_skipn.
        replace (eoi + 2 - soi - (length buf - soi)) with 0 by lia.
        simpl. apply app_nil_r. }
      assert (Hsf : slice_from (buf ++ more) (eoi + 2) = slice_from buf (eoi + 2) ++ more).
      { unfold slice_from. rewrite skipn_app.
        replace (eoi + 2 - length buf) with 0 by lia. reflexivity. }
      rewrite Hsl, Hsf.
      rewrite (IH _ more _ _ E) with (fs2 := fs2) (rest2 := rest2); [reflexivity | | exact H2].
      destruct Hok as [Hok|[Hok|Hok]]; [left; exact Hok | | right; right; exact Hok].
      right. left. unfold slice_from.
      destruct (skipn (eoi + 2) buf) as [|x l] eqn:Esk; [discriminate|].
      rewrite <- Esk. intros Hl. apply Hok. rewrite <- Hl.
      rewrite <- (firstn_skipn (eoi + 2) buf) at 1. rewrite last_app_nonempty; [reflexivity|].
      rewrite Esk. discriminate.
    + injection H as <- <-. change ([] ++ fs2) with fs2.
      apply find_some in Hs as (_ & _ & Hmin).
      rewrite (scan_skip_junk _ (buf ++ more) soi).
      * rewrite skipn_app. replace (soi - length buf) with 0 by lia. cbn [skipn].
        apply (scan_grows _ _ _ _ H2). lia.
      * rewrite length_app. lia.
      * intros k Hk. rewrite skipn_app. replace (k - length buf) with 0 by lia.
        cbn [skipn]. rewrite startswith_prefix by (rewrite length_skipn; simpl; lia).
        apply Hmin; lia.
  - injection H as <- <-. change ([] ++ fs2) with fs2.
    rewrite (scan_skip_junk _ (buf ++ more) (length buf)).
    + rewrite skipn_app, skipn_all, Nat.sub_diag. cbn [skipn app].
      apply (scan_grows _ _ _ _ H2). lia.
    + rewrite length_app. lia.
    + intros k Hk. rewrite skipn_app. replace (k - length buf) with 0 by lia.
      cbn [skipn].
      pose proof (find_none _ _ _ SOI_nonempty Hs k ltac:(lia)) as Hnone.
      destruct (Nat.le_gt_cases 2 (length (skipn k buf))) as [L|L].
      * rewrite startswith_prefix by (simpl; exact L). exact Hnone.
      * rewrite length_skipn in L. assert (Hk1 : k = length buf - 1) by lia.
        destruct Hok as [Hok|[Hok|Hok]]; [congruence | |].
        -- destruct (skipn k buf) as [|x [|y l]] eqn:Esk.
           ++ apply (f_equal (@length _)) in Esk. rewrite length_skipn in Esk.
              simpl in Esk. lia.
           ++ assert (Hlast : last buf Byte.x00 = x).
              { rewrite <- (firstn_skipn k buf), Esk. apply last_last. }
              simpl. destruct (Byte.eqb Byte.xff x) eqn:Ex; [|reflexivity].
              apply Byte.byte_dec_bl in Ex. congruence.
           ++ apply (f_equal (@length _)) in Esk. rewrite length_skipn in Esk.
              simpl in Esk. lia.
        -- destruct (skipn k buf) as [|x [|y l]] eqn:Esk.
           ++ apply (f_equal (@length _)) in Esk. rewrite length_skipn in Esk.
              simpl in Esk. lia.
           ++ simpl. destruct more as [|m more']; [apply andb_false_r|].
              simpl in Hok. destruct (Byte.eqb Byte.xd8 m) eqn:Em.
              ** apply Byte.byte_dec_bl in Em. congruence.
              ** apply andb_false_r.
           ++ apply (f_equal (@length _)) in Esk. rewrite length_skipn in Esk.
              simpl in Esk. lia.
Qed.

End ChunkFacts.

Section ReaderLoopFacts.
Import PiCamReader.
Local Open Scope nat_scope.

Lemma scan_buffer_complete_list (fs : list bytes) (tail : bytes) :
  Forall complete_jpeg fs ->
  scan_buffer (concat fs ++ tail)
  = match scan_buffer tail with
    | Some (frames, rest) => Some (fs ++ frames, rest)
    | None => None
    end.
Proof.
  intros Hall. destruct (scan_buffer_total tail) as [[frames rest] Ht]. rewrite Ht.
  pose proof (scan_complete_list fs (S (length tail)) tail Hall) as H.
  unfold scan_buffer in Ht. rewrite Ht in H.
  apply (scan_grows _ _ _ _ H).
  rewrite length_app. pose proof (concat_complete_length fs Hall). lia.
Qed.

Lemma scan_buffer_nil : scan_buffer [] = Some ([], []).
Proof. reflexivity. Qed.

Lemma scan_buffer_resume (buf more : bytes) (fs1 : list bytes) (rest1 : bytes) :
  scan_buffer buf = Some (fs1, rest1) ->
  rest1 <> [] \/ last buf Byte.x00 <> Byte.xff \/ hd Byte.x00 more <> Byte.xd8 ->
  scan_buffer (buf ++ more)
  = match scan_buffer (rest1 ++ more) with
    | Some (fs2, rest2) => Some (fs1 ++ fs2, rest2)
    | None => None
    end.
Proof.
  intros H1 Hok. destruct (scan_buffer_total (rest1 ++ more)) as [[fs2 rest2] H2].
  rewrite H2. destruct (scan_buffer_total (buf ++ more)) as [r Hr]. rewrite Hr.
  f_equal. eapply scan_agree; [exact Hr|].
  exact (scan_resume _ _ _ _ _ H1 Hok _ _ _ H2).
Qed.

(** The first part of an image, cut after its start marker, is kept
    whole. *)
Lemma scan_buffer_partial (a b : bytes) :
  complete_jpeg (a ++ b) -> 2 <= length a -> b <> [] ->
  scan_buffer a = Some ([], a).
Proof.
  intros [Hs He] Ha Hb.
  assert (Hlb : 1 <= length b) by (destruct b; [congruence | simpl; lia]).
  assert (F1 : find SOI a 0 = Some 0).
  { apply find_intro; [lia | | intros k _ Hk; lia | exact SOI_nonempty].
    cbn [skipn]. rewrite <- (startswith_prefix SOI a b) by (simpl; lia). exact Hs. }
  assert (F2 : find EOI a 0 = None).
  { apply find_absent. intros k _.
    destruct (startswith EOI (skipn k a)) eqn:E; [|reflexivity]. exfalso.
    pose proof (startswith_length _ _ E) as L. rewrite length_skipn in L. simpl in L.
    apply find_some in He as (_ & _ & Hmin).
    specialize (Hmin k ltac:(lia)). rewrite length_app in Hmin.
    specialize (Hmin ltac:(lia)).
    rewrite skipn_app in Hmin. replace (k - length a) with 0 in Hmin by lia.
    cbn [skipn] in Hmin. rewrite startswith_prefix in Hmin; [congruence|].
    rewrite length_skipn. simpl. lia. }
  unfold scan_buffer. rewrite scan_S, F1, F2. reflexivity.
Qed.

Lemma capture_loop_cons (c : bytes) (rest : list turn) (buffer : bytes)
      (frames : list bytes) (buffer' : bytes) :
  c <> [] ->
  scan_buffer (buffer ++ c) = Some (frames, buffer') ->
  _capture_loop ({| active := true; read := Chunk c |} :: rest) buffer
  = match _capture_loop rest buffer' with
    | Some more => Some (frames ++ more)
    | None => None
    end.
Proof.
  intros Hc Hs. destruct c as [|x c]; [congruence|].
  cbn [_capture_loop active read negb]. rewrite Hs. reflexivity.
Qed.

Lemma capture_loop_end (rest : list turn) (buffer : bytes) :
  _capture_loop (end_of_stream :: rest) buffer = Some [].
Proof. reflexivity. Qed.

(** Read after read, the loop stores what one scan of the whole stream
    finds, as long as no start marker is cut in two. *)
Lemma capture_loop_chunks (chunks : list bytes) :
  forall (pre previous : bytes) (fs0 : list bytes) (rest0 : bytes),
    scan_buffer pre = Some (fs0, rest0) ->
    last pre Byte.x00 = last previous Byte.x00 ->
    Forall (fun c => c <> []) chunks ->
    clean_cuts previous chunks ->
    exists (fs1 : list bytes) (rest1 : bytes),
      scan_buffer (pre ++ concat chunks) = Some (fs0 ++ fs1, rest1)
      /\ _capture_loop (reads chunks ++ [end_of_stream]) rest0 = Some fs1.
Proof.
  induction chunks as [|c rest IH]; intros pre previous fs0 rest0 Hs Hl Hne Hc.
  - exists [], rest0. cbn [concat]. rewrite !app_nil_r. split; [exact Hs | reflexivity].
  - inversion Hne as [|? ? Hc0 Hne']; subst. destruct Hc as [Hcut Hc].
    destruct (scan_buffer_total (rest0 ++ c)) as [[fs2 rest2] H2].
    assert (H3 : scan_buffer (pre ++ c) = Some (fs0 ++ fs2, rest2)).
    { rewrite (scan_buffer_resume pre c fs0 rest0 Hs), H2; [reflexivity|].
      right. rewrite Hl. exact Hcut. }
    destruct (IH (pre ++ c) c (fs0 ++ fs2) rest2 H3
                 (last_app_nonempty pre c Byte.x00 Hc0) Hne' Hc)
      as (fs1 & rest1 & I1 & I2).
    exists (fs2 ++ fs1), rest1. split.
    + cbn [concat]. rewrite app_assoc, I1, <- app_assoc. reflexivity.
    + cbn [reads map app]. fold (reads rest).
      rewrite (capture_loop_cons c _ rest0 fs2 rest2 Hc0 H2), I2. reflexivity.
Qed.

End ReaderLoopFacts.

(** X9: whatever the buffer holds, the scan of the reader ends, every image
    it stores is complete (it begins with the start marker and its first
    end marker is its last two bytes), and the buffer it keeps holds no end
    marker and is empty or begins with a start marker; images and kept
    buffer together are no longer than the buffer. *)
Theorem reader_stores_complete_images :
  forall buffer : bytes,
    exists (frames : list bytes) (rest : bytes),
      PiCamReader.scan_buffer buffer = Some (frames, rest)
      /\ Forall PiCamReader.complete_jpeg frames
      /\ Forall (fun f => (4 <= length f)%nat) frames
      /\ (rest = [] \/ PiCamReader.startswith PiCamReader.SOI rest = true)
      /\ PiCamReader.find PiCamReader.EOI rest 0 = None
      /\ (length (concat frames) + length rest <= length buffer)%nat.
Proof.
  intros buffer. destruct (scan_buffer_total buffer) as [[frames rest] H].
  exists frames, rest. split; [exact H|].
  destruct (scan_sound _ _ _ _ H) as (H1 & H2 & H3 & _ & H5).
  split; [exact H1|]. split.
  - apply Forall_forall. intros f Hf. apply complete_length.
    rewrite Forall_forall in H1. apply H1. exact Hf.
  - split; [exact H2|]. split; [exact H3 | exact H5].
Qed.

(** X10: round trip.  A stream that is complete images one after the
    other, delivered by any number of reads of any sizes (of at most 4096
    bytes, as the reader asks for, or not), none of them empty and none
    ending with 0xff where the next begins with 0xd8, is cut back into
    exactly these images, in order.  More generally, under these conditions
    the loop stores, read after read, the images that one scan of the whole
    stream finds.  Scanned at once the stream of images leaves nothing in
    the buffer, and bytes that follow them are scanned as if they came
    alone. *)
Theorem reader_round_trip :
  forall (fs chunks : list bytes),
    Forall PiCamReader.complete_jpeg fs ->
    concat chunks = concat fs ->
    Forall (fun c => c <> []) chunks ->
    PiCamReader.clean_cuts [] chunks ->
    PiCamReader._capture_loop
      (PiCamReader.reads chunks ++ [PiCamReader.end_of_stream]) []
    = Some fs
    /\ PiCamReader.scan_buffer (concat fs) = Some (fs, [])
    /\ (forall tail : bytes,
           PiCamReader.scan_buffer (concat fs ++ tail)
           = match PiCamReader.scan_buffer tail with
             | Some (frames, rest) => Some (fs ++ frames, rest)
             | None => None
             end)
    /\ (forall pieces : list bytes,
           Forall (fun c => c <> []) pieces ->
           PiCamReader.clean_cuts [] pieces ->
           exists (frames : list bytes) (rest : bytes),
             PiCamReader.scan_buffer (concat pieces) = Some (frames, rest)
             /\ PiCamReader._capture_loop
                  (PiCamReader.reads pieces ++ [PiCamReader.end_of_stream]) []
                = Some frames).
Proof.
  intros fs chunks Hall Hcat Hne Hclean.
  assert (H0 : PiCamReader.scan_buffer (concat fs) = Some (fs, [])).
  { pose proof (scan_buffer_complete_list fs [] Hall) as H.
    rewrite app_nil_r, scan_buffer_nil, app_nil_r in H. exact H. }
  assert (Hgen : forall pieces : list bytes,
             Forall (fun c => c <> []) pieces ->
             PiCamReader.clean_cuts [] pieces ->
             exists (frames : list bytes) (rest : bytes),
               PiCamReader.scan_buffer (concat pieces) = Some (frames, rest)
               /\ PiCamReader._capture_loop
                    (PiCamReader.reads pieces ++ [PiCamReader.end_of_stream]) []
                  = Some frames).
  { intros pieces Hp Hc.
    destruct (capture_loop_chunks pieces [] [] [] [] scan_buffer_nil eq_refl Hp Hc)
      as (fs1 & rest1 & I1 & I2).
    exists fs1, rest1. split; [exact I1 | exact I2]. }
  split; [|split; [exact H0 | split; [|exact Hgen]]].
  - destruct (Hgen chunks Hne Hclean) as (frames & rest & I1 & I2).
    rewrite Hcat, H0 in I1. injection I1 as <- _. exact I2.
  - intros tail. apply scan_buffer_complete_list. exact Hall.
Qed.

Lemma reader_round_trip_witness :
  let chunks := [ [Byte.xff; Byte.xd8; Byte.x41];
                  [Byte.xff; Byte.xd9; Byte.xff; Byte.xd8];
                  [Byte.x42; Byte.xff; Byte.xd9] ] in
  Forall PiCamReader.complete_jpeg [Samples.jpeg_a; Samples.jpeg_b]
  /\ concat chunks = concat [Samples.jpeg_a; Samples.jpeg_b]
  /\ Forall (fun c => c <> []) chunks
  /\ PiCamReader.clean_cuts [] chunks
  /\ PiCamReader._capture_loop
       (PiCamReader.reads chunks ++ [PiCamReader.end_of_stream]) []
     = Some [Samples.jpeg_a; Samples.jpeg_b].
Proof.
  intros chunks.
  assert (H : Forall PiCamReader.complete_jpeg [Samples.jpeg_a; Samples.jpeg_b]).
  { constructor; [split; reflexivity|]. constructor; [split; reflexivity|]. constructor. }
  assert (Hne : Forall (fun c : bytes => c <> []) chunks).
  { repeat constructor; discriminate. }
  assert (Hc : PiCamReader.clean_cuts [] chunks).
  { simpl. repeat split; left; discriminate. }
  split; [exact H|]. split; [reflexivity|]. split; [exact Hne|]. split; [exact Hc|].
  exact (proj1 (reader_round_trip [Samples.jpeg_a; Samples.jpeg_b] chunks
                  H eq_refl Hne Hc)).
Defined.

(** X11: the reader resumes across reads.  Scanning the kept buffer followed
    by the next bytes finds what scanning the whole stream finds, unless
    nothing is kept, the stream so far ends with 0xff and the next bytes
    begin with 0xd8. *)
Theorem reader_resumes_across_reads :
  forall (buf more : bytes) (fs1 : list bytes) (rest1 : bytes),
    PiCamReader.scan_buffer buf = Some (fs1, rest1) ->
    rest1 <> [] \/ last buf Byte.x00 <> Byte.xff \/ hd Byte.x00 more <> Byte.xd8 ->
    PiCamReader.scan_buffer (buf ++ more)
    = match PiCamReader.scan_buffer (rest1 ++ more) with
      | Some (fs2, rest2) => Some (fs1 ++ fs2, rest2)
      | None => None
      end.
Proof.
  intros buf more fs1 rest1 H Hok. apply scan_buffer_resume; assumption.
Qed.

Lemma reader_resumes_across_reads_witness :
  PiCamReader.scan_buffer [Byte.xff; Byte.xd8; Byte.x41]
  = Some ([], [Byte.xff; Byte.xd8; Byte.x41])
  /\ PiCamReader.scan_buffer ([Byte.xff; Byte.xd8; Byte.x41] ++ [Byte.xff; Byte.xd9])
     = Some ([Samples.jpeg_a], []).
Proof.
  split; [reflexivity|].
  rewrite (reader_resumes_across_reads
             [Byte.xff; Byte.xd8; Byte.x41] [Byte.xff; Byte.xd9]
             [] [Byte.xff; Byte.xd8; Byte.x41] eq_refl).
  - reflexivity.
  - left. discriminate.
Defined.

(** X12: an image read in two pieces.  A complete image with no second
    start marker inside, cut anywhere after its start marker, is stored
    whole once the second piece is read; cut inside the start marker, it is
    lost: the lone 0xff is dropped with the emptied buffer. *)
Theorem reader_loses_split_start_marker :
  forall f a b : bytes,
    PiCamReader.complete_jpeg f ->
    PiCamReader.find PiCamReader.SOI (skipn 1 f) 0 = None ->
    a ++ b = f -> a <> [] -> b <> [] ->
    PiCamReader._capture_loop
      (PiCamReader.reads [a; b] ++ [PiCamReader.end_of_stream]) []
    = Some (if (length a =? 1)%nat then [] else [f])
    /\ PiCamReader._capture_loop
         (PiCamReader.reads [f] ++ [PiCamReader.end_of_stream]) []
       = Some [f].
Proof.
  intros f a b Hc Hno Hab Ha Hb.
  assert (Hf : PiCamReader.scan_buffer f = Some ([f], [])).
  { pose proof (scan_buffer_complete_list [f] [] (Forall_cons _ Hc (Forall_nil _))) as H.
    simpl in H. rewrite !app_nil_r in H. exact H. }
  assert (Hfn : f <> []).
  { intros ->. apply complete_length in Hc. simpl in Hc. lia. }
  split.
  - simpl PiCamReader.reads. cbn [app].
    destruct (length a =? 1)%nat eqn:E.
    + apply Nat.eqb_eq in E. destruct a as [|x [|y a]]; try discriminate E.
      subst f. cbn [app skipn] in Hno.
      assert (Hx : x = Byte.xff).
      { destruct Hc as [Hs _]. simpl in Hs. apply andb_true_iff in Hs as [Hs _].
        apply Byte.byte_dec_bl in Hs. congruence. }
      subst x.
      rewrite (capture_loop_cons [Byte.xff] _ [] [] []); [| discriminate | reflexivity].
      rewrite (capture_loop_cons b _ [] [] []); [reflexivity | exact Hb |].
      unfold PiCamReader.scan_buffer. cbn [app]. rewrite scan_S, Hno. reflexivity.
    + apply Nat.eqb_neq in E.
      assert (La : (2 <= length a)%nat).
      { destruct a as [|x [|y a]]; [congruence | simpl in E; lia | simpl; lia]. }
      subst f.
      rewrite (capture_loop_cons a _ [] [] a);
        [| exact Ha | exact (scan_buffer_partial a b Hc La Hb)].
      rewrite (capture_loop_cons b _ a [a ++ b] []); [| exact Hb | exact Hf].
      rewrite capture_loop_end. reflexivity.
  - simpl PiCamReader.reads. cbn [app].
    rewrite (capture_loop_cons f _ [] [f] []); [| exact Hfn | exact Hf].
    rewrite capture_loop_end. reflexivity.
Qed.

Lemma reader_loses_split_start_marker_witness :
  PiCamReader.complete_jpeg Samples.jpeg_a
  /\ PiCamReader._capture_loop
       (PiCamReader.reads [[Byte.xff]; [Byte.xd8; Byte.x41; Byte.xff; Byte.xd9]]
          ++ [PiCamReader.end_of_stream]) []
     = Some []
  /\ PiCamReader._capture_loop
       (PiCamReader.reads [[Byte.xff; Byte.xd8; Byte.x41]; [Byte.xff; Byte.xd9]]
          ++ [PiCamReader.end_of_stream]) []
     = Some [Samples.jpeg_a].
Proof.
  assert (H : PiCamReader.complete_jpeg Samples.jpeg_a) by (split; reflexivity).
  split; [exact H|]. split.
  - exact (proj1 (reader_loses_split_start_marker Samples.jpeg_a
                    [Byte.xff] [Byte.xd8; Byte.x41; Byte.xff; Byte.xd9]
                    H eq_refl eq_refl ltac:(discriminate) ltac:(discriminate))).
  - exact (proj1 (reader_loses_split_start_marker Samples.jpeg_a
                    [Byte.xff; Byte.xd8; Byte.x41] [Byte.xff; Byte.xd9]
                    H eq_refl eq_refl ltac:(discriminate) ltac:(discriminate))).
Defined.

(** ** The raw TCP stream *)

Section ClientCounters.

(** What a consumer may rely on when no other client shows up. *)
Lemma counters_apply_op (o : op) (s : StreamState) :
  TcpServer.counts_clients o = false ->
  clients_connected (stats (apply_op o s)) = clients_connected (stats s)
  /\ frames_sent (stats (apply_op o s)) = frames_sent (stats s).
Proof. destruct o; simpl; intros H; try discriminate H; split; reflexivity. Qed.

Lemma counters_run_ops (ops : list op) :
  forall s : StreamState,
    (forall o, In o ops -> TcpServer.counts_clients o = false) ->
    clients_connected (stats (run_ops ops s)) = clients_connected (stats s)
    /\ frames_sent (stats (run_ops ops s)) = frames_sent (stats s).
Proof.
  induction ops as [|o ops IH]; intros s H; [split; reflexivity|].
  change (run_ops (o :: ops) s) with (run_ops ops (apply_op o s)).
  destruct (IH (apply_op o s)) as [I1 I2]; [intros o' Ho'; apply H; right; exact Ho'|].
  destruct (counters_apply_op o s (H o (or_introl eq_refl))) as [A1 A2].
  rewrite I1, I2. split; assumption.
Qed.

Lemma in_concat_firstn (n : nat) (env : list wait_step) (o : op) :
  In o (concat (map during (firstn n env))) ->
  exists e, In e env /\ In o (during e).
Proof.
  intros H. apply in_concat in H as (l & Hl & Ho). apply in_map_iff in Hl as (e & <- & He).
  exists e. split; [|exact Ho].
  rewrite <- (firstn_skipn n env). apply in_or_app. left. exact He.
Qed.

(** One [get_frame] of a consumer, whatever the other threads do. *)
Lemma get_frame_shape (me : nat) (now timeout : Q) (env : list wait_step) (last : Z)
      (s : StreamState) (r : option bytes) (seq : Z) (s' : StreamState) :
  ~ In me (frame_condition s) ->
  last <= frame_id s ->
  get_frame me now env last timeout s = Some ((r, seq), s') ->
  ~ In me (frame_condition s')
  /\ seq <= frame_id s'
  /\ (r = None /\ seq = last \/ r = frame s' /\ seq = frame_id s' /\ last < seq).
Proof.
  intros Hme Hlast Hrun. unfold get_frame in Hrun.
  destruct (wait_loop_trace me _ _ _ _ _ _ _ Hme Hrun) as (n & _ & Hs).
  pose proof (wait_loop_result me _ last env s r seq s' Hlast Hrun) as Hres.
  split.
  - rewrite Hs. intros Hin. apply Hme. eapply waiters_run_ops, Hin.
  - split; [|exact Hres].
    destruct Hres as [[_ ->]|(_ & -> & _)]; [|lia].
    rewrite Hs. pose proof (frame_id_run_ops_mono (concat (map during (firstn n env))) s). lia.
Qed.

(** One [get_frame] of a consumer while no other client shows up. *)
Lemma get_frame_alone (me : nat) (now timeout : Q) (env : list wait_step) (last : Z)
      (s : StreamState) (r : option bytes) (seq : Z) (s' : StreamState) :
  ~ In me (frame_condition s) ->
  (forall e o, In e env -> In o (during e) -> TcpServer.counts_clients o = false) ->
  last <= frame_id s ->
  get_frame me now env last timeout s = Some ((r, seq), s') ->
  clients_connected (stats s') = clients_connected (stats s)
  /\ frames_sent (stats s') = frames_sent (stats s)
  /\ ~ In me (frame_condition s')
  /\ seq <= frame_id s'
  /\ (r = None /\ seq = last \/ r = frame s' /\ seq = frame_id s' /\ last < seq).
Proof.
  intros Hme Hq Hlast Hrun. unfold get_frame in Hrun.
  destruct (wait_loop_trace me _ _ _ _ _ _ _ Hme Hrun) as (n & _ & Hs).
  pose proof (wait_loop_result me _ last env s r seq s' Hlast Hrun) as Hres.
  destruct (counters_run_ops (concat (map during (firstn n env))) s) as [C1 C2].
  { intros o Ho. apply in_concat_firstn in Ho as (e & He & Ho). exact (Hq e o He Ho). }
  rewrite <- Hs in C1, C2.
  split; [exact C1|]. split; [exact C2|]. split.
  - rewrite Hs. intros Hin. apply Hme. eapply waiters_run_ops, Hin.
  - split; [|exact Hres].
    destruct Hres as [[_ ->]|(_ & -> & _)]; [|lia].
    rewrite Hs. pose proof (frame_id_run_ops_mono (concat (map during (firstn n env))) s). lia.
Qed.

End ClientCounters.

Section TcpFacts.
Import TcpServer.

Lemma pack_round_trip (n : Z) (h : bytes) :
  pack_uint32_be n = Some h -> length h = 4%nat /\ uint32_be h = n.
Proof.
  unfold pack_uint32_be. destruct ((0 <=? n) && (n <? 2 ^ 32)) eqn:E; [|discriminate].
  apply andb_true_iff in E as [E1 E2]. apply Z.leb_le in E1. apply Z.ltb_lt in E2.
  intros H. injection H as <-. split; [reflexivity|].
  assert (Hb : forall v, byte_value (byte_of v) = v mod 256).
  { intros v. unfold byte_value, byte_of.
    assert (Hr : (Z.to_N (v mod 256) < 256)%N).
    { pose proof (Z.mod_pos_bound v 256 ltac:(lia)). lia. }
    destruct (Byte.of_N (Z.to_N (v mod 256))) as [b|] eqn:Eb.
    - apply Byte.to_of_N in Eb. rewrite Eb.
      pose proof (Z.mod_pos_bound v 256 ltac:(lia)). lia.
    - apply Byte.of_N_None_iff in Eb. lia. }
  unfold uint32_be. cbn [fold_left]. rewrite !Hb, !Z.shiftr_div_pow2 by lia.
  change (2 ^ 24) with 16777216. change (2 ^ 16) with 65536. change (2 ^ 8) with 256.
  change (2 ^ 32) with 4294967296 in E2.
  pose proof (Z.div_mod n 256 ltac:(lia)).
  pose proof (Z.div_mod (n / 256) 256 ltac:(lia)).
  pose proof (Z.div_mod (n / 256 / 256) 256 ltac:(lia)).
  rewrite Z.div_div in * by lia. rewrite Z.div_div in * by lia.
  change (256 * 256) with 65536 in *. change (65536 * 256) with 16777216 in *.
  assert (H24 : 0 <= n / 16777216 < 256).
  { split; [apply Z.div_pos; lia | apply Z.div_lt_upper_bound; lia]. }
  rewrite (Z.mod_small (n / 16777216) 256 H24). lia.
Qed.

(** The shapes of what one turn sends. *)
Lemma command_shape (t : turn) :
  fst (command t) = []
  \/ fst (command t) = [Pong]
  \/ (exists h, fst (command t) = [StatusLength h])
  \/ (exists h b, fst (command t) = [StatusLength h; StatusBody b]
                  /\ pack_uint32_be (len b) = Some h).
Proof.
  unfold command. destruct (recv t) as [cmd| |]; [|left; reflexivity..].
  destruct cmd as [|x [|y cmd]]; [left; reflexivity | | ].
  - destruct x; try (left; reflexivity).
    + destruct (fst (reply_io t)); [right; left; reflexivity | left; reflexivity..].
    + destruct (status_bytes t) as [body|]; [|left; reflexivity].
      destruct (pack_uint32_be (len body)) as [h|] eqn:P; [|left; reflexivity].
      destruct (fst (reply_io t)); [|left; reflexivity..].
      destruct (snd (reply_io t)).
      * right. right. right. exists h, body. split; [reflexivity | exact P].
      * right. right. left. exists h. reflexivity.
      * right. right. left. exists h. reflexivity.
  - destruct x; left; reflexivity.
Qed.

Lemma send_frame_shape (t : turn) (frame : bytes) (n : Z) :
  (snd (send_frame t frame n) = true
   /\ exists h, fst (send_frame t frame n) = [FrameLength h; FrameBody frame n]
                /\ pack_uint32_be (len frame) = Some h)
  \/ (snd (send_frame t frame n) = false
      /\ (fst (send_frame t frame n) = []
          \/ exists h, fst (send_frame t frame n) = [FrameLength h])).
Proof.
  unfold send_frame. destruct (pack_uint32_be (len frame)) as [h|] eqn:P;
    [|right; split; [reflexivity | left; reflexivity]].
  destruct (fst (frame_io t));
    [|right; split; [reflexivity | left; reflexivity]..].
  destruct (snd (frame_io t)).
  - left. split; [reflexivity|]. exists h. split; [reflexivity | first [exact P | reflexivity]].
  - right. split; [reflexivity | right; exists h; reflexivity].
  - right. split; [reflexivity | right; exists h; reflexivity].
Qed.

Lemma increasing_weaken (l : list Z) (n m : Z) :
  n <= m -> increasing m l -> increasing n l.
Proof. destruct l as [|x l]; simpl; [tauto | intros H [H1 H2]; split; [lia | exact H2]]. Qed.

Lemma framed_command (t : turn) (more : list sent) :
  framed more -> headed more ->
  framed (fst (command t) ++ more) /\ headed (fst (command t) ++ more)
  /\ frames_of (fst (command t) ++ more) = frames_of more.
Proof.
  intros Hf Hh.
  destruct (command_shape t) as [E|[E|[[h E]|(h & b & E & P)]]]; rewrite E; simpl.
  - auto.
  - auto.
  - split; [|split; [exact I | reflexivity]].
    destruct more as [|m more]; [exact I|]. destruct m; simpl in *; tauto.
  - auto.
Qed.

Lemma framed_frame (h frame : bytes) (n : Z) (more : list sent) :
  pack_uint32_be (len frame) = Some h ->
  framed more ->
  framed ([FrameLength h; FrameBody frame n] ++ more)
  /\ headed ([FrameLength h; FrameBody frame n] ++ more).
Proof. intros P Hf. simpl. auto. Qed.

Lemma framed_nil_r (out : list sent) : out ++ [] = out.
Proof. apply app_nil_r. Qed.

(** What the loop keeps, turn after turn. *)
Lemma serve_facts (me : nat) (turns : list turn) :
  forall (last : Z) (s : StreamState) (out : list sent) (s' : StreamState),
    serve me turns last s = Some (out, s') ->
    ~ In me (frame_condition s) ->
    alone turns ->
    last <= frame_id s ->
    clients_connected (stats s') = clients_connected (stats s)
    /\ frames_sent (stats s') = frames_sent (stats s) + Z.of_nat (length (frames_of out))
    /\ ~ In me (frame_condition s')
    /\ framed out /\ headed out
    /\ increasing last (map snd (frames_of out)).
Proof.
  induction turns as [|t rest IH]; intros last s out s' H Hme Hal Hlast; [discriminate|].
  assert (Hal' : alone rest).
  { intros t' e o Ht'. apply Hal. right. exact Ht'. }
  cbn [serve] in H.
  destruct (negb (self_running t && global_running t)).
  { injection H as <- <-. simpl. repeat split; try lia; try exact I; exact Hme. }
  pose proof (framed_command t) as Hcmd.
  pose proof (command_shape t) as Hshape.
  destruct (command t) as [out1 go_on]. cbn [fst] in Hcmd, Hshape.
  destruct go_on; cbn [negb] in H.
  2:{ injection H as <- <-.
      destruct (Hcmd [] I I) as (C1 & C2 & C3). rewrite app_nil_r in C1, C2, C3.
      rewrite C3. simpl. repeat split; try lia; try assumption. }
  destruct (get_frame me (clock_now t) (waits t) last timeout s)
    as [[[r seq] s1]|] eqn:G; [|discriminate].
  destruct (get_frame_alone me _ _ _ _ _ _ _ _ Hme
              (fun e o He Ho => Hal t e o (or_introl eq_refl) He Ho) Hlast G)
    as (G1 & G2 & G3 & G4 & G5).
  destruct r as [frame|].
  - destruct G5 as [[G5 _]|(_ & _ & G5)]; [discriminate|].
    pose proof (send_frame_shape t frame seq) as Hsf.
    destruct (send_frame t frame seq) as [out2 ok]. cbn [fst snd] in Hsf.
    destruct ok.
    + destruct Hsf as [(_ & h & -> & P)|[Hk _]]; [|discriminate].
      destruct (serve me rest seq (increment_frames_sent s1)) as [[more s2]|] eqn:R;
        [|discriminate].
      injection H as <- <-.
      destruct (IH _ _ _ _ R G3 Hal' G4) as (I1 & I2 & I3 & I4 & I5 & I6).
      destruct (framed_frame h frame seq more P I4) as [F1 F2].
      destruct (Hcmd _ F1 F2) as (C1 & C2 & C3). cbn [app] in C1, C2, C3 |- *.
      rewrite C3. cbn [app frames_of length map snd increasing].
      split; [rewrite I1; exact G1|]. split.
      * rewrite I2. cbn [increment_frames_sent with_stats stats frames_sent].
        rewrite G2. lia.
      * split; [exact I3|]. split; [exact C1|]. split; [exact C2|].
        split; [exact G5 | exact I6].
    + injection H as <- <-.
      destruct Hsf as [[Hk _]|[_ [->|[h ->]]]]; [discriminate | |].
      * destruct (Hcmd [] I I) as (C1 & C2 & C3). cbn [app] in C1, C2, C3 |- *. rewrite C3. simpl.
        repeat split; try lia; assumption.
      * destruct (Hcmd [FrameLength h] I I) as (C1 & C2 & C3). cbn [app] in C1, C2, C3 |- *. rewrite C3. simpl.
        repeat split; try lia; assumption.
  - destruct G5 as [[_ ->]|(G5 & _ & G6)].
    2:{ destruct (serve me rest seq s1) as [[more s2]|] eqn:R; [|discriminate].
        injection H as <- <-.
        destruct (IH _ _ _ _ R G3 Hal' G4) as (I1 & I2 & I3 & I4 & I5 & I6).
        destruct (Hcmd _ I4 I5) as (C1 & C2 & C3). cbn [app] in C1, C2, C3 |- *. rewrite C3.
        split; [rewrite I1; exact G1|]. split; [rewrite I2, G2; reflexivity|].
        split; [exact I3|]. split; [exact C1|]. split; [exact C2|].
        apply (increasing_weaken _ last seq); [lia | exact I6]. }
    destruct (serve me rest last s1) as [[more s2]|] eqn:R; [|discriminate].
    injection H as <- <-.
    destruct (IH _ _ _ _ R G3 Hal' G4) as (I1 & I2 & I3 & I4 & I5 & I6).
    destruct (Hcmd _ I4 I5) as (C1 & C2 & C3). cbn [app] in C1, C2, C3 |- *. rewrite C3.
    split; [rewrite I1; exact G1|]. split; [rewrite I2, G2; reflexivity|].
    split; [exact I3|]. split; [exact C1|]. split; [exact C2 | exact I6].
Qed.

(** What the loop sends, whatever the other threads do. *)
Lemma serve_shape (me : nat) (turns : list turn) :
  forall (last : Z) (s : StreamState) (out : list sent) (s' : StreamState),
    serve me turns last s = Some (out, s') ->
    ~ In me (frame_condition s) ->
    last <= frame_id s ->
    framed out /\ headed out /\ increasing last (map snd (frames_of out)).
Proof.
  induction turns as [|t rest IH]; intros last s out s' H Hme Hlast; [discriminate|].
  cbn [serve] in H.
  destruct (negb (self_running t && global_running t)).
  { injection H as <- <-. simpl. repeat split. }
  pose proof (framed_command t) as Hcmd.
  destruct (command t) as [out1 go_on]. cbn [fst] in Hcmd.
  destruct go_on; cbn [negb] in H.
  2:{ injection H as <- <-.
      destruct (Hcmd [] I I) as (C1 & C2 & C3). rewrite app_nil_r in C1, C2, C3.
      rewrite C3. simpl. repeat split; assumption. }
  destruct (get_frame me (clock_now t) (waits t) last timeout s)
    as [[[r seq] s1]|] eqn:G; [|discriminate].
  destruct (get_frame_shape me _ _ _ _ _ _ _ _ Hme Hlast G) as (G3 & G4 & G5).
  destruct r as [frame|].
  - destruct G5 as [[G5 _]|(_ & _ & G5)]; [discriminate|].
    pose proof (send_frame_shape t frame seq) as Hsf.
    destruct (send_frame t frame seq) as [out2 ok]. cbn [fst snd] in Hsf.
    destruct ok.
    + destruct Hsf as [(_ & h & -> & P)|[Hk _]]; [|discriminate].
      destruct (serve me rest seq (increment_frames_sent s1)) as [[more s2]|] eqn:R;
        [|discriminate].
      injection H as <- <-.
      destruct (IH _ _ _ _ R G3 G4) as (I4 & I5 & I6).
      destruct (framed_frame h frame seq more P I4) as [F1 F2].
      destruct (Hcmd _ F1 F2) as (C1 & C2 & C3). cbn [app] in C1, C2, C3 |- *.
      rewrite C3. cbn [app frames_of length map snd increasing].
      split; [exact C1|]. split; [exact C2|]. split; [exact G5 | exact I6].
    + injection H as <- <-.
      destruct Hsf as [[Hk _]|[_ [->|[h ->]]]]; [discriminate | |].
      * destruct (Hcmd [] I I) as (C1 & C2 & C3). cbn [app] in C1, C2, C3 |- *.
        rewrite C3. simpl. repeat split; assumption.
      * destruct (Hcmd [FrameLength h] I I) as (C1 & C2 & C3).
        cbn [app] in C1, C2, C3 |- *. rewrite C3. simpl. repeat split; assumption.
  - assert (Hseq : last <= seq) by (destruct G5 as [[_ ->]|(_ & _ & G5)]; lia).
    destruct (serve me rest seq s1) as [[more s2]|] eqn:R; [|discriminate].
    injection H as <- <-.
    destruct (IH _ _ _ _ R G3 G4) as (I4 & I5 & I6).
    destruct (Hcmd _ I4 I5) as (C1 & C2 & C3). cbn [app] in C1, C2, C3 |- *. rewrite C3.
    split; [exact C1|]. split; [exact C2|].
    apply (increasing_weaken _ last seq); [exact Hseq | exact I6].
Qed.

End TcpFacts.

(** X13: the client counter of a TCP connection.  For a stream on which
    the handler's thread is not already waiting, with counters that are not
    negative, and while no other client came or went: when
    [setblocking(False)] succeeds, then whatever ends the loop, the client
    counter of the stream is what it was before the connection, the count of
    frames sent has grown by the number of frames sent whole, and the
    handler is not left among the waiters; when [setblocking(False)]
    raises, [handle] is left by the exception with nothing sent and the
    client counter one too high, the call being made after
    [increment_clients()] and outside the [try]. *)
Theorem tcp_handler_accounts_for_itself :
  forall (me : nat) (s : StreamState) (setblocking_ok : bool)
         (turns : list TcpServer.turn)
         (out : list TcpServer.sent) (s' : StreamState) (e : TcpServer.ending),
    TcpServer.handle me (Some s) setblocking_ok turns = Some (out, Some s', e) ->
    ~ In me (frame_condition s) ->
    TcpServer.alone turns ->
    0 <= clients_connected (stats s) ->
    0 <= frame_id s ->
    (setblocking_ok = true ->
     e = TcpServer.Returned
     /\ clients_connected (stats s') = clients_connected (stats s)
     /\ frames_sent (stats s')
        = frames_sent (stats s) + Z.of_nat (length (TcpServer.frames_of out))
     /\ ~ In me (frame_condition s'))
    /\ (setblocking_ok = false ->
        e = TcpServer.Raised
        /\ out = []
        /\ s' = snd (increment_clients s)
        /\ clients_connected (stats s') = clients_connected (stats s) + 1
        /\ frames_sent (stats s') = frames_sent (stats s)).
Proof.
  intros me s ok turns out s' e H Hme Hal Hc Hf. unfold TcpServer.handle in H.
  destruct ok; cbn [negb] in H.
  - split; [intros _ | discriminate].
    destruct (TcpServer.serve me turns 0 (snd (increment_clients s)))
      as [[out0 s0]|] eqn:R; [|discriminate].
    injection H as <- <- <-.
    destruct (serve_facts me turns 0 _ _ _ R Hme Hal Hf) as (I1 & I2 & I3 & _).
    cbn [decrement_clients increment_clients snd with_stats stats set_clients
         clients_connected frames_sent frame_condition] in *.
    split; [reflexivity|].
    split; [rewrite I1; unfold max_int; destruct (0 <? _) eqn:E; [lia|];
            apply Z.ltb_ge in E; lia|].
    split; [exact I2 | exact I3].
  - split; [discriminate | intros _].
    injection H as <- <- <-.
    split; [reflexivity|]. split; [reflexivity|]. split; [reflexivity|].
    split; reflexivity.
Qed.

Lemma tcp_handler_accounts_for_itself_witness :
  TcpServer.handle 7 (Some (init "secondary" None)) true
    [ {| TcpServer.self_running := true; TcpServer.global_running := true;
         TcpServer.recv := TcpServer.NoData; TcpServer.status_bytes := None;
         TcpServer.reply_io := (TcpServer.Done, TcpServer.Done);
         TcpServer.clock_now := 10;
         TcpServer.waits := [ {| clock := 10.05; during := [OpSetFrame Samples.jpeg_a 10.06] |} ];
         TcpServer.frame_io := (TcpServer.Done, TcpServer.Done) |};
      {| TcpServer.self_running := true; TcpServer.global_running := false;
         TcpServer.recv := TcpServer.NoData; TcpServer.status_bytes := None;
         TcpServer.reply_io := (TcpServer.Done, TcpServer.Done);
         TcpServer.clock_now := 11; TcpServer.waits := [];
         TcpServer.frame_io := (TcpServer.Done, TcpServer.Done) |} ]
  = Some ([ TcpServer.FrameLength [Byte.x00; Byte.x00; Byte.x00; Byte.x05];
            TcpServer.FrameBody Samples.jpeg_a 1 ],
          Some (snd (decrement_clients
                       (increment_frames_sent
                          (set_frame Samples.jpeg_a 10.06
                             (snd (increment_clients (init "secondary" None))))))),
          TcpServer.Returned)
  /\ clients_connected
       (stats (snd (decrement_clients
                      (increment_frames_sent
                         (set_frame Samples.jpeg_a 10.06
                            (snd (increment_clients (init "secondary" None)))))))) = 0
  /\ TcpServer.handle 7 (Some (init "secondary" None)) false []
     = Some ([], Some (snd (increment_clients (init "secondary" None))), TcpServer.Raised)
  /\ clients_connected (stats (snd (increment_clients (init "secondary" None)))) = 0 + 1.
Proof.
  assert (H : TcpServer.handle 7 (Some (init "secondary" None)) true
    [ {| TcpServer.self_running := true; TcpServer.global_running := true;
         TcpServer.recv := TcpServer.NoData; TcpServer.status_bytes := None;
         TcpServer.reply_io := (TcpServer.Done, TcpServer.Done);
         TcpServer.clock_now := 10;
         TcpServer.waits := [ {| clock := 10.05; during := [OpSetFrame Samples.jpeg_a 10.06] |} ];
         TcpServer.frame_io := (TcpServer.Done, TcpServer.Done) |};
      {| TcpServer.self_running := true; TcpServer.global_running := false;
         TcpServer.recv := TcpServer.NoData; TcpServer.status_bytes := None;
         TcpServer.reply_io := (TcpServer.Done, TcpServer.Done);
         TcpServer.clock_now := 11; TcpServer.waits := [];
         TcpServer.frame_io := (TcpServer.Done, TcpServer.Done) |} ]
  = Some ([ TcpServer.FrameLength [Byte.x00; Byte.x00; Byte.x00; Byte.x05];
            TcpServer.FrameBody Samples.jpeg_a 1 ],
          Some (snd (decrement_clients
                       (increment_frames_sent
                          (set_frame Samples.jpeg_a 10.06
                             (snd (increment_clients (init "secondary" None))))))),
          TcpServer.Returned)).
  { vm_compute. reflexivity. }
  assert (H2 : TcpServer.handle 7 (Some (init "secondary" None)) false []
     = Some ([], Some (snd (increment_clients (init "secondary" None))),
             TcpServer.Raised)) by reflexivity.
  split; [exact H|]. split.
  - refine (proj1 (proj2 (proj1 (tcp_handler_accounts_for_itself
                                   7 _ _ _ _ _ _ H _ _ _ _) eq_refl))).
    + simpl. tauto.
    + intros t e o [<-|[<-|[]]]; simpl; [|tauto].
      intros [<-|[]]. simpl. intros [<-|[]]. reflexivity.
    + simpl. lia.
    + simpl. lia.
  - split; [exact H2|].
    refine (proj1 (proj2 (proj2 (proj2 (proj2 (tcp_handler_accounts_for_itself
                                   7 _ _ _ _ _ _ H2 _ _ _ _) eq_refl))))).
    + simpl. tauto.
    + intros t e o [].
    + simpl. lia.
    + simpl. lia.
Defined.

(** X14: what a TCP client is sent.  For a stream on which the handler's
    thread is not already waiting and whose sequence number is not negative,
    and whatever the other threads and clients do meanwhile: every frame and
    every status text goes out right after its own length, four bytes that
    read back as that length, most significant byte first; the frames come
    in strictly increasing sequence numbers, so none is sent twice. *)
Theorem tcp_frames_are_length_prefixed :
  forall (me : nat) (s : StreamState) (setblocking_ok : bool)
         (turns : list TcpServer.turn)
         (out : list TcpServer.sent) (s' : option StreamState) (e : TcpServer.ending),
    TcpServer.handle me (Some s) setblocking_ok turns = Some (out, s', e) ->
    ~ In me (frame_condition s) ->
    0 <= frame_id s ->
    TcpServer.framed out
    /\ TcpServer.increasing 0 (map snd (TcpServer.frames_of out))
    /\ (forall (n : Z) (h : bytes),
           TcpServer.pack_uint32_be n = Some h ->
           length h = 4%nat /\ TcpServer.uint32_be h = n)
    /\ (forall b : bytes,
           (length b < 2 ^ 32)%nat ->
           exists h, TcpServer.pack_uint32_be (TcpServer.len b) = Some h).
Proof.
  intros me s ok turns out s' e H Hme Hf. unfold TcpServer.handle in H.
  assert (Hshape : TcpServer.framed out
                   /\ TcpServer.increasing 0 (map snd (TcpServer.frames_of out))).
  { destruct ok; cbn [negb] in H.
    - destruct (TcpServer.serve me turns 0 (snd (increment_clients s)))
        as [[out0 s0]|] eqn:R; [|discriminate].
      injection H as <- _ _.
      destruct (serve_shape me turns 0 _ _ _ R Hme Hf) as (I4 & _ & I6).
      split; [exact I4 | exact I6].
    - injection H as <- _ _. split; exact I. }
  split; [exact (proj1 Hshape)|]. split; [exact (proj2 Hshape)|].
  split; [exact pack_round_trip|].
  intros b Hb. unfold TcpServer.pack_uint32_be, TcpServer.len.
  assert (E : (0 <=? Z.of_nat (length b)) && (Z.of_nat (length b) <? 2 ^ 32) = true).
  { apply andb_true_iff. split; [apply Z.leb_le; lia|]. apply Z.ltb_lt.
    apply Nat2Z.inj_lt in Hb. rewrite Nat2Z.inj_pow in Hb. exact Hb. }
  rewrite E. eexists. reflexivity.
Qed.

Lemma tcp_frames_are_length_prefixed_witness :
  TcpServer.handle 7 (Some (init "secondary" None)) true
    [ {| TcpServer.self_running := true; TcpServer.global_running := true;
         TcpServer.recv := TcpServer.Data [Byte.x00]; TcpServer.status_bytes := None;
         TcpServer.reply_io := (TcpServer.Done, TcpServer.Done);
         TcpServer.clock_now := 10;
         TcpServer.waits :=
           [ {| clock := 10.05;
                during := [OpIncrementClients; OpSetFrame Samples.jpeg_a 10.06] |} ];
         TcpServer.frame_io := (TcpServer.Done, TcpServer.Fails) |} ]
  = Some ([ TcpServer.Pong;
            TcpServer.FrameLength [Byte.x00; Byte.x00; Byte.x00; Byte.x05] ],
          Some (snd (decrement_clients
                       (set_frame Samples.jpeg_a 10.06
                          (snd (increment_clients
                                  (snd (increment_clients (init "secondary" None)))))))),
          TcpServer.Returned)
  /\ TcpServer.framed
       [ TcpServer.Pong; TcpServer.FrameLength [Byte.x00; Byte.x00; Byte.x00; Byte.x05] ].
Proof.
  assert (H : TcpServer.handle 7 (Some (init "secondary" None)) true
    [ {| TcpServer.self_running := true; TcpServer.global_running := true;
         TcpServer.recv := TcpServer.Data [Byte.x00]; TcpServer.status_bytes := None;
         TcpServer.reply_io := (TcpServer.Done, TcpServer.Done);
         TcpServer.clock_now := 10;
         TcpServer.waits :=
           [ {| clock := 10.05;
                during := [OpIncrementClients; OpSetFrame Samples.jpeg_a 10.06] |} ];
         TcpServer.frame_io := (TcpServer.Done, TcpServer.Fails) |} ]
  = Some ([ TcpServer.Pong;
            TcpServer.FrameLength [Byte.x00; Byte.x00; Byte.x00; Byte.x05] ],
          Some (snd (decrement_clients
                       (set_frame Samples.jpeg_a 10.06
                          (snd (increment_clients
                                  (snd (increment_clients (init "secondary" None)))))))),
          TcpServer.Returned)).
  { vm_compute. reflexivity. }
  split; [exact H|].
  refine (proj1 (tcp_frames_are_length_prefixed 7 _ _ _ _ _ _ H _ _)).
  - simpl. tauto.
  - simpl. lia.
Defined.

(** ** The MJPEG stream over HTTP *)

Section HttpStreamFacts.
Import HttpStream.

Lemma http_serve_facts (me : nat) (turns : list turn) :
  forall (last : Z) (s : StreamState) (r : served),
    serve me turns last s = Some r ->
    ~ In me (frame_condition s) ->
    alone turns ->
    last <= frame_id s ->
    clients_connected (stats (stream r)) = clients_connected (stats s)
    /\ frames_sent (stats (stream r))
       = frames_sent (stats s) + Z.of_nat (length (whole r))
    /\ ~ In me (frame_condition (stream r))
    /\ TcpServer.increasing last (map snd (whole r))
    /\ exists cut : list bytes,
         written r = flat_map part (map fst (whole r)) ++ cut
         /\ (cut = [] \/ exists frame k, (k < 6)%nat /\ cut = firstn k (part frame)).
Proof.
  induction turns as [|t rest IH]; intros last s r H Hme Hal Hlast; [discriminate|].
  assert (Hal' : alone rest).
  { intros t' e o Ht'. apply Hal. right. exact Ht'. }
  cbn [serve] in H.
  destruct (negb (global_running t)).
  { injection H as <-. simpl. repeat split; try lia; try exact Hme.
    exists []. split; [reflexivity | left; reflexivity]. }
  destruct (get_frame me (clock_now t) (waits t) last timeout s)
    as [[[fr seq] s1]|] eqn:G; [|discriminate].
  destruct (get_frame_alone me _ _ _ _ _ _ _ _ Hme
              (fun e o He Ho => Hal t e o (or_introl eq_refl) He Ho) Hlast G)
    as (G1 & G2 & G3 & G4 & G5).
  destruct fr as [frame|].
  - destruct G5 as [[G5 _]|(_ & _ & G5)]; [discriminate|].
    assert (Hwhole :
              match serve me rest seq (increment_frames_sent s1) with
              | Some r0 =>
                  Some {| written := part frame ++ written r0;
                          whole := (frame, seq) :: whole r0;
                          ended := ended r0; stream := stream r0 |}
              | None => None
              end = Some r ->
              clients_connected (stats (stream r)) = clients_connected (stats s)
              /\ frames_sent (stats (stream r))
                 = frames_sent (stats s) + Z.of_nat (length (whole r))
              /\ ~ In me (frame_condition (stream r))
              /\ TcpServer.increasing last (map snd (whole r))
              /\ exists cut : list bytes,
                   written r = flat_map part (map fst (whole r)) ++ cut
                   /\ (cut = [] \/ exists frame k, (k < 6)%nat /\ cut = firstn k (part frame))).
    { destruct (serve me rest seq (increment_frames_sent s1)) as [r0|] eqn:R; [|discriminate].
      intros E. injection E as <-.
      destruct (IH _ _ _ R G3 Hal' G4) as (I1 & I2 & I3 & I4 & cut & I5 & I6).
      cbn [written whole ended stream map fst snd length flat_map].
      split; [rewrite I1; exact G1|]. split.
      - rewrite I2. cbn [increment_frames_sent with_stats stats frames_sent].
        rewrite G2. lia.
      - split; [exact I3|]. split; [split; [exact G5 | exact I4]|].
        exists cut. split; [rewrite I5; exact (app_assoc (part frame) _ cut) | exact I6]. }
    destruct (failing t) as [[k f]|]; [|exact (Hwhole H)].
    destruct (k <? 6)%nat eqn:K; [|exact (Hwhole H)].
    injection H as <-. cbn [written whole ended stream map length flat_map].
    apply Nat.ltb_lt in K.
    split; [exact G1|]. split; [rewrite G2; simpl; lia|]. split; [exact G3|].
    split; [exact I|]. exists (firstn k (part frame)). split; [reflexivity|].
    right. exists frame, k. split; [exact K | reflexivity].
  - assert (Hseq : last <= seq) by (destruct G5 as [[_ ->]|(_ & _ & G5)]; lia).
    destruct (IH _ _ _ H G3 Hal' G4) as (I1 & I2 & I3 & I4 & I5).
    split; [rewrite I1; exact G1|]. split; [rewrite I2, G2; reflexivity|].
    split; [exact I3|]. split; [|exact I5].
    apply (increasing_weaken _ last seq); assumption.
Qed.

(** What the loop writes, whatever the other threads do. *)
Lemma http_serve_shape (me : nat) (turns : list turn) :
  forall (last : Z) (s : StreamState) (r : served),
    serve me turns last s = Some r ->
    ~ In me (frame_condition s) ->
    last <= frame_id s ->
    TcpServer.increasing last (map snd (whole r))
    /\ exists cut : list bytes,
         written r = flat_map part (map fst (whole r)) ++ cut
         /\ (cut = [] \/ exists frame k, (k < 6)%nat /\ cut = firstn k (part frame)).
Proof.
  induction turns as [|t rest IH]; intros last s r H Hme Hlast; [discriminate|].
  cbn [serve] in H.
  destruct (negb (global_running t)).
  { injection H as <-. simpl. split; [exact I|].
    exists []. split; [reflexivity | left; reflexivity]. }
  destruct (get_frame me (clock_now t) (waits t) last timeout s)
    as [[[fr seq] s1]|] eqn:G; [|discriminate].
  destruct (get_frame_shape me _ _ _ _ _ _ _ _ Hme Hlast G) as (G3 & G4 & G5).
  destruct fr as [frame|].
  - destruct G5 as [[G5 _]|(_ & _ & G5)]; [discriminate|].
    assert (Hwhole :
              match serve me rest seq (increment_frames_sent s1) with
              | Some r0 =>
                  Some {| written := part frame ++ written r0;
                          whole := (frame, seq) :: whole r0;
                          ended := ended r0; stream := stream r0 |}
              | None => None
              end = Some r ->
              TcpServer.increasing last (map snd (whole r))
              /\ exists cut : list bytes,
                   written r = flat_map part (map fst (whole r)) ++ cut
                   /\ (cut = [] \/ exists frame k, (k < 6)%nat /\ cut = firstn k (part frame))).
    { destruct (serve me rest seq (increment_frames_sent s1)) as [r0|] eqn:R; [|discriminate].
      intros E. injection E as <-.
      destruct (IH _ _ _ R G3 G4) as (I4 & cut & I5 & I6).
      cbn [written whole ended stream map fst snd length flat_map].
      split; [split; [exact G5 | exact I4]|].
      exists cut. split; [rewrite I5; exact (app_assoc (part frame) _ cut) | exact I6]. }
    destruct (failing t) as [[k f]|]; [|exact (Hwhole H)].
    destruct (k <? 6)%nat eqn:K; [|exact (Hwhole H)].
    injection H as <-. cbn [written whole ended stream map length flat_map].
    apply Nat.ltb_lt in K.
    split; [exact I|]. exists (firstn k (part frame)). split; [reflexivity|].
    right. exists frame, k. split; [exact K | reflexivity].
  - assert (Hseq : last <= seq) by (destruct G5 as [[_ ->]|(_ & _ & G5)]; lia).
    destruct (IH _ _ _ H G3 G4) as (I4 & I5).
    split; [|exact I5].
    apply (increasing_weaken _ last seq); assumption.
Qed.

End HttpStreamFacts.

(** X15: an MJPEG client accounts for itself.  However the stream ends (the
    server stops, the client goes away, a write raises), and while no other
    client came or went, the [finally] clause leaves the client counter of
    the stream as it was before the request, and the count of frames sent
    has grown by the number of parts written whole. *)
Theorem mjpeg_stream_accounts_for_itself :
  forall (me : nat) (s : StreamState) (turns : list HttpStream.turn)
         (code : Z) (r : HttpStream.served),
    HttpStream.send_mjpeg_stream me (Some s) turns = Some (code, Some r) ->
    ~ In me (frame_condition s) ->
    HttpStream.alone turns ->
    0 <= clients_connected (stats s) ->
    0 <= frame_id s ->
    code = 200
    /\ clients_connected (stats (HttpStream.stream r)) = clients_connected (stats s)
    /\ frames_sent (stats (HttpStream.stream r))
       = frames_sent (stats s) + Z.of_nat (length (HttpStream.whole r))
    /\ ~ In me (frame_condition (HttpStream.stream r)).
Proof.
  intros me s turns code r H Hme Hal Hc Hf. unfold HttpStream.send_mjpeg_stream in H.
  destruct (HttpStream.serve me turns 0 (snd (increment_clients s))) as [r0|] eqn:R;
    [|discriminate].
  injection H as <- <-.
  destruct (http_serve_facts me turns 0 _ _ R Hme Hal Hf) as (I1 & I2 & I3 & _).
  cbn [decrement_clients increment_clients snd with_stats stats set_clients
       clients_connected frames_sent frame_condition
       HttpStream.stream HttpStream.whole] in *.
  split; [reflexivity|].
  split; [rewrite I1; unfold max_int; destruct (0 <? _) eqn:E; [lia|];
          apply Z.ltb_ge in E; lia|].
  split; [exact I2 | exact I3].
Qed.

Lemma mjpeg_stream_accounts_for_itself_witness :
  HttpStream.send_mjpeg_stream 7 (Some (init "main" None))
    [ {| HttpStream.global_running := true; HttpStream.clock_now := 10;
         HttpStream.waits := [ {| clock := 10.5; during := [OpSetFrame Samples.jpeg_a 10.6] |} ];
         HttpStream.failing := Some (3%nat, HttpStream.OtherError) |} ]
  = Some (200,
          Some {| HttpStream.written := firstn 3 (HttpStream.part Samples.jpeg_a);
                  HttpStream.whole := [];
                  HttpStream.ended := HttpStream.Raised;
                  HttpStream.stream :=
                    snd (decrement_clients
                           (set_frame Samples.jpeg_a 10.6
                              (snd (increment_clients (init "main" None))))) |})
  /\ clients_connected
       (stats (snd (decrement_clients
                      (set_frame Samples.jpeg_a 10.6
                         (snd (increment_clients (init "main" None))))))) = 0.
Proof.
  assert (H : HttpStream.send_mjpeg_stream 7 (Some (init "main" None))
    [ {| HttpStream.global_running := true; HttpStream.clock_now := 10;
         HttpStream.waits := [ {| clock := 10.5; during := [OpSetFrame Samples.jpeg_a 10.6] |} ];
         HttpStream.failing := Some (3%nat, HttpStream.OtherError) |} ]
  = Some (200,
          Some {| HttpStream.written := firstn 3 (HttpStream.part Samples.jpeg_a);
                  HttpStream.whole := [];
                  HttpStream.ended := HttpStream.Raised;
                  HttpStream.stream :=
                    snd (decrement_clients
                           (set_frame Samples.jpeg_a 10.6
                              (snd (increment_clients (init "main" None))))) |})).
  { vm_compute. reflexivity. }
  split; [exact H|].
  refine (proj1 (proj2 (mjpeg_stream_accounts_for_itself 7 _ _ _ _ H _ _ _ _))).
  - simpl. tauto.
  - intros t e o [<-|[]]; simpl.
    intros [<-|[]]. simpl. intros [<-|[]]. reflexivity.
  - simpl. lia.
  - simpl. lia.
Defined.

(** X16: what an MJPEG client is sent.  For a stream on which the
    handler's thread is not already waiting and whose sequence number is not
    negative, and whatever the other threads and clients do meanwhile: the
    body is whole parts, each the boundary line, the content type, the
    length of the frame in decimal, a blank line, the frame and a line end,
    followed by at most one part cut short by the write that failed; the
    frames come in strictly increasing sequence numbers. *)
Theorem mjpeg_stream_is_whole_parts :
  forall (me : nat) (s : StreamState) (turns : list HttpStream.turn)
         (code : Z) (r : HttpStream.served),
    HttpStream.send_mjpeg_stream me (Some s) turns = Some (code, Some r) ->
    ~ In me (frame_condition s) ->
    0 <= frame_id s ->
    TcpServer.increasing 0 (map snd (HttpStream.whole r))
    /\ (exists cut : list bytes,
           HttpStream.written r
           = flat_map HttpStream.part (map fst (HttpStream.whole r)) ++ cut
           /\ (cut = []
               \/ exists frame k,
                    (k < 6)%nat /\ cut = firstn k (HttpStream.part frame))).
Proof.
  intros me s turns code r H Hme Hf. unfold HttpStream.send_mjpeg_stream in H.
  destruct (HttpStream.serve me turns 0 (snd (increment_clients s))) as [r0|] eqn:R;
    [|discriminate].
  injection H as _ <-.
  destruct (http_serve_shape me turns 0 _ _ R Hme Hf) as (I4 & I5).
  cbn [HttpStream.written HttpStream.whole HttpStream.ended].
  split; [exact I4 | exact I5].
Qed.

Lemma mjpeg_stream_is_whole_parts_witness :
  HttpStream.send_mjpeg_stream 7 (Some (init "main" None))
    [ {| HttpStream.global_running := true; HttpStream.clock_now := 10;
         HttpStream.waits :=
           [ {| clock := 10.5;
                during := [OpIncrementClients; OpSetFrame Samples.jpeg_a 10.6] |} ];
         HttpStream.failing := None |};
      {| HttpStream.global_running := false; HttpStream.clock_now := 11;
         HttpStream.waits := []; HttpStream.failing := None |} ]
  = Some (200,
          Some {| HttpStream.written := HttpStream.part Samples.jpeg_a;
                  HttpStream.whole := [(Samples.jpeg_a, 1)];
                  HttpStream.ended := HttpStream.Returned;
                  HttpStream.stream :=
                    snd (decrement_clients
                           (increment_frames_sent
                              (set_frame Samples.jpeg_a 10.6
                                 (snd (increment_clients
                                         (snd (increment_clients (init "main" None)))))))) |})
  /\ TcpServer.increasing 0 [1].
Proof.
  assert (H : HttpStream.send_mjpeg_stream 7 (Some (init "main" None))
    [ {| HttpStream.global_running := true; HttpStream.clock_now := 10;
         HttpStream.waits :=
           [ {| clock := 10.5;
                during := [OpIncrementClients; OpSetFrame Samples.jpeg_a 10.6] |} ];
         HttpStream.failing := None |};
      {| HttpStream.global_running := false; HttpStream.clock_now := 11;
         HttpStream.waits := []; HttpStream.failing := None |} ]
  = Some (200,
          Some {| HttpStream.written := HttpStream.part Samples.jpeg_a;
                  HttpStream.whole := [(Samples.jpeg_a, 1)];
                  HttpStream.ended := HttpStream.Returned;
                  HttpStream.stream :=
                    snd (decrement_clients
                           (increment_frames_sent
                              (set_frame Samples.jpeg_a 10.6
                                 (snd (increment_clients
                                         (snd (increment_clients (init "main" None)))))))) |})).
  { vm_compute. reflexivity. }
  split; [exact H|].
  refine (proj1 (mjpeg_stream_is_whole_parts 7 _ _ _ _ H _ _)).
  - simpl. tauto.
  - simpl. lia.
Defined.

(** ** The manager: its capture thread and the Pi camera *)

Section CameraFacts.
Import PiCam.

(** A world that satisfies the invariant and in which no other instance is
    active is kept. *)
Lemma kept_of_invariant (p : world) :
  invariant p -> ManagerControl.camera_is_ours p -> ManagerControl.camera_kept p.
Proof.
  intros (X & R & N) Ho. unfold exclusive in X.
  split; [|split; [|split; [exact R | split; [exact N | exact Ho]]]].
  - intros j Hj. destruct Ho as [Ha|Ha]; rewrite Ha in X.
    + apply X.
    + apply X. exact Hj.
  - destruct Ho as [Ha|Ha]; rewrite Ha in X.
    + destruct X as [Hal Hn]. rewrite Hn. exact Hal.
    + destruct X as [[q [Hq Hal]] _]. rewrite Hq. exact Hal.
Qed.

(** Stopping the manager's instance leaves no subprocess. *)
Lemma kept_stop (p : world) :
  ManagerControl.camera_kept p ->
  ManagerControl.camera_kept (stop Manager.picam p)
  /\ _active_instance (stop Manager.picam p) = None
  /\ alive (stop Manager.picam p) = []
  /\ (forall j, process (instances (stop Manager.picam p) j) = None).
Proof.
  intros (K1 & K2 & K3 & K4 & K5). unfold stop.
  destruct (stop_internal_fields Manager.picam p) as (Fi & Fa & Fl & Fn & Fh).
  assert (Hact : _active_instance (_stop_internal Manager.picam p) = None).
  { rewrite Fa. destruct K5 as [->| ->]; [reflexivity|].
    rewrite Nat.eqb_refl. reflexivity. }
  assert (Hall : forall j, process (instances (_stop_internal Manager.picam p) j) = None).
  { intros j. rewrite Fi. destruct (Nat.eqb_spec j Manager.picam) as [e|e];
      [reflexivity | apply K1; exact e]. }
  assert (Hal : alive (_stop_internal Manager.picam p) = []).
  { rewrite Fl. destruct (process (instances p Manager.picam)) as [pid|].
    - rewrite K2. apply filter_single.
    - exact K2. }
  split; [|split; [exact Hact | split; [exact Hal | exact Hall]]].
  split; [intros j _; apply Hall|].
  split; [rewrite Hall; exact Hal|].
  split; [|split; [|left; exact Hact]].
  - rewrite Fh, Hal. destruct (process (instances p Manager.picam)) as [pid|].
    + rewrite replay_snoc, K3, K2. exact (filter_single pid).
    + rewrite app_nil_r, K3. exact K2.
  - rewrite Fh. destruct (process (instances p Manager.picam)) as [pid|].
    + apply never_two_snoc; [exact K4|].
      rewrite replay_snoc, K3, K2. cbn [replay_event].
      rewrite (filter_single pid). simpl. lia.
    + rewrite app_nil_r. exact K4.
Qed.

(** A launch of the manager's instance when it holds no subprocess,
    whatever the launch meets. *)
Lemma kept_launch (preset : string) (o : launching) (p : world) :
  ManagerControl.camera_kept p ->
  process (instances p Manager.picam) = None ->
  ManagerControl.camera_kept (snd (launch Manager.picam preset o p)).
Proof.
  intros K Hp. pose proof K as (K1 & K2 & K3 & K4 & K5). rewrite Hp in K2.
  unfold launch.
  destruct (_available_command (instances p Manager.picam)) as [command|]; [|exact K].
  assert (Hspawn : forall a : option nat,
             (a = None \/ a = Some Manager.picam) ->
             ManagerControl.camera_kept
               {| instances := fun j => if Nat.eqb j Manager.picam
                                        then spawned (next_pid p) preset
                                                     (instances p Manager.picam)
                                        else instances p j;
                  _active_instance := a;
                  alive := next_pid p :: alive p;
                  next_pid := S (next_pid p);
                  history := history p ++ [Spawned (next_pid p) (argv command preset)] |}).
  { intros a Ha. split; [|split; [|split; [|split]]]; cbn.
    - intros j Hj. destruct (Nat.eqb_spec j Manager.picam); [contradiction|].
      apply K1. exact Hj.
    - rewrite K2. reflexivity.
    - rewrite replay_snoc, K3. reflexivity.
    - apply never_two_snoc; [exact K4|]. rewrite replay_snoc, K3, K2. simpl. lia.
    - exact Ha. }
  destruct o.
  - apply (Hspawn (Some Manager.picam)). right. reflexivity.
  - exact K.
  - apply (Hspawn (_active_instance p)). exact K5.
Qed.

(** A start of the manager's instance, whatever the launch meets. *)
Lemma kept_start (preset : string) (o : launching) (p : world) :
  ManagerControl.camera_kept p -> ManagerControl.camera_kept (snd (start Manager.picam preset o p)).
Proof.
  intros K. pose proof K as (K1 & K2 & K3 & K4 & K5).
  assert (E : stop_other_active Manager.picam p = p).
  { unfold stop_other_active. destruct K5 as [->| ->]; [reflexivity|].
    rewrite Nat.eqb_refl. reflexivity. }
  unfold start. rewrite E.
  assert (Hrestart : ManagerControl.camera_kept
                       (snd (launch Manager.picam preset o
                                    (_stop_internal Manager.picam p)))).
  { destruct (kept_stop p K) as (S1 & _ & _ & S4).
    apply kept_launch; [exact S1 | apply S4]. }
  destruct (process (instances p Manager.picam)) as [pid|] eqn:Ep.
  - destruct (current_preset (instances p Manager.picam)) as [q|]; [|exact Hrestart].
    destruct (String.eqb q preset); [exact K | exact Hrestart].
  - apply kept_launch; assumption.
Qed.

End CameraFacts.

Section ThreadFacts.
Import Manager ManagerControl.
Context {F : FloatBuiltins} {C : Cv2.codec}.

Lemma cameras_on_stream (id : string) (f : StreamState -> StreamState) (w : world) :
  cameras (on_stream id f w) = cameras w.
Proof. reflexivity. Qed.

Lemma cameras_others (ops : list (string * op)) :
  forall w : world, cameras (others ops w) = cameras w.
Proof.
  induction ops as [|o ops IH]; intros w; [reflexivity|].
  unfold others in *. simpl. rewrite IH. reflexivity.
Qed.

(** What a turn does to the camera: nothing, a start of the manager's
    instance, or its stop. *)
Lemma cameras_manage_picam (groups : list (string * list string)) (env : cycle_env)
      (v : loop_vars) (w : world) :
  cameras (snd (manage_picam groups env v w)) = cameras w
  \/ (exists preset,
         cameras (snd (manage_picam groups env v w))
         = snd (PiCam.start picam preset (launching env) (cameras w)))
  \/ cameras (snd (manage_picam groups env v w)) = PiCam.stop picam (cameras w).
Proof.
  unfold manage_picam. destruct (Config.dict_get groups "picam") as [ids|].
  - destruct ids as [|first rest]; [left; reflexivity|].
    destruct (get_stream w first) as [st|]; [|left; reflexivity].
    destruct (negb (picam_running v) || negb (same_preset (last_picam_preset v) (picam_preset st)));
      [|left; reflexivity].
    right. left. exists (picam_preset st). reflexivity.
  - destruct (picam_running v); [right; right; reflexivity | left; reflexivity].
Qed.

Lemma cameras_cycle (env : cycle_env) (v : loop_vars) (w : world) :
  cameras (snd (fst (cycle env v w)))
  = cameras (snd (manage_picam (_get_active_sources w) env v w)).
Proof.
  unfold cycle.
  destruct (manage_picam (_get_active_sources w) env v w) as [v' w1].
  pose proof (cameras_distribute (_get_active_sources w) env w1) as H.
  destruct (distribute (_get_active_sources w) env w1) as [w2 log]. exact H.
Qed.

Lemma cycle_keeps_camera (env : cycle_env) (v : loop_vars) (w : world) :
  camera_kept (cameras w) ->
  camera_kept (cameras (snd (fst (cycle env v w)))).
Proof.
  intros K. rewrite cameras_cycle.
  destruct (cameras_manage_picam (_get_active_sources w) env v w) as [E|[[p E]|E]];
    rewrite E.
  - exact K.
  - apply kept_start. exact K.
  - apply (kept_stop (cameras w) K).
Qed.

Lemma cycles_keep_camera (turns : list turn) :
  forall (v : loop_vars) (w : world),
    camera_kept (cameras w) ->
    camera_kept (cameras (snd (fst (cycles turns v w)))).
Proof.
  induction turns as [|t rest IH]; intros v w K; [exact K|].
  cbn [cycles].
  pose proof (cycle_keeps_camera (env t) v (others (before t) w)) as Hc.
  rewrite cameras_others in Hc. specialize (Hc K).
  destruct (cycle (env t) v (others (before t) w)) as [[v1 w1] log1]. cbn [fst snd] in Hc.
  specialize (IH v1 w1 Hc).
  destruct (cycles rest v1 w1) as [[v2 w2] log2]. exact IH.
Qed.

End ThreadFacts.

(** X17: the capture thread never leaves a camera subprocess behind.
    Whatever its turns were, whatever the other threads did to the streams
    and whether or not the launches succeeded, once its cleanup has run no
    camera subprocess is alive and no instance holds one; and at no point of
    its life were two of them running. *)
Theorem capture_thread_leaves_no_camera :
  forall (F : FloatBuiltins) (C : Cv2.codec)
         (turns : list ManagerControl.turn) (w : Manager.world),
    PiCam.invariant (Manager.cameras w) ->
    ManagerControl.camera_is_ours (Manager.cameras w) ->
    let w' := fst (ManagerControl.capture_thread turns w) in
    PiCam.alive (Manager.cameras w') = []
    /\ (forall j, PiCam.process (PiCam.instances (Manager.cameras w') j) = None)
    /\ PiCam._active_instance (Manager.cameras w') = None
    /\ PiCam.replay (PiCam.history (Manager.cameras w')) = []
    /\ PiCam.never_two (PiCam.history (Manager.cameras w')).
Proof.
  intros F C turns w Hinv Hours w'. unfold w', ManagerControl.capture_thread.
  pose proof (cycles_keep_camera turns Manager.loop_start w
                (kept_of_invariant _ Hinv Hours)) as K.
  destruct (ManagerControl.cycles turns Manager.loop_start w) as [[v1 w1] log].
  cbn [fst snd Manager.cameras Manager.with_cameras] in *.
  destruct (kept_stop (Manager.cameras w1) K) as (I1 & I2 & I3 & I4).
  split; [exact I3|]. split; [exact I4|]. split; [exact I2|].
  destruct I1 as (_ & _ & Hr & Hn & _). split; [rewrite Hr; exact I3 | exact Hn].
Qed.

Lemma capture_thread_leaves_no_camera_witness :
  PiCam.invariant Samples.camera_running
  /\ ManagerControl.camera_is_ours Samples.camera_running
  /\ PiCam.alive
       (Manager.cameras
          (fst (ManagerControl.capture_thread
                  (F := Samples.decimal_runtime) (C := Samples.sample_codec)
                  [ {| ManagerControl.before := []; ManagerControl.env := Samples.good_cycle |} ]
                  Samples.two_streams))) = [].
Proof.
  assert (H1 : PiCam.invariant Samples.camera_running).
  { apply orderly_invariant. apply PiCam.orderly_start; [discriminate|].
    apply PiCam.orderly_initial.
    split; [intros i; reflexivity|]. split; [reflexivity|]. split; reflexivity. }
  assert (H2 : ManagerControl.camera_is_ours Samples.camera_running) by (right; reflexivity).
  split; [exact H1|]. split; [exact H2|].
  exact (proj1 (capture_thread_leaves_no_camera
                  Samples.decimal_runtime Samples.sample_codec
                  [ {| ManagerControl.before := []; ManagerControl.env := Samples.good_cycle |} ]
                  Samples.two_streams H1 H2)).
Defined.

(** X18: stopping the manager is final.  [stop] lowers both running flags
    and keeps the streams; a capture loop that looks at the flags afterwards
    ends at once without a capture; and since nothing raises the flag of the
    registry again, the capture thread that a later [start] launches ends at
    once as well. *)
Theorem manager_stop_is_final :
  forall (F : FloatBuiltins) (C : Cv2.codec) (w : Manager.world)
         (envs : list Manager.cycle_env) (v : Manager.loop_vars),
    let w1 := ManagerControl.stop w in
    let w2 := snd (ManagerControl.start w1) in
    Manager._running w1 = false
    /\ running (Manager.state w1) = false
    /\ Manager.list_streams w1 = Manager.list_streams w
    /\ (forall id, Manager.get_stream w1 id
                   = option_map notify_all (Manager.get_stream w id))
    /\ (exists w', Manager._capture_loop envs v w1 = Some (w', []))
    /\ fst (ManagerControl.start w1) = true
    /\ Manager._running w2 = true
    /\ running (Manager.state w2) = false
    /\ (exists w', Manager._capture_loop envs v w2 = Some (w', []))
    /\ Manager.flags w1 = Manager.flags w.
Proof.
  intros F C w envs v w1 w2.
  split; [reflexivity|]. split; [reflexivity|].
  split.
  { unfold w1, Manager.list_streams, list_streams. simpl. rewrite map_map. reflexivity. }
  split.
  { intros id. unfold w1, Manager.get_stream, get_stream. simpl.
    induction (streams (Manager.state w)) as [|[k s] d IH]; simpl; [reflexivity|].
    destruct (String.eqb id k); [reflexivity | exact IH]. }
  split.
  { destruct envs; eexists; reflexivity. }
  split; [reflexivity|]. split; [reflexivity|]. split; [reflexivity|].
  split; [|reflexivity].
  destruct envs; eexists; reflexivity.
Qed.

Section ManagerRegistryFacts.
Import Config Manager.

Lemma available_in_all (c : Config.flags) (s : string) :
  In s (get_available_sources c) -> In s ALL_SOURCES.
Proof.
  unfold get_available_sources. destruct (KINECT_AVAILABLE c); [tauto|].
  intros [<-|[]]. simpl. tauto.
Qed.

Lemma picam_always_available (c : Config.flags) : In "picam"%string (get_available_sources c).
Proof.
  unfold get_available_sources. destruct (KINECT_AVAILABLE c); simpl; tauto.
Qed.

Lemma available_nonempty (c : Config.flags) (s : string) :
  In s (get_available_sources c) -> s <> EmptyString.
Proof.
  intros H. apply available_in_all in H. simpl in H.
  intros ->. destruct H as [H|[H|[H|[H|[]]]]]; discriminate H.
Qed.

End ManagerRegistryFacts.

(** X19: a stream is always created on a source that is available at that
    moment.  The source asked for is kept when it is available; otherwise,
    and whatever was asked for, the stream starts on the Pi camera.  The
    stream is registered with the default settings and the rest of the
    world is untouched. *)
Theorem create_stream_source_is_available :
  forall (w : Manager.world) (id : string) (src : option string)
         (st : StreamState) (w' : Manager.world),
    Manager.create_stream id src w = Some (st, w') ->
    In (current_source st) (Config.get_available_sources (Manager.flags w))
    /\ (forall x, src = Some x ->
                  current_source st
                  = if str_in x (Config.get_available_sources (Manager.flags w))
                    then x else "picam"%string)
    /\ Manager.get_stream w id = None
    /\ Manager.get_stream w' id = Some st
    /\ Manager.list_streams w' = Manager.list_streams w ++ [id]
    /\ (forall other, other <> id ->
                      Manager.get_stream w' other = Manager.get_stream w other)
    /\ (stream_id st = id /\ frame st = None /\ frame_id st = 0
        /\ jpeg_quality st = 70 /\ scale_factor st = Finite 1.0
        /\ picam_preset st = "high"%string)
    /\ Manager.flags w' = Manager.flags w
    /\ Manager.cameras w' = Manager.cameras w.
Proof.
  intros w id src st w' H. unfold Manager.create_stream in H.
  set (asked := match src with
                | Some s => s
                | None => if Config.FREENECT_AVAILABLE (Manager.flags w)
                          then "kinect_rgb"%string else "picam"%string
                end) in *.
  set (chosen := if str_in asked (Config.get_available_sources (Manager.flags w))
                 then asked else "picam"%string) in *.
  assert (Hin : In chosen (Config.get_available_sources (Manager.flags w))).
  { unfold chosen.
    destruct (str_in asked (Config.get_available_sources (Manager.flags w))) eqn:E.
    - apply str_in_In. exact E.
    - apply picam_always_available. }
  assert (Hne : String.eqb chosen EmptyString = false).
  { apply String.eqb_neq. apply (available_nonempty _ _ Hin). }
  unfold State.create_stream in H.
  destruct (get_stream (Manager.state w) id) eqn:G; [discriminate|].
  injection H as <- <-.
  assert (Hsrc : current_source (init id (Some chosen)) = chosen).
  { simpl. rewrite Hne. reflexivity. }
  split; [rewrite Hsrc; exact Hin|].
  split; [intros x ->; rewrite Hsrc; reflexivity|].
  split; [exact G|].
  split.
  { unfold Manager.get_stream, get_stream in *. simpl.
    rewrite dict_get_app_new, G, String.eqb_refl. reflexivity. }
  split.
  { unfold Manager.list_streams, list_streams. simpl. rewrite map_app. reflexivity. }
  split.
  { intros other Ho. unfold Manager.get_stream, get_stream. simpl.
    rewrite dict_get_app_new.
    destruct (Config.dict_get (streams (Manager.state w)) other); [reflexivity|].
    apply String.eqb_neq in Ho. rewrite Ho. reflexivity. }
  split; [repeat split|]. split; reflexivity.
Qed.

Lemma create_stream_source_is_available_witness :
  Manager.create_stream "third" (Some "kinect_ir"%string)
    (Manager.with_kinect
       (Config.update_kinect_availability false Samples.all_available)
       (Kinect.set_available false Samples.kinect_ok) Samples.two_streams)
  = Some (init "third" (Some "picam"%string),
          Manager.with_state
            (with_streams
               (streams (Manager.state Samples.two_streams)
                  ++ [("third"%string, init "third" (Some "picam"%string))])
               (Manager.state Samples.two_streams))
            (Manager.with_kinect
               (Config.update_kinect_availability false Samples.all_available)
               (Kinect.set_available false Samples.kinect_ok) Samples.two_streams))
  /\ In (current_source (init "third" (Some "picam"%string))) ["picam"%string].
Proof.
  assert (H : Manager.create_stream "third" (Some "kinect_ir"%string)
    (Manager.with_kinect
       (Config.update_kinect_availability false Samples.all_available)
       (Kinect.set_available false Samples.kinect_ok) Samples.two_streams)
  = Some (init "third" (Some "picam"%string),
          Manager.with_state
            (with_streams
               (streams (Manager.state Samples.two_streams)
                  ++ [("third"%string, init "third" (Some "picam"%string))])
               (Manager.state Samples.two_streams))
            (Manager.with_kinect
               (Config.update_kinect_availability false Samples.all_available)
               (Kinect.set_available false Samples.kinect_ok) Samples.two_streams)))
    by reflexivity.
  split; [exact H|].
  exact (proj1 (create_stream_source_is_available _ _ _ _ _ H)).
Defined.

(** X20: [switch_source] succeeds exactly when the stream is registered and
    the source is available at that moment.  A refusal changes nothing; a
    success changes the source of that stream alone, counts one switch even
    when the source is the one already selected, and keeps the frame, its
    sequence number and every setting. *)
Theorem switch_source_succeeds_iff :
  forall (w : Manager.world) (id source : string),
    let r := Manager.switch_source id source w in
    let w' := snd r in
    fst (fst r)
    = match Manager.get_stream w id with
      | Some _ => str_in source (Config.get_available_sources (Manager.flags w))
      | None => false
      end
    /\ (fst (fst r) = false -> w' = w)
    /\ (fst (fst r) = true ->
        exists st,
          Manager.get_stream w id = Some st
          /\ Manager.get_stream w' id = Some (snd (set_source source st))
          /\ snd (fst r)
             = ("Switched " ++ id ++ " from " ++ current_source st ++ " to " ++ source)%string)
    /\ (forall st', Manager.get_stream w' id = Some st' ->
                    exists st,
                      Manager.get_stream w id = Some st
                      /\ frame st' = frame st /\ frame_id st' = frame_id st
                      /\ jpeg_quality st' = jpeg_quality st
                      /\ scale_factor st' = scale_factor st
                      /\ picam_preset st' = picam_preset st
                      /\ frame_condition st' = frame_condition st
                      /\ (fst (fst r) = true ->
                          current_source st' = source
                          /\ source_switches (stats st') = source_switches (stats st) + 1))
    /\ (forall other, other <> id ->
                      Manager.get_stream w' other = Manager.get_stream w other)
    /\ Manager.list_streams w' = Manager.list_streams w
    /\ Manager.flags w' = Manager.flags w
    /\ Manager.cameras w' = Manager.cameras w.
Proof.
  intros w id source r w'. unfold w', r, Manager.switch_source.
  destruct (Manager.get_stream w id) as [st|] eqn:G.
  - destruct (str_in source (Config.get_available_sources (Manager.flags w))) eqn:A;
      cbn [negb].
    + cbn [fst snd].
      assert (G' : Manager.get_stream
                     (Manager.on_stream id (fun s => snd (set_source source s)) w) id
                   = Some (snd (set_source source st))).
      { rewrite get_stream_on_stream, String.eqb_refl, G. reflexivity. }
      split; [reflexivity|]. split; [discriminate|].
      split; [intros _; exists st; split; [reflexivity|]; split; [exact G' | reflexivity]|].
      split.
      { intros st' E. rewrite G' in E. injection E as <-. exists st.
        split; [reflexivity|]. simpl. repeat split. }
      split.
      { intros other Ho. rewrite get_stream_on_stream.
        apply String.eqb_neq in Ho. rewrite Ho. reflexivity. }
      split; [apply list_streams_on_stream|]. split; reflexivity.
    + destruct (str_in source Config.KINECT_SOURCES); cbn [fst snd];
        (split; [reflexivity|]; split; [reflexivity|]; split; [discriminate|];
         split;
         [intros st' E; rewrite G in E; injection E as <-; exists st;
          split; [reflexivity|]; repeat split; discriminate
         |split; [reflexivity|]; split; [reflexivity|]; split; reflexivity]).
  - cbn [fst snd]. split; [reflexivity|]. split; [reflexivity|]. split; [discriminate|].
    split; [intros st' E; rewrite G in E; discriminate|].
    split; [reflexivity|]. split; [reflexivity|]. split; reflexivity.
Qed.

Section StatusFacts.
Import Manager.
Context {F : FloatBuiltins}.

Lemma streams_info_keys (w : world) (ids : list string) :
  forall infos : list (string * stream_info),
    (forall id, In id ids -> exists s, get_stream w id = Some s) ->
    streams_info w ids = Some infos ->
    map fst infos = ids
    /\ (forall id info,
           In (id, info) infos ->
           exists s,
             get_stream w id = Some s
             /\ info_settings info = get_settings s
             /\ info_stats info = get_stats s
             /\ resolution_of (get_settings s) = Some (info_resolution info)).
Proof.
  induction ids as [|id ids IH]; intros infos Hreg H; simpl in H.
  - injection H as <-. split; [reflexivity | intros id info []].
  - destruct (Hreg id (or_introl eq_refl)) as [s Hs]. rewrite Hs in H.
    destruct (resolution_of (get_settings s)) as [res|] eqn:R; [|discriminate].
    destruct (streams_info w ids) as [rest|] eqn:E; [|discriminate].
    simpl in H. injection H as <-.
    destruct (IH rest (fun i Hi => Hreg i (or_intror Hi)) eq_refl) as [I1 I2].
    split; [simpl; rewrite I1; reflexivity|].
    intros id' info [Hin|Hin].
    + injection Hin as <- <-. exists s. simpl. repeat split; assumption.
    + apply I2. exact Hin.
Qed.

End StatusFacts.

(** X21: when [get_status] answers, it lists every registered stream once,
    in the order of the registry, each with its own settings, statistics
    and resolution, beside the sources available at that moment; its
    [kinect_available] entry is the value the flag had when manager.py was
    imported. *)
Theorem get_status_lists_every_stream :
  forall (F : FloatBuiltins) (w : Manager.world) (st : Manager.status),
    Manager.get_status w = Some st ->
    map fst (Manager.status_streams st) = Manager.list_streams w
    /\ (forall id info,
           In (id, info) (Manager.status_streams st) ->
           exists s,
             Manager.get_stream w id = Some s
             /\ Manager.info_settings info = get_settings s
             /\ Manager.info_stats info = get_stats s
             /\ Manager.resolution_of (get_settings s)
                = Some (Manager.info_resolution info))
    /\ Manager.status_available_sources st
       = Config.get_available_sources (Manager.flags w)
    /\ Manager.status_running st = Manager._running w
    /\ Manager.status_kinect_available st = Config.FREENECT_AVAILABLE (Manager.flags w).
Proof.
  intros F w st H. unfold Manager.get_status in H.
  destruct (Manager.streams_info w (Manager.list_streams w)) as [infos|] eqn:E;
    [|discriminate].
  injection H as <-. cbn.
  destruct (streams_info_keys w (Manager.list_streams w) infos) as [K1 K2].
  - intros id Hid. apply dict_get_in_keys. exact Hid.
  - exact E.
  - split; [exact K1|]. split; [exact K2|]. repeat split.
Qed.

Lemma get_status_lists_every_stream_witness :
  (exists st,
      Manager.get_status (F := Samples.decimal_runtime) Samples.two_streams = Some st
      /\ map fst (Manager.status_streams st) = ["main"; "secondary"]%string).
Proof.
  destruct (Manager.get_status (F := Samples.decimal_runtime) Samples.two_streams)
    as [st|] eqn:E; [|vm_compute in E; discriminate E].
  exists st. split; [reflexivity|].
  exact (proj1 (get_status_lists_every_stream Samples.decimal_runtime
                  Samples.two_streams st E)).
Defined.

Section RetryFacts.
Import Manager.
Context {F : FloatBuiltins} {C : Cv2.codec}.

Lemma after_pushes_keeps (env : cycle_env) (id : string) (payloads : list bytes) :
  forall s : StreamState,
    current_source (after_pushes env id payloads s) = current_source s
    /\ picam_preset (after_pushes env id payloads s) = picam_preset s.
Proof.
  induction payloads as [|b l IH]; intros s; [split; reflexivity|].
  unfold after_pushes in *. simpl. destruct (IH (set_frame b (stamp env id) s)) as [I1 I2].
  rewrite I1, I2. split; reflexivity.
Qed.

(** The grouping depends on the ids and on the source each stream
    selects. *)
Lemma groups_depend_on_sources (w w' : world) :
  list_streams w' = list_streams w ->
  (forall id, option_map current_source (get_stream w' id)
              = option_map current_source (get_stream w id)) ->
  _get_active_sources w' = _get_active_sources w.
Proof.
  intros Hl Hs. unfold _get_active_sources. rewrite Hl. clear Hl.
  generalize (@nil (string * list string)).
  induction (list_streams w) as [|id ids IH]; intros acc; [reflexivity|].
  simpl. specialize (Hs id).
  destruct (get_stream w' id) as [s'|]; destruct (get_stream w id) as [s|]; simpl in Hs.
  - injection Hs as ->. apply IH.
  - discriminate Hs.
  - discriminate Hs.
  - apply IH.
Qed.

Lemma cycle_streams (env : cycle_env) (v : loop_vars) (w : world) :
  list_streams (snd (fst (cycle env v w))) = list_streams w
  /\ (forall id,
         exists payloads,
           get_stream (snd (fst (cycle env v w))) id
           = option_map (after_pushes env id payloads) (get_stream w id)).
Proof.
  unfold cycle.
  pose proof (manage_picam_keeps (_get_active_sources w) env v w) as [K _].
  destruct (manage_picam (_get_active_sources w) env v w) as [v' w1]. cbn [snd] in K.
  pose proof (distribute_streams env (_get_active_sources w) w1) as (_ & D2 & D3).
  destruct (distribute (_get_active_sources w) env w1) as [w2 log]. cbn [fst snd] in *.
  unfold list_streams, get_stream in *. rewrite K in D2, D3.
  split; [exact D2|]. intros id. eexists. apply D3.
Qed.

Lemma cycle_groups (env : cycle_env) (v : loop_vars) (w : world) :
  _get_active_sources (snd (fst (cycle env v w))) = _get_active_sources w
  /\ (forall id st,
         get_stream w id = Some st ->
         exists st',
           get_stream (snd (fst (cycle env v w))) id = Some st'
           /\ picam_preset st' = picam_preset st).
Proof.
  destruct (cycle_streams env v w) as [L S]. split.
  - apply groups_depend_on_sources; [exact L|]. intros id.
    destruct (S id) as [payloads ->].
    destruct (get_stream w id) as [s|]; [|reflexivity]. simpl.
    rewrite (proj1 (after_pushes_keeps env id payloads s)). reflexivity.
  - intros id st G. destruct (S id) as [payloads E]. rewrite G in E. simpl in E.
    eexists. split; [exact E|]. apply after_pushes_keeps.
Qed.

Lemma same_preset_refl (p : string) : same_preset (Some p) p = true.
Proof. apply String.eqb_refl. Qed.

End RetryFacts.

(** X22: the capture loop asks for the camera once.  While a stream selects
    the Pi camera, the first turn calls [start] and, whatever it returns,
    notes the camera as running; the next turn, with the preset unchanged,
    does not call [start] again.  So when the launch failed in the first
    turn the camera stays off in the second, although the stream still
    selects it and the launch would now succeed. *)
Theorem camera_start_is_not_retried :
  forall (F : FloatBuiltins) (C : Cv2.codec) (env1 env2 : Manager.cycle_env)
         (w : Manager.world) (first : string) (rest : list string) (st : StreamState),
    Config.dict_get (Manager._get_active_sources w) "picam" = Some (first :: rest) ->
    Manager.get_stream w first = Some st ->
    let v1 := fst (fst (Manager.cycle env1 Manager.loop_start w)) in
    let w1 := snd (fst (Manager.cycle env1 Manager.loop_start w)) in
    let v2 := fst (fst (Manager.cycle env2 v1 w1)) in
    let w2 := snd (fst (Manager.cycle env2 v1 w1)) in
    v1 = {| Manager.last_picam_preset := Some (picam_preset st);
            Manager.picam_running := true |}
    /\ Manager.cameras w1
       = snd (PiCam.start Manager.picam (picam_preset st) (Manager.launching env1)
                          (Manager.cameras w))
    /\ v2 = v1
    /\ Manager.cameras w2 = Manager.cameras w1
    /\ (Manager.launching env1 = PiCam.PopenRaises ->
        PiCam._active_instance (Manager.cameras w) = None ->
        PiCam.process (PiCam.instances (Manager.cameras w) Manager.picam) = None ->
        Manager.cameras w2 = Manager.cameras w
        /\ PiCam.get_frame Manager.picam (Manager.cameras w2)
           = PiCam.frame_buffer (PiCam.instances (Manager.cameras w) Manager.picam)).
Proof.
  intros F C env1 env2 w first rest st Hg Hs v1 w1 v2 w2.
  assert (M1 : Manager.manage_picam (Manager._get_active_sources w) env1 Manager.loop_start w
               = ({| Manager.last_picam_preset := Some (picam_preset st);
                     Manager.picam_running := true |},
                  Manager.with_cameras
                    (snd (PiCam.start Manager.picam (picam_preset st)
                            (Manager.launching env1) (Manager.cameras w))) w)).
  { unfold Manager.manage_picam. rewrite Hg, Hs. reflexivity. }
  assert (E1 : v1 = {| Manager.last_picam_preset := Some (picam_preset st);
                       Manager.picam_running := true |}).
  { unfold v1, Manager.cycle. rewrite M1.
    destruct (Manager.distribute _ env1 _) as [wx logx]. reflexivity. }
  assert (C1 : Manager.cameras w1
               = snd (PiCam.start Manager.picam (picam_preset st) (Manager.launching env1)
                        (Manager.cameras w))).
  { unfold w1. rewrite cameras_cycle, M1. reflexivity. }
  destruct (cycle_groups env1 Manager.loop_start w) as [G1 P1]. fold w1 in G1, P1.
  destruct (P1 first st Hs) as (st1 & Hs1 & Hp1).
  assert (M2 : Manager.manage_picam (Manager._get_active_sources w1) env2 v1 w1 = (v1, w1)).
  { unfold Manager.manage_picam. rewrite G1, Hg, Hs1, E1. cbn [Manager.picam_running
      Manager.last_picam_preset negb]. rewrite Hp1, same_preset_refl. reflexivity. }
  assert (E2 : v2 = v1).
  { unfold v2, Manager.cycle. rewrite M2.
    destruct (Manager.distribute _ env2 _) as [wx logx]. reflexivity. }
  assert (C2 : Manager.cameras w2 = Manager.cameras w1).
  { unfold w2. rewrite cameras_cycle, M2. reflexivity. }
  split; [exact E1|]. split; [exact C1|]. split; [exact E2|]. split; [exact C2|].
  intros Hpo Ha Hp.
  assert (S0 : PiCam.start Manager.picam (picam_preset st) PiCam.PopenRaises (Manager.cameras w)
               = (false, Manager.cameras w)).
  { unfold PiCam.start, PiCam.stop_other_active. rewrite Ha, Hp.
    unfold PiCam.launch.
    destruct (PiCam._available_command
                (PiCam.instances (Manager.cameras w) Manager.picam)); reflexivity. }
  rewrite C2, C1, Hpo, S0. split; reflexivity.
Qed.

Lemma camera_start_is_not_retried_witness :
  let w0 := Manager.with_cameras Samples.camera_world Samples.two_streams in
  let failing := {| Manager.kinect_read := fun _ => Kinect.ReadNone;
                    Manager.launching := PiCam.PopenRaises;
                    Manager.stamp := fun _ => 5%Q |} in
  let first := Manager.cycle (F := Samples.decimal_runtime) (C := Samples.sample_codec)
                 failing Manager.loop_start w0 in
  let second := Manager.cycle (F := Samples.decimal_runtime) (C := Samples.sample_codec)
                  Samples.good_cycle (fst (fst first)) (snd (fst first)) in
  Config.dict_get (Manager._get_active_sources w0) "picam" = Some ["secondary"%string]
  /\ Manager.get_stream w0 "secondary" = Some (Samples.stream_on "secondary" "picam")
  /\ Manager.cameras (snd (fst second)) = Samples.camera_world.
Proof.
  intros w0 failing first second.
  split; [reflexivity|]. split; [reflexivity|].
  exact (proj1 (proj2 (proj2 (proj2 (proj2
           (camera_start_is_not_retried Samples.decimal_runtime Samples.sample_codec
              failing Samples.good_cycle w0
              "secondary" [] (Samples.stream_on "secondary" "picam")
              eq_refl eq_refl)))) eq_refl eq_refl eq_refl)).
Defined.

(** ** The service monitor *)

Section ThrottleFacts.
Import ServiceMonitor.

Lemma flag_test (v bit : Z) :
  0 <= bit -> (Z.land v (Z.shiftl 1 bit) =? 0) = negb (Z.testbit v bit).
Proof.
  intros Hb. rewrite Z.shiftl_1_l.
  destruct (Z.testbit v bit) eqn:T; simpl.
  - apply Z.eqb_neq. intros H.
    assert (E : Z.testbit (Z.land v (2 ^ bit)) bit = true).
    { rewrite Z.land_spec, T, Z.pow2_bits_true by lia. reflexivity. }
    rewrite H, Z.bits_0 in E. discriminate E.
  - apply Z.eqb_eq. apply Z.bits_inj'. intros n Hn.
    rewrite Z.land_spec, Z.bits_0.
    destruct (Z.eq_dec n bit) as [->|Hne].
    + rewrite T. reflexivity.
    + rewrite Z.pow2_bits_false by lia. apply andb_false_r.
Qed.

Lemma fold_flags (v : Z) (flags : list (Z * string)) :
  forall acc : list string,
    Forall (fun e => 0 <= fst e) flags ->
    fold_left
      (fun issues entry =>
         if Z.land v (Z.shiftl 1 (fst entry)) =? 0 then issues
         else issues ++ [snd entry]) flags acc
    = acc ++ map snd (filter (fun e => Z.testbit v (fst e)) flags).
Proof.
  induction flags as [|e flags IH]; intros acc H; simpl.
  - rewrite app_nil_r. reflexivity.
  - inversion H as [|? ? He Hrest]; subst.
    rewrite (flag_test v (fst e) He), (IH _ Hrest).
    destruct (Z.testbit v (fst e)); simpl; [rewrite <- app_assoc|]; reflexivity.
Qed.

Lemma unique_value (l : list (Z * string)) (a b : Z) (m : string) :
  NoDup (map snd l) -> In (a, m) l -> In (b, m) l -> a = b.
Proof.
  induction l as [|[k x] l IH]; simpl; intros Hn Ha Hb; [contradiction|].
  inversion Hn as [|? ? Hx Hl]; subst.
  destruct Ha as [Ha|Ha], Hb as [Hb|Hb].
  - congruence.
  - injection Ha as -> ->. exfalso. apply Hx. apply (in_map snd) in Hb. exact Hb.
  - injection Hb as -> ->. exfalso. apply Hx. apply (in_map snd) in Ha. exact Ha.
  - exact (IH Hl Ha Hb).
Qed.

Lemma messages_distinct : NoDup (map snd THROTTLE_FLAGS).
Proof.
  simpl. repeat (constructor; [simpl; intuition discriminate|]). constructor.
Qed.

End ThrottleFacts.

(** X23: the decoded throttle status reports a message exactly when its bit
    is set in the value, in the order of the table, and nothing else: bits
    that are not in the table are ignored, and the value 0 gives no
    message. *)
Theorem decode_throttle_status_reads_bits :
  forall v : Z,
    ServiceMonitor.decode_throttle_status (Some v)
    = map snd (filter (fun e => Z.testbit v (fst e)) ServiceMonitor.THROTTLE_FLAGS)
    /\ (forall bit message,
           In (bit, message) ServiceMonitor.THROTTLE_FLAGS ->
           (In message (ServiceMonitor.decode_throttle_status (Some v))
            <-> Z.testbit v bit = true))
    /\ (length (ServiceMonitor.decode_throttle_status (Some v)) <= 8)%nat
    /\ ServiceMonitor.decode_throttle_status (Some (Z.land v (Z.lor 15 (Z.shiftl 15 16))))
       = ServiceMonitor.decode_throttle_status (Some v).
Proof.
  intros v.
  assert (E : forall x,
             ServiceMonitor.decode_throttle_status (Some x)
             = map snd (filter (fun e => Z.testbit x (fst e)) ServiceMonitor.THROTTLE_FLAGS)).
  { intros x. unfold ServiceMonitor.decode_throttle_status.
    destruct (x =? 0) eqn:Z0.
    - apply Z.eqb_eq in Z0. subst x. reflexivity.
    - rewrite fold_flags; [reflexivity|].
      repeat constructor; simpl; lia. }
  split; [apply E|]. split.
  { intros bit message Hin. rewrite E. split.
    - intros Hm. apply in_map_iff in Hm as ([b m] & Hm & Hf). simpl in Hm. subst m.
      apply filter_In in Hf as [Hf Ht]. simpl in Ht.
      rewrite <- (unique_value _ _ _ _ messages_distinct Hf Hin). exact Ht.
    - intros Ht. apply in_map_iff. exists (bit, message). split; [reflexivity|].
      apply filter_In. split; [exact Hin | exact Ht]. }
  split.
  { rewrite E, length_map. etransitivity; [apply filter_length_le | simpl; lia]. }
  rewrite !E. f_equal. apply filter_ext_in. intros [b m] Hin. simpl.
  rewrite Z.land_spec.
  simpl in Hin.
  repeat (destruct Hin as [Hin|Hin];
          [injection Hin as <- <-; destruct (Z.testbit v _); reflexivity|]).
  contradiction.
Qed.

(** ** What the control channels may touch *)

Section TouchFacts.
Import Touch.

Lemma only_stream_refl (t : string) (w : Manager.world) : only_stream t w w.
Proof. repeat split. Qed.

Lemma only_stream_on_stream (t : string) (f : StreamState -> StreamState)
      (w : Manager.world) :
  only_stream t w (Manager.on_stream t f w).
Proof.
  split; [apply list_streams_on_stream|]. repeat (split; [reflexivity|]).
  intros other Ho. rewrite get_stream_on_stream.
  apply String.eqb_neq in Ho. rewrite Ho. reflexivity.
Qed.

Lemma only_stream_trans (t : string) (w1 w2 w3 : Manager.world) :
  only_stream t w1 w2 -> only_stream t w2 w3 -> only_stream t w1 w3.
Proof.
  intros (A1 & A2 & A3 & A4 & A5 & A6 & A7) (B1 & B2 & B3 & B4 & B5 & B6 & B7).
  repeat split; try congruence.
  intros other Ho. rewrite (B7 other Ho). apply A7. exact Ho.
Qed.

Lemma only_stream_weaken (t : string) (w w' : Manager.world) :
  only_stream t w w' -> only_streams w w'.
Proof. intros (A1 & A2 & A3 & A4 & A5 & A6 & _). repeat split; assumption. Qed.

Lemma only_streams_trans (w1 w2 w3 : Manager.world) :
  only_streams w1 w2 -> only_streams w2 w3 -> only_streams w1 w3.
Proof.
  intros (A1 & A2 & A3 & A4 & A5 & A6) (B1 & B2 & B3 & B4 & B5 & B6).
  repeat split; congruence.
Qed.

Lemma switch_source_touch (id source : string) (w : Manager.world) :
  only_stream id w (snd (Manager.switch_source id source w)).
Proof.
  unfold Manager.switch_source. destruct (Manager.get_stream w id);
    [|apply only_stream_refl].
  destruct (negb (str_in source (Config.get_available_sources (Manager.flags w)))).
  - destruct (str_in source Config.KINECT_SOURCES); apply only_stream_refl.
  - apply only_stream_on_stream.
Qed.

End TouchFacts.

Section SwitchTouch.
Import Touch HttpServer.
Context {F : FloatBuiltins}.

Lemma apply_source_touch (t : string) (params : list (string * string))
      (parts : list string) (w : Manager.world) :
  only_stream t w (snd (apply_source t params parts w)).
Proof.
  unfold apply_source. destruct (String.eqb (param params "source") EmptyString);
    [apply only_stream_refl|].
  pose proof (switch_source_touch t (param params "source") w) as H.
  destruct (Manager.switch_source t (param params "source") w) as [[ok msg] w'].
  destruct ok; exact H.
Qed.

Lemma apply_quality_touch (t : string) (params : list (string * string))
      (parts : list string) (w : Manager.world) :
  only_stream t w (snd (apply_quality t params parts w)).
Proof.
  unfold apply_quality. destruct (String.eqb (param params "quality") EmptyString);
    [apply only_stream_refl|].
  destruct (int_of_str (param params "quality")) as [q|]; [|apply only_stream_refl].
  destruct ((1 <=? q) && (q <=? 100)); [apply only_stream_on_stream | apply only_stream_refl].
Qed.

Lemma apply_scale_touch (t : string) (params : list (string * string))
      (parts : list string) (w : Manager.world) :
  only_stream t w (snd (apply_scale t params parts w)).
Proof.
  unfold apply_scale. destruct (String.eqb (param params "scale") EmptyString);
    [apply only_stream_refl|].
  destruct (float_of_str (param params "scale")) as [x|]; [|apply only_stream_refl].
  destruct (flt_le (Finite 0.25) x && flt_le x (Finite 2.0));
    [apply only_stream_on_stream | apply only_stream_refl].
Qed.

Lemma apply_picam_res_touch (t : string) (params : list (string * string))
      (parts : list string) (w : Manager.world) :
  only_stream t w (snd (apply_picam_res t params parts w)).
Proof.
  unfold apply_picam_res. destruct (String.eqb (param params "picam_res") EmptyString);
    [apply only_stream_refl|].
  destruct (str_in (param params "picam_res") (map fst Config.PICAM_PRESETS));
    [apply only_stream_on_stream | apply only_stream_refl].
Qed.

Lemma finish_touch (t : string) (parts : list string) (w : Manager.world) :
  snd (finish t parts w) = w.
Proof. unfold finish. destruct parts; reflexivity. Qed.

Lemma apply_params_touch (t : string) (params : list (string * string))
      (w : Manager.world) :
  only_stream t w (snd (run (apply_params t params) w)).
Proof.
  unfold run, apply_params, bind.
  pose proof (apply_source_touch t params [] w) as H1.
  destruct (apply_source t params [] w) as [[r1|p1] w1]; [exact H1|]. cbn [snd] in H1.
  pose proof (apply_quality_touch t params p1 w1) as H2.
  destruct (apply_quality t params p1 w1) as [[r2|p2] w2];
    [exact (only_stream_trans _ _ _ _ H1 H2)|]. cbn [snd] in H2.
  pose proof (apply_scale_touch t params p2 w2) as H3.
  destruct (apply_scale t params p2 w2) as [[r3|p3] w3];
    [exact (only_stream_trans _ _ _ _ H1 (only_stream_trans _ _ _ _ H2 H3))|].
  cbn [snd] in H3.
  pose proof (apply_picam_res_touch t params p3 w3) as H4.
  destruct (apply_picam_res t params p3 w3) as [[r4|p4] w4];
    [exact (only_stream_trans _ _ _ _ H1
              (only_stream_trans _ _ _ _ H2 (only_stream_trans _ _ _ _ H3 H4)))|].
  cbn [snd] in H4.
  pose proof (finish_touch t p4 w4) as H5.
  destruct (finish t p4 w4) as [[r5|[]] w5]. cbn [snd] in H5. subst w5.
  exact (only_stream_trans _ _ _ _ H1
           (only_stream_trans _ _ _ _ H2 (only_stream_trans _ _ _ _ H3 H4))).
Qed.

End SwitchTouch.

(** X24: a [/switch] request touches one stream at most.  Whatever the path
    and whatever the answer, it leaves the list of streams, the flags, the
    Kinect, the cameras and the running flags as they are, and every stream
    but its target (the [stream] field, or the stream of the port) exactly
    as it was; without a query, with a query that cannot be parsed, or for a
    target that is not registered (answer 404), it changes nothing at all. *)
Theorem handle_switch_touches_target_only :
  forall (F : FloatBuiltins) (stream_id path : string) (w : Manager.world),
    let w' := snd (HttpServer.handle_switch stream_id path w) in
    let query := nth 1 (split_on "?" path) EmptyString in
    let target params :=
      match Config.dict_get params "stream" with
      | Some v => v
      | None => stream_id
      end in
    Touch.only_streams w w'
    /\ (forall params,
           HttpServer.parse_query query = Some params ->
           Touch.only_stream (target params) w w')
    /\ (contains "?" path = false ->
        HttpServer.handle_switch stream_id path w
        = (HttpServer.Responded
             {| HttpServer.code := 400;
                HttpServer.body := ("ERROR: Missing parameters" ++ HttpServer.nl)%string |},
           w))
    /\ (contains "?" path = true -> HttpServer.parse_query query = None ->
        HttpServer.handle_switch stream_id path w = (HttpServer.Raised, w))
    /\ (forall params,
           contains "?" path = true ->
           HttpServer.parse_query query = Some params ->
           Manager.get_stream w (target params) = None ->
           HttpServer.handle_switch stream_id path w
           = (HttpServer.Responded
                {| HttpServer.code := 404;
                   HttpServer.body :=
                     ("ERROR: Stream " ++ HttpServer.dq ++ target params
                        ++ HttpServer.dq ++ " not found" ++ HttpServer.nl)%string |}, w)).
Proof.
  intros F stream_id path w w' query target. unfold w', HttpServer.handle_switch.
  fold query.
  destruct (contains "?" path) eqn:Q; cbn [negb].
  2:{ split; [apply (only_stream_weaken stream_id), only_stream_refl|].
      split; [intros params _; apply only_stream_refl|].
      split; [reflexivity|]. split; [discriminate|]. intros params H. discriminate H. }
  destruct (HttpServer.parse_query query) as [params|] eqn:P.
  2:{ split; [apply (only_stream_weaken stream_id), only_stream_refl|].
      split; [intros params H; discriminate H|].
      split; [discriminate|]. split; [reflexivity|]. intros params _ H. discriminate H. }
  fold (target params).
  destruct (Manager.get_stream w (target params)) as [st|] eqn:G.
  - pose proof (apply_params_touch (target params) params w) as T.
    split; [exact (only_stream_weaken _ _ _ T)|].
    split; [intros params' H; injection H as <-; exact T|].
    split; [discriminate|]. split; [discriminate|].
    intros params' _ H. injection H as <-. congruence.
  - split; [apply (only_stream_weaken stream_id), only_stream_refl|].
    split; [intros params' H; injection H as <-; apply only_stream_refl|].
    split; [discriminate|]. split; [discriminate|].
    intros params' _ H _. injection H as <-. reflexivity.
Qed.

Section ControlTouch.
Import Touch ControlServer.
Context {F : FloatBuiltins}.

Lemma do_quality_touch (args : list string) (sel : string) (w : Manager.world) :
  only_stream sel w (snd (do_quality args sel w))
  /\ selected (fst (do_quality args sel w)) = sel.
Proof.
  unfold do_quality. destruct (Manager.get_stream w sel);
    [|split; [apply only_stream_refl | reflexivity]].
  destruct args as [|arg args]; [split; [apply only_stream_refl | reflexivity]|].
  destruct (int_of_str arg) as [q|]; [|split; [apply only_stream_refl | reflexivity]].
  destruct ((1 <=? q) && (q <=? 100));
    (split; [first [apply only_stream_on_stream | apply only_stream_refl] | reflexivity]).
Qed.

Lemma do_scale_touch (args : list string) (sel : string) (w : Manager.world) :
  only_stream sel w (snd (do_scale args sel w))
  /\ selected (fst (do_scale args sel w)) = sel.
Proof.
  unfold do_scale. destruct (Manager.get_stream w sel);
    [|split; [apply only_stream_refl | reflexivity]].
  destruct args as [|arg args]; [split; [apply only_stream_refl | reflexivity]|].
  destruct (float_of_str arg) as [x|]; [|split; [apply only_stream_refl | reflexivity]].
  destruct (flt_le (Finite 0.25) x && flt_le x (Finite 2.0));
    [|split; [apply only_stream_refl | reflexivity]].
  destruct (int_of_product Config.KINECT_WIDTH x);
    [destruct (int_of_product Config.KINECT_HEIGHT x)|];
    (split; [apply only_stream_on_stream | reflexivity]).
Qed.

Lemma do_picam_res_touch (args : list string) (sel : string) (w : Manager.world) :
  only_stream sel w (snd (do_picam_res args sel w))
  /\ selected (fst (do_picam_res args sel w)) = sel.
Proof.
  unfold do_picam_res. destruct (Manager.get_stream w sel);
    [|split; [apply only_stream_refl | reflexivity]].
  destruct args as [|arg args]; [split; [apply only_stream_refl | reflexivity]|].
  cbv zeta. destruct (Config.dict_get Config.PICAM_PRESETS (lower arg));
    (split; [first [apply only_stream_on_stream | apply only_stream_refl] | reflexivity]).
Qed.

Lemma do_status_touch (args : list string) (sel : string) (w : Manager.world) :
  snd (do_status args sel w) = w
  /\ selected (fst (do_status args sel w)) = sel.
Proof.
  unfold do_status.
  destruct (match args with
            | [] => false
            | arg :: _ => String.eqb (lower arg) "all"
            end).
  - destruct (Manager.get_status w); split; reflexivity.
  - destruct (Manager.get_stream w sel) as [st|]; [|split; reflexivity].
    cbv zeta. destruct (Manager.resolution_of (get_settings st)); split; reflexivity.
Qed.

(** One command: only the selected stream may change, and the selection
    stays or moves to a registered stream. *)
Lemma handle_command_touch (data sel : string) (w : Manager.world) :
  only_stream sel w (snd (handle_command data sel w))
  /\ (selected (fst (handle_command data sel w)) = sel
      \/ exists st,
           Manager.get_stream w (selected (fst (handle_command data sel w))) = Some st).
Proof.
  unfold handle_command. cbv zeta.
  destruct (split (strip data)) as [|first args];
    [split; [apply only_stream_refl | left; reflexivity]|].
  destruct (String.eqb (lower first) "streams");
    [split; [apply only_stream_refl | left; reflexivity]|].
  destruct (String.eqb (lower first) "select").
  { destruct args as [|target args]; [split; [apply only_stream_refl | left; reflexivity]|].
    destruct (Manager.get_stream w target) as [st|] eqn:G.
    - split; [apply only_stream_refl | right; exists st; exact G].
    - split; [apply only_stream_refl | left; reflexivity]. }
  destruct (str_in (lower first) (Config.get_available_sources (Manager.flags w))).
  { pose proof (switch_source_touch sel (lower first) w) as H.
    destruct (Manager.switch_source sel (lower first) w) as [[ok msg] w'].
    destruct ok; (split; [exact H | left; reflexivity]). }
  cbn [negb andb].
  destruct (str_in (lower first) Config.KINECT_SOURCES && true);
    [split; [apply only_stream_refl | left; reflexivity]|].
  destruct (String.eqb (lower first) "quality").
  { destruct (do_quality_touch args sel w) as [H1 H2]. split; [exact H1 | left; exact H2]. }
  destruct (String.eqb (lower first) "scale").
  { destruct (do_scale_touch args sel w) as [H1 H2]. split; [exact H1 | left; exact H2]. }
  destruct (String.eqb (lower first) "picam_res").
  { destruct (do_picam_res_touch args sel w) as [H1 H2]. split; [exact H1 | left; exact H2]. }
  destruct (String.eqb (lower first) "status").
  { destruct (do_status_touch args sel w) as [H1 H2]. rewrite H1.
    split; [apply only_stream_refl | left; exact H2]. }
  destruct (String.eqb (lower first) "help");
    [split; [apply only_stream_refl | left; reflexivity]|].
  destruct (str_in (lower first) ["quit"; "exit"; "q"]%string);
    split; first [apply only_stream_refl | left; reflexivity].
Qed.

Lemma registered_after (t : string) (w w' : Manager.world) (id : string) :
  only_streams w w' -> In id (Manager.list_streams w) -> In id (Manager.list_streams w').
Proof. intros (H & _) Hin. rewrite H. exact Hin. Qed.

Lemma session_touch (inputs : list string) :
  forall (sel : string) (w : Manager.world),
    only_streams w (snd (session inputs sel w))
    /\ (snd (fst (session inputs sel w)) = sel
        \/ In (snd (fst (session inputs sel w))) (Manager.list_streams w)).
Proof.
  induction inputs as [|data rest IH]; intros sel w.
  - split; [apply (only_stream_weaken sel), only_stream_refl | left; reflexivity].
  - cbn [session].
    destruct (negb (running (Manager.state w)));
      [split; [apply (only_stream_weaken sel), only_stream_refl | left; reflexivity]|].
    destruct (String.eqb data EmptyString);
      [split; [apply (only_stream_weaken sel), only_stream_refl | left; reflexivity]|].
    destruct (handle_command_touch data sel w) as [H1 H2].
    destruct (handle_command data sel w) as [r w1]. cbn [fst snd] in H1, H2.
    assert (Hsel : selected r = sel \/ In (selected r) (Manager.list_streams w)).
    { destruct H2 as [H2|[st H2]]; [left; exact H2|].
      right. eapply registered_is_listed, H2. }
    destruct (then_ r).
    + specialize (IH (selected r) w1).
      destruct (session rest (selected r) w1) as [[out sel'] w2]. cbn [fst snd] in *.
      destruct IH as [I1 I2].
      split; [exact (only_streams_trans _ _ _ (only_stream_weaken _ _ _ H1) I1)|].
      destruct I2 as [->|I2]; [exact Hsel|].
      right. destruct H1 as (L & _). rewrite <- L. exact I2.
    + cbn [fst snd]. split; [exact (only_stream_weaken _ _ _ H1) | exact Hsel].
Qed.

End ControlTouch.

(** X25: a control command touches the selected stream at most.  Whatever
    the client sends, one command leaves every stream but the selected one
    exactly as it was, and a whole session never adds or removes a stream
    nor touches the flags, the Kinect, the cameras or the running flags; the
    stream selected at its end is the one selected at its start or a
    registered one. *)
Theorem control_command_touches_selected_only :
  forall (F : FloatBuiltins) (w : Manager.world) (selected_stream : string),
    (forall data : string,
        Touch.only_stream selected_stream w
          (snd (ControlServer.handle_command data selected_stream w))
        /\ (ControlServer.selected (fst (ControlServer.handle_command data selected_stream w))
            = selected_stream
            \/ In (ControlServer.selected
                     (fst (ControlServer.handle_command data selected_stream w)))
                  (Manager.list_streams w)))
    /\ (forall inputs : list string,
           Touch.only_streams w (snd (ControlServer.session inputs selected_stream w))
           /\ (snd (fst (ControlServer.session inputs selected_stream w)) = selected_stream
               \/ In (snd (fst (ControlServer.session inputs selected_stream w)))
                     (Manager.list_streams w))).
Proof.
  intros F w sel. split.
  - intros data. destruct (handle_command_touch data sel w) as [H1 H2].
    split; [exact H1|]. destruct H2 as [H2|[st H2]]; [left; exact H2|].
    right. eapply registered_is_listed, H2.
  - intros inputs. apply session_touch.
Qed.

Section PromptFacts.
Import Touch ControlServer.
Context {F : FloatBuiltins}.

Lemma append_assoc (a b c : string) : ((a ++ b) ++ c = a ++ (b ++ c))%string.
Proof. induction a as [|x a IH]; simpl; [reflexivity | rewrite IH; reflexivity]. Qed.

Lemma prompted_prompt : prompted prompt.
Proof. exists EmptyString. reflexivity. Qed.

Lemma prompted_app (a b : string) : prompted b -> prompted (a ++ b).
Proof. intros [t ->]. exists (a ++ t)%string. symmetry. apply append_assoc. Qed.

Lemma ends_single (s : string) : prompted s -> ends_with_prompt [s].
Proof. intros H. exists [], s. split; [reflexivity | exact H]. Qed.

Lemma ends_cons (x : string) (l : list string) :
  ends_with_prompt l -> ends_with_prompt (x :: l).
Proof. intros (b & s & -> & H). exists (x :: b), s. split; [reflexivity | exact H]. Qed.

Lemma ends_app (l1 l2 : list string) :
  ends_with_prompt l2 -> ends_with_prompt (l1 ++ l2).
Proof.
  intros (b & s & -> & H). exists (l1 ++ b), s. split; [apply app_assoc | exact H].
Qed.

Ltac prompt :=
  repeat first
    [ exact prompted_prompt
    | apply ends_single
    | apply ends_cons
    | apply ends_app
    | apply prompted_app ].

Lemma not_found_prompt (sel : string) : ends_with_prompt (sent (not_found sel)).
Proof. unfold not_found, say. cbn [sent]. prompt. Qed.

Lemma help_prompt (w : Manager.world) : ends_with_prompt (help_text w).
Proof. unfold help_text. prompt. Qed.

Lemma do_quality_prompt (args : list string) (sel : string) (w : Manager.world) :
  ends_with_prompt (sent (fst (do_quality args sel w))).
Proof.
  unfold do_quality. destruct (Manager.get_stream w sel); [|apply not_found_prompt].
  destruct args as [|arg args]; [unfold say; cbn [fst sent]; prompt|].
  destruct (int_of_str arg) as [q|]; [|unfold say; cbn [fst sent]; prompt].
  destruct ((1 <=? q) && (q <=? 100)); unfold say; cbn [fst sent]; prompt.
Qed.

Lemma do_picam_res_prompt (args : list string) (sel : string) (w : Manager.world) :
  ends_with_prompt (sent (fst (do_picam_res args sel w))).
Proof.
  unfold do_picam_res. destruct (Manager.get_stream w sel); [|apply not_found_prompt].
  destruct args as [|arg args]; [unfold say; cbn [fst sent]; prompt|].
  cbv zeta. destruct (Config.dict_get Config.PICAM_PRESETS (lower arg));
    unfold say; cbn [fst sent]; prompt.
Qed.

Lemma do_scale_prompt (args : list string) (sel : string) (w : Manager.world) :
  then_ (fst (do_scale args sel w)) = Close
  \/ ends_with_prompt (sent (fst (do_scale args sel w))).
Proof.
  unfold do_scale. destruct (Manager.get_stream w sel); [|right; apply not_found_prompt].
  destruct args as [|arg args]; [right; unfold say; cbn [fst sent]; prompt|].
  destruct (float_of_str arg) as [x|]; [|right; unfold say; cbn [fst sent]; prompt].
  destruct (flt_le (Finite 0.25) x && flt_le x (Finite 2.0));
    [|right; unfold say; cbn [fst sent]; prompt].
  cbv zeta.
  destruct (int_of_product Config.KINECT_WIDTH x);
    [destruct (int_of_product Config.KINECT_HEIGHT x)|];
    [right; unfold say; cbn [fst sent]; prompt | left; reflexivity | left; reflexivity].
Qed.

Lemma do_status_prompt (args : list string) (sel : string) (w : Manager.world) :
  then_ (fst (do_status args sel w)) = Close
  \/ ends_with_prompt (sent (fst (do_status args sel w))).
Proof.
  unfold do_status.
  destruct (match args with
            | [] => false
            | arg :: _ => String.eqb (lower arg) "all"
            end).
  - destruct (Manager.get_status w); [|left; reflexivity].
    right. unfold say. cbn [fst sent]. prompt.
  - destruct (Manager.get_stream w sel) as [st|]; [|right; apply not_found_prompt].
    cbv zeta. destruct (Manager.resolution_of (get_settings st)); [|left; reflexivity].
    right. unfold say. cbn [fst sent]. prompt.
Qed.

Lemma handle_command_prompt (data sel : string) (w : Manager.world) :
  then_ (fst (handle_command data sel w)) = Close
  \/ ends_with_prompt (sent (fst (handle_command data sel w))).
Proof.
  unfold handle_command. cbv zeta.
  destruct (split (strip data)) as [|first args];
    [right; unfold say; cbn [fst sent]; prompt|].
  destruct (String.eqb (lower first) "streams");
    [right; unfold say; cbn [fst sent]; prompt|].
  destruct (String.eqb (lower first) "select").
  { right. destruct args as [|target args]; [unfold say; cbn [fst sent]; prompt|].
    destruct (Manager.get_stream w target); unfold say; cbn [fst sent]; prompt. }
  destruct (str_in (lower first) (Config.get_available_sources (Manager.flags w))).
  { right. destruct (Manager.switch_source sel (lower first) w) as [[ok msg] w'].
    destruct ok; unfold say; cbn [fst sent]; prompt. }
  cbn [negb andb].
  destruct (str_in (lower first) Config.KINECT_SOURCES && true);
    [right; unfold say; cbn [fst sent]; prompt|].
  destruct (String.eqb (lower first) "quality"); [right; apply do_quality_prompt|].
  destruct (String.eqb (lower first) "scale"); [apply do_scale_prompt|].
  destruct (String.eqb (lower first) "picam_res"); [right; apply do_picam_res_prompt|].
  destruct (String.eqb (lower first) "status"); [apply do_status_prompt|].
  destruct (String.eqb (lower first) "help"); [right; cbn [fst sent say]; apply help_prompt|].
  destruct (str_in (lower first) ["quit"; "exit"; "q"]%string); [left; reflexivity|].
  right. unfold say. cbn [fst sent]. prompt.
Qed.

Lemma welcome_prompt (w : Manager.world) : ends_with_prompt (welcome w).
Proof. unfold welcome. prompt. Qed.

End PromptFacts.

(** X26: the control server always hands the turn back.  The welcome ends
    with the prompt, and whatever line a client sends, the reply either
    closes the connection or ends with the prompt, so a client that reads
    up to the prompt never waits for more.  [quit], [exit] and [q], also
    written [QUIT] or [Exit], say goodbye and close, and change nothing. *)
Theorem control_replies_end_with_prompt :
  forall (F : FloatBuiltins) (w : Manager.world) (selected_stream data : string),
    Touch.ends_with_prompt (ControlServer.welcome w)
    /\ (ControlServer.then_ (fst (ControlServer.handle_command data selected_stream w))
        = ControlServer.Close
        \/ Touch.ends_with_prompt
             (ControlServer.sent (fst (ControlServer.handle_command data selected_stream w))))
    /\ (forall word,
           In word ["quit"; "exit"; "q"; "QUIT"; "Exit"]%string ->
           ControlServer.handle_command (word ++ ControlServer.nl) selected_stream w
           = ({| ControlServer.sent := [("Goodbye!" ++ ControlServer.nl)%string];
                 ControlServer.then_ := ControlServer.Close;
                 ControlServer.selected := selected_stream |}, w)).
Proof.
  intros F w sel data.
  split; [apply welcome_prompt|]. split; [apply handle_command_prompt|].
  intros word Hin. simpl in Hin.
  assert (Hq : forall c, str_in "quit" (Config.get_available_sources c) = false
                         /\ str_in "exit" (Config.get_available_sources c) = false
                         /\ str_in "q" (Config.get_available_sources c) = false).
  { intros c. unfold Config.get_available_sources.
    destruct (Config.KINECT_AVAILABLE c); repeat split. }
  destruct (Hq (Manager.flags w)) as (Q1 & Q2 & Q3).
  assert (Hcase : forall wd l : string,
             split (strip (wd ++ ControlServer.nl)) = [wd] ->
             lower wd = l ->
             str_in l (Config.get_available_sources (Manager.flags w)) = false ->
             String.eqb l "streams" = false -> String.eqb l "select" = false ->
             str_in l Config.KINECT_SOURCES = false ->
             String.eqb l "quality" = false -> String.eqb l "scale" = false ->
             String.eqb l "picam_res" = false -> String.eqb l "status" = false ->
             String.eqb l "help" = false ->
             str_in l ["quit"; "exit"; "q"]%string = true ->
             ControlServer.handle_command (wd ++ ControlServer.nl) sel w
             = ({| ControlServer.sent := [("Goodbye!" ++ ControlServer.nl)%string];
                   ControlServer.then_ := ControlServer.Close;
                   ControlServer.selected := sel |}, w)).
  { intros wd l E1 E2 E3 E4 E5 E6 E7 E8 E9 E10 E11 E12.
    unfold ControlServer.handle_command. cbv zeta.
    rewrite E1, E2, E4, E5, E3, E6. cbn [andb]. rewrite E7, E8, E9, E10, E11, E12.
    reflexivity. }
  destruct Hin as [<-|[<-|[<-|[<-|[<-|[]]]]]].
  - apply (Hcase "quit" "quit")%string; try reflexivity. exact Q1.
  - apply (Hcase "exit" "exit")%string; try reflexivity. exact Q2.
  - apply (Hcase "q" "q")%string; try reflexivity. exact Q3.
  - apply (Hcase "QUIT" "quit")%string; try reflexivity. exact Q1.
  - apply (Hcase "Exit" "exit")%string; try reflexivity. exact Q2.
Qed.

(** ** The query of a [/switch] request *)

Section QueryFacts.
Import HttpServer.

Lemma append_nil_r (s : string) : (s ++ EmptyString)%string = s.
Proof. induction s as [|c s IH]; simpl; [reflexivity | rewrite IH; reflexivity]. Qed.

Lemma append_snoc (a : string) (c : ascii) (b : string) :
  ((a ++ String c EmptyString) ++ b)%string = (a ++ String c b)%string.
Proof. induction a as [|x a IH]; simpl; [reflexivity | rewrite IH; reflexivity]. Qed.

Lemma split_no_separator (sep : ascii) (t : string) :
  forall cur : string,
    contains sep t = false -> split_on_from sep cur t = [(cur ++ t)%string].
Proof.
  induction t as [|c t IH]; intros cur H; simpl in *.
  - rewrite append_nil_r. reflexivity.
  - apply orb_false_iff in H as [H1 H2]. rewrite H1, (IH _ H2), append_snoc. reflexivity.
Qed.

Lemma split_last_piece (sep : ascii) (s t : string) :
  forall cur : string,
    contains sep t = false ->
    split_on_from sep cur (s ++ String sep t) = split_on_from sep cur s ++ [t].
Proof.
  induction s as [|c s IH]; intros cur H; simpl.
  - rewrite Ascii.eqb_refl, (split_no_separator sep t EmptyString H). reflexivity.
  - destruct (Ascii.eqb c sep); rewrite (IH _ H); reflexivity.
Qed.

Lemma parse_pieces_app (l1 l2 : list string) :
  forall acc : list (string * string),
    parse_pieces acc (l1 ++ l2)
    = match parse_pieces acc l1 with
      | Some acc' => parse_pieces acc' l2
      | None => None
      end.
Proof.
  induction l1 as [|p l1 IH]; intros acc; simpl; [reflexivity|].
  destruct (contains "=" p); [|apply IH].
  destruct (split_on "=" p) as [|k [|v [|x l]]]; try reflexivity. apply IH.
Qed.

Lemma dict_get_set (d : list (string * string)) (k v k' : string) :
  Config.dict_get (dict_set d k v) k'
  = if String.eqb k' k then Some v else Config.dict_get d k'.
Proof.
  induction d as [|[k0 v0] d IH]; simpl.
  - destruct (String.eqb k' k); reflexivity.
  - destruct (String.eqb k k0) eqn:E; simpl.
    + apply String.eqb_eq in E. subst k0.
      destruct (String.eqb k' k); reflexivity.
    + destruct (String.eqb k' k0) eqn:E2.
      * apply String.eqb_eq in E2. subst k0.
        rewrite String.eqb_sym in E. rewrite E. reflexivity.
      * exact IH.
Qed.

Lemma keys_dict_set (d : list (string * string)) (k v : string) :
  map fst (dict_set d k v)
  = if str_in k (map fst d) then map fst d else map fst d ++ [k].
Proof.
  induction d as [|[k0 v0] d IH]; simpl; [reflexivity|].
  destruct (String.eqb k k0) eqn:E; simpl; [reflexivity|].
  rewrite IH. destruct (str_in k (map fst d)); reflexivity.
Qed.

Lemma nodup_dict_set (d : list (string * string)) (k v : string) :
  NoDup (map fst d) -> NoDup (map fst (dict_set d k v)).
Proof.
  intros H. rewrite keys_dict_set. destruct (str_in k (map fst d)) eqn:E; [exact H|].
  apply NoDup_app; [exact H | constructor; [simpl; tauto | constructor] |].
  intros a Ha [<-|[]]. apply str_in_In in Ha. congruence.
Qed.

Lemma nodup_parse_pieces (pieces : list string) :
  forall acc params,
    NoDup (map fst acc) -> parse_pieces acc pieces = Some params ->
    NoDup (map fst params).
Proof.
  induction pieces as [|p pieces IH]; intros acc params Hn H; simpl in H.
  - injection H as <-. exact Hn.
  - destruct (contains "=" p); [|exact (IH _ _ Hn H)].
    destruct (split_on "=" p) as [|k [|v [|x l]]]; try discriminate H.
    exact (IH _ _ (nodup_dict_set acc k v Hn) H).
Qed.

Lemma split_field (k v : string) :
  contains "=" k = false -> contains "=" v = false ->
  contains "=" (k ++ String "=" v) = true
  /\ split_on "=" (k ++ String "=" v) = [k; v].
Proof.
  intros Hk Hv. split.
  - rewrite contains_app. simpl. apply orb_true_r.
  - unfold split_on. rewrite (split_last_piece "=" k v EmptyString Hv).
    rewrite (split_no_separator "=" k EmptyString Hk). reflexivity.
Qed.

End QueryFacts.

(** X27: the query is read as a dict.  Fields are taken in order, a later
    field with the same name replaces the earlier one, a piece without an
    equals sign is ignored, and a piece with two equals signs makes the
    parse raise; no name is listed twice. *)
Theorem parse_query_later_field_wins :
  forall (query : string) (params : list (string * string)) (k v : string),
    HttpServer.parse_query query = Some params ->
    contains "&" k = false -> contains "=" k = false ->
    contains "&" v = false -> contains "=" v = false ->
    HttpServer.parse_query (query ++ String "&" (k ++ String "=" v))
    = Some (HttpServer.dict_set params k v)
    /\ HttpServer.param (HttpServer.dict_set params k v) k = v
    /\ (forall k', k' <> k ->
                   HttpServer.param (HttpServer.dict_set params k v) k'
                   = HttpServer.param params k')
    /\ HttpServer.parse_query (query ++ String "&" k) = Some params
    /\ HttpServer.parse_query (query ++ String "&" (k ++ String "=" (v ++ String "=" v)))
       = None
    /\ NoDup (map fst params)
    /\ NoDup (map fst (HttpServer.dict_set params k v)).
Proof.
  intros query params k v P K1 K2 V1 V2.
  unfold HttpServer.parse_query in *. unfold split_on in *.
  assert (Hn : NoDup (map fst params)).
  { apply (nodup_parse_pieces _ [] params (NoDup_nil _) P). }
  destruct (split_field k v K2 V2) as [F1 F2].
  split.
  { rewrite (split_last_piece "&" query).
    - rewrite parse_pieces_app, P. simpl. rewrite F1, F2. reflexivity.
    - rewrite contains_app. simpl. rewrite K1, V1. reflexivity. }
  split.
  { unfold HttpServer.param. rewrite dict_get_set, String.eqb_refl. reflexivity. }
  split.
  { intros k' Hk'. unfold HttpServer.param. rewrite dict_get_set.
    apply String.eqb_neq in Hk'. rewrite Hk'. reflexivity. }
  split.
  { rewrite (split_last_piece "&" query _ _ K1), parse_pieces_app, P. simpl.
    rewrite K2. reflexivity. }
  split.
  { rewrite (split_last_piece "&" query).
    - rewrite parse_pieces_app, P. simpl.
      assert (E1 : contains "=" (k ++ String "=" (v ++ String "=" v)) = true).
      { rewrite contains_app. simpl. apply orb_true_r. }
      rewrite E1. unfold split_on.
      replace (k ++ String "=" (v ++ String "=" v))%string
        with ((k ++ String "=" v) ++ String "=" v)%string.
      + rewrite (split_last_piece "=" _ v EmptyString V2).
        fold (split_on "=" (k ++ String "=" v)). rewrite F2. reflexivity.
      + clear. induction k as [|c k IH]; simpl; [reflexivity | rewrite IH; reflexivity].
    - rewrite !contains_app. simpl. rewrite contains_app. simpl.
      rewrite K1, V1. reflexivity. }
  split; [exact Hn | apply nodup_dict_set; exact Hn].
Qed.

Lemma parse_query_later_field_wins_witness :
  HttpServer.parse_query "source=picam&quality=50"
  = Some [("source", "picam"); ("quality", "50")]%string
  /\ HttpServer.parse_query "source=picam&quality=50&quality=80"
     = Some [("source", "picam"); ("quality", "80")]%string.
Proof.
  split; [reflexivity|].
  exact (proj1 (parse_query_later_field_wins
                  "source=picam&quality=50"
                  [("source", "picam"); ("quality", "50")]%string
                  "quality" "80" eq_refl eq_refl eq_refl eq_refl eq_refl)).
Defined.

(** ** The start of the server *)

Section MainFacts.
Import Main.
Context {F : FloatBuiltins}.

Lemma given_available (c : Config.flags) (asked : string) :
  In (given c asked) (Config.get_available_sources c)
  /\ current_source (init "x" (Some (given c asked))) = given c asked.
Proof.
  assert (H : In (given c asked) (Config.get_available_sources c)).
  { unfold given. destruct (str_in asked (Config.get_available_sources c)) eqn:E.
    - apply str_in_In. exact E.
    - apply picam_always_available. }
  split; [exact H|]. simpl.
  pose proof (available_nonempty _ _ H) as Hne. apply String.eqb_neq in Hne.
  rewrite Hne. reflexivity.
Qed.

Lemma main_builds (a : args) (freenect : bool) (probe_init probe_check : Kinect.read)
      (cams : PiCam.world) :
  let c := probed freenect probe_check in
  let m := initial_source (main_source a)
             (if freenect then "kinect_rgb"%string else "picam"%string) freenect in
  let s := initial_source (secondary_source a) "picam" freenect in
  exists k,
    let built (up : bool) :=
      {| Manager.flags := c;
         Manager.state :=
           {| running := true; debug := debug_flag a;
              streams :=
                [ ("main"%string,
                   update_settings (settings a) (init "main" (Some (given c m))));
                  ("secondary"%string,
                   update_settings (settings a)
                                   (init "secondary" (Some (given c s)))) ] |};
         Manager.kinect := k;
         Manager.cameras := cams;
         Manager._running := up |} in
    main a freenect true probe_init probe_check cams
    = match get_resolution m (scale a) (picam_res a),
            get_resolution s (scale a) (picam_res a) with
      | Some mr, Some sr =>
          Starts {| announced_main := m; main_res := mr;
                    announced_secondary := s; secondary_res := sr;
                    world := built true |}
      | _, _ => Raises (built false)
      end.
Proof.
  destruct freenect, probe_init, probe_check; eexists; unfold main;
    cbn [negb]; cbv zeta;
    (destruct (get_resolution (initial_source (main_source a) _ _) _ _);
     [destruct (get_resolution (initial_source (secondary_source a) _ _) _ _)|]);
    reflexivity.
Qed.

(** The resolution of the Pi camera is that of the preset; the one of a
    Kinect source needs both products. *)
Lemma get_resolution_none (source preset : string) (x : pyfloat) :
  In preset (map fst Config.PICAM_PRESETS) ->
  (get_resolution source x preset = None
   <-> source <> "picam"%string
       /\ (int_of_product Config.KINECT_WIDTH x = None
           \/ int_of_product (Config.KINECT_WIDTH * 3 / 4) x = None)).
Proof.
  intros Hp. unfold get_resolution.
  destruct (String.eqb_spec source "picam") as [e|e].
  - assert (Hd : Config.dict_get Config.PICAM_PRESETS preset <> None).
    { simpl in Hp. destruct Hp as [<-|[<-|[<-|[<-|[]]]]]; discriminate. }
    destruct (Config.dict_get Config.PICAM_PRESETS preset); [|contradiction].
    split; [discriminate | intros [H _]; contradiction].
  - destruct (int_of_product Config.KINECT_WIDTH x);
      [destruct (int_of_product (Config.KINECT_WIDTH * 3 / 4) x)|].
    + split; [discriminate | intros [_ [H|H]]; discriminate H].
    + split; [intros _; split; [exact e | right; reflexivity] | reflexivity].
    + split; [intros _; split; [exact e | left; reflexivity] | reflexivity].
Qed.

End MainFacts.

(** X28: the start of the server.  With OpenCV present, sources among
    [ALL_SOURCES] and a preset among [PICAM_PRESETS], as the command line
    admits them, and whatever the Kinect did at the probes: [main]
    registers [main] and [secondary], in this order, each on a source
    available at that moment and with the quality of the command line
    clamped to 1..100, and leaves the capture thread stopped; it then
    computes the two resolutions of the banner.  When both can be computed
    it starts the capture thread; the source announced on the banner is the
    source of the stream unless the Kinect library is installed and the
    probe failed, in which case the banner names a Kinect source while the
    stream is on the Pi camera.  When one cannot be computed, which happens
    exactly when the announced source is a Kinect one and [int(...)] raises
    on the scale (a scale that is not a number, or infinite), [main] is left
    by the exception: the streams are registered and the capture thread is
    never started. *)
Theorem main_starts_streams_on_available_sources :
  forall (F : FloatBuiltins) (a : Main.args) (freenect : bool)
         (probe_init probe_check : Kinect.read) (cams : PiCam.world),
    (forall s, Main.main_source a = Some s -> In s Config.ALL_SOURCES) ->
    (forall s, Main.secondary_source a = Some s -> In s Config.ALL_SOURCES) ->
    In (Main.picam_res a) (map fst Config.PICAM_PRESETS) ->
    let m := Main.initial_source
               (Main.main_source a)
               (if freenect then "kinect_rgb"%string else "picam"%string) freenect in
    let s := Main.initial_source (Main.secondary_source a) "picam" freenect in
    let raising (source : string) :=
      source <> "picam"%string
      /\ (int_of_product Config.KINECT_WIDTH (Main.scale a) = None
          \/ int_of_product (Config.KINECT_WIDTH * 3 / 4) (Main.scale a) = None) in
    exists (w : Manager.world),
      Manager.list_streams w = ["main"; "secondary"]%string
      /\ Config.KINECT_AVAILABLE (Manager.flags w) = Main.live freenect probe_check
      /\ (forall id announced,
             (id = "main"%string /\ announced = m)
             \/ (id = "secondary"%string /\ announced = s) ->
             exists st,
               Manager.get_stream w id = Some st
               /\ In (current_source st)
                     (Config.get_available_sources (Manager.flags w))
               /\ jpeg_quality st = Z.max 1 (Z.min 100 (Main.quality a))
               /\ picam_preset st = Main.picam_res a
               /\ frame st = None
               /\ (current_source st = announced
                   \/ (current_source st = "picam"%string
                       /\ In announced Config.KINECT_SOURCES
                       /\ freenect = true
                       /\ Kinect.is_failure probe_check = true)))
      /\ (freenect = true -> Kinect.is_failure probe_check = true ->
          Main.main_source a = None ->
          m = "kinect_rgb"%string
          /\ option_map current_source (Manager.get_stream w "main")
             = Some "picam"%string)
      /\ (raising m \/ raising s ->
          Main.main a freenect true probe_init probe_check cams
          = Main.Raises (ManagerControl.set_running false w))
      /\ (~ raising m -> ~ raising s ->
          exists mr sr,
            Main.get_resolution m (Main.scale a) (Main.picam_res a) = Some mr
            /\ Main.get_resolution s (Main.scale a) (Main.picam_res a) = Some sr
            /\ Main.main a freenect true probe_init probe_check cams
               = Main.Starts {| Main.announced_main := m; Main.main_res := mr;
                                Main.announced_secondary := s; Main.secondary_res := sr;
                                Main.world := ManagerControl.set_running true w |}).
Proof.
  intros F a freenect probe_init probe_check cams Hm Hs Hp m s raising.
  destruct (main_builds a freenect probe_init probe_check cams) as [k E].
  cbv zeta in E. fold m s in E.
  set (c := Main.probed freenect probe_check) in *.
  eexists {| Manager.flags := c;
             Manager.state := {| running := true; debug := Main.debug_flag a;
                                 streams :=
                                   [ ("main"%string,
                                      update_settings (Main.settings a)
                                        (init "main" (Some (Main.given c m))));
                                     ("secondary"%string,
                                      update_settings (Main.settings a)
                                        (init "secondary"
                                              (Some (Main.given c s)))) ] |};
             Manager.kinect := k; Manager.cameras := cams; Manager._running := true |}.
  split; [reflexivity|]. split; [reflexivity|].
  assert (Hone : forall (sid : string) (asked : option string) (default : string),
             (forall s, asked = Some s -> In s Config.ALL_SOURCES) ->
             In default Config.ALL_SOURCES ->
             (freenect = false -> default = "picam"%string) ->
             let announced := Main.initial_source asked default freenect in
             let st := update_settings (Main.settings a)
                         (init sid (Some (Main.given c announced))) in
             In (current_source st) (Config.get_available_sources c)
             /\ jpeg_quality st = Z.max 1 (Z.min 100 (Main.quality a))
             /\ picam_preset st = Main.picam_res a
             /\ frame st = None
             /\ (current_source st = announced
                 \/ (current_source st = "picam"%string
                     /\ In announced Config.KINECT_SOURCES
                     /\ freenect = true
                     /\ Kinect.is_failure probe_check = true))).
  { intros sid asked default Hasked Hdef Hfree announced st.
    assert (Hsrc : current_source st = Main.given c announced).
    { unfold st. cbn [update_settings current_source].
      destruct (given_available c announced) as [Hin _].
      pose proof (available_nonempty _ _ Hin) as Hne. apply String.eqb_neq in Hne.
      cbn [init current_source]. rewrite Hne. reflexivity. }
    split; [rewrite Hsrc; apply given_available|].
    split; [unfold st; cbn [update_settings jpeg_quality Main.settings kw_jpeg_quality];
            apply clamp_int_spec|].
    split; [reflexivity|]. split; [reflexivity|].
    rewrite Hsrc. unfold Main.given.
    destruct (str_in announced (Config.get_available_sources c)) eqn:A;
      [left; reflexivity|].
    right. split; [reflexivity|].
    assert (Hall : In announced Config.ALL_SOURCES).
    { unfold announced, Main.initial_source. destruct asked as [x|]; [|exact Hdef].
      destruct (str_in x ["kinect_rgb"; "kinect_ir"; "kinect_depth"]%string && negb freenect);
        [simpl; tauto | apply Hasked; reflexivity]. }
    assert (Hk : Config.KINECT_AVAILABLE c = false).
    { destruct (Config.KINECT_AVAILABLE c) eqn:K; [|reflexivity].
      unfold Config.get_available_sources in A. rewrite K in A.
      apply str_in_In in Hall. congruence. }
    assert (Hnp : announced <> "picam"%string).
    { intros Hq. rewrite Hq in A. unfold Config.get_available_sources in A.
      rewrite Hk in A. discriminate A. }
    assert (Hkin : In announced Config.KINECT_SOURCES).
    { simpl in Hall. simpl. destruct Hall as [H|[H|[H|[H|[]]]]]; [tauto .. | congruence]. }
    split; [exact Hkin|].
    assert (Hf : freenect = true).
    { destruct freenect; [reflexivity|]. exfalso. apply Hnp.
      unfold announced, Main.initial_source. destruct asked as [x|];
        [|apply Hfree; reflexivity].
      cbn [negb]. rewrite andb_true_r.
      destruct (str_in x ["kinect_rgb"; "kinect_ir"; "kinect_depth"]%string) eqn:Ks;
        [reflexivity|].
      specialize (Hasked x eq_refl). simpl in Hasked.
      destruct Hasked as [H|[H|[H|[H|[]]]]]; subst x; try discriminate Ks. reflexivity. }
    split; [exact Hf|].
    unfold c, Main.probed, Main.live in Hk. cbn in Hk. rewrite Hf in Hk.
    destruct (Kinect.is_failure probe_check); [reflexivity | discriminate Hk]. }
  split.
  { intros id announced [[-> ->]|[-> ->]].
    - eexists. split; [reflexivity|].
      apply (Hone "main" (Main.main_source a))%string; [exact Hm | |].
      + destruct freenect; simpl; tauto.
      + intros ->. reflexivity.
    - eexists. split; [reflexivity|].
      apply (Hone "secondary" (Main.secondary_source a))%string; [exact Hs | |].
      + simpl. tauto.
      + intros _. reflexivity. }
  split.
  { intros Hf Hq Hnone. subst freenect.
    unfold m, Main.initial_source. rewrite Hnone. split; [reflexivity|].
    cbn. unfold Main.given, c, Main.probed, Main.live, Config.get_available_sources.
    cbn. rewrite Hq. reflexivity. }
  pose proof (get_resolution_none m (Main.picam_res a) (Main.scale a) Hp) as Rm.
  pose proof (get_resolution_none s (Main.picam_res a) (Main.scale a) Hp) as Rs.
  fold (raising m) in Rm. fold (raising s) in Rs.
  split.
  - intros Hr. rewrite E.
    destruct (Main.get_resolution m (Main.scale a) (Main.picam_res a)) as [mr|];
      [|reflexivity].
    destruct (Main.get_resolution s (Main.scale a) (Main.picam_res a)) as [sr|];
      [|reflexivity].
    exfalso. destruct Hr as [Hr|Hr];
      [apply Rm in Hr | apply Rs in Hr]; discriminate Hr.
  - intros Nm Ns. rewrite E.
    destruct (Main.get_resolution m (Main.scale a) (Main.picam_res a)) as [mr|];
      [|exfalso; apply Nm, Rm; reflexivity].
    destruct (Main.get_resolution s (Main.scale a) (Main.picam_res a)) as [sr|];
      [|exfalso; apply Ns, Rs; reflexivity].
    exists mr, sr. split; [reflexivity|]. split; reflexivity.
Qed.

Lemma main_starts_streams_on_available_sources_witness :
  let a (x : pyfloat) :=
    {| Main.debug_flag := false; Main.main_source := None;
       Main.secondary_source := Some "kinect_ir"%string;
       Main.quality := 150; Main.scale := x;
       Main.picam_res := "low"%string |} in
  (forall x s, Main.main_source (a x) = Some s -> In s Config.ALL_SOURCES)
  /\ (forall x s, Main.secondary_source (a x) = Some s -> In s Config.ALL_SOURCES)
  /\ In "low"%string (map fst Config.PICAM_PRESETS)
  /\ (exists w,
        Main.main (F := Samples.decimal_runtime) (a NaN) true true
                  (Kinect.ReadData [1]) (Kinect.ReadData [1]) Samples.camera_world
        = Main.Raises w
        /\ Manager._running w = false
        /\ Manager.list_streams w = ["main"; "secondary"]%string)
  /\ (exists r,
        Main.main (F := Samples.decimal_runtime) (a (Finite 0.5)) true true
                  (Kinect.ReadData [1]) (Kinect.ReadData [1]) Samples.camera_world
        = Main.Starts r
        /\ Main.main_res r = "320x240"%string
        /\ Manager._running (Main.world r) = true).
Proof.
  intros a.
  assert (H1 : forall x s, Main.main_source (a x) = Some s -> In s Config.ALL_SOURCES)
    by (intros x s H; discriminate H).
  assert (H2 : forall x s, Main.secondary_source (a x) = Some s -> In s Config.ALL_SOURCES).
  { intros x s H. injection H as <-. simpl. tauto. }
  assert (H3 : In "low"%string (map fst Config.PICAM_PRESETS)) by (simpl; tauto).
  split; [exact H1|]. split; [exact H2|]. split; [exact H3|]. split.
  - destruct (main_starts_streams_on_available_sources
                Samples.decimal_runtime (a NaN) true
                (Kinect.ReadData [1]) (Kinect.ReadData [1]) Samples.camera_world
                (H1 NaN) (H2 NaN) H3)
      as (w & L & _ & _ & _ & R & _).
    exists (ManagerControl.set_running false w).
    split; [apply R; left; split; [discriminate | left; reflexivity]|].
    split; [reflexivity | exact L].
  - destruct (main_starts_streams_on_available_sources
                Samples.decimal_runtime (a (Finite 0.5)) true
                (Kinect.ReadData [1]) (Kinect.ReadData [1]) Samples.camera_world
                (H1 (Finite 0.5)) (H2 (Finite 0.5)) H3)
      as (w & _ & _ & _ & _ & _ & S).
    destruct S as (mr & sr & Em & _ & Es).
    + intros [_ [H|H]]; discriminate H.
    + intros [_ [H|H]]; discriminate H.
    + eexists. split; [exact Es|]. split; [|reflexivity].
      cbn [Main.main_res]. vm_compute in Em. injection Em as <-. reflexivity.
Defined.
